(* ===== verification/_CoqProject ===== *)
-Q . S2P
prelude.v
bytes.v
net.v
time.v
float.v
identity.v
uuid_demo.v
resource.v
capability.v
participant.v
node.v
fabric.v
registry.v
discovery.v
scheduler.v
testing.v
main.v
lease.v
runtime.v
messages.v
endpoint.v
transport.v
codec.v
codec_laws.v
server.v
execution.v
scoped.v
virtual_machine.v
pool.v
tls.v
distributed.v
control.v
control_laws.v
control_spec.v
control_types.v
control_steps.v
control_demo.v
display.v
tests_data.v
tests_machine.v
tests_control.v
tests_transport.v
system.v
