(* ===== verification/prelude.v ===== *)
(** * OpenHost, verified

    A development beside the Rust crate [openhost] ([src/src/]): its data, its operations and the
    theorems that make them correct. The crate pools the resources of participants into logical
    nodes, runs virtual machines on them, and carries executions to the participants over TCP.

    ** How the parts interact

    A [Participant] holds resources and moves through a lifecycle. The registry shares participants
    and offers the resources of the active ones; it is a [Fabric], as is the in-memory fabric. The
    scheduler takes the offers of a fabric and plans a logical node for a requirement: a composite
    of allocations, one per participant. The control plane ([Plane]) leases the allocations, makes
    a virtual machine of the node and its leases, starts, stops, destroys and executes it. An
    execution turns the node into a plan with one unit per participant; a backend, the dispatcher
    among them, sends a request per unit through a [Transport]. On the participant's side a server
    reads the request, checks the caller, and hands it to an endpoint, whose executor looks up a
    registered runtime and runs the workload.

    ** Files

    - [prelude]: results with a panic as a third outcome, operations [S → result * S] and their
      notation, the hint database [rust], the tactics [guards], [bools] and [invert_result], sorting
      by a string key, ordered maps. [bytes]: bytes, big-endian integers, UTF-8. [time]:
      [Duration] in nanoseconds and [SystemTime]. [float]: [f64] as [SpecFloat] numbers with 53
      bits, their comparisons and their bit representation. [net]: the parsers of [core::net] for IP
      and socket addresses and of [core::num] for ports.
    - [identity] ([identity.rs]) over the classes [UuidLib] and [UuidLaws], which stand for the uuid
      crate; [uuid_demo] is an implementation of them, used by the concrete inputs only.
    - [resource], [capability], [participant], [node], [fabric], [registry], [discovery],
      [scheduler], [lease], [runtime], [endpoint], [execution], [virtual_machine]: the files of the
      same name under [src/src/]; [scoped] has the threads of a dispatch ([execution.rs]) step by
      step. [messages], [transport], [codec], [codec_laws], [server], [pool] and [tls] are
      [transport.rs]: the messages, the in-process transports, the wire format and its laws, one
      connection from both ends, the accept loops, and the configuration, the handshakes and the
      client of mutual TLS.
    - [control] ([control.rs]); [control_laws] has the plane's invariant and the cases of its
      operations, [control_spec] its properties, [control_types] the widths of what it stores,
      [control_steps] its calls under concurrency, and [control_demo] a concrete plane at which they
      are instantiated.
    - [distributed] puts a dispatcher, a transport, servers and runtimes together, and [system] a
      control plane with them: a machine from its creation to the runtimes of its participants.
    - [display]: the [Display] and [Debug] texts of the errors of all files. [main]:
      [bin/openhost.rs]. [testing]: programs that unwrap results; [tests_data], [tests_machine],
      [tests_control] and [tests_transport]: the unit tests of the crate as such programs, which
      each file runs at its end.

    A Rust module, struct or enum is a Module with its type [t]; a method is a definition of the
    same name in it; a loop of a method is a Fixpoint beside it. A method on [&mut self], or on
    [&self] with a lock inside, is an operation on the state it guards, which returns what it
    changed also when it fails. A unit test is a definition of its name in the Module [...Tests] of
    its file.

    ** What is shown

    - Identities parse exactly from canonical version-4 UUIDs. Composition is the saturating sum of
      valid allocations. Participants, machines and leases keep their lifecycles.
    - The registry and discovery keep their contents over any history of calls.
    - The scheduler is sound for every requirement, complete for requirements without CPU,
      independent of the order of the offers, and its errors are characterised. The interface
      [SchedulerLaws] is what the control plane is proved against.
    - Requests and responses survive the wire; what is read has been validated; no frame is longer
      than the largest; a call over TCP is a local call; on a server with pinned certificates only
      their owners are served.
    - The server name of a locator is that of a reference that splits it; the mutual TLS
      configurations are made exactly from files that hold what they need;
      a call over mutual TLS is a local call exactly for the owner of a pinned certificate.
    - A dispatch is characterised for every order in which its threads run. Threads of many steps
      that interleave amount to some order, if their steps can be exchanged but for the one with
      which each request takes effect ([independent]). The opener of their scope waits for nothing
      but a thread that has not finished, so threads that wait for each other get past each other;
      a thread that never ends keeps the scope from returning. Over any transport that reaches the participants ([reaches]: in process, over TCP, over mutual TLS) executing a plan
      is running its shares on their runtimes.
    - The plane keeps its invariant over all histories, also when the calls that take several locks
      are interrupted between them, and keeps what it stores within its widths; creating a leased
      machine with a valid runtime is atomic, destroying it while its leases are stored undoes it,
      executing it touches nothing else, and a machine
      that was created and started runs its workload once on every share.
    - The worker pool handles every accepted connection once, in order, and stops when told to,
      unless a handler does not return or panics killed all its workers.
    - The text of an error determines the error, on the wire too. The demonstration prints the node
      it plans. The unit tests of the crate, but for those of mutual TLS, run on the model and pass.
    - Where the code does not do what it means to, a theorem says so: rounding in the scheduler,
      the panic on an overflowing lifetime and what it does to the pool, leases left behind, an
      interrupted execution that overwrites other calls, destroying after a release and beside
      another machine, and leases that outlast their offer.

    ** Choices

    [usize] is taken to be 64 bits wide; lengths of lists in memory are [nat]. Locks are never
    poisoned, since no code panics while it holds one. Drawing a UUID reads a counter; that draws do
    not repeat is the hypothesis [draws_distinct], used only where freshness is claimed. The clock
    is an argument. The [Debug] of a string is a parameter; where it matters it is a class
    ([QuotedStr]) that says where the text ends. rustls, its PEM reader and the file system are the
    classes [Rustls], [Session], [ClientSessions] and [ServerSessions]; the sockets of a network are
    the class [Network]. Scoped threads run in any complete order ([CompleteSchedule]), a dispatch
    being one step of the world; in [scoped] a thread has as many steps as it likes, and need not end
    ([Thread], [Advance]). A handler of the pool need not return. The scope, the pool and the
    concurrent plane are transition systems over explicit events.

    Loops over collections are structural, and the accept loop and the sections of a call are steps.
    Two definitions take fuel: [handshake_loop], for which one round is enough, since a call of
    [complete_io] on a connection that shakes hands is documented to return only when the handshake
    is complete ([handshake_fuel], [handshake_no_panic]); and [show_digits],
    which prints numbers for the round trip of addresses and gets the digits of the type.
    [Thread.alone] and [Pool.run] take the number or the list of steps as an argument;
    [sections_refine_calls] and [pool_shutdown_terminates] bound it. The threads of a scope have
    no bound, its opener has one ([scope_ends_or_waits]). The unit tests run on
    [uuid_demo] and fixed times.

    ** What is not modelled

    [lib.rs] only declares modules. [TcpEndpointServer::local_addr] asks the socket for its address.
    Cryptography is rustls's: which certificates a handshake accepts is the outcome of the session,
    and the unit tests over mutual TLS, which test that on certificates of rcgen, are left out. How the standard library escapes a string in [Debug], and the memory it
    may fail to allocate, are left out. *)
From Stdlib Require Export Ascii.
From stdpp Require Export sorting.
From stdpp Require Export base tactics numbers strings fin_maps gmap list.

(** ** Results: [Result<A, E>], with a panic as a third outcome *)

Inductive result (E A : Type) : Type :=
| Ok (a : A)
| Err (e : E)
| Panic.
Arguments Ok {E A} a.
Arguments Err {E A} e.
Arguments Panic {E A}.

#[export] Instance result_ret {E} : MRet (result E) := λ A a, Ok a.
#[export] Instance result_bind {E} : MBind (result E) := λ A B f r,
  match r with Ok a => f a | Err e => Err e | Panic => Panic end.
#[export] Instance result_fmap {E} : FMap (result E) := λ A B f r,
  match r with Ok a => Ok (f a) | Err e => Err e | Panic => Panic end.
#[export] Instance result_eq_dec `{EqDecision E, EqDecision A} : EqDecision (result E A).
Proof. solve_decision. Defined.

(** [Result::map_err], [Result::is_err], [Option::ok_or] and [Result::ok]. *)
Definition map_err {E F A} (f : E → F) (r : result E A) : result F A :=
  match r with Ok a => Ok a | Err e => Err (f e) | Panic => Panic end.
Definition is_err {E A} (r : result E A) : bool :=
  match r with Err _ => true | _ => false end.
Definition is_ok {E A} (r : result E A) : bool :=
  match r with Ok _ => true | _ => false end.
Definition ok_or {E A} (o : option A) (e : E) : result E A :=
  match o with Some a => Ok a | None => Err e end.
Definition to_option {E A} (r : result E A) : option A :=
  match r with Ok a => Some a | _ => None end.

(** An operation on a state of type [S]: what it returns and the state it leaves behind, also
    when it fails, because the code keeps what it changed before a [?] returned. *)
Definition op (S E A : Type) : Type := S → result E A * S.

#[export] Instance op_ret {S E} : MRet (op S E) := λ A a s, (Ok a, s).
#[export] Instance op_bind {S E} : MBind (op S E) := λ A B f m s,
  match m s with
  | (Ok a, s') => f a s'
  | (Err e, s') => (Err e, s')
  | (Panic, s') => (Panic, s')
  end.

Definition lift {S E A} (r : result E A) : op S E A := λ s, (r, s).
Definition fail {S E A} (e : E) : op S E A := λ s, (Err e, s).
Definition gets {S E A} (f : S → A) : op S E A := λ s, (Ok (f s), s).
Definition modify {S E} (f : S → S) : op S E unit := λ s, (Ok tt, f s).
Definition op_map_err {S E F A} (f : E → F) (m : op S E A) : op S F A := λ s,
  let '(r, s') := m s in (map_err f r, s').

Declare Scope rust_scope.
Delimit Scope rust_scope with rust.
Notation "m '.map_err' f" := (map_err f m)
  (at level 62, left associativity, f at level 9) : rust_scope.
Notation "m '.op_map_err' f" := (op_map_err f m)
  (at level 62, left associativity, f at level 9) : rust_scope.
Open Scope rust_scope.

(** The lemmas that close the routine goals of the development. *)
Create HintDb rust.

(** ** Rewriting and inversion of results *)

Ltac solve_result :=
  simpl; repeat match goal with
  | |- _ ↔ _ => split
  | |- _ → _ => intro
  | H : ∃ _, _ |- _ => destruct H
  | H : _ ∧ _ |- _ => destruct H
  | H : _ ∨ _ |- _ => destruct H
  end; simplify_eq/=; eauto 6.

Section result_lemmas.
Context {E A B : Type}.

Lemma result_bind_ok (r : result E A) (f : A → result E B) b :
  r ≫= f = Ok b ↔ ∃ a, r = Ok a ∧ f a = Ok b.
Proof. destruct r; solve_result. Qed.

Lemma result_bind_err (r : result E A) (f : A → result E B) e :
  r ≫= f = Err e ↔ r = Err e ∨ ∃ a, r = Ok a ∧ f a = Err e.
Proof. destruct r; solve_result. Qed.

Lemma result_bind_panic (r : result E A) (f : A → result E B) :
  r ≫= f = Panic ↔ r = Panic ∨ ∃ a, r = Ok a ∧ f a = Panic.
Proof. destruct r; solve_result. Qed.

Lemma map_err_ok {F} (f : E → F) (r : result E A) a : r .map_err f = Ok a ↔ r = Ok a.
Proof. destruct r; solve_result. Qed.

Lemma map_err_err {F} (f : E → F) (r : result E A) e :
  r .map_err f = Err e ↔ ∃ e', r = Err e' ∧ f e' = e.
Proof. destruct r; solve_result. Qed.

Lemma map_err_panic {F} (f : E → F) (r : result E A) : r .map_err f = Panic ↔ r = Panic.
Proof. destruct r; solve_result. Qed.

Lemma ok_or_ok (o : option A) (e : E) a : ok_or o e = Ok a ↔ o = Some a.
Proof. destruct o; solve_result. Qed.

Lemma ok_or_err (o : option A) (e e' : E) : ok_or o e = Err e' ↔ o = None ∧ e = e'.
Proof. destruct o; solve_result. Qed.

Lemma ok_or_panic (o : option A) (e : E) : ok_or o e = Panic ↔ False.
Proof. destruct o; by split. Qed.
End result_lemmas.

(** [invert_result] turns every equation about a bind, a [map_err] or an [ok_or] in the context
    into equations about its parts. *)
Ltac invert_result :=
  repeat match goal with
  | H : _ ≫= _ = Ok _ |- _ => apply result_bind_ok in H as (? & ? & H)
  | H : _ ≫= _ = Err _ |- _ => apply result_bind_err in H as [H | (? & ? & H)]
  | H : _ ≫= _ = Panic |- _ => apply result_bind_panic in H as [H | (? & ? & H)]
  | H : map_err _ _ = Ok _ |- _ => apply map_err_ok in H
  | H : map_err _ _ = Err _ |- _ => apply map_err_err in H as (? & H & ?)
  | H : map_err _ _ = Panic |- _ => apply map_err_panic in H
  | H : ok_or _ _ = Ok _ |- _ => apply ok_or_ok in H
  | H : ok_or _ _ = Err _ |- _ => apply ok_or_err in H as [H ?]
  | H : ok_or _ _ = Panic |- _ => apply ok_or_panic in H as []
  | H : @mret (result _) _ _ _ = _ |- _ => unfold mret, result_ret in H
  | x : () |- _ => destruct x
  end; cbv beta in *; simplify_eq.

(** [guards] follows the early returns of a validation function in the context or the goal. *)
Ltac guards := repeat (case_match; simplify_eq/=; try done).

(** Boolean guards as propositions. *)
Ltac bools :=
  repeat match goal with
  | H : _ && _ = true |- _ => apply andb_true_iff in H as [? ?]
  | H : _ || _ = false |- _ => apply orb_false_iff in H as [? ?]
  | H : _ && _ = false |- _ => apply andb_false_iff in H as [?|?]
  | H : _ || _ = true |- _ => apply orb_true_iff in H as [?|?]
  | H : negb _ = true |- _ => apply negb_true_iff in H
  | H : negb _ = false |- _ => apply negb_false_iff in H
  | H : bool_decide _ = true |- _ => apply bool_decide_eq_true in H
  | H : bool_decide _ = false |- _ => apply bool_decide_eq_false in H
  | H : N.eqb _ _ = true |- _ => apply N.eqb_eq in H
  | H : N.eqb _ _ = false |- _ => apply N.eqb_neq in H
  | H : N.leb _ _ = true |- _ => apply N.leb_le in H
  | H : N.leb _ _ = false |- _ => apply N.leb_gt in H
  | H : N.ltb _ _ = true |- _ => apply N.ltb_lt in H
  | H : N.ltb _ _ = false |- _ => apply N.ltb_ge in H
  | H : Z.eqb _ _ = true |- _ => apply Z.eqb_eq in H
  | H : Z.eqb _ _ = false |- _ => apply Z.eqb_neq in H
  | H : Z.leb _ _ = true |- _ => apply Z.leb_le in H
  | H : Z.leb _ _ = false |- _ => apply Z.leb_gt in H
  | H : Z.ltb _ _ = true |- _ => apply Z.ltb_lt in H
  | H : Z.ltb _ _ = false |- _ => apply Z.ltb_ge in H
  end.

(** ** Strings *)

(** [str::is_empty]. *)
Definition is_empty_str (s : string) : bool :=
  match s with EmptyString => true | String _ _ => false end.

Lemma is_empty_str_true s : is_empty_str s = true ↔ s = EmptyString.
Proof. by destruct s. Qed.

Lemma is_empty_str_false s : is_empty_str s = false ↔ s ≠ EmptyString.
Proof. by destruct s. Qed.

(** ** Sorting by a string key *)

Section sort_on.
Context {A : Type} (key : A → string).

Definition key_le (a b : A) : Prop := String.le (key a) (key b).

#[export] Instance key_le_dec : RelDecision key_le.
Proof. intros a b. apply _. Defined.

#[export] Instance key_le_trans : Transitive key_le.
Proof. intros a b c. unfold key_le. apply transitivity. Qed.

#[export] Instance key_le_total : Total key_le.
Proof. intros a b. apply String.le_total. Qed.

(** [slice::sort_by(|a, b| key(a).cmp(key(b)))]: strings compare bytewise. *)
Definition sort_on (l : list A) : list A := merge_sort key_le l.

Lemma sort_on_perm l : sort_on l ≡ₚ l.
Proof. apply merge_sort_Permutation. Qed.

Lemma sort_on_sorted l : StronglySorted key_le (sort_on l).
Proof. apply StronglySorted_merge_sort; apply _. Qed.

Lemma sort_on_keys_sorted l : StronglySorted String.le (key <$> sort_on l).
Proof. apply (StronglySorted_fmap key key_le); [done|]. apply sort_on_sorted. Qed.

Lemma elem_of_sort_on x l : x ∈ sort_on l ↔ x ∈ l.
Proof. by rewrite sort_on_perm. Qed.

Lemma NoDup_key_inj l x y : NoDup (key <$> l) → x ∈ l → y ∈ l → key x = key y → x = y.
Proof.
  induction l as [|z l IH]; [set_solver|].
  intros [Hz Hl]%NoDup_cons Hx Hy Heq.
  apply elem_of_cons in Hx as [->|Hx], Hy as [->|Hy]; [done| | |by apply IH].
  - destruct Hz. rewrite Heq. by apply list_elem_of_fmap_2.
  - destruct Hz. rewrite <- Heq. by apply list_elem_of_fmap_2.
Qed.

(** With distinct keys the sorted order does not depend on the order of the input. *)
Lemma sort_on_perm_eq l1 l2 : NoDup (key <$> l1) → l1 ≡ₚ l2 → sort_on l1 = sort_on l2.
Proof.
  intros Hnd Hp. apply (StronglySorted_unique_strong key_le); try apply sort_on_sorted.
  - intros x y Hx Hy Hxy Hyx. rewrite elem_of_sort_on in Hx, Hy.
    rewrite <- Hp in Hy. apply (NoDup_key_inj l1); [done..|].
    by apply (anti_symm String.le).
  - by rewrite !sort_on_perm.
Qed.
End sort_on.

(** ** [BTreeMap<String, V>]: a finite map whose values are listed in key order *)

Definition btree_elements {V} (m : gmap string V) : list (string * V) :=
  sort_on fst (map_to_list m).
Definition btree_values {V} (m : gmap string V) : list V := (btree_elements m).*2.

Section btree.
Context {V : Type}.
Implicit Types m : gmap string V.

Lemma elem_of_btree_elements m k v : (k, v) ∈ btree_elements m ↔ m !! k = Some v.
Proof. unfold btree_elements. by rewrite elem_of_sort_on, elem_of_map_to_list. Qed.

Lemma elem_of_btree_values m v : v ∈ btree_values m ↔ ∃ k, m !! k = Some v.
Proof.
  unfold btree_values. rewrite list_elem_of_fmap. split.
  - intros ([k w] & -> & H). exists k. by apply elem_of_btree_elements.
  - intros [k Hk]. exists (k, v). by rewrite elem_of_btree_elements.
Qed.

Lemma btree_keys_NoDup m : NoDup (btree_elements m).*1.
Proof.
  unfold btree_elements. pose proof (sort_on_perm fst (map_to_list m)) as Hp.
  apply (fmap_Permutation fst) in Hp. rewrite Hp. apply NoDup_fst_map_to_list.
Qed.

Lemma btree_keys_sorted m : StronglySorted String.le (btree_elements m).*1.
Proof. apply sort_on_keys_sorted. Qed.

Lemma btree_values_empty : btree_values (∅ : gmap string V) = [].
Proof. unfold btree_values, btree_elements. by rewrite map_to_list_empty. Qed.
End btree.

(** When every value knows its key, the listed values are sorted by it and have distinct keys. *)
Lemma btree_values_keys {V} (key : V → string) (m : gmap string V) :
  (∀ k v, m !! k = Some v → key v = k) → key <$> btree_values m = (btree_elements m).*1.
Proof.
  intros Hkey. unfold btree_values. rewrite <- list_fmap_compose.
  apply list_fmap_ext. intros i [k v] Hi. simpl. apply Hkey.
  apply elem_of_btree_elements. by eapply list_elem_of_lookup_2.
Qed.

Lemma StronglySorted_sublist {A} (R : relation A) l1 l2 :
  l1 `sublist_of` l2 → StronglySorted R l2 → StronglySorted R l1.
Proof.
  induction 1 as [|x l1 l2 Hs IH|x l1 l2 Hs IH]; intros H; [constructor| |];
    apply StronglySorted_cons in H as [Hx H].
  - apply StronglySorted_cons. split; [|by apply IH]. rewrite Forall_forall in *.
    intros y Hy. apply Hx. by eapply elem_of_sublist.
  - by apply IH.
Qed.

(** ** [collect::<Result<Vec<_>, _>>()]: [mapM] stops at the first failure *)

Section mapM_result.
Context {E A B : Type} (f : A → result E B).

Lemma mapM_result_ok l k : mapM f l = Ok k ↔ Forall2 (λ x y, f x = Ok y) l k.
Proof.
  split.
  - revert k. induction l as [|x l IH]; intros k; cbn [mapM].
    + intros [= <-]. constructor.
    + intros H. invert_result. constructor; [done|]. by apply IH.
  - induction 1 as [|x y l k Hx _ IH]; [done|]. cbn [mapM]. by rewrite Hx, IH.
Qed.

Lemma mapM_result_err l e :
  mapM f l = Err e ↔ ∃ l1 k1 x l2, l = l1 ++ x :: l2 ∧ mapM f l1 = Ok k1 ∧ f x = Err e.
Proof.
  induction l as [|x l IH]; cbn [mapM].
  { split; [done|]. by intros ([] & ? & ? & ? & ? & _). }
  split.
  - intros H. apply result_bind_err in H as [H|(y & Hy & H)].
    + exists [], [], x, l. done.
    + apply result_bind_err in H as [H|(k & _ & H)]; [|done].
      apply IH in H as (l1 & k1 & z & l2 & -> & Hk & Hz).
      exists (x :: l1), (y :: k1), z, l2. split_and!; [done| |done]. cbn [mapM]. by rewrite Hy, Hk.
  - intros ([|w l1] & k1 & z & l2 & [= -> ->] & Hk & Hz); [by rewrite Hz|].
    cbn [mapM] in Hk. apply result_bind_ok in Hk as (y & Hy & Hk).
    apply result_bind_ok in Hk as (k2 & Hk & _). rewrite Hy. simpl.
    assert (mapM f (l1 ++ z :: l2) = Err e) as ->; [|done]. apply IH. eauto 10.
Qed.

Lemma mapM_result_no_panic l : (∀ x, x ∈ l → f x ≠ Panic) → mapM f l ≠ Panic.
Proof.
  induction l as [|x l IH]; intros Hf H; [done|]. cbn [mapM] in H. invert_result.
  - by eapply Hf; [left|].
  - eapply IH; [|done]. intros y Hy. apply Hf. by right.
Qed.
End mapM_result.
