(* ===== verification/bytes.v ===== *)
(** * Bytes, big-endian integers and UTF-8

    What [transport.rs] uses of the standard library on raw bytes: [to_be_bytes] and
    [from_be_bytes] at a given width, [str::as_bytes] and [String::from_utf8]. A [u8] is an
    [ascii]; a Rust [String] is a [string] of such bytes that passes [utf8_valid]. *)
From S2P Require Import prelude.
From Stdlib Require Import String.
From stdpp Require Import list.

Abbreviation u8 := ascii (only parsing).

Definition U8_MAX : N := 2 ^ 8 - 1.
Definition U32_MAX : N := 2 ^ 32 - 1.
Definition U64_MAX : N := 2 ^ 64 - 1.

(** [u64::saturating_add] at a width with the given maximum; [u64::saturating_sub] is [N.sub]. *)
Definition saturating_add (max a b : N) : N := N.min (a + b) max.
Definition saturating_sub (a b : N) : N := a - b.

(** ** Big-endian encoding over [n] bytes *)

Fixpoint to_be_bytes (n : nat) (v : N) : list u8 :=
  match n with
  | O => []
  | S n => to_be_bytes n (v / 256) ++ [ascii_of_N (v mod 256)]
  end.

Definition from_be_bytes (bs : list u8) : N :=
  foldl (λ acc b, 256 * acc + N_of_ascii b)%N 0%N bs.

Lemma length_to_be_bytes n v : length (to_be_bytes n v) = n.
Proof. revert v. induction n as [|n IH]; intros v; simpl; [done|]. rewrite length_app, IH. simpl. lia. Qed.

Lemma from_be_bytes_snoc bs b : from_be_bytes (bs ++ [b]) = (256 * from_be_bytes bs + N_of_ascii b)%N.
Proof. unfold from_be_bytes. by rewrite foldl_app. Qed.

Lemma u8_bound (b : u8) : (N_of_ascii b < 256)%N.
Proof. apply N_ascii_bounded. Qed.

Lemma from_to_be_bytes n v : (v < 256 ^ N.of_nat n)%N → from_be_bytes (to_be_bytes n v) = v.
Proof.
  revert v. induction n as [|n IH]; intros v Hv.
  - simpl in *. change (256 ^ 0)%N with 1%N in Hv. unfold from_be_bytes. simpl. lia.
  - cbn [to_be_bytes]. rewrite from_be_bytes_snoc, IH, N_ascii_embedding.
    + pose proof (N.div_mod v 256). lia.
    + by apply N.mod_lt.
    + apply N.Div0.div_lt_upper_bound. rewrite Nat2N.inj_succ, N.pow_succ_r' in Hv. lia.
Qed.

Lemma from_be_bytes_bound bs : (from_be_bytes bs < 256 ^ N.of_nat (length bs))%N.
Proof.
  induction bs as [|b bs IH] using rev_ind; [unfold from_be_bytes; simpl; lia|].
  rewrite from_be_bytes_snoc, length_app. simpl.
  rewrite Nat.add_1_r, Nat2N.inj_succ, N.pow_succ_r'. pose proof (u8_bound b). lia.
Qed.

Lemma to_from_be_bytes bs : to_be_bytes (length bs) (from_be_bytes bs) = bs.
Proof.
  induction bs as [|b bs IH] using rev_ind; [done|].
  rewrite from_be_bytes_snoc, length_app, Nat.add_1_r. cbn [to_be_bytes].
  pose proof (u8_bound b) as Hb.
  assert ((256 * from_be_bytes bs + N_of_ascii b) / 256 = from_be_bytes bs)%N as ->.
  { symmetry. by apply (N.div_unique _ _ _ (N_of_ascii b)). }
  assert ((256 * from_be_bytes bs + N_of_ascii b) mod 256 = N_of_ascii b)%N as ->.
  { symmetry. by apply (N.mod_unique _ _ (from_be_bytes bs)). }
  by rewrite IH, ascii_N_embedding.
Qed.

(** ** UTF-8 *)

Definition between (lo hi b : N) : bool := (lo <=? b)%N && (b <=? hi)%N.
Definition utf8_cont (c : u8) : bool := between 128 191 (N_of_ascii c).

(** The second byte's range depends on the first one: no overlong forms, no surrogates, nothing
    above U+10FFFF. *)
Definition utf8_second (b0 : N) (c : u8) : bool :=
  let b1 := N_of_ascii c in
  if (b0 =? 224)%N then between 160 191 b1
  else if (b0 =? 237)%N then between 128 159 b1
  else if (b0 =? 240)%N then between 144 191 b1
  else if (b0 =? 244)%N then between 128 143 b1
  else between 128 191 b1.

Fixpoint utf8_valid (bs : list u8) : bool :=
  match bs with
  | [] => true
  | b :: r =>
    let b0 := N_of_ascii b in
    if (b0 <? 128)%N then utf8_valid r
    else if between 194 223 b0 then
      match r with
      | c1 :: r1 => utf8_cont c1 && utf8_valid r1
      | _ => false
      end
    else if between 224 239 b0 then
      match r with
      | c1 :: c2 :: r2 => utf8_second b0 c1 && utf8_cont c2 && utf8_valid r2
      | _ => false
      end
    else if between 240 244 b0 then
      match r with
      | c1 :: c2 :: c3 :: r3 => utf8_second b0 c1 && utf8_cont c2 && utf8_cont c3 && utf8_valid r3
      | _ => false
      end
    else false
  end.

(** [str::as_bytes] and [String::from_utf8]. *)
Definition as_bytes (s : string) : list u8 := list_ascii_of_string s.
Definition from_utf8 (bs : list u8) : option string :=
  if utf8_valid bs then Some (string_of_list_ascii bs) else None.

(** The invariant of Rust's [String]. *)
Definition utf8 (s : string) : Prop := utf8_valid (as_bytes s) = true.
#[export] Instance utf8_dec s : Decision (utf8 s).
Proof. apply _. Defined.

Lemma from_utf8_as_bytes s : utf8 s → from_utf8 (as_bytes s) = Some s.
Proof.
  unfold utf8, from_utf8, as_bytes. intros ->. by rewrite string_of_list_ascii_of_string.
Qed.

Lemma from_utf8_some bs s : from_utf8 bs = Some s ↔ utf8 s ∧ as_bytes s = bs.
Proof.
  unfold from_utf8, utf8, as_bytes. split.
  - case_match; [|done]. intros [= <-]. by rewrite list_ascii_of_string_of_list_ascii.
  - intros [Hu <-]. by rewrite Hu, string_of_list_ascii_of_string.
Qed.

Example utf8_euro : utf8_valid (map ascii_of_N [226; 130; 172]%N) = true.
Proof. reflexivity. Qed.
Example utf8_surrogate : utf8_valid (map ascii_of_N [237; 160; 128]%N) = false.
Proof. reflexivity. Qed.
