(* ===== verification/net.v ===== *)
(** * Address text: the parsers of the standard library that locators go through

    [transport.rs] parses locators with [str::parse::<SocketAddr>], [str::parse::<IpAddr>] and
    [str::parse::<u16>]. These are the parsers of [core::net] and [core::num], over the bytes of
    the text: a parser returns its value and the rest of the input, or fails and consumes nothing.

    [Blind uses p] says that [p] looks only at the characters in [uses] and does not see what comes
    behind another one; with it the parsers compose, in proofs, as their texts do. *)
From S2P Require Import prelude bytes.

#[local] Open Scope N_scope.

(** ** Parsers *)

Definition parser (A : Type) : Type := list u8 → option (A * list u8).

#[export] Instance parser_ret : MRet parser := λ A a l, Some (a, l).
#[export] Instance parser_bind : MBind parser := λ A B f p l,
  match p l with Some (a, rest) => f a rest | None => None end.
#[export] Instance parser_fmap : FMap parser := λ A B f p l,
  match p l with Some (a, rest) => Some (f a, rest) | None => None end.

Definition no_parse {A} : parser A := λ _, None.
Definition or_else {A} (p q : parser A) : parser A := λ l,
  match p l with Some r => Some r | None => q l end.

(** [Parser::parse_with]: the whole input. *)
Definition parse_with {A} (p : parser A) (l : list u8) : option A :=
  match p l with Some (a, []) => Some a | _ => None end.

(** [Parser::read_given_char] and [Parser::read_separator]. *)
Definition read_given_char (target : u8) : parser () := λ l,
  match l with
  | c :: rest => if bool_decide (c = target) then Some ((), rest) else None
  | [] => None
  end.

Definition read_separator {A} (sep : u8) (index : nat) (inner : parser A) : parser A :=
  match index with
  | O => inner
  | S _ => _ ← read_given_char sep; inner
  end.

(** ** Numbers *)

(** [char::to_digit]. *)
Definition to_digit (radix : N) (c : u8) : option N :=
  let n := N_of_ascii c in
  let digit := if between 48 57 n then n - 48
               else if between 65 90 n then n - 55
               else if between 97 122 n then n - 87 else radix in
  if digit <? radix then Some digit else None.

(** The loop of [Parser::read_number] over the leading digits; [step] adds the digit that makes
    [count] of them, or gives up. *)
Fixpoint read_digits (radix : N) (step : N → N → nat → option N) (result : N) (count : nat)
    (l : list u8) : option (N * nat * list u8) :=
  match l with
  | c :: rest =>
    match to_digit radix c with
    | Some digit =>
      match step result digit (S count) with
      | Some result => read_digits radix step result (S count) rest
      | None => None
      end
    | None => Some (result, count, l)
    end
  | [] => Some (result, count, [])
  end.

(** With [max_digits] the sum is kept in 32 bits and the number of digits is bounded; without, every
    step is checked against the maximum of the type. *)
Definition bounded_step (radix : N) (max_digits : nat) (result digit : N) (count : nat) : option N :=
  if (max_digits <? count)%nat then None else Some (result * radix + digit).
Definition checked_step (radix max : N) (result digit : N) (count : nat) : option N :=
  if max <? result * radix then None
  else if max <? result * radix + digit then None
  else Some (result * radix + digit).

(** [Parser::read_number::<T>(radix, max_digits, allow_zero_prefix)] at a type with maximum [max]. *)
Definition read_number (max radix : N) (max_digits : option nat) (allow_zero_prefix : bool)
    : parser N := λ l,
  let has_leading_zero := bool_decide (head l = Some "0"%char) in
  let step := match max_digits with
              | Some max_digits => bounded_step radix max_digits
              | None => checked_step radix max
              end in
  match read_digits radix step 0 0 l with
  | Some (result, count, rest) =>
    if (count =? 0)%nat then None
    else if negb allow_zero_prefix && has_leading_zero && (1 <? count)%nat then None
    else if max <? result then None
    else Some (result, rest)
  | None => None
  end.

Definition U16_MAX : N := 2 ^ 16 - 1.

(** [u16::from_str]: an optional plus sign and decimal digits. *)
Fixpoint from_digits (max result : N) (l : list u8) : option N :=
  match l with
  | [] => Some result
  | c :: rest =>
    match to_digit 10 c with
    | Some digit =>
      match checked_step 10 max result digit 0 with
      | Some result => from_digits max result rest
      | None => None
      end
    | None => None
    end
  end.
Definition parse_u16 (l : list u8) : option N :=
  match l with
  | [] => None
  | c :: rest =>
    if bool_decide (c = "+"%char) then
      match rest with [] => None | _ => from_digits U16_MAX 0 rest end
    else from_digits U16_MAX 0 l
  end.

(** ** Addresses *)

(** [IpAddr], by its octets or its 16-bit segments, and [SocketAddr]. *)
Module IpAddr.
Inductive t := V4 (octets : list N) | V6 (segments : list N).
#[global] Instance eq_dec : EqDecision t.
Proof. solve_decision. Defined.

(** The lengths and widths of the arrays. *)
Definition wf (a : t) : Prop :=
  match a with
  | V4 octets => length octets = 4%nat ∧ Forall (λ o, o <= U8_MAX) octets
  | V6 segments => length segments = 8%nat ∧ Forall (λ s, s <= U16_MAX) segments
  end.
End IpAddr.

Module SocketAddr.
Record t := mk { ip : IpAddr.t; port : N; scope_id : N }.
End SocketAddr.

(** [Parser::read_ipv4_addr]: four numbers between dots. *)
Fixpoint read_octets (i n : nat) : parser (list N) :=
  match n with
  | O => mret []
  | S n =>
    octet ← read_separator "."%char i (read_number U8_MAX 10 (Some 3%nat) false);
    octets ← read_octets (S i) n;
    mret (octet :: octets)
  end.
Definition read_ipv4_addr : parser (list N) := read_octets 0 4.

(** The two segments of an embedded IPv4 address. *)
Definition v4_segments (octets : list N) : list N :=
  match octets with
  | [one; two; three; four] => [256 * one + two; 256 * three + four]
  | _ => []
  end.

(** [read_groups]: up to [n] groups from index [i] on, and whether they end with an IPv4 address. *)
Fixpoint read_groups (i n : nat) : parser (list N * bool) :=
  match n with
  | O => mret ([], false)
  | S n =>
    let embedded : parser (list N * bool) :=
      match n with
      | O => no_parse
      | S _ => (λ v4_addr, (v4_segments v4_addr, true)) <$> read_separator ":"%char i read_ipv4_addr
      end in
    let group : parser (list N * bool) :=
      g ← read_separator ":"%char i (read_number U16_MAX 16 (Some 4%nat) true);
      '(gs, ipv4) ← read_groups (S i) n;
      mret (g :: gs, ipv4) in
    or_else embedded (or_else group (mret ([], false)))
  end.

(** [Parser::read_ipv6_addr]: eight groups, or fewer around a double colon. *)
Definition read_ipv6_addr : parser (list N) :=
  '(head, head_ipv4) ← read_groups 0 8;
  let head_size := length head in
  if (head_size =? 8)%nat then mret head
  else if (head_ipv4 : bool) then no_parse
  else
    _ ← read_given_char ":"%char;
    _ ← read_given_char ":"%char;
    '(tail, _) ← read_groups 0 (8 - (head_size + 1));
    mret (head ++ replicate (8 - head_size - length tail) 0 ++ tail).

Definition read_ip_addr : parser IpAddr.t :=
  or_else (IpAddr.V4 <$> read_ipv4_addr) (IpAddr.V6 <$> read_ipv6_addr).

Definition read_port : parser N :=
  _ ← read_given_char ":"%char; read_number U16_MAX 10 None true.
Definition read_scope_id : parser N :=
  _ ← read_given_char "%"%char; read_number U32_MAX 10 None true.

Definition read_socket_addr_v4 : parser SocketAddr.t :=
  ip ← read_ipv4_addr;
  port ← read_port;
  mret (SocketAddr.mk (IpAddr.V4 ip) port 0).
Definition read_socket_addr_v6 : parser SocketAddr.t :=
  _ ← read_given_char "["%char;
  ip ← read_ipv6_addr;
  scope_id ← or_else read_scope_id (mret 0);
  _ ← read_given_char "]"%char;
  port ← read_port;
  mret (SocketAddr.mk (IpAddr.V6 ip) port scope_id).
Definition read_socket_addr : parser SocketAddr.t :=
  or_else read_socket_addr_v4 read_socket_addr_v6.

(** [str::parse::<IpAddr>] and [str::parse::<SocketAddr>]. *)
Definition parse_ip_addr : list u8 → option IpAddr.t := parse_with read_ip_addr.
Definition parse_socket_addr : list u8 → option SocketAddr.t := parse_with read_socket_addr.

(** ** Splitting *)

(** [str::rsplit_once], [str::strip_prefix] and [str::strip_suffix] for one character. *)
Fixpoint rsplit_once (sep : u8) (l : list u8) : option (list u8 * list u8) :=
  match l with
  | [] => None
  | c :: rest =>
    match rsplit_once sep rest with
    | Some (before, after) => Some (c :: before, after)
    | None => if bool_decide (c = sep) then Some ([], rest) else None
    end
  end.
Definition strip_prefix (c : u8) (l : list u8) : option (list u8) :=
  match l with
  | d :: rest => if bool_decide (d = c) then Some rest else None
  | [] => None
  end.
Definition strip_suffix (c : u8) (l : list u8) : option (list u8) :=
  match reverse l with
  | d :: rest => if bool_decide (d = c) then Some (reverse rest) else None
  | [] => None
  end.

Example parse_v4 : parse_ip_addr (as_bytes "192.168.0.1") = Some (IpAddr.V4 [192; 168; 0; 1]).
Proof. reflexivity. Qed.
Example parse_v4_zero_prefix : parse_ip_addr (as_bytes "192.168.0.01") = None.
Proof. reflexivity. Qed.
Example parse_v6 : parse_ip_addr (as_bytes "fe80::1:FF") =
  Some (IpAddr.V6 [65152; 0; 0; 0; 0; 0; 1; 255]).
Proof. reflexivity. Qed.
Example parse_v6_mapped : parse_ip_addr (as_bytes "::ffff:10.0.0.1") =
  Some (IpAddr.V6 [0; 0; 0; 0; 0; 65535; 2560; 1]).
Proof. reflexivity. Qed.
Example parse_socket_scoped : parse_socket_addr (as_bytes "[fe80::1%7]:443") =
  Some (SocketAddr.mk (IpAddr.V6 [65152; 0; 0; 0; 0; 0; 0; 1]) 443 7).
Proof. reflexivity. Qed.

(** ** Parsers consume a prefix *)

Class Consumes {A} (p : parser A) : Prop :=
  consumes : ∀ l a rest, p l = Some (a, rest) → rest `suffix_of` l.

Section consumes.
Context {A B : Type}.

#[export] Instance consumes_ret (a : A) : Consumes (mret a : parser A).
Proof. intros l b rest [= <- <-]. done. Qed.
#[export] Instance consumes_none : Consumes (no_parse : parser A).
Proof. by intros l b rest ?. Qed.
#[export] Instance consumes_bind (p : parser A) (f : A → parser B) :
  Consumes p → (∀ a, Consumes (f a)) → Consumes (p ≫= f : parser B).
Proof.
  intros Hp Hf l b rest. unfold mbind, parser_bind. destruct (p l) as [[a q]|] eqn:E; [|done].
  intros H. etrans; [by eapply Hf|by eapply Hp].
Qed.
#[export] Instance consumes_fmap (f : A → B) (p : parser A) : Consumes p → Consumes (f <$> p : parser B).
Proof.
  intros Hp l b rest. unfold fmap, parser_fmap. destruct (p l) as [[a q]|] eqn:E; [|done].
  intros [= <- <-]. by eapply Hp.
Qed.
#[export] Instance consumes_or_else (p q : parser A) : Consumes p → Consumes q → Consumes (or_else p q).
Proof.
  intros Hp Hq l a rest. unfold or_else. destruct (p l) as [[]|] eqn:E; intros ?; simplify_eq;
    [by eapply Hp|by eapply Hq].
Qed.
#[export] Instance consumes_given c : Consumes (read_given_char c).
Proof.
  intros [|d l] a rest; [done|]. simpl. case_bool_decide; [|done]. intros [= <- <-]. by exists [d].
Qed.
End consumes.
#[export] Instance consumes_separator {A} sep i (p : parser A) : Consumes p → Consumes (read_separator sep i p).
Proof. intros Hp. destruct i; [done|]. apply consumes_bind; [apply _|done]. Qed.

Lemma read_digits_suffix radix step r n l r' n' rest :
  read_digits radix step r n l = Some (r', n', rest) → rest `suffix_of` l.
Proof.
  revert r n. induction l as [|c l IH]; intros r n; simpl; [by intros [= <- <- <-]|].
  destruct (to_digit radix c) as [d|]; [|by intros [= <- <- <-]].
  destruct (step r d (S n)) as [r1|]; [|done]. intros H. apply suffix_cons_r. by eapply IH.
Qed.

#[export] Instance consumes_number max radix n zero : Consumes (read_number max radix n zero).
Proof.
  intros l a rest. unfold read_number.
  destruct (read_digits _ _ _ _ _) as [[[r m] q]|] eqn:E; [|done].
  apply read_digits_suffix in E. by repeat case_match; intros; simplify_eq.
Qed.

#[export] Instance consumes_octets n i : Consumes (read_octets i n).
Proof.
  revert i. induction n as [|n IH]; intros i; cbn [read_octets]; [apply _|].
  repeat (apply consumes_bind; [apply _|]; intros ?). apply _.
Qed.
#[export] Instance consumes_ipv4 : Consumes read_ipv4_addr.
Proof. apply consumes_octets. Qed.
#[export] Instance consumes_groups n i : Consumes (read_groups i n).
Proof.
  revert i. induction n as [|n IH]; intros i; [apply _|]. cbn [read_groups].
  apply consumes_or_else; [destruct n; apply _|]. apply consumes_or_else; [|apply _].
  apply consumes_bind; [apply _|]. intros g. apply consumes_bind; [apply IH|]. intros []. apply _.
Qed.
#[export] Instance consumes_ipv6 : Consumes read_ipv6_addr.
Proof.
  unfold read_ipv6_addr. apply consumes_bind; [apply _|]. intros [hd b].
  repeat case_match; try apply _. apply consumes_bind; [apply _|]. intros _.
  apply consumes_bind; [apply _|]. intros _. apply consumes_bind; [apply _|]. intros []. apply _.
Qed.

(** ** Parsers do not look behind a delimiter *)

(** [r] is empty or starts with a character that is not in [uses]. *)
Definition delimited (uses : u8 → Prop) (r : list u8) : Prop :=
  match r with [] => True | c :: _ => ¬ uses c end.

Class Blind (uses : u8 → Prop) {A} (p : parser A) : Prop :=
  blind : ∀ l r, delimited uses r →
    p (l ++ r) = match p l with Some (a, rest) => Some (a, rest ++ r) | None => None end.

(** What a blind parser made of a text that is followed by a delimiter, it makes of the text. *)
Lemma blind_prefix uses {A} (p : parser A) `{!Blind uses p} l a r :
  p (l ++ r) = Some (a, r) → delimited uses r → p l = Some (a, []).
Proof.
  intros H Hr. rewrite (blind l r Hr) in H. destruct (p l) as [[b rest]|]; [|done].
  injection H as -> H. destruct rest as [|c rest]; [done|].
  apply (f_equal length) in H. rewrite length_app in H. simpl in H. lia.
Qed.

Lemma blind_append uses {A} (p : parser A) `{!Blind uses p} l a r :
  p l = Some (a, []) → delimited uses r → p (l ++ r) = Some (a, r).
Proof. intros H Hr. by rewrite (blind l r Hr), H. Qed.

Section blind.
Context (uses : u8 → Prop) {A B : Type}.

#[export] Instance blind_ret (a : A) : Blind uses (mret a : parser A).
Proof. by intros l r _. Qed.
#[export] Instance blind_none : Blind uses (no_parse : parser A).
Proof. by intros l r _. Qed.
#[export] Instance blind_bind (p : parser A) (f : A → parser B) :
  Blind uses p → (∀ a, Blind uses (f a)) → Blind uses (p ≫= f : parser B).
Proof.
  intros Hp Hf l r Hr. unfold mbind, parser_bind. rewrite (Hp l r Hr).
  destruct (p l) as [[a q]|]; [|done]. by rewrite (Hf a q r Hr).
Qed.
#[export] Instance blind_fmap (f : A → B) (p : parser A) : Blind uses p → Blind uses (f <$> p : parser B).
Proof.
  intros Hp l r Hr. unfold fmap, parser_fmap. rewrite (Hp l r Hr). by destruct (p l) as [[]|].
Qed.
#[export] Instance blind_or_else (p q : parser A) : Blind uses p → Blind uses q → Blind uses (or_else p q).
Proof.
  intros Hp Hq l r Hr. unfold or_else. rewrite (Hp l r Hr), (Hq l r Hr). by destruct (p l) as [[]|].
Qed.
Lemma blind_given c : uses c → Blind uses (read_given_char c).
Proof.
  intros Hc [|d l] r Hr; simpl; [|by case_bool_decide].
  destruct r as [|d r]; [done|]. simpl in *. case_bool_decide; [|done]. by subst.
Qed.
End blind.
Lemma blind_separator uses {A} c i (p : parser A) : uses c → Blind uses p → Blind uses (read_separator c i p).
Proof. intros Hc Hp. destruct i; [done|]. apply blind_bind; [by apply blind_given|done]. Qed.

Section blind_numbers.
Context (uses : u8 → Prop) (radix : N).
Hypothesis digits_used : ∀ c d, to_digit radix c = Some d → uses c.

Lemma delimited_digit c r : delimited uses (c :: r) → to_digit radix c = None.
Proof. intros Hc. destruct (to_digit radix c) eqn:E; [|done]. destruct Hc. by eapply digits_used. Qed.

Lemma read_digits_blind step x n l r : delimited uses r →
  read_digits radix step x n (l ++ r) =
    match read_digits radix step x n l with Some (y, m, rest) => Some (y, m, rest ++ r) | None => None end.
Proof.
  intros Hr. revert x n. induction l as [|c l IH]; intros x n; simpl.
  - destruct r as [|c r]; [done|]. cbn [read_digits]. by rewrite (delimited_digit _ _ Hr).
  - destruct (to_digit radix c); [|done]. by destruct (step x n0 (S n)).
Qed.

Lemma blind_number max n zero : Blind uses (read_number max radix n zero).
Proof.
  intros l r Hr. unfold read_number. rewrite read_digits_blind by done.
  destruct l as [|c l].
  - cbn [read_digits app]. by destruct r.
  - cbn [app head]. destruct (read_digits _ _ _ _ (c :: l)) as [[[x m] rest]|]; [|done].
    by repeat case_match.
Qed.
End blind_numbers.

(** A decimal digit is a hexadecimal one. *)
Lemma to_digit_hex c d : to_digit 10 c = Some d → to_digit 16 c = Some d.
Proof.
  unfold to_digit. intros H.
  repeat match goal with
  | H : context [if ?b then _ else _] |- _ => destruct b eqn:?
  | |- context [if ?b then _ else _] => destruct b eqn:?
  end; simplify_eq; bools; try lia; done.
Qed.

(** The characters of the two notations. *)
Definition v4_char (c : u8) : Prop := is_Some (to_digit 10 c) ∨ c = "."%char.
Definition v6_char (c : u8) : Prop := is_Some (to_digit 16 c) ∨ c = "."%char ∨ c = ":"%char.

Lemma blind_octets uses i n :
  (∀ c d, to_digit 10 c = Some d → uses c) → uses "."%char → Blind uses (read_octets i n).
Proof.
  intros Hd Hdot. revert i. induction n as [|n IH]; intros i; cbn [read_octets]; [apply _|].
  apply blind_bind; [by apply blind_separator, (blind_number uses 10)|]. intros a.
  apply blind_bind; [done|apply _].
Qed.

#[export] Instance blind_ipv4 : Blind v4_char read_ipv4_addr.
Proof. apply blind_octets; [intros c d Hd; left; eauto|by right]. Qed.

Lemma v6_hex c d : to_digit 16 c = Some d → v6_char c.
Proof. intros Hd. left. eauto. Qed.

#[export] Instance blind_ipv4_v6 : Blind v6_char read_ipv4_addr.
Proof.
  apply blind_octets; [|by right; left]. intros c d Hd%to_digit_hex. by eapply v6_hex.
Qed.

#[export] Instance blind_groups i n : Blind v6_char (read_groups i n).
Proof.
  revert i. induction n as [|n IH]; intros i; [apply _|]. cbn [read_groups].
  assert (v6_char ":"%char) as Hcolon by (by right; right).
  apply blind_or_else.
  { destruct n; [apply _|]. apply blind_fmap. apply blind_separator; [done|apply _]. }
  apply blind_or_else; [|apply _]. apply blind_bind.
  - apply blind_separator; [done|]. apply (blind_number v6_char 16). apply v6_hex.
  - intros g. apply blind_bind; [done|]. intros []. apply _.
Qed.

#[export] Instance blind_ipv6 : Blind v6_char read_ipv6_addr.
Proof.
  unfold read_ipv6_addr. apply blind_bind; [apply _|]. intros [hd b].
  assert (Blind v6_char (read_given_char ":"%char)) by (apply blind_given; by right; right).
  repeat case_match; try apply _. apply blind_bind; [done|]. intros _.
  apply blind_bind; [done|]. intros _. apply blind_bind; [apply _|]. intros []. apply _.
Qed.

(** ** Widths *)

(** Every value that [p] returns has the property. *)
Definition parses {A} (P : A → Prop) (p : parser A) : Prop := ∀ l a rest, p l = Some (a, rest) → P a.

Lemma parses_bind {A B} (P : A → Prop) (Q : B → Prop) (p : parser A) (f : A → parser B) :
  parses P p → (∀ a, P a → parses Q (f a)) → parses Q (p ≫= f).
Proof.
  intros Hp Hf l b rest. unfold mbind, parser_bind. destruct (p l) as [[a q]|] eqn:E; [|done].
  apply Hf. by eapply Hp.
Qed.
Lemma parses_ret {A} (P : A → Prop) a : P a → parses P (mret a : parser A).
Proof. by intros Ha l b rest [= <- <-]. Qed.
Lemma parses_fmap {A B} (P : A → Prop) (Q : B → Prop) (f : A → B) (p : parser A) :
  parses P p → (∀ a, P a → Q (f a)) → parses Q (f <$> p).
Proof.
  intros Hp Hf l b rest. unfold fmap, parser_fmap. destruct (p l) as [[a q]|] eqn:E; [|done].
  intros [= <- <-]. apply Hf. by eapply Hp.
Qed.
Lemma parses_or_else {A} (P : A → Prop) (p q : parser A) :
  parses P p → parses P q → parses P (or_else p q).
Proof.
  intros Hp Hq l a rest. unfold or_else. destruct (p l) as [[]|] eqn:E; intros ?; simplify_eq;
    [by eapply Hp|by eapply Hq].
Qed.
Lemma parses_separator {A} (P : A → Prop) c i (p : parser A) :
  parses P p → parses P (read_separator c i p).
Proof. intros Hp. destruct i; [done|]. by apply (parses_bind (λ _, True)). Qed.
Lemma parses_number max radix n zero : parses (λ x, x <= max) (read_number max radix n zero).
Proof.
  intros l a rest. unfold read_number. destruct (read_digits _ _ _ _ _) as [[[x m] q]|]; [|done].
  destruct (m =? 0)%nat; [done|]. destruct (_ && _); [done|].
  destruct (N.ltb_spec max x); [done|]. by intros [= <- <-].
Qed.

Lemma parses_octets i n :
  parses (λ l, length l = n ∧ Forall (λ o, o <= U8_MAX) l) (read_octets i n).
Proof.
  revert i. induction n as [|n IH]; intros i; cbn [read_octets]; [by apply parses_ret|].
  eapply parses_bind; [apply parses_separator, parses_number|]. intros o Ho.
  eapply parses_bind; [apply IH|]. intros l [<- Hl]. apply parses_ret. split; [done|by constructor].
Qed.

Lemma parses_groups i n :
  parses (λ '(l, b), (length l <= n)%nat ∧ Forall (λ s, s <= U16_MAX) l) (read_groups i n).
Proof.
  revert i. induction n as [|n IH]; intros i; [by apply parses_ret|]. cbn [read_groups].
  apply parses_or_else; [|apply parses_or_else].
  - destruct n as [|n]; [done|]. eapply parses_fmap; [apply parses_separator, parses_octets|].
    intros [|a [|b [|c [|d []]]]] [Hl Ho]; try discriminate Hl.
    rewrite !Forall_cons in Ho. destruct Ho as (? & ? & ? & ? & _). unfold U8_MAX, U16_MAX in *.
    split; [simpl; lia|]. simpl. rewrite !Forall_cons. split_and!; [lia..|done].
  - eapply parses_bind; [apply parses_separator, parses_number|]. intros g Hg.
    eapply parses_bind; [apply IH|]. intros [l b] [Hl Hs]. apply parses_ret. simpl.
    split; [lia|by constructor].
  - by apply parses_ret; split; [simpl; lia|].
Qed.

Lemma parses_ipv6 : parses (λ l, length l = 8%nat ∧ Forall (λ s, s <= U16_MAX) l) read_ipv6_addr.
Proof.
  unfold read_ipv6_addr. eapply parses_bind; [apply parses_groups|]. intros [hd b] [Hl Hs].
  case_match; [by apply parses_ret; bools; split; [apply Nat.eqb_eq|]|].
  case_match; [done|]. do 2 (apply (parses_bind (λ _, True)); [done|intros _ _]).
  eapply parses_bind; [apply parses_groups|]. intros [tl b'] [Htl Hts].
  apply parses_ret. apply Nat.eqb_neq in H. rewrite !length_app, length_replicate.
  split; [lia|]. rewrite !Forall_app. split_and!; [done| |done].
  apply Forall_replicate. unfold U16_MAX. lia.
Qed.

Lemma parses_ip_addr : parses IpAddr.wf read_ip_addr.
Proof.
  apply parses_or_else; (eapply parses_fmap; [apply parses_octets || apply parses_ipv6|done]).
Qed.

(** ** The text of a socket address *)

(** Digits of a number with the given maximum, as [read_number] takes them without a limit on their
    count. *)
Definition plain_number (max : N) (l : list u8) (n : N) : Prop :=
  read_number max 10 None true l = Some (n, []).

Lemma suffix_nil_of {A} (l : list A) : l `suffix_of` [] → l = [].
Proof. intros [k Hk]. by destruct k, l. Qed.

Lemma parser_bind_some {A B} (p : parser A) (f : A → parser B) l b rest :
  (p ≫= f) l = Some (b, rest) ↔ ∃ a q, p l = Some (a, q) ∧ f a q = Some (b, rest).
Proof.
  unfold mbind, parser_bind. destruct (p l) as [[a q]|]; [|naive_solver].
  split; [by eauto|by intros (? & ? & [= <- <-] & ?)].
Qed.

Lemma read_given_char_some c l u rest : read_given_char c l = Some (u, rest) ↔ l = c :: rest.
Proof.
  destruct l as [|d l]; [done|]. simpl. destruct u. case_bool_decide; naive_solver.
Qed.

(** The text a parser consumed in front of a delimiter parses alone. *)
Lemma consumed uses {A} (p : parser A) `{!Consumes p, !Blind uses p} l a rest :
  p l = Some (a, rest) → delimited uses rest → ∃ text, l = text ++ rest ∧ p text = Some (a, []).
Proof.
  intros H Hr. destruct (consumes l a rest H) as [text ->]. exists text.
  split; [done|]. by eapply blind_prefix.
Qed.

Lemma read_digits_all radix step x n l y m :
  read_digits radix step x n l = Some (y, m, []) → Forall (λ c, is_Some (to_digit radix c)) l.
Proof.
  revert x n. induction l as [|c l IH]; intros x n; simpl; [by constructor|].
  destruct (to_digit radix c) eqn:E; [|done]. destruct (step x n0 (S n)); [|done].
  intros H. constructor; [by rewrite E|by eapply IH].
Qed.

Lemma read_digits_count radix step x n l y m rest :
  read_digits radix step x n l = Some (y, m, rest) → (n <= m)%nat.
Proof.
  revert x n. induction l as [|c l IH]; intros x n; simpl; [by intros [= <- <- <-]|].
  destruct (to_digit radix c); [|by intros [= <- <- <-]]. destruct (step x n0 (S n)); [|done].
  intros H%IH. lia.
Qed.

(** The loop of [read_number] without a limit is the one of [from_str_radix]. *)
Lemma read_digits_from_digits max x n l y m :
  read_digits 10 (checked_step 10 max) x n l = Some (y, m, []) →
  from_digits max x l = Some y ∧ m = (n + length l)%nat.
Proof.
  revert x n. induction l as [|c l IH]; intros x n; simpl.
  { intros [= <- <-]. split; [done|lia]. }
  destruct (to_digit 10 c) as [d|]; [|done].
  change (checked_step 10 max x d (S n)) with (checked_step 10 max x d 0).
  destruct (checked_step 10 max x d 0) as [z|]; [|done]. intros [H ->]%IH. split; [done|lia].
Qed.

Lemma from_digits_read_digits max x n l y :
  from_digits max x l = Some y →
  read_digits 10 (checked_step 10 max) x n l = Some (y, (n + length l)%nat, []).
Proof.
  revert x n. induction l as [|c l IH]; intros x n; simpl.
  { intros [= <-]. by rewrite Nat.add_0_r. }
  destruct (to_digit 10 c) as [d|]; [|done].
  change (checked_step 10 max x d (S n)) with (checked_step 10 max x d 0).
  destruct (checked_step 10 max x d 0) as [z|]; [|done]. intros H%(IH _ (S n)).
  rewrite H. do 3 f_equal. lia.
Qed.

Lemma from_digits_bound max x l y : x <= max → from_digits max x l = Some y → y <= max.
Proof.
  revert x. induction l as [|c l IH]; intros x Hx; simpl; [by intros [= <-]|].
  destruct (to_digit 10 c) as [d|]; [|done]. unfold checked_step.
  destruct (N.ltb_spec max (x * 10)); [done|]. destruct (N.ltb_spec max (x * 10 + d)); [done|].
  by apply IH.
Qed.

Lemma plain_number_spec max l n :
  plain_number max l n ↔ l ≠ [] ∧ from_digits max 0 l = Some n.
Proof.
  unfold plain_number, read_number. cbn [negb andb]. split.
  - destruct (read_digits _ _ _ _ _) as [[[x m] rest]|] eqn:E; [|done].
    destruct (m =? 0)%nat eqn:Hm; [done|]. destruct (max <? x); [done|]. intros [= -> ->].
    apply read_digits_from_digits in E as [E ->]. split; [|done]. by intros ->.
  - intros [Hl H]. rewrite (from_digits_read_digits _ _ 0 _ _ H).
    destruct (0 + length l =? 0)%nat eqn:E; [by destruct l|].
    assert (n <= max) as Hn by (eapply from_digits_bound; [|done]; lia).
    by destruct (N.ltb_spec max n); [lia|].
Qed.

Lemma plain_number_digits max l n : plain_number max l n → Forall (λ c, is_Some (to_digit 10 c)) l.
Proof.
  unfold plain_number, read_number. destruct (read_digits _ _ _ _ _) as [[[x m] rest]|] eqn:E; [|done].
  repeat (case_match; [done|]). intros [= _ ->]. by eapply read_digits_all.
Qed.

Lemma not_digit c l : to_digit 10 c = None → Forall (λ c, is_Some (to_digit 10 c)) l → c ∉ l.
Proof. intros Hc Hl Hin. rewrite Forall_forall in Hl. destruct (Hl c Hin). congruence. Qed.

(** Ports: [u16::from_str] takes the same texts, and those with a plus sign. *)
Lemma plain_port_u16 l n : plain_number U16_MAX l n → parse_u16 l = Some n.
Proof.
  intros H. pose proof (plain_number_digits _ _ _ H) as Hd.
  apply plain_number_spec in H as [Hl H]. destruct l as [|c l]; [done|]. unfold parse_u16.
  case_bool_decide as Hc; [|done]. subst c. by apply Forall_cons in Hd as [[d Hd] _].
Qed.

Lemma u16_plain_port c l n : parse_u16 (c :: l) = Some n → c ≠ "+"%char → plain_number U16_MAX (c :: l) n.
Proof. unfold parse_u16. intros H Hc. rewrite bool_decide_false in H by done. by apply plain_number_spec. Qed.

Definition digit_char (c : u8) : Prop := is_Some (to_digit 10 c).
#[export] Instance blind_decimal max zero n : Blind digit_char (read_number max 10 n zero).
Proof. apply (blind_number digit_char 10). intros c d Hd. by exists d. Qed.

(** The text of a scope: nothing, or a percent sign and a number. *)
Definition scope_text (l : list u8) (scope : N) : Prop :=
  (l = [] ∧ scope = 0) ∨ ∃ digits, l = "%"%char :: digits ∧ plain_number U32_MAX digits scope.

Lemma not_v6_char c : to_digit 16 c = None → c ≠ "."%char → c ≠ ":"%char → ¬ v6_char c.
Proof. intros Hd H1 H2 [[d Hd']|[-> | ->]]; [congruence|done|done]. Qed.

Lemma read_socket_addr_v4_spec l a :
  read_socket_addr_v4 l = Some (a, []) ↔
  ∃ text ip port n, l = text ++ ":"%char :: port ∧ read_ipv4_addr text = Some (ip, []) ∧
    plain_number U16_MAX port n ∧ a = SocketAddr.mk (IpAddr.V4 ip) n 0.
Proof.
  assert (∀ r, delimited v4_char (":"%char :: r)) as Hcolon by (intros r [[d Hd]|?]; done).
  unfold read_socket_addr_v4, read_port. split.
  - intros (ip & q & Hip & H)%parser_bind_some. apply parser_bind_some in H as (n & q' & H & H').
    apply parser_bind_some in H as ([] & port & Hc%read_given_char_some & Hn).
    injection H' as <- ->. subst q.
    destruct (consumed v4_char read_ipv4_addr _ _ _ Hip) as (text & -> & Ht); [done|].
    by exists text, ip, port, n.
  - intros (text & ip & port & n & -> & Ht & Hn & ->). apply parser_bind_some.
    exists ip, (":"%char :: port). split; [by apply (blind_append v4_char read_ipv4_addr)|].
    apply parser_bind_some. exists n, []. split; [|done].
    apply parser_bind_some. exists (), port. split; [by apply read_given_char_some|done].
Qed.

Lemma read_scope_spec l scope r :
  or_else read_scope_id (mret 0) l = Some (scope, "]"%char :: r) ↔
  ∃ text, l = text ++ "]"%char :: r ∧ scope_text text scope.
Proof.
  unfold or_else. split.
  - destruct (read_scope_id l) as [[s q]|] eqn:E.
    + intros [= -> ->]. unfold read_scope_id in E. apply parser_bind_some in E as ([] & q & ->%read_given_char_some & Hn).
      destruct (consumed digit_char (read_number U32_MAX 10 None true) _ _ _ Hn)
        as (digits & -> & Hd); [by intros [d Hd]|].
      exists ("%"%char :: digits). split; [done|]. right. by exists digits.
    + intros [= <- ->]. exists []. split; [done|by left].
  - intros (text & -> & [[-> ->]|(digits & -> & Hd)]); [done|].
    assert (read_scope_id (("%"%char :: digits) ++ "]"%char :: r) = Some (scope, "]"%char :: r)) as ->;
      [|done].
    unfold read_scope_id. apply parser_bind_some. exists (), (digits ++ "]"%char :: r).
    split; [by apply read_given_char_some|]. apply (blind_append digit_char (read_number U32_MAX 10 None true)); [done|].
    by intros [d H].
Qed.

Lemma read_socket_addr_v6_spec l a :
  read_socket_addr_v6 l = Some (a, []) ↔
  ∃ text scope port ip n s,
    l = "["%char :: text ++ scope ++ "]"%char :: ":"%char :: port ∧
    read_ipv6_addr text = Some (ip, []) ∧ scope_text scope s ∧
    plain_number U16_MAX port n ∧ a = SocketAddr.mk (IpAddr.V6 ip) n s.
Proof.
  assert (∀ scope s r, scope_text scope s → delimited v6_char (scope ++ "]"%char :: r)) as Hdel.
  { intros scope s r [[-> _]|(digits & -> & _)]; by apply not_v6_char. }
  unfold read_socket_addr_v6, read_port. split.
  - intros ([] & q & ->%read_given_char_some & H)%parser_bind_some.
    apply parser_bind_some in H as (ip & q1 & Hip & H).
    apply parser_bind_some in H as (s & q2 & Hs & H).
    apply parser_bind_some in H as ([] & q3 & ->%read_given_char_some & H).
    apply parser_bind_some in H as (n & q4 & H & H').
    apply parser_bind_some in H as ([] & port & ->%read_given_char_some & Hn).
    injection H' as <- ->. apply read_scope_spec in Hs as (scope & -> & Hs).
    destruct (consumed v6_char read_ipv6_addr _ _ _ Hip) as (text & -> & Ht); [by eapply Hdel|].
    by exists text, scope, port, ip, n, s.
  - intros (text & scope & port & ip & n & s & -> & Ht & Hs & Hn & ->). apply parser_bind_some.
    exists (), (text ++ scope ++ "]"%char :: ":"%char :: port). split; [by apply read_given_char_some|].
    apply parser_bind_some. exists ip, (scope ++ "]"%char :: ":"%char :: port).
    split; [apply (blind_append v6_char read_ipv6_addr); [done|by eapply Hdel]|].
    apply parser_bind_some. exists s, ("]"%char :: ":"%char :: port).
    split; [apply read_scope_spec; by exists scope|].
    apply parser_bind_some. exists (), (":"%char :: port). split; [by apply read_given_char_some|].
    apply parser_bind_some. exists n, []. split; [|done].
    apply parser_bind_some. exists (), port. split; [by apply read_given_char_some|done].
Qed.

Lemma parse_with_or_else {A} (p q : parser A) l a :
  parse_with (or_else p q) l = Some a ↔
  p l = Some (a, []) ∨ (p l = None ∧ q l = Some (a, [])).
Proof.
  unfold parse_with, or_else. destruct (p l) as [[b [|c rest]]|]; [naive_solver..|].
  destruct (q l) as [[b [|c rest]]|]; naive_solver.
Qed.

Lemma parse_with_some {A} (p : parser A) l a : parse_with p l = Some a ↔ p l = Some (a, []).
Proof. unfold parse_with. destruct (p l) as [[b [|]]|]; naive_solver. Qed.

Lemma parser_fmap_some {A B} (f : A → B) (p : parser A) l b rest :
  (f <$> p) l = Some (b, rest) ↔ ∃ a, p l = Some (a, rest) ∧ b = f a.
Proof. unfold fmap, parser_fmap. destruct (p l) as [[]|]; naive_solver. Qed.

(** The notations do not overlap. *)
Lemma ipv6_not_ipv4 l ip rest : read_ipv6_addr l = Some (ip, rest) → read_ipv4_addr l = None.
Proof.
  intros H. destruct (read_ipv4_addr l) as [[octets q]|] eqn:E; [exfalso|done].
  pose proof (parses_octets 0 4 l octets q E) as [Hl _].
  assert (read_groups 0 8 l = Some ((v4_segments octets, true), q)) as Hg.
  { change (read_groups 0 8) with (or_else ((λ v4_addr, (v4_segments v4_addr, true)) <$> read_ipv4_addr)
      (or_else (g ← read_number U16_MAX 16 (Some 4%nat) true; '(gs, ipv4) ← read_groups 1 7;
        mret (g :: gs, ipv4)) (mret ([], false)))).
    unfold or_else at 1, fmap, parser_fmap. by rewrite E. }
  apply parser_bind_some in H as ([hd b] & q' & Hg' & H). rewrite Hg in Hg'.
  injection Hg' as <- <- <-. destruct octets as [|a [|b [|c [|d []]]]]; done.
Qed.

Lemma parse_ip_addr_spec l a :
  parse_ip_addr l = Some a ↔
  match a with
  | IpAddr.V4 ip => read_ipv4_addr l = Some (ip, [])
  | IpAddr.V6 ip => read_ipv6_addr l = Some (ip, [])
  end.
Proof.
  unfold parse_ip_addr, read_ip_addr. rewrite parse_with_or_else, !parser_fmap_some. split.
  - intros [(ip & H & ->)|(_ & ip & H & ->)]; done.
  - destruct a as [ip|ip]; intros H; [left; by eauto|right]. split; [|by eauto].
    unfold fmap, parser_fmap. by rewrite (ipv6_not_ipv4 _ _ _ H).
Qed.

(** A socket address is an IP address, in brackets when it is one of version 6, perhaps with a
    scope, a colon and a port. *)
Lemma parse_socket_addr_spec l a :
  parse_socket_addr l = Some a ↔
  ∃ text port n, plain_number U16_MAX port n ∧
    ((∃ ip, l = text ++ ":"%char :: port ∧ parse_ip_addr text = Some (IpAddr.V4 ip) ∧
        a = SocketAddr.mk (IpAddr.V4 ip) n 0) ∨
     (∃ ip scope s, l = "["%char :: text ++ scope ++ "]"%char :: ":"%char :: port ∧
        parse_ip_addr text = Some (IpAddr.V6 ip) ∧ scope_text scope s ∧
        a = SocketAddr.mk (IpAddr.V6 ip) n s)).
Proof.
  unfold parse_socket_addr, read_socket_addr.
  setoid_rewrite parse_ip_addr_spec. rewrite parse_with_or_else, read_socket_addr_v4_spec, read_socket_addr_v6_spec. split.
  - intros [(text & ip & port & n & ? & ? & ? & ?)|(_ & text & scope & port & ip & n & s & ? & ? & ? & ? & ?)];
      exists text, port, n; split; [done|left; by exists ip|done|right; by exists ip, scope, s].
  - intros (text & port & n & Hn & [(ip & ? & ? & ?)|(ip & scope & s & -> & ? & ? & ?)]);
      [left; by exists text, ip, port, n|right].
    split; [reflexivity|by exists text, scope, port, ip, n, s].
Qed.

(** ** Splitting *)

Lemma rsplit_once_none sep l : rsplit_once sep l = None ↔ sep ∉ l.
Proof.
  induction l as [|c l IH]; simpl; [set_solver|].
  destruct (rsplit_once sep l) as [[]|]; [set_solver|]. case_bool_decide; set_solver.
Qed.

Lemma rsplit_once_some sep l before after :
  rsplit_once sep l = Some (before, after) ↔ l = before ++ sep :: after ∧ sep ∉ after.
Proof.
  revert before. induction l as [|c l IH]; intros before; simpl.
  { split; [done|]. intros [H _]. by destruct before. }
  destruct (rsplit_once sep l) as [[b a]|] eqn:E.
  - split.
    + intros [= <- <-]. destruct (proj1 (IH b) eq_refl) as [-> ?]. done.
    + intros [H Ha]. destruct before as [|d before]; injection H as -> H.
      * subst l. exfalso. assert (rsplit_once sep after = None) as Hn by by apply rsplit_once_none.
        congruence.
      * assert (Some (b, a) = Some (before, after)) as [= -> ->] by by apply IH. done.
  - apply rsplit_once_none in E. case_bool_decide; subst; (split; [intros [=]; subst|intros [Heq Ha]]).
    + done.
    + destruct before as [|d before]; simplify_eq/=; [done|set_solver].
    + destruct before as [|d before]; simplify_eq/=; set_solver.
Qed.

Lemma strip_suffix_some c l r : strip_suffix c l = Some r ↔ l = r ++ [c].
Proof.
  unfold strip_suffix. destruct l as [|d l _] using rev_ind.
  { simpl. split; [done|]. intros H. by destruct r. }
  rewrite reverse_snoc. case_bool_decide as Hd; rewrite ?reverse_involutive; split.
  - intros [= ->]. by subst.
  - intros [-> _]%app_inj_tail. done.
  - done.
  - by intros [_ ->]%app_inj_tail.
Qed.

(** The host of a locator without its brackets. *)
Definition strip_brackets (host : list u8) : list u8 :=
  default host (strip_prefix "["%char host ≫= strip_suffix "]"%char).

Lemma strip_brackets_bracketed host : strip_brackets ("["%char :: host ++ ["]"%char]) = host.
Proof.
  unfold strip_brackets. cbn [strip_prefix]. rewrite bool_decide_true by done. simpl.
  by rewrite (proj2 (strip_suffix_some _ _ host)).
Qed.

Lemma strip_brackets_plain host :
  (∀ inner, host ≠ "["%char :: inner ++ ["]"%char]) → strip_brackets host = host.
Proof.
  unfold strip_brackets. intros H. destruct host as [|c host]; [done|]. cbn [strip_prefix].
  case_bool_decide; [|done]. subst. simpl.
  destruct (strip_suffix _ host) as [inner|] eqn:E; [|done].
  apply strip_suffix_some in E as ->. by destruct (H inner).
Qed.

(** A text with a character outside its notation is no address. *)
Lemma blind_rejects uses {A} (p : parser A) `{!Blind uses p} l c r :
  ¬ uses c → parse_with p (l ++ c :: r) = None.
Proof.
  intros Hc. unfold parse_with. rewrite (blind l (c :: r)) by done.
  destruct (p l) as [[a [|d rest]]|]; done.
Qed.

#[export] Instance blind_ip_addr : Blind v6_char read_ip_addr.
Proof. apply blind_or_else; apply blind_fmap; apply _. Qed.

Lemma parse_ip_addr_chars l a : parse_ip_addr l = Some a → Forall v6_char l.
Proof.
  intros H. apply Forall_forall. intros c Hc.
  destruct (decide (is_Some (to_digit 16 c) ∨ c = "."%char ∨ c = ":"%char)) as [|Hn]; [done|].
  apply list_elem_of_split in Hc as (l1 & l2 & ->). unfold parse_ip_addr in H.
  by rewrite (blind_rejects v6_char read_ip_addr) in H.
Qed.

(** ** Printing *)

(** Decimal digits, without leading zeros; [fuel] of them are enough for a number below
    [10 ^ fuel]. *)
Definition digit_char_of (d : N) : u8 := Ascii.ascii_of_N (48 + d).
Fixpoint show_digits (fuel : nat) (n : N) (acc : list u8) : list u8 :=
  match fuel with
  | O => acc
  | S fuel =>
    let acc := digit_char_of (n mod 10) :: acc in
    if n / 10 =? 0 then acc else show_digits fuel (n / 10) acc
  end.

(** The [Display] of a [u16], and of an IPv4 address. *)
Definition show_u16 (n : N) : list u8 := show_digits 5 n [].
Definition show_ipv4 (a b c d : N) : list u8 :=
  show_u16 a ++ "."%char :: show_u16 b ++ "."%char :: show_u16 c ++ "."%char :: show_u16 d.

Lemma to_digit_char d : d < 10 → to_digit 10 (digit_char_of d) = Some d.
Proof.
  intros Hd. unfold to_digit, digit_char_of, between. rewrite N_ascii_embedding by lia.
  rewrite (proj2 (N.leb_le 48 (48 + d))), (proj2 (N.leb_le (48 + d) 57)) by lia.
  cbn [andb]. replace (48 + d - 48) with d by lia. by rewrite (proj2 (N.ltb_lt d 10)).
Qed.

Lemma from_digits_show max fuel n acc :
  n <= max → n < 10 ^ N.of_nat fuel →
  from_digits max 0 (show_digits fuel n acc) = from_digits max n acc.
Proof.
  revert n acc. induction fuel as [|fuel IH]; intros n acc Hn Hf.
  { change (10 ^ N.of_nat 0) with 1 in Hf. simpl. f_equal. lia. }
  rewrite Nat2N.inj_succ, N.pow_succ_r' in Hf. cbn [show_digits].
  pose proof (N.div_mod n 10 ltac:(lia)) as Hdiv. pose proof (N.mod_lt n 10 ltac:(lia)) as Hmod.
  assert (∀ x, x = n / 10 → from_digits max x (digit_char_of (n mod 10) :: acc) = from_digits max n acc)
    as Hstep.
  { intros x ->. cbn [from_digits]. rewrite to_digit_char by done. unfold checked_step.
    rewrite (N.mul_comm (n / 10)), <- Hdiv.
    pose proof (N.Div0.mul_div_le n 10).
    by rewrite (proj2 (N.ltb_ge max (10 * (n / 10)))), (proj2 (N.ltb_ge max n)) by (etrans; done || done). }
  destruct (N.eqb_spec (n / 10) 0) as [H0|H0]; [by apply Hstep|].
  rewrite IH; [by apply Hstep| |].
  { etrans; [|done]. apply N.Div0.div_le_upper_bound. lia. }
  apply N.Div0.div_lt_upper_bound. lia.
Qed.

Lemma show_u16_plain n : n <= U16_MAX → plain_number U16_MAX (show_u16 n) n.
Proof.
  intros Hn. apply plain_number_spec. split.
  - unfold show_u16. cbn [show_digits].
    repeat match goal with |- context [if ?b then _ else _] => destruct b end; done.
  - apply from_digits_show; [done|]. unfold U16_MAX in Hn. change (10 ^ N.of_nat 5) with 100000. lia.
Qed.

Lemma show_octet n : n <= U8_MAX → read_number U8_MAX 10 (Some 3%nat) false (show_u16 n) = Some (n, []).
Proof.
  intros Hn. assert (Forall (λ n, bool_decide (read_number U8_MAX 10 (Some 3%nat) false
    (show_u16 (N.of_nat n)) = Some (N.of_nat n, [])) = true) (seq 0 256)) as H.
  { apply List.Forall_forall. apply List.forallb_forall. vm_compute. reflexivity. }
  rewrite Forall_forall in H. specialize (H (N.to_nat n)).
  rewrite N2Nat.id in H. unfold U8_MAX in Hn.
  apply bool_decide_eq_true in H; [done|]. apply elem_of_seq. lia.
Qed.

Abbreviation dotted os := (concat ((λ o, "."%char :: show_u16 o) <$> os)).

Lemma read_octet_show o os : o <= U8_MAX →
  read_number U8_MAX 10 (Some 3%nat) false (show_u16 o ++ dotted os) = Some (o, dotted os).
Proof.
  intros Ho. apply (blind_append digit_char (read_number U8_MAX 10 (Some 3%nat) false));
    [by apply show_octet|]. destruct os; [done|]. by intros [d H].
Qed.

Lemma read_octets_show os i : Forall (λ o, o <= U8_MAX) os →
  read_octets (S i) (length os) (dotted os) = Some (os, []).
Proof.
  revert i. induction os as [|o os IH]; intros i; [done|]. intros [Ho Hos]%Forall_cons.
  cbn [read_octets length]. apply parser_bind_some. exists o, (dotted os). split.
  - apply parser_bind_some. exists (), (show_u16 o ++ dotted os).
    split; [by apply read_given_char_some|by apply read_octet_show].
  - apply parser_bind_some. exists os, []. by rewrite IH.
Qed.

(** Printed IPv4 addresses parse back. *)
Lemma parse_show_ipv4 a b c d :
  Forall (λ o, o <= U8_MAX) [a; b; c; d] →
  parse_ip_addr (show_ipv4 a b c d) = Some (IpAddr.V4 [a; b; c; d]).
Proof.
  intros [Ha Hr]%Forall_cons. apply (parse_ip_addr_spec _ (IpAddr.V4 [a; b; c; d])).
  assert (show_ipv4 a b c d = show_u16 a ++ dotted [b; c; d]) as ->.
  { unfold show_ipv4, fmap, list_fmap, concat. by rewrite app_nil_r. }
  apply parser_bind_some. exists a, (dotted [b; c; d]). split; [by apply read_octet_show|].
  apply parser_bind_some. exists [b; c; d], []. split; [|done].
  apply (read_octets_show [b; c; d] 0 Hr).
Qed.
