(* ===== verification/time.v ===== *)
(** * Durations and system time

    What the sources use of [std::time]. A [Duration] is its total number of nanoseconds, at most
    [2^64 - 1] seconds and [999999999] nanoseconds; a [SystemTime] is the signed number of
    nanoseconds since [UNIX_EPOCH], with the 64-bit seconds of a Unix target as its upper end. *)
From S2P Require Import prelude bytes.

Definition NANOS_PER_SEC : N := 1000000000.

Abbreviation Duration := N (only parsing).

Module Duration.
Definition MAX : Duration := 2 ^ 64 * NANOS_PER_SEC - 1.
Definition wf (d : Duration) : Prop := (d ≤ MAX)%N.

(** [Duration::new] carries the excess nanoseconds into the seconds and panics on overflow. *)
Definition new {E} (secs nanos : N) : result E Duration :=
  let d := (secs * NANOS_PER_SEC + nanos)%N in
  if (d <=? MAX)%N then Ok d else Panic.

Definition from_secs (s : N) : Duration := s * NANOS_PER_SEC.
Definition as_secs (d : Duration) : N := d / NANOS_PER_SEC.
Definition subsec_nanos (d : Duration) : N := d mod NANOS_PER_SEC.
Definition is_zero (d : Duration) : bool := (d =? 0)%N.

Lemma new_as_secs_subsec_nanos {E} d : wf d → new (E:=E) (as_secs d) (subsec_nanos d) = Ok d.
Proof.
  unfold new, as_secs, subsec_nanos, wf. intros Hd.
  assert (d / NANOS_PER_SEC * NANOS_PER_SEC + d mod NANOS_PER_SEC = d)%N as ->.
  { pose proof (N.div_mod d NANOS_PER_SEC). unfold NANOS_PER_SEC in *. lia. }
  by apply N.leb_le in Hd as ->.
Qed.

Lemma as_secs_bound d : wf d → (as_secs d < 2 ^ 64)%N.
Proof.
  unfold wf, MAX, as_secs, NANOS_PER_SEC. intros. apply N.Div0.div_lt_upper_bound. lia.
Qed.

Lemma subsec_nanos_bound d : (subsec_nanos d < NANOS_PER_SEC)%N.
Proof. by apply N.mod_lt. Qed.
End Duration.

Abbreviation SystemTime := Z (only parsing).

Module SystemTime.
Definition UNIX_EPOCH : SystemTime := 0.
Definition MAX : SystemTime := 2 ^ 63 * 1000000000 - 1.

(** [SystemTime + Duration] panics when the sum is not representable. *)
Definition add {E} (t : SystemTime) (d : Duration) : result E SystemTime :=
  let t' := (t + Z.of_N d)%Z in if (t' <=? MAX)%Z then Ok t' else Panic.

(** [SystemTime::duration_since]: an error when [earlier] is later. *)
Definition duration_since (t earlier : SystemTime) : option Duration :=
  if (earlier <=? t)%Z then Some (Z.to_N (t - earlier)) else None.

Lemma duration_since_add {E} t d t' : add (E:=E) t d = Ok t' → duration_since t' t = Some d.
Proof.
  unfold add, duration_since. case_match; [|done]. intros [= <-].
  assert ((t <=? t + Z.of_N d)%Z = true) as -> by (apply Z.leb_le; lia). f_equal. lia.
Qed.
End SystemTime.
