(* ===== verification/float.v ===== *)
(** * [f64]

    A binary64 number is a [spec_float] at precision 53 and exponent bound 1024, with the
    arithmetic, rounding (to nearest, ties to even) and comparison of the Standard Library's
    specification. NaN payloads are not kept. [f64::min] and [f64::max] return the other argument
    when one is NaN; for arguments that compare equal ([0.0] and [-0.0]) Rust leaves open which one
    is returned, and the model returns the receiver. *)
From S2P Require Import prelude bytes.
From Stdlib Require Import SpecFloat.

Abbreviation f64 := spec_float.

Definition prec : Z := 53.
Definition emax : Z := 1024.

#[export] Instance f64_eq_dec : EqDecision f64.
Proof. solve_decision. Defined.

Definition f64_zero : f64 := S754_zero false.
Definition f64_one : f64 := S754_finite false 4503599627370496 (-52).
Definition f64_add (x y : f64) : f64 := SFadd prec emax x y.
Definition f64_sub (x y : f64) : f64 := SFsub prec emax x y.
Definition f64_eqb (x y : f64) : bool := SFeqb x y.
Definition f64_ltb (x y : f64) : bool := SFltb x y.
Definition f64_leb (x y : f64) : bool := SFleb x y.
Definition f64_geb (x y : f64) : bool := f64_leb y x.
Definition is_nan (x : f64) : bool := match x with S754_nan => true | _ => false end.
Definition is_finite (x : f64) : bool :=
  match x with S754_zero _ | S754_finite _ _ _ => true | _ => false end.
Definition f64_min (x y : f64) : f64 :=
  match SFcompare x y with
  | None => if is_nan x then y else x
  | Some Gt => y
  | Some _ => x
  end.
Definition f64_max (x y : f64) : f64 :=
  match SFcompare x y with
  | None => if is_nan x then y else x
  | Some Lt => y
  | Some _ => x
  end.

(** ** The 64-bit representation: [f64::to_bits] and [f64::from_bits] *)

Definition sign_bit (s : bool) : N := if s then 2 ^ 63 else 0.

Definition f64_to_bits (x : f64) : N :=
  match x with
  | S754_zero s => sign_bit s
  | S754_infinity s => sign_bit s + 2047 * 2 ^ 52
  | S754_nan => 2047 * 2 ^ 52 + 2 ^ 51
  | S754_finite s m e =>
    if (N.pos m <? 2 ^ 52)%N then sign_bit s + N.pos m
    else sign_bit s + Z.to_N (e + 1075) * 2 ^ 52 + (N.pos m - 2 ^ 52)
  end.

Definition f64_of_bits (b : N) : f64 :=
  let s := N.testbit b 63 in
  let e := ((b / 2 ^ 52) mod 2048)%N in
  let m := (b mod 2 ^ 52)%N in
  if (e =? 0)%N then
    match m with N0 => S754_zero s | Npos p => S754_finite s p (-1074) end
  else if (e =? 2047)%N then
    match m with N0 => S754_infinity s | Npos _ => S754_nan end
  else
    match (m + 2 ^ 52)%N with N0 => S754_zero s | Npos p => S754_finite s p (Z.of_N e - 1075) end.

Definition f64_valid (x : f64) : Prop := valid_binary prec emax x = true.

Example f64_one_bits : f64_to_bits f64_one = 4607182418800017408%N.
Proof. reflexivity. Qed.
Example f64_of_bits_quarter : f64_of_bits 4598175219545276416 = S754_finite false 4503599627370496 (-54).
Proof. reflexivity. Qed.

(** ** Comparison *)

Lemma SFcompare_swap x y : SFcompare y x = CompOpp <$> SFcompare x y.
Proof.
  destruct x as [sx|sx| |sx mx ex], y as [sy|sy| |sy my ey]; simpl; try done;
    try (by destruct sx; try destruct sy); try (by destruct sy).
  rewrite (Z.compare_antisym ex ey).
  pose proof (Pos.compare_antisym mx my) as Hm. unfold Pos.compare in Hm. rewrite Hm.
  destruct sx, sy, (ex ?= ey)%Z, (Pos.compare_cont Eq mx my); done.
Qed.

Lemma SFcompare_none x y : SFcompare x y = None ↔ is_nan x = true ∨ is_nan y = true.
Proof. destruct x as [|[]| |[]], y as [|[]| |[]]; simpl; intuition congruence. Qed.

Lemma SFcompare_refl x : is_nan x = false → SFcompare x x = Some Eq.
Proof.
  destruct x as [|[]| |[]]; try done; simpl; intros _;
    by rewrite Z.compare_refl;
       rewrite (Pos.compare_refl _ : Pos.compare_cont Eq _ _ = Eq).
Qed.

Lemma f64_leb_refl x : is_nan x = false → f64_leb x x = true.
Proof. intros. unfold f64_leb, SFleb. by rewrite SFcompare_refl. Qed.

Lemma f64_eqb_refl x : f64_eqb x x = negb (is_nan x).
Proof.
  unfold f64_eqb, SFeqb. destruct (is_nan x) eqn:Hx; simpl.
  - by destruct x.
  - by rewrite SFcompare_refl.
Qed.

Lemma f64_leb_not_nan x y : f64_leb x y = true → is_nan x = false ∧ is_nan y = false.
Proof. by destruct x as [|[]| |[]], y as [|[]| |[]]. Qed.

Lemma f64_leb_antisym x y : f64_leb x y = true → f64_leb y x = true → f64_eqb x y = true.
Proof.
  unfold f64_leb, f64_eqb, SFleb, SFeqb. rewrite (SFcompare_swap x y).
  by destruct (SFcompare x y) as [[]|].
Qed.

Lemma f64_leb_total x y :
  is_nan x = false → is_nan y = false → f64_leb x y = true ∨ f64_ltb y x = true.
Proof.
  unfold f64_leb, f64_ltb, SFleb, SFltb. intros Hx Hy. rewrite (SFcompare_swap x y).
  destruct (SFcompare x y) as [[]|] eqn:H; simpl; auto.
  apply SFcompare_none in H. rewrite Hx, Hy in H. by destruct H.
Qed.

(** ** Signs *)

(** [0 ≤ x], counting both zeros and infinity. *)
Definition nonneg (x : f64) : bool :=
  match x with
  | S754_zero _ => true
  | S754_infinity s => negb s
  | S754_nan => false
  | S754_finite s _ _ => negb s
  end.

Lemma nonneg_not_nan x : nonneg x = true → is_nan x = false.
Proof. by destruct x. Qed.

Lemma finite_not_lt_zero x : is_finite x = true → f64_ltb x f64_zero = negb (nonneg x).
Proof. by destruct x as [|[]| |[]]. Qed.

Lemma nonneg_leb_zero x : f64_leb f64_zero x = nonneg x.
Proof. by destruct x as [|[]| |[]]. Qed.

(** ** [min] and [max] *)

Lemma f64_min_cases x y : f64_min x y = x ∨ f64_min x y = y.
Proof. unfold f64_min. repeat case_match; auto. Qed.

Lemma f64_max_cases x y : f64_max x y = x ∨ f64_max x y = y.
Proof. unfold f64_max. repeat case_match; auto. Qed.

Lemma f64_min_le_l x y : is_nan x = false → f64_leb (f64_min x y) x = true.
Proof.
  intros Hx. unfold f64_min. destruct (SFcompare x y) as [[]|] eqn:H.
  - by apply f64_leb_refl.
  - by apply f64_leb_refl.
  - unfold f64_leb, SFleb. by rewrite SFcompare_swap, H.
  - rewrite Hx. by apply f64_leb_refl.
Qed.

Lemma f64_min_le_r x y : is_nan y = false → f64_leb (f64_min x y) y = true.
Proof.
  intros Hy. unfold f64_min. destruct (SFcompare x y) as [[]|] eqn:H.
  - unfold f64_leb, SFleb. by rewrite H.
  - unfold f64_leb, SFleb. by rewrite H.
  - by apply f64_leb_refl.
  - apply SFcompare_none in H. rewrite Hy in H.
    destruct H as [->|]; [by apply f64_leb_refl|done].
Qed.

Lemma f64_max_zero_nonneg x : nonneg (f64_max x f64_zero) = true.
Proof. by destruct x as [|[]| |[]]. Qed.

(** The minimum of a finite non-negative number and a non-negative one is finite. *)
Lemma f64_min_finite x y :
  is_finite x = true → nonneg x = true → nonneg y = true →
  is_finite (f64_min x y) = true ∧ nonneg (f64_min x y) = true.
Proof.
  intros Hf Hx Hy.
  assert (nonneg (f64_min x y) = true) as Hn by (by destruct (f64_min_cases x y) as [->| ->]).
  split; [|done].
  destruct y as [|[]| |[]]; try done; destruct x as [|[]| |[]]; try done;
    unfold f64_min; repeat case_match; done.
Qed.

Lemma f64_min_eq_r x y : f64_leb y x = true → f64_leb x y = false → f64_min x y = y.
Proof.
  unfold f64_leb, SFleb, f64_min. rewrite (SFcompare_swap x y).
  by destruct (SFcompare x y) as [[]|].
Qed.

(** ** Adding to and subtracting zero *)

Lemma f64_add_zero_l x : (∀ s, x ≠ S754_zero s) → f64_add f64_zero x = x.
Proof. intros H. destruct x as [s| | |]; try done. by destruct (H s). Qed.

Lemma f64_sub_zero_r x : (∀ s, x ≠ S754_zero s) → f64_sub x f64_zero = x.
Proof. intros H. destruct x as [s| | |]; try done. by destruct (H s). Qed.

Lemma f64_eqb_zero x : f64_eqb x f64_zero = true ↔ ∃ s, x = S754_zero s.
Proof. destruct x as [|[]| |[]]; simpl; split; (by eauto) || by intros [? ?]. Qed.

Lemma f64_add_comm x y : f64_add x y = f64_add y x.
Proof.
  destruct x as [sx|sx| |sx mx ex], y as [sy|sy| |sy my ey]; try done;
    try (by destruct sx, sy).
  unfold f64_add, SFadd. by rewrite Z.min_comm, Z.add_comm.
Qed.

(** ** Addition of non-negative numbers *)

Lemma shr_1_nonneg r : (0 ≤ shr_m r)%Z → (0 ≤ shr_m (shr_1 r))%Z.
Proof. by destruct r as [[|[]|] ? ?]. Qed.

Lemma iter_pos_shr_1_nonneg p r : (0 ≤ shr_m r)%Z → (0 ≤ shr_m (iter_pos shr_1 p r))%Z.
Proof.
  revert r. induction p as [p IH|p IH|]; intros r Hr; simpl.
  - apply IH, IH, shr_1_nonneg, Hr.
  - apply IH, IH, Hr.
  - apply shr_1_nonneg, Hr.
Qed.

Lemma shr_fexp_nonneg m e l : (0 ≤ m)%Z → (0 ≤ shr_m (shr_fexp prec emax m e l).1)%Z.
Proof.
  intros Hm. unfold shr_fexp, shr.
  assert (0 ≤ shr_m (shr_record_of_loc m l))%Z by (by destruct l as [|[]]).
  case_match; [done| |done]. by apply iter_pos_shr_1_nonneg.
Qed.

Lemma round_nearest_even_nonneg m l : (0 ≤ m)%Z → (0 ≤ round_nearest_even m l)%Z.
Proof. intros. unfold round_nearest_even. repeat case_match; lia. Qed.

Lemma binary_round_nonneg m e : nonneg (binary_round prec emax false m e) = true.
Proof.
  unfold binary_round. destruct (shl_align _ _ _) as [m' e'].
  unfold binary_round_aux. destruct (shr_fexp _ _ _ _ _) as [r1 e1] eqn:H1.
  destruct (shr_fexp prec emax (round_nearest_even _ _) _ _) as [r2 e2] eqn:H2.
  assert (0 ≤ shr_m r2)%Z as Hr.
  { change r2 with (r2, e2).1. rewrite <- H2. apply shr_fexp_nonneg, round_nearest_even_nonneg.
    change r1 with (r1, e1).1. rewrite <- H1. by apply shr_fexp_nonneg. }
  case_match; [done| |lia]. by case_match.
Qed.

Lemma f64_add_nonneg x y :
  nonneg x = true → nonneg y = true → nonneg (f64_add x y) = true.
Proof.
  intros Hx Hy. destruct x as [sx|[]| |[] mx ex], y as [sy|[]| |[] my ey]; try done.
  - by destruct sx, sy.
  - unfold f64_add, SFadd. unfold binary_normalize. case_match; [done| |].
    + apply binary_round_nonneg.
    + exfalso. cbn [cond_Zopp] in *. lia.
Qed.

(** ** The bit representation round-trips *)

Lemma digits2_pos_bounds m :
  (2 ^ (Z.pos (digits2_pos m) - 1) ≤ Z.pos m < 2 ^ Z.pos (digits2_pos m))%Z.
Proof.
  induction m as [m IH|m IH|]; cbn [digits2_pos]; [| |done];
    rewrite Pos2Z.inj_succ; replace (Z.succ (Z.pos (digits2_pos m)) - 1)%Z
      with (Z.succ (Z.pos (digits2_pos m) - 1))%Z by lia;
    rewrite !Z.pow_succ_r by lia; lia.
Qed.

(** A valid finite number is subnormal at the least exponent or has exactly 53 digits. *)
Lemma bounded_inv m e :
  bounded prec emax m e = true →
  (e = -1074 ∧ Z.pos m < 2 ^ 52)%Z ∨
  (-1074 ≤ e ≤ 971 ∧ 2 ^ 52 ≤ Z.pos m < 2 ^ 53)%Z.
Proof.
  unfold bounded, canonical_mantissa, fexp, emin, prec, emax. intros H. bools.
  pose proof (digits2_pos_bounds m) as [Hlo Hhi].
  destruct (decide (Z.pos (digits2_pos m) ≤ 52)%Z) as [Hd|Hd].
  - left. split; [lia|]. eapply Z.lt_le_trans; [done|]. apply Z.pow_le_mono_r; lia.
  - right. assert (Z.pos (digits2_pos m) = 53)%Z as Heq by lia.
    rewrite Heq in Hlo, Hhi. split; lia.
Qed.

Lemma f64_to_bits_bound x : f64_valid x → (f64_to_bits x < 2 ^ 64)%N.
Proof.
  destruct x as [[]|[]| |s m e]; try done. intros H%bounded_inv.
  unfold f64_to_bits, sign_bit. case_match; bools; destruct s; lia.
Qed.

(** The three fields of an assembled word. *)
Lemma bits_fields (s : bool) (e m : N) :
  (e < 2048)%N → (m < 2 ^ 52)%N →
  let b := (sign_bit s + e * 2 ^ 52 + m)%N in
  N.testbit b 63 = s ∧ ((b / 2 ^ 52) mod 2048)%N = e ∧ (b mod 2 ^ 52)%N = m.
Proof.
  intros He Hm b.
  assert (b = (2 ^ 52 * (N.b2n s * 2048 + e) + m)%N) as Hb.
  { unfold b, sign_bit. destruct s; cbn [N.b2n]; lia. }
  assert (b / 2 ^ 52 = N.b2n s * 2048 + e)%N as Hq.
  { symmetry. apply (N.div_unique _ _ _ m); [done|lia]. }
  split_and!.
  - apply N.b2n_inj. rewrite N.testbit_spec'.
    change (2 ^ 63)%N with (2 ^ 52 * 2048)%N. rewrite <- N.Div0.div_div, Hq.
    assert ((N.b2n s * 2048 + e) / 2048 = N.b2n s)%N as ->.
    { symmetry. apply (N.div_unique _ _ _ e); [done|lia]. }
    apply N.mod_small. destruct s; cbn; lia.
  - rewrite Hq. symmetry. apply (N.mod_unique _ _ (N.b2n s)); [done|lia].
  - rewrite Hb. symmetry. apply (N.mod_unique _ _ (N.b2n s * 2048 + e)); [done|lia].
Qed.

Lemma f64_of_bits_fields s e m :
  (e < 2048)%N → (m < 2 ^ 52)%N →
  f64_of_bits (sign_bit s + e * 2 ^ 52 + m) =
    if (e =? 0)%N then match m with N0 => S754_zero s | Npos p => S754_finite s p (-1074) end
    else if (e =? 2047)%N then match m with N0 => S754_infinity s | Npos _ => S754_nan end
    else match (m + 2 ^ 52)%N with
         | N0 => S754_zero s | Npos p => S754_finite s p (Z.of_N e - 1075) end.
Proof.
  intros He Hm. unfold f64_of_bits.
  destruct (bits_fields s e m He Hm) as (Hs & -> & ->). by rewrite Hs.
Qed.

Lemma f64_of_to_bits x : f64_valid x → f64_of_bits (f64_to_bits x) = x.
Proof.
  destruct x as [[]|[]| |s m e]; try done. intros H%bounded_inv.
  unfold f64_to_bits. destruct (N.pos m <? 2 ^ 52)%N eqn:Hm; bools.
  - replace (sign_bit s + N.pos m)%N with (sign_bit s + 0 * 2 ^ 52 + N.pos m)%N by lia.
    rewrite f64_of_bits_fields by lia. destruct H as [[-> _]|]; [done|lia].
  - destruct H as [|[He Hb]]; [lia|].
    rewrite f64_of_bits_fields by lia.
    assert ((Z.to_N (e + 1075) =? 0)%N = false) as -> by (apply N.eqb_neq; lia).
    assert ((Z.to_N (e + 1075) =? 2047)%N = false) as -> by (apply N.eqb_neq; lia).
    replace (N.pos m - 2 ^ 52 + 2 ^ 52)%N with (N.pos m) by lia. f_equal. lia.
Qed.

Lemma f64_of_bits_valid b : f64_valid (f64_of_bits b).
Proof.
  unfold f64_of_bits, f64_valid. set (m := (b mod 2 ^ 52)%N).
  set (e := ((b / 2 ^ 52) mod 2048)%N).
  assert (m < 2 ^ 52)%N as Hm by (by apply N.mod_lt).
  assert (e < 2048)%N as He by (by apply N.mod_lt).
  repeat case_match; bools; try done; cbn [valid_binary];
    unfold bounded, canonical_mantissa, fexp, emin, prec, emax;
    apply andb_true_iff; rewrite Z.eqb_eq, Z.leb_le; pose proof (digits2_pos_bounds p) as [Hlo Hhi].
  - split; [|done]. destruct (decide (Z.pos (digits2_pos p) ≤ 52)%Z); [lia|exfalso].
    assert (2 ^ 52 ≤ 2 ^ (Z.pos (digits2_pos p) - 1))%Z by (apply Z.pow_le_mono_r; lia). lia.
  - assert (Z.pos (digits2_pos p) = 53)%Z as ->; [|lia].
    destruct (decide (Z.pos (digits2_pos p) ≤ 52)%Z).
    + assert (2 ^ Z.pos (digits2_pos p) ≤ 2 ^ 52)%Z by (apply Z.pow_le_mono_r; lia). lia.
    + destruct (decide (54 ≤ Z.pos (digits2_pos p))%Z); [exfalso|lia].
      assert (2 ^ 53 ≤ 2 ^ (Z.pos (digits2_pos p) - 1))%Z by (apply Z.pow_le_mono_r; lia). lia.
Qed.


#[export] Hint Resolve nonneg_not_nan f64_leb_refl f64_min_le_l f64_min_le_r f64_add_nonneg
  f64_max_zero_nonneg f64_to_bits_bound f64_of_bits_valid : rust.
