(* ===== verification/identity.v ===== *)
(** * Identities ([src/identity.rs])

    UUIDs come from the [uuid] crate, which is not part of the sources: [UuidLib] is what the code
    uses of it and [UuidLaws] the documented behaviour the theorems rely on. [new_v4 n] is the
    [n]-th version-4 UUID drawn in a run, so that an operation that draws UUIDs threads the number
    of draws made so far. *)
From S2P Require Import prelude.

Class UuidLib := {
  Uuid : Type;
  parse_str : string → option Uuid;
  uuid_to_string : Uuid → string;
  get_version_num : Uuid → N;
  new_v4 : nat → Uuid;
}.

(** Parsing inverts formatting, [new_v4] yields version 4, and the empty string is no UUID. *)
Class UuidLaws (U : UuidLib) : Prop := {
  parse_to_string : ∀ u, parse_str (uuid_to_string u) = Some u;
  new_v4_version : ∀ n, get_version_num (new_v4 n) = 4%N;
  parse_empty : parse_str EmptyString = None;
}.

(** The draws numbered [lo] to [hi - 1] are pairwise different. *)
Definition draws_distinct `{UuidLib} (lo hi : nat) : Prop :=
  ∀ i j, lo ≤ i < hi → lo ≤ j < hi → new_v4 i = new_v4 j → i = j.

Module Kind.
Inductive t := Participant | LogicalNode | Lease | VirtualMachine.
#[global] Instance eq_dec : EqDecision t.
Proof. solve_decision. Defined.
End Kind.

Module IdentityError.
Inductive t := Empty | InvalidUuid | NonCanonical | WrongVersion.
#[global] Instance eq_dec : EqDecision t.
Proof. solve_decision. Defined.
End IdentityError.

Module Identity.
Record t := mk { id : string; kind : Kind.t }.
#[global] Instance eq_dec : EqDecision t.
Proof. solve_decision. Defined.

Section ops.
Context `{UuidLib}.

Definition new (k : Kind.t) (n : nat) : t * nat :=
  ({| id := uuid_to_string (new_v4 n); kind := k |}, S n).

Definition parse (s : string) (k : Kind.t) : result IdentityError.t t :=
  if is_empty_str s then Err IdentityError.Empty
  else
    uuid ← ok_or (parse_str s) IdentityError.InvalidUuid;
    if negb (bool_decide (uuid_to_string uuid = s)) then Err IdentityError.NonCanonical
    else if negb (get_version_num uuid =? 4)%N then Err IdentityError.WrongVersion
    else Ok {| id := s; kind := k |}.

Definition validate (self : t) : result IdentityError.t () :=
  _ ← parse (id self) (kind self); Ok ().
End ops.
End Identity.

(** ** The strings that name a version-4 UUID in canonical form *)

Definition v4_string `{UuidLib} (s : string) : Prop :=
  ∃ u, uuid_to_string u = s ∧ parse_str s = Some u ∧ get_version_num u = 4%N ∧ s ≠ EmptyString.

(** An identity of the kind a caller demands, as every registry checks it. *)
Definition valid_identity `{UuidLib} (k : Kind.t) (i : Identity.t) : Prop :=
  Identity.kind i = k ∧ v4_string (Identity.id i).

(** The guard [id.kind != k || id.validate().is_err()]. *)
Definition bad_identity `{UuidLib} (k : Kind.t) (i : Identity.t) : bool :=
  negb (bool_decide (Identity.kind i = k)) || is_err (Identity.validate i).

Section lemmas.
Context `{UuidLib}.

Lemma parse_ok s k i : Identity.parse s k = Ok i ↔ i = Identity.mk s k ∧ v4_string s.
Proof.
  unfold Identity.parse, v4_string. split.
  - intros H0. case_match eqn:He; [done|]. invert_result. repeat case_match; bools; simplify_eq.
    apply is_empty_str_false in He. eauto 10.
  - intros [-> (u & Hs & Hp & Hv & He)]. apply is_empty_str_false in He as ->. rewrite Hp. simpl.
    rewrite bool_decide_true by done. by rewrite Hv.
Qed.

Lemma parse_no_panic s k : Identity.parse s k ≠ Panic.
Proof. unfold Identity.parse. intros ?. case_match; [done|]. invert_result. guards. Qed.

Lemma validate_ok i : Identity.validate i = Ok () ↔ v4_string (Identity.id i).
Proof.
  unfold Identity.validate. rewrite result_bind_ok. split.
  - by intros (? & [_ ?]%parse_ok & _).
  - intros Hv. eexists. split; [by apply parse_ok|done].
Qed.

Lemma validate_no_panic i : Identity.validate i ≠ Panic.
Proof. unfold Identity.validate. intros ?. invert_result. by eapply parse_no_panic. Qed.

Lemma validate_is_err i : is_err (Identity.validate i) = false ↔ v4_string (Identity.id i).
Proof.
  rewrite <- validate_ok. pose proof (validate_no_panic i).
  destruct (Identity.validate i) as [[]| |]; simpl; split; congruence.
Qed.

Lemma bad_identity_false k i : bad_identity k i = false ↔ valid_identity k i.
Proof.
  unfold bad_identity, valid_identity.
  rewrite orb_false_iff, negb_false_iff, bool_decide_eq_true, validate_is_err. done.
Qed.

Lemma bad_identity_true k i : bad_identity k i = true ↔ ¬ valid_identity k i.
Proof. rewrite <- bad_identity_false. by destruct (bad_identity k i). Qed.

Context `{!UuidLaws _}.

Lemma v4_string_canonical s :
  v4_string s ↔ ∃ u, uuid_to_string u = s ∧ get_version_num u = 4%N.
Proof.
  split; [intros (u & ? & ? & ? & ?); eauto|]. intros (u & <- & Hv). exists u. split_and!; try done.
  - apply parse_to_string.
  - intros He. pose proof (parse_to_string u) as Hp. rewrite He, parse_empty in Hp. done.
Qed.

Lemma v4_string_new n : v4_string (uuid_to_string (new_v4 n)).
Proof. apply v4_string_canonical. eauto using new_v4_version. Qed.

Lemma uuid_to_string_inj u v : uuid_to_string u = uuid_to_string v → u = v.
Proof. intros Heq. apply (inj Some). by rewrite <- !parse_to_string, Heq. Qed.

Lemma valid_identity_new k n : valid_identity k (Identity.new k n).1.
Proof. split; [done|]. apply v4_string_new. Qed.

(** Freshly drawn identities of different draws have different strings. *)
Lemma new_id_inj lo hi i j :
  draws_distinct lo hi → lo ≤ i < hi → lo ≤ j < hi →
  uuid_to_string (new_v4 i) = uuid_to_string (new_v4 j) → i = j.
Proof. intros Hd Hi Hj Heq. apply Hd; [done..|]. by apply uuid_to_string_inj. Qed.
End lemmas.


#[export] Hint Resolve parse_no_panic validate_no_panic v4_string_new valid_identity_new : rust.

(** ** Properties *)

(** C31: [Identity::parse] accepts exactly the canonical spellings of version-4 UUIDs and keeps the
    string and the kind it was given. *)
Theorem parse_accepts_canonical_v4 `{UuidLaws} (s : string) (k : Kind.t) (i : Identity.t) :
  Identity.parse s k = Ok i ↔
  i = Identity.mk s k ∧ ∃ u, uuid_to_string u = s ∧ get_version_num u = 4%N.
Proof. by rewrite parse_ok, v4_string_canonical. Qed.
