(* ===== verification/uuid_demo.v ===== *)
(** * A concrete UUID library

    An executable instance of [UuidLib] for evaluating the model on concrete inputs: UUIDs are the
    36-character lower-case hyphenated strings, parsing also accepts upper-case digits, the version
    is the digit after the second hyphen, and the [n]-th draw carries [n] in its first group. *)
From S2P Require Import prelude identity.
From stdpp Require Import list.

Definition is_hex (c : ascii) : bool :=
  let n := N_of_ascii c in
  ((48 <=? n) && (n <=? 57))%N || ((97 <=? n) && (n <=? 102))%N.

Definition lower (c : ascii) : ascii :=
  let n := N_of_ascii c in
  if ((65 <=? n) && (n <=? 90))%N then ascii_of_N (n + 32) else c.

Definition hyphen : ascii := "-"%char.

(** [hex_group k l]: [l] starts with [k] digits; the rest of [l]. *)
Fixpoint hex_group (k : nat) (l : list ascii) : option (list ascii) :=
  match k, l with
  | O, _ => Some l
  | S k, c :: l => if is_hex c then hex_group k l else None
  | S _, [] => None
  end.
Definition hyphen_then (l : list ascii) : option (list ascii) :=
  match l with c :: l => if bool_decide (c = hyphen) then Some l else None | [] => None end.

Definition canonical (l : list ascii) : bool :=
  match
    l ← hex_group 8 l; l ← hyphen_then l; l ← hex_group 4 l; l ← hyphen_then l;
    l ← hex_group 4 l; l ← hyphen_then l; l ← hex_group 4 l; l ← hyphen_then l;
    hex_group 12 l
  with Some [] => true | _ => false end.

Record uuid := mk_uuid { text : list ascii; text_ok : canonical text = true }.

Lemma uuid_eq u v : text u = text v → u = v.
Proof.
  destruct u as [l p], v as [l' q]. simpl. intros ->. f_equal. apply (proof_irrel p q).
Qed.

Definition uuid_of_text (l : list ascii) : option uuid :=
  match canonical l as b return canonical l = b → option uuid with
  | true => λ H, Some (mk_uuid l H)
  | false => λ _, None
  end eq_refl.

Lemma uuid_of_text_some l (H : canonical l = true) : uuid_of_text l = Some (mk_uuid l H).
Proof.
  unfold uuid_of_text. generalize (eq_refl (canonical l)).
  generalize (canonical l) at 2 3. intros [] Hb; [|congruence]. f_equal. by apply uuid_eq.
Qed.

Definition hex_value (c : ascii) : N :=
  let n := N_of_ascii c in if (n <=? 57)%N then n - 48 else n - 87.

Definition hex_digit (n : N) : ascii :=
  if (n <? 10)%N then ascii_of_N (48 + n) else if (n <? 16)%N then ascii_of_N (87 + n) else "0"%char.

Lemma is_hex_hex_digit n : is_hex (hex_digit n) = true.
Proof.
  unfold hex_digit, is_hex. repeat case_match; bools; [| |done]; rewrite N_ascii_embedding by lia.
  - apply orb_true_iff. left. apply andb_true_iff. rewrite !N.leb_le. lia.
  - apply orb_true_iff. right. apply andb_true_iff. rewrite !N.leb_le. lia.
Qed.

Fixpoint hex_digits (k : nat) (n : N) : list ascii :=
  match k with O => [] | S k => hex_digits k (n / 16) ++ [hex_digit (n mod 16)] end.

Lemma hex_group_hex_digits k n l : hex_group k (hex_digits k n ++ l) = Some l.
Proof.
  revert n l. induction k as [|k IH]; intros n l; [done|].
  assert (∀ k l1 c l2, hex_group k (l1 ++ c :: l2) = Some (c :: l2) → is_hex c = true →
    hex_group (S k) (l1 ++ c :: l2) = Some l2) as Hstep.
  { clear. induction k as [|k IH]; intros l1 c l2 Hg Hc.
    - simpl in Hg. simplify_eq. rewrite Hg. simpl. by rewrite Hc.
    - destruct l1 as [|a l1].
      + simpl in Hg |- *. rewrite Hc in Hg |- *. exfalso.
        assert (∀ k l l', hex_group k l = Some l' → length l' ≤ length l) as Hlen.
        { clear. induction k; intros [|? l] l' He; simpl in *; simplify_eq; try done.
          case_match; [|done]. apply IHk in He. simpl. lia. }
        apply Hlen in Hg. simpl in Hg. lia.
      + simpl in Hg |- *. case_match; [|done]. by apply IH. }
  cbn [hex_digits]. rewrite <- app_assoc. simpl. apply Hstep; [apply IH|apply is_hex_hex_digit].
Qed.

Definition v4_tail : list ascii := String.list_ascii_of_string "-0000-4000-8000-000000000000".

Lemma canonical_v4 n : canonical (hex_digits 8 n ++ v4_tail) = true.
Proof. unfold canonical. rewrite hex_group_hex_digits. vm_compute. done. Qed.

#[export] Instance demo_lib : UuidLib := {
  Uuid := uuid;
  parse_str s := uuid_of_text (lower <$> String.list_ascii_of_string s);
  uuid_to_string u := String.string_of_list_ascii (text u);
  get_version_num u := from_option hex_value 0%N (text u !! 14);
  new_v4 n := mk_uuid (hex_digits 8 (N.of_nat n) ++ v4_tail) (canonical_v4 (N.of_nat n));
}.

Lemma lower_hex c : is_hex c = true → lower c = c.
Proof.
  unfold is_hex, lower. intros H. case_match eqn:E; [|done]. exfalso. bools; lia.
Qed.

Lemma lower_hex_group k l l' :
  hex_group k l = Some l' → lower <$> l' = l' → lower <$> l = l.
Proof.
  revert l. induction k as [|k IH]; intros l Hg Hl'; [naive_solver|].
  destruct l as [|c l]; [done|]. simpl in Hg. case_match; [|done]. csimpl.
  rewrite lower_hex by done. f_equal. by apply IH.
Qed.

Lemma lower_hyphen l l' : hyphen_then l = Some l' → lower <$> l' = l' → lower <$> l = l.
Proof.
  destruct l as [|c l]; [done|]. cbn [hyphen_then]. case_bool_decide; [|done]. intros [= ->] Hl'.
  subst c. rewrite fmap_cons, Hl'. done.
Qed.

Lemma lower_canonical l : canonical l = true → lower <$> l = l.
Proof.
  unfold canonical. intros H. case_match eqn:E; [|done]. case_match; [|done]. subst.
  repeat match goal with
  | E : _ ≫= _ = Some _ |- _ => apply bind_Some in E as (? & ? & E)
  end.
  repeat first [eassumption | eapply lower_hex_group; [eassumption|]
               | eapply lower_hyphen; [eassumption|]]. done.
Qed.

#[export] Instance demo_laws : UuidLaws demo_lib.
Proof.
  split.
  - intros [l Hl]. simpl. rewrite String.list_ascii_of_string_of_list_ascii.
    rewrite lower_canonical by done. apply uuid_of_text_some.
  - intros n. reflexivity.
  - done.
Qed.

Definition uuid_a : string := "550e8400-e29b-41d4-a716-446655440000".
Definition uuid_upper : string := "550E8400-E29B-41D4-A716-446655440000".
Definition uuid_b : string := "650e8400-e29b-41d4-a716-446655440000".

Lemma parse_accepts_canonical_v4_witness :
  Identity.parse uuid_a Kind.LogicalNode = Ok (Identity.mk uuid_a Kind.LogicalNode) ∧
  ∃ u, uuid_to_string u = uuid_a ∧ get_version_num u = 4%N.
Proof.
  assert (Identity.parse uuid_a Kind.LogicalNode = Ok (Identity.mk uuid_a Kind.LogicalNode)) as H
    by (vm_compute; reflexivity).
  split; [exact H|].
  exact (proj2 (proj1 (parse_accepts_canonical_v4 uuid_a Kind.LogicalNode _) H)).
Defined.

Example parse_upper : Identity.parse uuid_upper Kind.Participant = Err IdentityError.NonCanonical.
Proof. vm_compute. reflexivity. Qed.
