(* ===== verification/resource.v ===== *)
(** * Resources ([src/resource.rs])

    Fragments, their aggregation by [+], and composite resources: a capacity with the allocations
    that back it. [u64] and [u32] quantities are numbers in [N] with the saturation of the code
    written out; CPU cores are [f64]. *)
From S2P Require Import prelude bytes time float.
From stdpp Require Import list.

Module Cpu.
Record t := mk { cores : f64 }.
#[global] Instance eq_dec : EqDecision t.
Proof. solve_decision. Defined.
End Cpu.

Module Memory.
Record t := mk { bytes : N }.
#[global] Instance eq_dec : EqDecision t.
Proof. solve_decision. Defined.
End Memory.

Module Storage.
Record t := mk { bytes : N }.
#[global] Instance eq_dec : EqDecision t.
Proof. solve_decision. Defined.
End Storage.

Module Network.
Record t := mk { bits_per_second : N }.
#[global] Instance eq_dec : EqDecision t.
Proof. solve_decision. Defined.
End Network.

Module Gpu.
Record t := mk { units : N }.
#[global] Instance eq_dec : EqDecision t.
Proof. solve_decision. Defined.
End Gpu.

Module ResourceError.
Inductive t :=
  InvalidCpu | EmptyRequirement | EmptyComposite | InvalidAllocation | DuplicateParticipant
| CapacityMismatch.
#[global] Instance eq_dec : EqDecision t.
Proof. solve_decision. Defined.
End ResourceError.

Module ResourceFragment.
Record t := mk {
  cpu : Cpu.t;
  memory : Memory.t;
  storage : Storage.t;
  network : Network.t;
  gpu : Gpu.t;
  lifetime : option Duration;
}.
#[global] Instance eq_dec : EqDecision t.
Proof. solve_decision. Defined.

Definition default : t := {|
  cpu := Cpu.mk f64_zero;
  memory := Memory.mk 0;
  storage := Storage.mk 0;
  network := Network.mk 0;
  gpu := Gpu.mk 0;
  lifetime := None;
|}.

(** The fields as the code reads them. *)
Definition cores (r : t) : f64 := Cpu.cores (cpu r).
Definition mem (r : t) : N := Memory.bytes (memory r).
Definition sto (r : t) : N := Storage.bytes (storage r).
Definition bps (r : t) : N := Network.bits_per_second (network r).
Definition units (r : t) : N := Gpu.units (gpu r).

(** The derived [PartialEq]: floats compare by value, so [-0.0 == 0.0] and [NaN != NaN]. *)
Definition eqb (a b : t) : bool :=
  f64_eqb (cores a) (cores b) && (mem a =? mem b)%N && (sto a =? sto b)%N && (bps a =? bps b)%N &&
  (units a =? units b)%N && bool_decide (lifetime a = lifetime b).

Definition validate (self : t) : result ResourceError.t () :=
  if negb (is_finite (cores self)) || f64_ltb (cores self) f64_zero
  then Err ResourceError.InvalidCpu
  else Ok ().

Definition is_empty (self : t) : bool :=
  f64_eqb (cores self) f64_zero && (mem self =? 0)%N && (sto self =? 0)%N && (bps self =? 0)%N &&
  (units self =? 0)%N.

Definition validate_requirement (self : t) : result ResourceError.t () :=
  _ ← validate self;
  if is_empty self then Err ResourceError.EmptyRequirement else Ok ().

Definition lifetime_covers (actual required : option Duration) : bool :=
  match actual, required with
  | _, None | None, Some _ => true
  | Some actual, Some required => (required <=? actual)%N
  end.

Definition satisfies (self requirement : t) : bool :=
  f64_geb (cores self) (cores requirement) && (mem requirement <=? mem self)%N &&
  (sto requirement <=? sto self)%N && (bps requirement <=? bps self)%N &&
  (units requirement <=? units self)%N && lifetime_covers (lifetime self) (lifetime requirement).

Definition min_lifetime (a b : option Duration) : option Duration :=
  match a, b with
  | None, x | x, None => x
  | Some a, Some b => Some (N.min a b)
  end.

(** [impl Add for ResourceFragment]. *)
Definition add (self other : t) : t := {|
  cpu := Cpu.mk (f64_add (cores self) (cores other));
  memory := Memory.mk (saturating_add U64_MAX (mem self) (mem other));
  storage := Storage.mk (saturating_add U64_MAX (sto self) (sto other));
  network := Network.mk (saturating_add U64_MAX (bps self) (bps other));
  gpu := Gpu.mk (saturating_add U32_MAX (units self) (units other));
  lifetime := min_lifetime (lifetime self) (lifetime other);
|}.

(** The widths of the fields, which Rust's types guarantee. *)
Definition wf (r : t) : Prop :=
  (mem r ≤ U64_MAX ∧ sto r ≤ U64_MAX ∧ bps r ≤ U64_MAX ∧ units r ≤ U32_MAX)%N ∧
  (∀ d, lifetime r = Some d → Duration.wf d).
End ResourceFragment.

Module Allocation.
Record t := mk { participant_id : string; resources : ResourceFragment.t }.
#[global] Instance eq_dec : EqDecision t.
Proof. solve_decision. Defined.
End Allocation.

Module CompositeResource.
Record t := mk { capacity : ResourceFragment.t; allocations : list Allocation.t }.
#[global] Instance eq_dec : EqDecision t.
Proof. solve_decision. Defined.

(** The loop of [compose]: [seen] is the set of participants met so far. *)
Fixpoint compose_loop (seen : gset string) (capacity : ResourceFragment.t)
    (allocations : list Allocation.t) : result ResourceError.t ResourceFragment.t :=
  match allocations with
  | [] => Ok capacity
  | allocation :: rest =>
    if is_empty_str (Allocation.participant_id allocation) then Err ResourceError.InvalidAllocation
    else if bool_decide (Allocation.participant_id allocation ∈ seen)
    then Err ResourceError.DuplicateParticipant
    else
      _ ← ResourceFragment.validate_requirement (Allocation.resources allocation)
            .map_err (λ _, ResourceError.InvalidAllocation);
      compose_loop ({[Allocation.participant_id allocation]} ∪ seen)
        (ResourceFragment.add capacity (Allocation.resources allocation)) rest
  end.

Definition compose (allocations : list Allocation.t) : result ResourceError.t t :=
  match allocations with
  | [] => Err ResourceError.EmptyComposite
  | _ =>
    capacity ← compose_loop ∅ ResourceFragment.default allocations;
    Ok {| capacity := capacity; allocations := allocations |}
  end.

Definition validate (self : t) : result ResourceError.t () :=
  rebuilt ← compose (allocations self);
  if negb (ResourceFragment.eqb (capacity rebuilt) (capacity self))
  then Err ResourceError.CapacityMismatch
  else Ok ().

Definition satisfies (self : t) (requirement : ResourceFragment.t) : bool :=
  ResourceFragment.satisfies (capacity self) requirement.

(** [allocations.iter().find(|a| a.participant_id == participant_id)]. *)
Definition find_allocation (participant_id : string) (l : list Allocation.t) : option Allocation.t :=
  snd <$> list_find (λ a, Allocation.participant_id a = participant_id) l.

Definition allocation_for (self : t) (participant_id : string) : option Allocation.t :=
  find_allocation participant_id (allocations self).
End CompositeResource.

(** ** Fragments *)

Section fragment.
Import ResourceFragment.
Implicit Types r : ResourceFragment.t.

(** What [validate] and [validate_requirement] accept. *)
Definition valid_fragment r : Prop := is_finite (cores r) = true ∧ nonneg (cores r) = true.
Definition valid_requirement r : Prop := valid_fragment r ∧ is_empty r = false.

Lemma fragment_validate_ok r : validate r = Ok () ↔ valid_fragment r.
Proof.
  unfold validate, valid_fragment. destruct (is_finite (cores r)) eqn:Hf; simpl.
  - rewrite finite_not_lt_zero by done. destruct (nonneg (cores r)); simpl; intuition congruence.
  - intuition congruence.
Qed.

Lemma fragment_validate_err r e : validate r = Err e → e = ResourceError.InvalidCpu.
Proof. unfold validate. case_match; congruence. Qed.

Lemma fragment_validate_no_panic r : validate r ≠ Panic.
Proof. unfold validate. by case_match. Qed.

Lemma requirement_ok r : validate_requirement r = Ok () ↔ valid_requirement r.
Proof.
  unfold validate_requirement, valid_requirement. rewrite result_bind_ok. split.
  - intros ([] & Hv%fragment_validate_ok & H). by case_match.
  - intros [Hv%fragment_validate_ok ->]. eauto.
Qed.

Lemma requirement_no_panic r : validate_requirement r ≠ Panic.
Proof.
  unfold validate_requirement. intros H. invert_result; [by eapply fragment_validate_no_panic|].
  by case_match.
Qed.

Lemma requirement_ok_dec r : {valid_requirement r} + {∃ e, validate_requirement r = Err e}.
Proof.
  destruct (validate_requirement r) as [[]|e|] eqn:H.
  - left. by apply requirement_ok.
  - right. eauto.
  - by apply requirement_no_panic in H.
Qed.

Lemma fragment_eqb_refl r : is_nan (cores r) = false → eqb r r = true.
Proof.
  intros Hn. unfold eqb. rewrite f64_eqb_refl, Hn, !N.eqb_refl. by rewrite bool_decide_true.
Qed.

Lemma satisfies_not_nan r q : satisfies r q = true → is_nan (cores r) = false.
Proof. unfold satisfies, f64_geb. intros H. bools. by eapply f64_leb_not_nan. Qed.

Lemma default_nonneg : nonneg (cores default) = true.
Proof. done. Qed.

Lemma add_wf a b : wf a → wf b → wf (add a b).
Proof.
  unfold wf, add, mem, sto, bps, units, saturating_add. simpl.
  intros [? Ha] [? Hb]. split; [lia|]. intros d.
  destruct (lifetime a) as [x|], (lifetime b) as [y|]; simpl; intros [= <-]; eauto.
  destruct (N.min_spec x y) as [[_ ->]|[_ ->]]; eauto.
Qed.
End fragment.

#[export] Hint Resolve fragment_validate_no_panic requirement_no_panic : rust.

(** ** Sums of allocations *)

Abbreviation resources_of := (fmap Allocation.resources).
Abbreviation ids_of := (fmap Allocation.participant_id).

(** The capacity that [compose] computes, in the order of the allocations. *)
Definition sum_from (r : ResourceFragment.t) (l : list Allocation.t) : ResourceFragment.t :=
  foldl (λ total a, ResourceFragment.add total (Allocation.resources a)) r l.
Abbreviation sum_of := (sum_from ResourceFragment.default).

(** An allocation [compose] accepts on its own. *)
Definition valid_allocation (a : Allocation.t) : Prop :=
  Allocation.participant_id a ≠ EmptyString ∧ valid_requirement (Allocation.resources a).

Section compose.
Import CompositeResource.

Lemma compose_loop_ok l seen r c :
  compose_loop seen r l = Ok c ↔
  Forall valid_allocation l ∧ NoDup (ids_of l) ∧ (∀ x, x ∈ ids_of l → x ∉ seen) ∧
  c = sum_from r l.
Proof.
  revert seen r. induction l as [|a l IH]; intros seen r; cbn [compose_loop].
  { split; [intros [= <-]; split_and!; [done|constructor|set_solver|done]|naive_solver]. }
  rewrite Forall_cons, fmap_cons, NoDup_cons. unfold valid_allocation at 1. split.
  - case_match eqn:He; [done|]. apply is_empty_str_false in He.
    case_bool_decide as Hs; [done|]. intros H. invert_result.
    match goal with H : ResourceFragment.validate_requirement _ = _ |- _ =>
      apply requirement_ok in H end.
    apply IH in H as (Hall & Hnd & Hseen & ->).
    split_and!; try done; set_solver.
  - intros ([[He%is_empty_str_false Hv%requirement_ok] Hall] & [Ha Hnd] & Hseen & ->).
    rewrite He, bool_decide_false by set_solver. rewrite Hv. simpl.
    apply IH. split_and!; try done. set_solver.
Qed.

Lemma compose_ok l c :
  compose l = Ok c ↔
  l ≠ [] ∧ Forall valid_allocation l ∧ NoDup (ids_of l) ∧ c = mk (sum_of l) l.
Proof.
  unfold compose. destruct l as [|a l]; [naive_solver|]. rewrite result_bind_ok. split.
  - intros (r & (? & ? & ? & ->)%compose_loop_ok & [= <-]). done.
  - intros (_ & ? & ? & ->). eexists. split; [|done]. apply compose_loop_ok.
    by split_and!.
Qed.

Lemma compose_loop_no_panic l seen r : compose_loop seen r l ≠ Panic.
Proof.
  revert seen r. induction l as [|a l IH]; intros seen r H; [done|]. cbn [compose_loop] in H.
  do 2 (case_match; [done|]). invert_result; [by eapply requirement_no_panic|by eapply IH].
Qed.

Lemma compose_no_panic l : compose l ≠ Panic.
Proof.
  unfold compose. intros H. case_match; [done|]. invert_result. by eapply compose_loop_no_panic.
Qed.

Lemma sum_from_nonneg l r :
  nonneg (ResourceFragment.cores r) = true → Forall valid_allocation l →
  nonneg (ResourceFragment.cores (sum_from r l)) = true.
Proof.
  intros Hr Hl. revert r Hr. induction Hl as [|a l Ha Hl IH]; intros r Hr; [done|].
  apply IH. apply f64_add_nonneg; [done|]. apply Ha.
Qed.

Lemma sum_from_wf l r :
  ResourceFragment.wf r → Forall ResourceFragment.wf (resources_of l) →
  ResourceFragment.wf (sum_from r l).
Proof.
  revert r. induction l as [|a l IH]; intros r Hr; [done|]. rewrite fmap_cons, Forall_cons.
  intros [Ha Hl]. apply IH; [|done]. by apply add_wf.
Qed.

(** A saturating field of a sum is the exact sum cut off at the maximum. *)
Lemma sum_from_field (f : ResourceFragment.t → N) (max : N) l r :
  (∀ a b, f (ResourceFragment.add a b) = saturating_add max (f a) (f b)) →
  (f r ≤ max)%N →
  f (sum_from r l) = N.min max (f r + foldr N.add 0%N (f <$> resources_of l)).
Proof.
  intros Hf. revert r. induction l as [|a l IH]; intros r Hr; [simpl; lia|].
  change (sum_from r (a :: l)) with (sum_from (ResourceFragment.add r (Allocation.resources a)) l).
  rewrite !fmap_cons. cbn [foldr]. rewrite IH; rewrite Hf; unfold saturating_add; lia.
Qed.

(** The cores are added up in the order of the allocations. *)
Lemma sum_from_cores l r :
  ResourceFragment.cores (sum_from r l) =
  foldl f64_add (ResourceFragment.cores r) (ResourceFragment.cores <$> resources_of l).
Proof. revert r. induction l as [|a l IH]; intros r; [done|]. apply IH. Qed.

Lemma sum_from_lifetime l r :
  ResourceFragment.lifetime (sum_from r l) =
  foldl ResourceFragment.min_lifetime (ResourceFragment.lifetime r)
    (ResourceFragment.lifetime <$> resources_of l).
Proof. revert r. induction l as [|a l IH]; intros r; [done|]. apply IH. Qed.

Lemma composed_validates l c : compose l = Ok c → validate c = Ok ().
Proof.
  intros Hl. unfold validate. apply compose_ok in Hl as Hl'. destruct Hl' as (_ & Hall & _ & ->).
  simpl. rewrite Hl. simpl. rewrite fragment_eqb_refl; [done|].
  by apply nonneg_not_nan, sum_from_nonneg.
Qed.

Lemma find_allocation_some x l a :
  find_allocation x l = Some a → a ∈ l ∧ Allocation.participant_id a = x.
Proof.
  unfold find_allocation. intros ([i b] & Hf & ->)%fmap_Some.
  apply list_find_Some in Hf as (Hi & Hp & _). split; [by eapply list_elem_of_lookup_2|done].
Qed.

Lemma find_allocation_elem l a :
  NoDup (ids_of l) → a ∈ l → find_allocation (Allocation.participant_id a) l = Some a.
Proof.
  intros Hnd Ha. unfold find_allocation.
  destruct (list_find_elem_of
    (λ b, Allocation.participant_id b = Allocation.participant_id a) l a Ha eq_refl) as [[i b] Hf].
  rewrite Hf. simpl. apply list_find_Some in Hf as (Hi & Hp & _). f_equal.
  eapply (NoDup_key_inj Allocation.participant_id); [done|by eapply list_elem_of_lookup_2|done|done].
Qed.
End compose.

(** ** The first allocation at fault *)

(** [a] is rejected with [e] after the allocations of [l1] were accepted. *)
Definition rejected (seen : gset string) (l1 : list Allocation.t) (a : Allocation.t)
    (e : ResourceError.t) : Prop :=
  let x := Allocation.participant_id a in
  (x ≠ EmptyString ∧ (x ∈ seen ∨ x ∈ ids_of l1) ∧ e = ResourceError.DuplicateParticipant) ∨
  (¬ valid_allocation a ∧ (x ∉ seen) ∧ (x ∉ ids_of l1) ∧ e = ResourceError.InvalidAllocation).

Lemma compose_loop_cons_err seen r a l e :
  EmptyString ∉ seen →
  CompositeResource.compose_loop seen r (a :: l) = Err e ↔
  rejected seen [] a e ∨
  (valid_allocation a ∧ (Allocation.participant_id a ∉ seen) ∧
   CompositeResource.compose_loop ({[Allocation.participant_id a]} ∪ seen)
     (ResourceFragment.add r (Allocation.resources a)) l = Err e).
Proof.
  intros Hs. unfold rejected, valid_allocation. cbn [CompositeResource.compose_loop].
  destruct (is_empty_str (Allocation.participant_id a)) eqn:He.
  - apply is_empty_str_true in He. rewrite He. set_solver.
  - apply is_empty_str_false in He. case_bool_decide as Hin; [set_solver|].
    destruct (requirement_ok_dec (Allocation.resources a)) as [Hv|[e' Hv]].
    + apply requirement_ok in Hv as Hv'. rewrite Hv'. simpl. split; [by auto|].
      intros [[|(Hn & _)]|(_ & _ & Hl)]; [set_solver|by destruct Hn|done].
    + rewrite Hv. simpl. assert (¬ valid_requirement (Allocation.resources a)) as Hn.
      { rewrite <- requirement_ok, Hv. done. }
      split; [intros [= <-]; left; right; set_solver|].
      intros [[|(_ & _ & _ & ->)]|([_ ?] & _)]; [set_solver|done|done].
Qed.

Lemma compose_loop_err l seen r e :
  EmptyString ∉ seen →
  CompositeResource.compose_loop seen r l = Err e ↔
  ∃ l1 a l2, l = l1 ++ a :: l2 ∧ Forall valid_allocation l1 ∧ NoDup (ids_of l1) ∧
    (∀ x, x ∈ ids_of l1 → x ∉ seen) ∧ rejected seen l1 a e.
Proof.
  revert seen r. induction l as [|b l IH]; intros seen r Hs.
  { split; [done|]. by intros ([] & ? & ? & ? & _). }
  rewrite compose_loop_cons_err by done. split.
  - intros [Hr|(Hv & Hb & Hl)].
    { exists [], b, l. split_and!; [done..|constructor|set_solver|done]. }
    apply IH in Hl as (l1 & a & l2 & -> & Hall & Hnd & Hseen & Hr); [|destruct Hv; set_solver].
    exists (b :: l1), a, l2. rewrite fmap_cons.
    split_and!; [done|by constructor|apply NoDup_cons; split; [set_solver|done]|set_solver|].
    unfold rejected in *. rewrite fmap_cons. set_solver.
  - intros ([|b' l1] & a & l2 & [= -> ->] & Hall & Hnd & Hseen & Hr); [by left|right].
    apply Forall_cons in Hall as [Hv Hall]. rewrite fmap_cons in Hnd, Hseen.
    apply NoDup_cons in Hnd as [Hb Hnd].
    split_and!; [done|set_solver|]. apply IH; [destruct Hv; set_solver|].
    exists l1, a, l2. split_and!; try done; [set_solver|].
    unfold rejected in *. rewrite fmap_cons in Hr. set_solver.
Qed.

(** ** Lifetimes of a sum *)

(** [shortest o ls]: [o] is the least bounded lifetime of [ls], unbounded when all of [ls] are. *)
Definition shortest (o : option Duration) (ls : list (option Duration)) : Prop :=
  match o with
  | Some d => Some d ∈ ls ∧ ∀ d', Some d' ∈ ls → (d ≤ d')%N
  | None => ∀ x, x ∈ ls → x = None
  end.

Lemma min_lifetime_shortest o ls x :
  shortest o ls → shortest (ResourceFragment.min_lifetime o x) (ls ++ [x]).
Proof.
  destruct o as [d|], x as [y|]; simpl; setoid_rewrite elem_of_app;
    setoid_rewrite list_elem_of_singleton.
  - intros [Hd Hmin]. split.
    + destruct (N.min_spec d y) as [[_ ->]|[_ ->]]; auto.
    + intros d' [Hd'|[= ->]]; [apply Hmin in Hd'|]; lia.
  - intros [Hd Hmin]. split; [by left|]. intros d' [|]; [by apply Hmin|done].
  - intros Hn. split; [by right|]. intros d' [Hd'|[= ->]]; [by apply Hn in Hd'|lia].
  - intros Hn x [|]; [by apply Hn|done].
Qed.

Lemma foldl_min_lifetime_shortest o ls0 ls :
  shortest o ls0 → shortest (foldl ResourceFragment.min_lifetime o ls) (ls0 ++ ls).
Proof.
  revert o ls0. induction ls as [|x ls IH]; intros o ls0 Ho; simpl.
  - by rewrite app_nil_r.
  - rewrite cons_middle, app_assoc. apply IH. by apply min_lifetime_shortest.
Qed.

(** ** Properties *)

Definition sum_field (f : ResourceFragment.t → N) (l : list Allocation.t) : N :=
  foldr N.add 0%N (f <$> resources_of l).

(** C26: [compose] succeeds exactly on a non-empty list of allocations with distinct, non-empty
    participants that each carry a valid, non-empty fragment; it keeps the list, its integer
    capacities are the exact sums cut off at the width's maximum, its CPU capacity is the
    floating-point sum of the cores in their order, which is non-negative, and its lifetime is the
    shortest bounded one. *)
Theorem compose_spec (l : list Allocation.t) :
  (is_ok (CompositeResource.compose l) = true ↔
    l ≠ [] ∧ Forall valid_allocation l ∧ NoDup (ids_of l)) ∧
  ∀ c, CompositeResource.compose l = Ok c →
    CompositeResource.allocations c = l ∧
    let cap := CompositeResource.capacity c in
    ResourceFragment.mem cap = N.min U64_MAX (sum_field ResourceFragment.mem l) ∧
    ResourceFragment.sto cap = N.min U64_MAX (sum_field ResourceFragment.sto l) ∧
    ResourceFragment.bps cap = N.min U64_MAX (sum_field ResourceFragment.bps l) ∧
    ResourceFragment.units cap = N.min U32_MAX (sum_field ResourceFragment.units l) ∧
    shortest (ResourceFragment.lifetime cap) (ResourceFragment.lifetime <$> resources_of l) ∧
    ResourceFragment.cores cap = foldl f64_add f64_zero (ResourceFragment.cores <$> resources_of l) ∧
    nonneg (ResourceFragment.cores cap) = true.
Proof.
  split.
  { destruct (CompositeResource.compose l) as [c|e|] eqn:Hc.
    - apply compose_ok in Hc as (? & ? & ? & _). by split.
    - split; [done|]. intros (? & ? & ?).
      pose proof (proj2 (compose_ok l _) ltac:(by split_and!)). congruence.
    - by apply compose_no_panic in Hc. }
  intros c (Hne & Hall & Hnd & ->)%compose_ok. cbv zeta. split_and!; try done; simpl.
  1-4: by erewrite sum_from_field; [|done|by vm_compute].
  - rewrite sum_from_lifetime. apply (foldl_min_lifetime_shortest None []).
    intros x Hx. by apply elem_of_nil in Hx.
  - apply sum_from_cores.
  - by apply sum_from_nonneg.
Qed.

(** [compose] never panics, and a failure names the first allocation at fault: an empty list
    is an empty composite, an allocation without a participant or with an invalid or empty
    fragment is invalid, and one whose participant occurred before is a duplicate. *)
Theorem compose_error (l : list Allocation.t) (e : ResourceError.t) :
  (CompositeResource.compose l = Err e ↔
    (l = [] ∧ e = ResourceError.EmptyComposite) ∨
    ∃ l1 a l2, l = l1 ++ a :: l2 ∧ Forall valid_allocation l1 ∧ NoDup (ids_of l1) ∧
      rejected ∅ l1 a e) ∧
  CompositeResource.compose l ≠ Panic.
Proof.
  split; [|apply compose_no_panic]. unfold CompositeResource.compose.
  destruct l as [|b l].
  { split; [intros [= <-]; by left|]. intros [[_ ->]|([] & ? & ? & ? & _)]; done. }
  split.
  - intros H. invert_result. apply compose_loop_err in H; [|set_solver]. naive_solver.
  - intros [[? _]|(l1 & a & l2 & -> & Hall & Hnd & Hr)]; [done|].
    assert (CompositeResource.compose_loop ∅ ResourceFragment.default (l1 ++ a :: l2) = Err e) as ->.
    { apply compose_loop_err; [set_solver|]. exists l1, a, l2. by split_and!. }
    done.
Qed.

(** A composed resource passes its own validation, and validation accepts exactly the
    composites whose allocations compose to a capacity that compares equal to the recorded one. *)
Theorem composite_validate_spec (c : CompositeResource.t) :
  (CompositeResource.validate c = Ok () ↔
    ∃ c', CompositeResource.compose (CompositeResource.allocations c) = Ok c' ∧
      ResourceFragment.eqb (CompositeResource.capacity c') (CompositeResource.capacity c) = true) ∧
  (∀ l, CompositeResource.compose l = Ok c → CompositeResource.validate c = Ok ()).
Proof.
  assert (CompositeResource.validate c = Ok () ↔
    ∃ c', CompositeResource.compose (CompositeResource.allocations c) = Ok c' ∧
      ResourceFragment.eqb (CompositeResource.capacity c') (CompositeResource.capacity c) = true)
    as Hiff.
  { unfold CompositeResource.validate. rewrite result_bind_ok. split.
    - intros (c' & Hc & Hv). exists c'. case_match; bools; done.
    - intros (c' & Hc & Hv). exists c'. by rewrite Hv. }
  split; [done|]. intros l. apply composed_validates.
Qed.

Lemma compose_spec_witness :
  let r := ResourceFragment.mk (Cpu.mk f64_one) (Memory.mk U64_MAX) (Storage.mk 1) (Network.mk 0)
             (Gpu.mk 2) (Some 9%N) in
  let l := [Allocation.mk "a" r; Allocation.mk "b" r] in
  match CompositeResource.compose l with
  | Ok c =>
    CompositeResource.allocations c = l ∧
    ResourceFragment.mem (CompositeResource.capacity c) = U64_MAX ∧
    ResourceFragment.sto (CompositeResource.capacity c) = 2%N ∧
    ResourceFragment.cores (CompositeResource.capacity c) = f64_add f64_one f64_one
  | _ => False
  end.
Proof.
  cbv zeta. case_match eqn:E; [|vm_compute in E; discriminate..].
  pose proof (proj2 (compose_spec _) _ E) as (Hl & Hm & Hs & _ & _ & _ & Hc & _).
  split; [exact Hl|]. split; [exact Hm|]. split; [exact Hs|]. rewrite Hc. reflexivity.
Defined.
