(* ===== verification/capability.v ===== *)
(** * Capabilities ([src/capability.rs])

    What a participant advertises, and when an advertised capability is acceptable. *)
From S2P Require Import prelude bytes time float.

Module ComputeCapability.
Record t := mk { cpu_cores : f64; gpu_units : N }.
#[global] Instance eq_dec : EqDecision t.
Proof. solve_decision. Defined.
End ComputeCapability.

Module MemoryCapability.
Record t := mk { bytes : N }.
#[global] Instance eq_dec : EqDecision t.
Proof. solve_decision. Defined.
End MemoryCapability.

Module StorageCapability.
Record t := mk { bytes : N }.
#[global] Instance eq_dec : EqDecision t.
Proof. solve_decision. Defined.
End StorageCapability.

Module NetworkCapability.
Record t := mk { bits_per_second : N }.
#[global] Instance eq_dec : EqDecision t.
Proof. solve_decision. Defined.
End NetworkCapability.

Module Reliability.
Record t := mk { availability : f64 }.
#[global] Instance eq_dec : EqDecision t.
Proof. solve_decision. Defined.
End Reliability.

Module Latency.
Record t := mk { to_participant : Duration }.
#[global] Instance eq_dec : EqDecision t.
Proof. solve_decision. Defined.
End Latency.

Module Lifetime.
Record t := mk { duration : option Duration }.
#[global] Instance eq_dec : EqDecision t.
Proof. solve_decision. Defined.
End Lifetime.

Module Security.
Record t := mk { trusted : bool }.
#[global] Instance eq_dec : EqDecision t.
Proof. solve_decision. Defined.
End Security.

Module CapabilityError.
Inductive t := InvalidCpu | InvalidAvailability | Empty | ZeroLifetime.
#[global] Instance eq_dec : EqDecision t.
Proof. solve_decision. Defined.
End CapabilityError.

Module Capability.
Record t := mk {
  compute : ComputeCapability.t;
  memory : MemoryCapability.t;
  storage : StorageCapability.t;
  network : NetworkCapability.t;
  reliability : Reliability.t;
  latency : Latency.t;
  lifetime : Lifetime.t;
  security : Security.t;
}.
#[global] Instance eq_dec : EqDecision t.
Proof. solve_decision. Defined.

(** The fields as the code reads them. *)
Definition cpu_cores (c : t) : f64 := ComputeCapability.cpu_cores (compute c).
Definition gpu_units (c : t) : N := ComputeCapability.gpu_units (compute c).
Definition memory_bytes (c : t) : N := MemoryCapability.bytes (memory c).
Definition storage_bytes (c : t) : N := StorageCapability.bytes (storage c).
Definition network_bits_per_second (c : t) : N := NetworkCapability.bits_per_second (network c).
Definition availability (c : t) : f64 := Reliability.availability (reliability c).
Definition lifetime_duration (c : t) : option Duration := Lifetime.duration (lifetime c).

Definition validate (self : t) : result CapabilityError.t () :=
  if negb (is_finite (cpu_cores self)) || f64_ltb (cpu_cores self) f64_zero
  then Err CapabilityError.InvalidCpu
  else if negb (f64_leb f64_zero (availability self) && f64_leb (availability self) f64_one)
  then Err CapabilityError.InvalidAvailability
  else if from_option Duration.is_zero false (lifetime_duration self)
  then Err CapabilityError.ZeroLifetime
  else if f64_eqb (cpu_cores self) f64_zero && (gpu_units self =? 0)%N &&
    (memory_bytes self =? 0)%N && (storage_bytes self =? 0)%N &&
    (network_bits_per_second self =? 0)%N
  then Err CapabilityError.Empty
  else Ok ().

Definition available_for (self : t) (requested : option Duration) : bool :=
  match lifetime_duration self, requested with
  | _, None | None, Some _ => true
  | Some actual, Some required => (required <=? actual)%N
  end.
End Capability.

(** A capability [validate] accepts. *)
Definition valid_capability (c : Capability.t) : Prop :=
  is_finite (Capability.cpu_cores c) = true ∧ nonneg (Capability.cpu_cores c) = true ∧
  f64_leb f64_zero (Capability.availability c) = true ∧
  f64_leb (Capability.availability c) f64_one = true ∧
  Capability.lifetime_duration c ≠ Some 0%N ∧
  (f64_eqb (Capability.cpu_cores c) f64_zero = false ∨ Capability.gpu_units c ≠ 0%N ∨
   Capability.memory_bytes c ≠ 0%N ∨ Capability.storage_bytes c ≠ 0%N ∨
   Capability.network_bits_per_second c ≠ 0%N).

Lemma capability_ok (c : Capability.t) :
  Capability.validate c = Ok () ↔ valid_capability c.
Proof.
  unfold Capability.validate, valid_capability.
  destruct (is_finite (Capability.cpu_cores c)) eqn:Hf; simpl; [|intuition congruence].
  rewrite finite_not_lt_zero by done.
  destruct (nonneg (Capability.cpu_cores c)); simpl; [|intuition congruence].
  destruct (f64_leb f64_zero (Capability.availability c)); simpl; [|intuition congruence].
  destruct (f64_leb (Capability.availability c) f64_one); simpl; [|intuition congruence].
  destruct (Capability.lifetime_duration c) as [[|p]|]; simpl; [intuition congruence|..].
  all: destruct (f64_eqb _ _); simpl; [|naive_solver].
  all: case_match eqn:E; bools; split; try done; try naive_solver.
Qed.

Lemma capability_no_panic c : Capability.validate c ≠ Panic.
Proof. unfold Capability.validate. guards. Qed.

#[export] Hint Resolve capability_no_panic : rust.
