(* ===== verification/participant.v ===== *)
(** * Participants ([src/participant.rs])

    A participant owns its identity, capability and resources, which never change, and a lifecycle
    state behind a lock. An operation takes the lock, so it is one atomic step on the record. *)
From S2P Require Import prelude bytes time float identity uuid_demo resource capability.

Module State.
Inductive t := Joining | Active | Draining | Left.
#[global] Instance eq_dec : EqDecision t.
Proof. solve_decision. Defined.
End State.

Module ParticipantError.
Inductive t := Invalid | InvalidTransition | NotActive.
#[global] Instance eq_dec : EqDecision t.
Proof. solve_decision. Defined.
End ParticipantError.

Module Participant.
Record t := mk {
  id : Identity.t;
  capability : Capability.t;
  resources : ResourceFragment.t;
  state : State.t;
  joined_at : SystemTime;
  updated_at : SystemTime;
}.
#[global] Instance eq_dec : EqDecision t.
Proof. solve_decision. Defined.

(** The [Snapshot] record has the fields of the participant itself. *)
Definition snapshot (self : t) : t := self.

Section new.
Context `{UuidLib}.

Definition new (id : Identity.t) (capability : Capability.t) (resources : ResourceFragment.t)
    (now : SystemTime) : result ParticipantError.t t :=
  if negb (bool_decide (Identity.kind id = Kind.Participant))
    || is_err (Identity.validate id)
    || is_err (Capability.validate capability)
    || is_err (ResourceFragment.validate resources)
    || ResourceFragment.is_empty resources
  then Err ParticipantError.Invalid
  else Ok {|
    id := id; capability := capability; resources := resources;
    state := State.Joining; joined_at := now; updated_at := now;
  |}.
End new.

Definition allowed (from to : State.t) : bool :=
  match from, to with
  | State.Joining, State.Active
  | State.Joining, State.Left
  | State.Active, State.Draining
  | State.Active, State.Left
  | State.Draining, State.Left => true
  | _, _ => false
  end.

Definition set_state (next : State.t) (now : SystemTime) (self : t) : t := {|
  id := id self; capability := capability self; resources := resources self;
  state := next; joined_at := joined_at self; updated_at := now;
|}.

Definition transition (next : State.t) (now : SystemTime) : op t ParticipantError.t () :=
  from ← gets state;
  if negb (allowed from next) then fail ParticipantError.InvalidTransition
  else modify (set_state next now).

Definition activate (now : SystemTime) : op t ParticipantError.t () := transition State.Active now.
Definition drain (now : SystemTime) : op t ParticipantError.t () := transition State.Draining now.
Definition leave (now : SystemTime) : op t ParticipantError.t () := transition State.Left now.

Definition offer (self : t) : result ParticipantError.t ResourceFragment.t :=
  if negb (bool_decide (state self = State.Active)) then Err ParticipantError.NotActive
  else Ok (resources self).
End Participant.

(** ** The lifecycle as a transition system *)

Section lifecycle.
Import Participant.
Implicit Types p q : Participant.t.

(** One call of [activate], [drain] or [leave], whether it succeeds or not. *)
Inductive lifecycle_step p : Participant.t → Prop :=
| step_activate now : lifecycle_step p (activate now p).2
| step_drain now : lifecycle_step p (drain now p).2
| step_leave now : lifecycle_step p (leave now p).2.

Definition rank (s : State.t) : nat :=
  match s with State.Joining => 0 | State.Active => 1 | State.Draining => 2 | State.Left => 3 end.

(** What a participant never changes. *)
Definition same_owner p q : Prop :=
  id p = id q ∧ capability p = capability q ∧ resources p = resources q ∧
  joined_at p = joined_at q.

Lemma transition_spec next now p :
  transition next now p =
    if allowed (state p) next then (Ok (), set_state next now p)
    else (Err ParticipantError.InvalidTransition, p).
Proof. unfold transition, gets, fail, modify, mbind, op_bind. by destruct (allowed _ _). Qed.

Lemma allowed_rank s s' : allowed s s' = true → rank s < rank s'.
Proof. destruct s, s'; simpl; (done || lia). Qed.

Lemma transition_inv next now p :
  same_owner p (transition next now p).2 ∧ rank (state p) ≤ rank (state (transition next now p).2).
Proof.
  rewrite transition_spec. destruct (allowed _ _) eqn:Ha; simpl; (split; [done|]); [|lia].
  apply allowed_rank in Ha. lia.
Qed.

Lemma lifecycle_step_inv p q : lifecycle_step p q → same_owner p q ∧ rank (state p) ≤ rank (state q).
Proof. intros []; apply transition_inv. Qed.

Lemma lifecycle_inv p q :
  rtc lifecycle_step p q → same_owner p q ∧ rank (state p) ≤ rank (state q).
Proof.
  induction 1 as [|p q r Hstep _ [IH1 IH2]]; [done|].
  apply lifecycle_step_inv in Hstep as [H1 H2]. split; [|lia].
  unfold same_owner in *. intuition congruence.
Qed.

Lemma rank_left s : 3 ≤ rank s → s = State.Left.
Proof. destruct s; simpl; (done || lia). Qed.
End lifecycle.

(** A participant with valid, non-empty contents, as [new] makes it. *)
Definition valid_participant `{UuidLib} (p : Participant.t) : Prop :=
  valid_identity Kind.Participant (Participant.id p) ∧
  valid_capability (Participant.capability p) ∧
  valid_requirement (Participant.resources p).

Section new_lemmas.
Context `{UuidLib}.

Lemma validate_is_err_fragment r :
  is_err (ResourceFragment.validate r) = false ↔ valid_fragment r.
Proof.
  rewrite <- fragment_validate_ok. pose proof (fragment_validate_no_panic r).
  destruct (ResourceFragment.validate r) as [[]| |]; simpl; intuition congruence.
Qed.

Lemma validate_is_err_capability c : is_err (Capability.validate c) = false ↔ valid_capability c.
Proof.
  rewrite <- capability_ok. pose proof (capability_no_panic c).
  destruct (Capability.validate c) as [[]| |]; simpl; intuition congruence.
Qed.

Lemma participant_new_ok i c r now p :
  Participant.new i c r now = Ok p →
  p = Participant.mk i c r State.Joining now now ∧ valid_participant p.
Proof.
  unfold Participant.new. case_match eqn:E; [done|]. intros [= <-]. split; [done|].
  apply orb_false_iff in E as [E He]. apply orb_false_iff in E as [E Hr].
  apply orb_false_iff in E as [Hi Hc].
  split_and!; [by apply bad_identity_false|by apply validate_is_err_capability|].
  split; [by apply validate_is_err_fragment|done].
Qed.

Lemma same_owner_valid p q : same_owner p q → valid_participant p → valid_participant q.
Proof. unfold same_owner, valid_participant. intros (-> & -> & -> & _). done. Qed.
End new_lemmas.

(** ** Properties *)

(** A lifecycle call succeeds exactly along the arrows joining → active → draining → left,
    joining → left, active → left; it then stores the new state and timestamp and nothing else, and
    a refused call leaves the participant as it was. *)
Theorem transition_total (next : State.t) (now : SystemTime) (p : Participant.t) :
  (Participant.transition next now p =
     (Ok (), Participant.set_state next now p) ∧
   (Participant.state p, next) ∈
     [(State.Joining, State.Active); (State.Joining, State.Left); (State.Active, State.Draining);
      (State.Active, State.Left); (State.Draining, State.Left)]) ∨
  (Participant.transition next now p = (Err ParticipantError.InvalidTransition, p) ∧
   (Participant.state p, next) ∉
     [(State.Joining, State.Active); (State.Joining, State.Left); (State.Active, State.Draining);
      (State.Active, State.Left); (State.Draining, State.Left)]).
Proof.
  rewrite transition_spec.
  destruct (Participant.state p), next; simpl; (left; split; [done|set_solver]) ||
    (right; split; [done|set_solver]).
Qed.

(** C24: over any history of lifecycle calls on a participant made by [new], its identity,
    capability, resources and joining time stay what they were and valid, and its state only moves
    forward from joining over active and draining to left: no call takes it back, and a transition
    that succeeds, whatever state it asks for, takes it strictly further. So a participant that is
    draining or has left is never offered again, and one that has left never changes. *)
Theorem lifecycle_safety `{UuidLib} i c r now p q :
  Participant.new i c r now = Ok p → rtc lifecycle_step p q →
  valid_participant q ∧ same_owner p q ∧
  (Participant.offer q = Ok r ↔ Participant.state q = State.Active) ∧
  (∀ next now, (Participant.transition next now q).1 = Ok () →
    rank (Participant.state q) < rank next ∧
    Participant.state (Participant.transition next now q).2 = next) ∧
  (∀ q', rtc lifecycle_step q q' →
    rank (Participant.state q) ≤ rank (Participant.state q') ∧
    (2 ≤ rank (Participant.state q) → Participant.offer q' = Err ParticipantError.NotActive) ∧
    (Participant.state q = State.Left → q' = q)).
Proof.
  intros [-> Hv]%participant_new_ok Hpq. apply lifecycle_inv in Hpq as [Ho _].
  split_and!; [by eapply same_owner_valid|done| | |].
  - unfold Participant.offer. destruct Ho as (_ & _ & <- & _). simpl.
    case_bool_decide; simpl; intuition congruence.
  - intros next now'. rewrite transition_spec. destruct (Participant.allowed _ _) eqn:Ha; [|done]. intros _.
    split; [by apply allowed_rank|done].
  - intros q' Hq'. split; [by apply lifecycle_inv in Hq' as [_ ?]|]. split.
    + intros Hrank. apply lifecycle_inv in Hq' as [_ Hle]. unfold Participant.offer.
      rewrite bool_decide_false; [done|]. intros Ha. rewrite Ha in Hle. simpl in Hle. lia.
    + intros Hl. induction Hq' as [|q q1 q2 Hstep _ IH]; [done|].
      assert (q1 = q) as ->; [|by apply IH].
      destruct Hstep; unfold Participant.activate, Participant.drain, Participant.leave;
        rewrite transition_spec, Hl; done.
Qed.

(** ** A concrete participant *)

Definition demo_capability : Capability.t := {|
  Capability.compute := ComputeCapability.mk f64_one 0;
  Capability.memory := MemoryCapability.mk 4096;
  Capability.storage := StorageCapability.mk 0;
  Capability.network := NetworkCapability.mk 0;
  Capability.reliability := Reliability.mk f64_one;
  Capability.latency := Latency.mk 0;
  Capability.lifetime := Lifetime.mk None;
  Capability.security := Security.mk true;
|}.

Definition demo_resources : ResourceFragment.t :=
  ResourceFragment.mk (Cpu.mk f64_one) (Memory.mk 4096) (Storage.mk 0) (Network.mk 0) (Gpu.mk 0) None.

Definition demo_participant (id : string) : Participant.t :=
  Participant.mk (Identity.mk id Kind.Participant) demo_capability demo_resources State.Joining 7 7.

Lemma lifecycle_safety_witness :
  let p := demo_participant uuid_a in
  let q := (Participant.drain 9 (Participant.activate 8 p).2).2 in
  Participant.state q = State.Draining ∧
  ∀ q', rtc lifecycle_step q q' → Participant.offer q' = Err ParticipantError.NotActive.
Proof.
  cbv zeta. split; [reflexivity|]. intros q' Hq'.
  eapply (lifecycle_safety (Identity.mk uuid_a Kind.Participant) demo_capability demo_resources 7
    (demo_participant uuid_a)); [vm_compute; reflexivity| |exact Hq'|vm_compute; lia].
  eapply rtc_l; [apply step_activate|]. eapply rtc_l; [apply step_drain|]. apply rtc_refl.
Defined.
