(* ===== verification/node.v ===== *)
(** * Logical nodes and runtime specifications ([src/node.rs]) *)
From S2P Require Import prelude resource.

Module NodeError.
Inductive t := EmptyRuntimeName | EmptyRuntimeVersion.
#[global] Instance eq_dec : EqDecision t.
Proof. solve_decision. Defined.
End NodeError.

Module RuntimeSpec.
Record t := mk { name : string; version : string }.
#[global] Instance eq_dec : EqDecision t.
Proof. solve_decision. Defined.

Definition default : t := {| name := EmptyString; version := EmptyString |}.

Definition new (name version : string) : t := {| name := name; version := version |}.

Definition validate (self : t) : result NodeError.t () :=
  if is_empty_str (name self) then Err NodeError.EmptyRuntimeName
  else if is_empty_str (version self) then Err NodeError.EmptyRuntimeVersion
  else Ok ().
End RuntimeSpec.

Module LogicalNode.
Record t := mk { id : string; resources : CompositeResource.t; runtime : RuntimeSpec.t }.
#[global] Instance eq_dec : EqDecision t.
Proof. solve_decision. Defined.

Definition set_runtime (runtime : RuntimeSpec.t) (self : t) : t :=
  {| id := id self; resources := resources self; runtime := runtime |}.

(** [&mut self]: the node is changed in place, and only when the specification is valid. *)
Definition assign_runtime (runtime : RuntimeSpec.t) : op t NodeError.t () :=
  _ ← lift (RuntimeSpec.validate runtime);
  modify (set_runtime runtime).

Definition with_runtime (self : t) (runtime : RuntimeSpec.t) : result NodeError.t t :=
  let '(r, self) := assign_runtime runtime self in
  _ ← r; Ok self.
End LogicalNode.

Definition valid_runtime (r : RuntimeSpec.t) : Prop :=
  RuntimeSpec.name r ≠ EmptyString ∧ RuntimeSpec.version r ≠ EmptyString.

Lemma runtime_spec_ok r : RuntimeSpec.validate r = Ok () ↔ valid_runtime r.
Proof.
  unfold RuntimeSpec.validate, valid_runtime.
  rewrite <- !is_empty_str_false. repeat case_match; intuition congruence.
Qed.

Lemma runtime_spec_no_panic r : RuntimeSpec.validate r ≠ Panic.
Proof. unfold RuntimeSpec.validate. guards. Qed.

Lemma with_runtime_spec n r :
  LogicalNode.with_runtime n r =
    (_ ← RuntimeSpec.validate r; Ok (LogicalNode.set_runtime r n)).
Proof.
  unfold LogicalNode.with_runtime, LogicalNode.assign_runtime, lift, modify, mbind, op_bind.
  by destruct (RuntimeSpec.validate r) as [[]| |].
Qed.

#[export] Hint Resolve runtime_spec_no_panic : rust.

(** Assigning a runtime replaces the runtime of the node and nothing else when its name and
    version are non-empty; otherwise it fails and leaves the node as it was. *)
Theorem assign_runtime_spec (r : RuntimeSpec.t) (n : LogicalNode.t) :
  (valid_runtime r ∧
   LogicalNode.assign_runtime r n = (Ok (), LogicalNode.set_runtime r n) ∧
   LogicalNode.with_runtime n r = Ok (LogicalNode.set_runtime r n)) ∨
  (¬ valid_runtime r ∧ ∃ e, LogicalNode.assign_runtime r n = (Err e, n) ∧
   LogicalNode.with_runtime n r = Err e).
Proof.
  rewrite with_runtime_spec, <- runtime_spec_ok. pose proof (runtime_spec_no_panic r).
  unfold LogicalNode.assign_runtime, lift, modify, mbind, op_bind.
  destruct (RuntimeSpec.validate r) as [[]|e|]; simpl; [by left|right|done]. eauto.
Qed.
