(* ===== verification/fabric.v ===== *)
(** * The resource fabric ([src/fabric.rs])

    [Fabric] is the interface a scheduler sees: a list of offers. [FabricLaws] is what a fabric
    promises about them, which [MemoryFabric] establishes here and the participant registry in
    [registry.v]. *)
From S2P Require Import prelude float resource.

Module ResourceOffer.
Record t := mk { participant_id : string; resources : ResourceFragment.t }.
#[global] Instance eq_dec : EqDecision t.
Proof. solve_decision. Defined.
End ResourceOffer.

Class Fabric (F : Type) := offers : F → list ResourceOffer.t.

(** A usable offer, and a usable list of them. *)
Definition valid_offer (o : ResourceOffer.t) : Prop :=
  ResourceOffer.participant_id o ≠ EmptyString ∧ valid_fragment (ResourceOffer.resources o).
Abbreviation offer_ids := (fmap ResourceOffer.participant_id).
Definition well_formed_offers (l : list ResourceOffer.t) : Prop :=
  Forall valid_offer l ∧ NoDup (offer_ids l).

Class FabricLaws (F : Type) `{Fabric F} (wf : F → Prop) : Prop :=
  fabric_offers : ∀ f : F, wf f → well_formed_offers (offers f).

Module FabricError.
Inductive t := EmptyParticipant | InvalidResource.
#[global] Instance eq_dec : EqDecision t.
Proof. solve_decision. Defined.
End FabricError.

Module MemoryFabric.
Abbreviation t := (gmap string ResourceOffer.t).

Definition new : t := ∅.

Definition upsert (offer : ResourceOffer.t) : op t FabricError.t () :=
  if is_empty_str (ResourceOffer.participant_id offer) then fail FabricError.EmptyParticipant
  else
    _ ← lift (ResourceFragment.validate (ResourceOffer.resources offer)
                .map_err (λ _, FabricError.InvalidResource));
    modify (λ offers : t, <[ResourceOffer.participant_id offer := offer]> offers : t).

Definition remove (participant_id : string) : op t FabricError.t () :=
  modify (λ offers : t, delete participant_id offers : t).

#[global] Instance fabric : Fabric t := λ offers : t, btree_values offers.

(** Every stored offer is usable and stored under its own participant. *)
Definition wf (m : t) : Prop :=
  ∀ k o, m !! k = Some o → ResourceOffer.participant_id o = k ∧ valid_offer o.
End MemoryFabric.

Section memory_fabric.
Import MemoryFabric.

Lemma memory_fabric_new_wf : wf new.
Proof. intros k o Hk. unfold new in Hk. by rewrite lookup_empty in Hk. Qed.

Lemma memory_fabric_upsert o m :
  (valid_offer o ∧ upsert o m = (Ok (), <[ResourceOffer.participant_id o := o]> m)) ∨
  (¬ valid_offer o ∧ ∃ e, upsert o m = (Err e, m)).
Proof.
  unfold upsert, valid_offer. destruct (is_empty_str _) eqn:He.
  - right. apply is_empty_str_true in He. split; [tauto|]. by eexists.
  - apply is_empty_str_false in He. rewrite <- fragment_validate_ok.
    pose proof (fragment_validate_no_panic (ResourceOffer.resources o)).
    unfold lift, modify, mbind, op_bind.
    destruct (ResourceFragment.validate _) as [[]|e|]; simpl; [by left|right|done].
    split; [naive_solver|eauto].
Qed.

Lemma memory_fabric_upsert_wf o m : wf m → wf (upsert o m).2.
Proof.
  intros Hwf. destruct (memory_fabric_upsert o m) as [[Ho ->]|[_ [e ->]]]; simpl; [|done].
  intros k o' [[<- <-]|[_ Hk]]%lookup_insert_Some; [done|by apply Hwf].
Qed.

Lemma memory_fabric_remove_wf x m : wf m → wf (remove x m).2.
Proof. intros Hwf k o Hk. cbn in Hk. apply lookup_delete_Some in Hk as [_ Hk]. by apply Hwf. Qed.

Lemma memory_fabric_offer_ids m : wf m → offer_ids (offers m) = (btree_elements m).*1.
Proof.
  intros Hwf. apply (btree_values_keys ResourceOffer.participant_id). intros k v Hk. by apply Hwf.
Qed.

#[export] Instance memory_fabric_laws : FabricLaws t wf.
Proof.
  intros m Hwf. split.
  - apply Forall_forall. intros o [k Hk]%elem_of_btree_values. by eapply Hwf.
  - rewrite memory_fabric_offer_ids by done. apply btree_keys_NoDup.
Qed.
End memory_fabric.

(** A run of fabric operations. *)
Inductive fabric_op := Upsert (o : ResourceOffer.t) | Remove (participant_id : string).
Definition run_fabric_op (m : MemoryFabric.t) (o : fabric_op) : MemoryFabric.t :=
  match o with
  | Upsert o => (MemoryFabric.upsert o m).2
  | Remove x => (MemoryFabric.remove x m).2
  end.

(** After any sequence of upserts and removals on a new fabric, its offers are in the order of
    their participants, pairwise distinct and usable. *)
Theorem memory_fabric_offers (ops : list fabric_op) :
  let m := foldl run_fabric_op MemoryFabric.new ops in
  well_formed_offers (offers m) ∧ StronglySorted String.le (offer_ids (offers m)).
Proof.
  assert (∀ m, MemoryFabric.wf m → MemoryFabric.wf (foldl run_fabric_op m ops)) as Hrun.
  { induction ops as [|[o|x] ops IH]; intros m Hm; [done|apply IH..].
    - by apply memory_fabric_upsert_wf.
    - by apply memory_fabric_remove_wf. }
  specialize (Hrun _ memory_fabric_new_wf). split; [by apply memory_fabric_laws|].
  rewrite memory_fabric_offer_ids by done. apply btree_keys_sorted.
Qed.
