(* ===== verification/registry.v ===== *)
(** * The participant registry ([src/registry.rs])

    The registry maps participant identifiers to shared participants ([Arc<Participant>]). Callers
    keep their own [Arc] and drive the lifecycle through it, so the model has a store of
    participants, an [Arc] is a location of it, and a lifecycle call through one [Arc] is seen by
    the registry at once. *)
From S2P Require Import prelude time float identity uuid_demo resource capability participant.
From S2P Require Import fabric.

Module RegistryError.
Inductive t := Exists | NotFound | Invalid.
#[global] Instance eq_dec : EqDecision t.
Proof. solve_decision. Defined.
End RegistryError.

Module Registry.
Record t := mk {
  store : gmap nat Participant.t;
  participants : gmap string nat;
}.

Definition new : t := {| store := ∅; participants := ∅ |}.

Definition set_participants (f : gmap string nat → gmap string nat) (self : t) : t :=
  {| store := store self; participants := f (participants self) |}.
Definition set_store (f : gmap nat Participant.t → gmap nat Participant.t) (self : t) : t :=
  {| store := f (store self); participants := participants self |}.

(** [Arc::new]: a new location. *)
Definition share {E} (p : Participant.t) : op t E nat := λ self,
  let l := fresh (dom (store self)) in (Ok l, set_store (insert l p) self).

(** A method call through an [Arc]; a location of a live [Arc] is always allocated. *)
Definition call {E A} (arc : nat) (m : op Participant.t E A) : op t E A := λ self,
  match store self !! arc with
  | None => (Panic, self)
  | Some p => let '(r, p') := m p in (r, set_store (insert arc p') self)
  end.

Section ops.
Context `{UuidLib}.

Definition register (arc : nat) : op t RegistryError.t () :=
  snapshot ← call arc (gets Participant.snapshot);
  let id := Participant.id snapshot in
  if bad_identity Kind.Participant id then fail RegistryError.Invalid
  else
    participants ← gets participants;
    if bool_decide (is_Some (participants !! Identity.id id)) then fail RegistryError.Exists
    else modify (set_participants (insert (Identity.id id) arc)).

Definition get (id : Identity.t) (self : t) : result RegistryError.t nat :=
  if bad_identity Kind.Participant id then Err RegistryError.Invalid
  else ok_or (participants self !! Identity.id id) RegistryError.NotFound.

Definition remove (id : Identity.t) : op t RegistryError.t () :=
  if bad_identity Kind.Participant id then fail RegistryError.Invalid
  else
    participants ← gets participants;
    _ ← modify (set_participants (delete (Identity.id id)));
    lift (ok_or ((λ _, ()) <$> participants !! Identity.id id) RegistryError.NotFound).
End ops.

(** [impl Fabric for Registry]. *)
Definition offer_of (self : t) (arc : nat) : option ResourceOffer.t :=
  participant ← store self !! arc;
  let snapshot := Participant.snapshot participant in
  if negb (bool_decide (Participant.state snapshot = State.Active)) then None
  else
    resources ← to_option (Participant.offer participant);
    Some {| ResourceOffer.participant_id := Identity.id (Participant.id snapshot);
            ResourceOffer.resources := resources |}.

#[global] Instance fabric : Fabric t := λ self,
  omap (offer_of self) (btree_values (participants self)).

(** Every participant is as [Participant::new] and its lifecycle make it, and every registered
    location holds the participant of that identifier. *)
Definition wf `{UuidLib} (self : t) : Prop :=
  (∀ arc p, store self !! arc = Some p → valid_participant p) ∧
  (∀ k arc, participants self !! k = Some arc →
    ∃ p, store self !! arc = Some p ∧ Identity.id (Participant.id p) = k).
End Registry.

Section registry.
Context `{UuidLib}.
Import Registry.
Implicit Types w : Registry.t.

Lemma registry_new_wf : wf new.
Proof. split; intros ?? Hl; cbn in Hl; by apply lookup_empty_Some in Hl. Qed.

Lemma registry_share_wf {E} p w : wf w → valid_participant p → wf (share (E:=E) p w).2.
Proof.
  intros [Hs Hp] Hv. split; simpl.
  - intros arc q [[_ <-]|[_ Hq]]%lookup_insert_Some; [done|by eapply Hs].
  - intros k arc (q & Hq & Hk)%Hp. exists q. split; [|done]. rewrite lookup_insert_ne; [done|].
    intros Heq. apply (is_fresh (dom (store w))). rewrite Heq. by eapply elem_of_dom_2.
Qed.

(** A step of a participant that keeps its owner data keeps the registry well-formed. *)
Lemma registry_call_wf {E A} arc (m : op Participant.t E A) w :
  wf w → (∀ p, same_owner p (m p).2) → wf (call arc m w).2.
Proof.
  intros [Hs Hp] Hm. unfold call. destruct (store w !! arc) as [p|] eqn:Hl; [|done].
  destruct (m p) as [r p'] eqn:Hmp. pose proof (Hm p) as Ho. rewrite Hmp in Ho. simpl in Ho.
  split; simpl.
  - intros a q [[_ <-]|[_ Hq]]%lookup_insert_Some; [|by eapply Hs].
    eapply same_owner_valid; [done|]. by eapply Hs.
  - intros k a (q & Hq & Hk)%Hp. destruct (decide (a = arc)) as [->|Hne].
    + rewrite lookup_insert_eq. exists p'. split; [done|]. simplify_eq.
      by destruct Ho as [<- _].
    + rewrite lookup_insert_ne by done. eauto.
Qed.

Lemma registry_register arc w p :
  store w !! arc = Some p →
  register arc w =
    if bad_identity Kind.Participant (Participant.id p) then (Err RegistryError.Invalid, w)
    else match participants w !! Identity.id (Participant.id p) with
         | Some _ => (Err RegistryError.Exists, w)
         | None => (Ok (), set_participants (insert (Identity.id (Participant.id p)) arc) w)
         end.
Proof.
  intros Hp.
  assert (set_store (insert arc p) w = w) as Hw.
  { destruct w as [s m]. unfold set_store. simpl in *. by rewrite insert_id. }
  unfold register, mbind, op_bind, call, gets, Participant.snapshot, fail, modify.
  rewrite Hp, Hw. case_match; [done|].
  destruct (participants w !! _) eqn:Hl; [by rewrite bool_decide_true by eauto|].
  by rewrite bool_decide_false by (intros [? ?]; congruence).
Qed.

Lemma registry_register_wf arc w : wf w → wf (register arc w).2.
Proof.
  intros [Hs Hp]. destruct (store w !! arc) as [p|] eqn:Hl.
  - rewrite (registry_register _ _ _ Hl). case_match; [done|]. case_match; [done|].
    split; simpl; [done|]. intros k a [[<- <-]|[_ Hk]]%lookup_insert_Some; eauto.
  - unfold register, mbind, op_bind, call. by rewrite Hl.
Qed.

Lemma registry_remove id w :
  remove id w =
    if bad_identity Kind.Participant id then (Err RegistryError.Invalid, w)
    else match participants w !! Identity.id id with
         | Some _ => (Ok (), set_participants (delete (Identity.id id)) w)
         | None => (Err RegistryError.NotFound, w)
         end.
Proof.
  unfold remove, mbind, op_bind, gets, modify, lift, fail. case_match; [done|].
  destruct (participants w !! Identity.id id) eqn:Hl; [done|]. simpl.
  destruct w as [s m]. unfold set_participants. simpl in *. by rewrite delete_id.
Qed.

Lemma registry_remove_wf id w : wf w → wf (remove id w).2.
Proof.
  intros [Hs Hp]. rewrite registry_remove. repeat case_match; try done.
  split; simpl; [done|]. intros k a [_ Hk]%lookup_delete_Some. eauto.
Qed.

(** ** Offers *)

Lemma offer_of_some w arc o :
  offer_of w arc = Some o ↔
  ∃ p, store w !! arc = Some p ∧ Participant.state p = State.Active ∧
    o = ResourceOffer.mk (Identity.id (Participant.id p)) (Participant.resources p).
Proof.
  unfold offer_of, Participant.offer, Participant.snapshot.
  destruct (store w !! arc) as [p|]; simpl; [|naive_solver].
  case_bool_decide; simpl; naive_solver.
Qed.

(** The offers are those of the registered participants that are active now. *)
Lemma elem_of_offers w o :
  wf w →
  o ∈ offers w ↔
  ∃ arc p, participants w !! ResourceOffer.participant_id o = Some arc ∧
    store w !! arc = Some p ∧ Participant.state p = State.Active ∧
    ResourceOffer.resources o = Participant.resources p.
Proof.
  intros [_ Hp]. unfold offers, fabric. rewrite list_elem_of_omap.
  setoid_rewrite elem_of_btree_values. setoid_rewrite offer_of_some. split.
  - intros (arc & (k & Hk) & p & Hst & Ha & ->). simpl. exists arc, p.
    apply Hp in Hk as Hk'. destruct Hk' as (q & Hq & <-). by simplify_eq.
  - intros (arc & p & Hk & Hst & Ha & Hr). exists arc. split; [eauto|]. exists p.
    split_and!; try done. apply Hp in Hk as (q & Hq & Hid). simplify_eq.
    destruct o; simpl in *; congruence.
Qed.

Lemma registry_offer_ids w :
  wf w → offer_ids (offers w) `sublist_of` (btree_elements (participants w)).*1.
Proof.
  intros [_ Hp]. unfold offers, fabric, btree_values.
  assert (∀ l, (∀ k a, (k, a) ∈ l → participants w !! k = Some a) →
    offer_ids (omap (offer_of w) l.*2) `sublist_of` l.*1) as Hl.
  { induction l as [|[k a] l IH]; intros Hl; [done|]. csimpl.
    destruct (offer_of w a) as [o|] eqn:Ho; csimpl.
    - apply offer_of_some in Ho as (p & Hst & _ & ->). simpl.
      destruct (Hp k a) as (q & Hq & <-); [by apply Hl; left|]. simplify_eq.
      apply sublist_skip, IH. intros. apply Hl. by right.
    - apply sublist_cons, IH. intros. apply Hl. by right. }
  apply Hl. intros k a. apply elem_of_btree_elements.
Qed.

#[export] Instance registry_laws : FabricLaws Registry.t wf.
Proof.
  intros w Hwf. split.
  - apply Forall_forall. intros o Ho. apply elem_of_offers in Ho as (arc & p & Hk & Hst & _ & Hr);
      [|done].
    destruct Hwf as [Hs Hp]. apply Hs in Hst as Hv. destruct Hv as (Hi & _ & Hreq & _).
    unfold valid_offer. rewrite Hr. split; [|done].
    apply Hp in Hk as (q & Hq & Hid). simplify_eq. rewrite <- Hid.
    destruct Hi as [_ (u & _ & _ & _ & Hne)]. done.
  - eapply sublist_NoDup; [|by apply registry_offer_ids]. apply btree_keys_NoDup.
Qed.

Lemma registry_offers_sorted w : wf w → StronglySorted String.le (offer_ids (offers w)).
Proof.
  intros Hwf. eapply StronglySorted_sublist; [by apply registry_offer_ids|]. apply btree_keys_sorted.
Qed.
End registry.

(** ** Properties *)

(** A run of the registry together with the callers that hold [Arc]s to participants. *)
Inductive registry_event :=
| Join (id : Identity.t) (capability : Capability.t) (resources : ResourceFragment.t)
    (now : SystemTime)
| Register (arc : nat)
| Unregister (id : Identity.t)
| Activate (arc : nat) (now : SystemTime)
| Drain (arc : nat) (now : SystemTime)
| Leave (arc : nat) (now : SystemTime).

Definition run_registry_event `{UuidLib} (w : Registry.t) (e : registry_event) : Registry.t :=
  match e with
  | Join i c r now =>
    match Participant.new i c r now with
    | Ok p => (Registry.share (E:=ParticipantError.t) p w).2
    | _ => w
    end
  | Register arc => (Registry.register arc w).2
  | Unregister id => (Registry.remove id w).2
  | Activate arc now => (Registry.call arc (Participant.activate now) w).2
  | Drain arc now => (Registry.call arc (Participant.drain now) w).2
  | Leave arc now => (Registry.call arc (Participant.leave now) w).2
  end.

Lemma run_registry_event_wf `{UuidLib} w e : Registry.wf w → Registry.wf (run_registry_event w e).
Proof.
  intros Hw. destruct e as [i c r now|arc|id|arc now|arc now|arc now]; simpl.
  - destruct (Participant.new i c r now) as [p| |] eqn:Hn; try done.
    apply participant_new_ok in Hn as [_ Hv]. by apply (registry_share_wf (E:=ParticipantError.t)).
  - by apply registry_register_wf.
  - by apply registry_remove_wf.
  - apply registry_call_wf; [done|]. intros p. apply transition_inv.
  - apply registry_call_wf; [done|]. intros p. apply transition_inv.
  - apply registry_call_wf; [done|]. intros p. apply transition_inv.
Qed.

Lemma run_registry_wf `{UuidLib} es w :
  Registry.wf w → Registry.wf (foldl run_registry_event w es).
Proof. revert w. induction es as [|e es IH]; intros w Hw; [done|]. by apply IH, run_registry_event_wf. Qed.

(** C23: after any history of joins, registrations, removals and lifecycle calls through shared
    handles, the registry offers exactly the resources of its registered participants that are
    active now, ordered by identifier and without duplicates; every offer is usable. *)
Theorem registry_offers_spec `{UuidLib} (es : list registry_event) :
  let w := foldl run_registry_event Registry.new es in
  well_formed_offers (offers w) ∧
  StronglySorted String.le (offer_ids (offers w)) ∧
  ∀ o, o ∈ offers w ↔
    ∃ arc p, Registry.participants w !! ResourceOffer.participant_id o = Some arc ∧
      Registry.store w !! arc = Some p ∧ Participant.state p = State.Active ∧
      ResourceOffer.resources o = Participant.resources p.
Proof.
  assert (Registry.wf (foldl run_registry_event Registry.new es)) as Hw
    by (apply run_registry_wf, registry_new_wf).
  split; [by apply registry_laws|]. split; [by apply registry_offers_sorted|].
  intros o. by apply elem_of_offers.
Qed.

(** When a holder of an active participant drains it, the registry stops offering that
    participant at once and keeps every other offer. *)
Theorem drain_withdraws_offer `{UuidLib} (w : Registry.t) arc p now o :
  Registry.wf w → Registry.store w !! arc = Some p → Participant.state p = State.Active →
  let w' := (Registry.call arc (Participant.drain now) w).2 in
  o ∈ offers w' ↔ o ∈ offers w ∧ Registry.participants w !! ResourceOffer.participant_id o ≠ Some arc.
Proof.
  intros Hw Hp Ha w'.
  assert (Registry.wf w') as Hw' by (apply registry_call_wf; [done|]; intros; apply transition_inv).
  assert (w' = Registry.set_store (insert arc (Participant.set_state State.Draining now p)) w) as Heq.
  { unfold w', Registry.call, Participant.drain. rewrite Hp, transition_spec, Ha. done. }
  rewrite !elem_of_offers by done. rewrite Heq. simpl. split.
  - intros (a & q & Hk & Hst & Hq & Hr).
    apply lookup_insert_Some in Hst as [[<- <-]|[Hne Hst]]; [done|].
    split; [eauto 10|]. intros Hk'. by simplify_eq.
  - intros [(a & q & Hk & Hst & Hq & Hr) Hne]. exists a, q. split_and!; try done.
    rewrite lookup_insert_ne; [done|]. intros ->. done.
Qed.

(** A registry with two active participants, at locations 0 and 1. *)
Definition demo_registry : Registry.t :=
  foldl run_registry_event Registry.new [
    Join (Identity.mk uuid_a Kind.Participant) demo_capability demo_resources 7;
    Join (Identity.mk uuid_b Kind.Participant) demo_capability demo_resources 7;
    Register 0; Register 1; Activate 0 8; Activate 1 8].

Example demo_registry_offers :
  offers demo_registry =
    [ResourceOffer.mk uuid_a demo_resources; ResourceOffer.mk uuid_b demo_resources].
Proof. vm_compute. reflexivity. Qed.

Lemma drain_withdraws_offer_witness :
  let w' := (Registry.call 0 (Participant.drain 9) demo_registry).2 in
  ∀ o, o ∈ offers w' ↔
    o ∈ offers demo_registry ∧
    Registry.participants demo_registry !! ResourceOffer.participant_id o ≠ Some 0.
Proof.
  cbv zeta. intros o.
  apply (drain_withdraws_offer demo_registry 0
    (Participant.set_state State.Active 8 (demo_participant uuid_a))).
  - apply run_registry_wf, registry_new_wf.
  - vm_compute. reflexivity.
  - reflexivity.
Defined.
