(* ===== verification/discovery.v ===== *)
(** * Discovery ([src/discovery.rs])

    Advertisements with a sequence number, the members a registry has seen, and their freshness.
    [Discovery] is the interface the control plane uses; [MemoryRegistry] implements it. *)
From S2P Require Import prelude bytes time float identity uuid_demo capability.

Module DiscoveryError.
Inductive t := InvalidAdvertisement | InvalidTimestamp | InvalidPolicy | StaleSequence | NotFound.
#[global] Instance eq_dec : EqDecision t.
Proof. solve_decision. Defined.
End DiscoveryError.

Module Freshness.
Inductive t := Active | Stale | Expired.
#[global] Instance eq_dec : EqDecision t.
Proof. solve_decision. Defined.
End Freshness.

Module FreshnessPolicy.
Record t := mk { stale_after : Duration; expire_after : Duration }.
#[global] Instance eq_dec : EqDecision t.
Proof. solve_decision. Defined.

Definition validate (self : t) : result DiscoveryError.t () :=
  if Duration.is_zero (stale_after self) || (expire_after self <=? stale_after self)%N
  then Err DiscoveryError.InvalidPolicy
  else Ok ().
End FreshnessPolicy.

Module Advertisement.
Record t := mk {
  participant : Identity.t;
  capability : Capability.t;
  sequence : N;
  observed_at : SystemTime;
}.
#[global] Instance eq_dec : EqDecision t.
Proof. solve_decision. Defined.

Definition validate `{UuidLib} (self : t) : result DiscoveryError.t () :=
  if negb (bool_decide (Identity.kind (participant self) = Kind.Participant))
    || is_err (Identity.validate (participant self))
    || is_err (Capability.validate (capability self))
    || (observed_at self =? SystemTime.UNIX_EPOCH)%Z
  then Err DiscoveryError.InvalidAdvertisement
  else Ok ().
End Advertisement.

Module Member.
Record t := mk { advertisement : Advertisement.t; last_seen : SystemTime }.
#[global] Instance eq_dec : EqDecision t.
Proof. solve_decision. Defined.

Definition state_at (self : t) (now : SystemTime) (policy : FreshnessPolicy.t)
    : result DiscoveryError.t Freshness.t :=
  _ ← FreshnessPolicy.validate policy;
  if (last_seen self =? SystemTime.UNIX_EPOCH)%Z || (now <? last_seen self)%Z
  then Err DiscoveryError.InvalidTimestamp
  else
    age ← ok_or (SystemTime.duration_since now (last_seen self)) DiscoveryError.InvalidTimestamp;
    if (FreshnessPolicy.expire_after policy <=? age)%N then Ok Freshness.Expired
    else if (FreshnessPolicy.stale_after policy <=? age)%N then Ok Freshness.Stale
    else Ok Freshness.Active.
End Member.

(** The [Registry] trait of the module. *)
Class Discovery (D : Type) := {
  discovery_upsert : Advertisement.t → SystemTime → op D DiscoveryError.t ();
  discovery_remove : Identity.t → op D DiscoveryError.t ();
  discovery_get : Identity.t → D → result DiscoveryError.t Member.t;
  discovery_members : D → list Member.t;
  discovery_members_at : SystemTime → D → result DiscoveryError.t (list (Member.t * Freshness.t));
}.

Module MemoryRegistry.
Record t := mk { members_map : gmap string Member.t; policy : FreshnessPolicy.t }.

Definition new (policy : FreshnessPolicy.t) : result DiscoveryError.t t :=
  _ ← FreshnessPolicy.validate policy;
  Ok {| members_map := ∅; policy := policy |}.

Definition set_members (f : gmap string Member.t → gmap string Member.t) (self : t) : t :=
  {| members_map := f (members_map self); policy := policy self |}.

Section ops.
Context `{UuidLib}.

Definition key (advertisement : Advertisement.t) : string :=
  Identity.id (Advertisement.participant advertisement).

Definition upsert (advertisement : Advertisement.t) (received_at : SystemTime)
    : op t DiscoveryError.t () :=
  _ ← lift (Advertisement.validate advertisement);
  if (received_at <? Advertisement.observed_at advertisement)%Z
    || (received_at =? SystemTime.UNIX_EPOCH)%Z
  then fail DiscoveryError.InvalidTimestamp
  else
    members ← gets members_map;
    if match members !! key advertisement with
       | Some existing =>
         (Advertisement.sequence advertisement <?
          Advertisement.sequence (Member.advertisement existing))%N
       | None => false
       end
    then fail DiscoveryError.StaleSequence
    else modify (set_members (insert (key advertisement)
           {| Member.advertisement := advertisement; Member.last_seen := received_at |})).

Definition remove (id : Identity.t) : op t DiscoveryError.t () :=
  if bad_identity Kind.Participant id then fail DiscoveryError.InvalidAdvertisement
  else
    members ← gets members_map;
    _ ← modify (set_members (delete (Identity.id id)));
    lift (ok_or ((λ _, ()) <$> members !! Identity.id id) DiscoveryError.NotFound).
End ops.

Definition get (id : Identity.t) (self : t) : result DiscoveryError.t Member.t :=
  ok_or (members_map self !! Identity.id id) DiscoveryError.NotFound.

Definition members (self : t) : list Member.t := btree_values (members_map self).

Definition members_at (now : SystemTime) (self : t)
    : result DiscoveryError.t (list (Member.t * Freshness.t)) :=
  mapM (λ member, state ← Member.state_at member now (policy self); Ok (member, state))
    (members self).

#[global] Instance discovery `{UuidLib} : Discovery t := {
  discovery_upsert := upsert;
  discovery_remove := remove;
  discovery_get := get;
  discovery_members := members;
  discovery_members_at := members_at;
}.
End MemoryRegistry.

(** ** Policies and freshness *)

Definition valid_policy (p : FreshnessPolicy.t) : Prop :=
  (0 < FreshnessPolicy.stale_after p < FreshnessPolicy.expire_after p)%N.

Lemma policy_ok p : FreshnessPolicy.validate p = Ok () ↔ valid_policy p.
Proof.
  unfold FreshnessPolicy.validate, valid_policy, Duration.is_zero.
  case_match eqn:E; bools; split; try done; lia.
Qed.

Lemma policy_no_panic p : FreshnessPolicy.validate p ≠ Panic.
Proof. unfold FreshnessPolicy.validate. by case_match. Qed.

(** The state of a member of a given age. *)
Definition freshness (p : FreshnessPolicy.t) (age : Duration) : Freshness.t :=
  if (FreshnessPolicy.expire_after p <=? age)%N then Freshness.Expired
  else if (FreshnessPolicy.stale_after p <=? age)%N then Freshness.Stale
  else Freshness.Active.

Definition freshness_rank (s : Freshness.t) : nat :=
  match s with Freshness.Active => 0 | Freshness.Stale => 1 | Freshness.Expired => 2 end.

(** The members whose state is defined at [now]. *)
Definition seen_by (now : SystemTime) (m : Member.t) : Prop :=
  Member.last_seen m ≠ SystemTime.UNIX_EPOCH ∧ (Member.last_seen m ≤ now)%Z.

Lemma state_at_spec m now p :
  valid_policy p →
  (seen_by now m ∧
   Member.state_at m now p = Ok (freshness p (Z.to_N (now - Member.last_seen m)))) ∨
  (¬ seen_by now m ∧ Member.state_at m now p = Err DiscoveryError.InvalidTimestamp).
Proof.
  intros Hp%policy_ok. unfold Member.state_at, seen_by. rewrite Hp. simpl.
  unfold SystemTime.duration_since.
  destruct (Member.last_seen m =? SystemTime.UNIX_EPOCH)%Z eqn:He; bools; [by right; naive_solver|].
  destruct (now <? Member.last_seen m)%Z eqn:Hl; bools; simpl.
  - right. split; [lia|done].
  - left. split; [done|]. assert ((Member.last_seen m <=? now)%Z = true) as -> by (by apply Z.leb_le).
    simpl. unfold freshness. by repeat case_match.
Qed.

Lemma freshness_mono p a b :
  valid_policy p → (a ≤ b)%N → freshness_rank (freshness p a) ≤ freshness_rank (freshness p b).
Proof.
  unfold valid_policy, freshness. intros Hp Hab. repeat case_match; bools; simpl; lia.
Qed.

(** ** The registry *)

Section memory_registry.
Context `{UuidLib}.
Import MemoryRegistry.
Implicit Types d : MemoryRegistry.t.

Definition valid_advertisement (a : Advertisement.t) : Prop :=
  valid_identity Kind.Participant (Advertisement.participant a) ∧
  valid_capability (Advertisement.capability a) ∧
  Advertisement.observed_at a ≠ SystemTime.UNIX_EPOCH.

Lemma advertisement_ok a : Advertisement.validate a = Ok () ↔ valid_advertisement a.
Proof.
  unfold Advertisement.validate, valid_advertisement.
  change (negb (bool_decide (Identity.kind (Advertisement.participant a) = Kind.Participant))
    || is_err (Identity.validate (Advertisement.participant a)))
    with (bad_identity Kind.Participant (Advertisement.participant a)).
  rewrite <- bad_identity_false, <- capability_ok.
  pose proof (capability_no_panic (Advertisement.capability a)).
  destruct (bad_identity _ _); simpl; [intuition congruence|].
  destruct (Capability.validate _) as [[]| |]; simpl; [|intuition congruence|done].
  destruct (_ =? _)%Z eqn:E; bools; intuition congruence.
Qed.

Lemma advertisement_validate_err a :
  ¬ valid_advertisement a → Advertisement.validate a = Err DiscoveryError.InvalidAdvertisement.
Proof. rewrite <- advertisement_ok. unfold Advertisement.validate. case_match; congruence. Qed.

(** A stale sequence number: a member with a greater one is stored. *)
Definition outdated (a : Advertisement.t) d : Prop :=
  ∃ m, members_map d !! key a = Some m ∧
    (Advertisement.sequence a < Advertisement.sequence (Member.advertisement m))%N.

Definition store (a : Advertisement.t) (received_at : SystemTime) d : MemoryRegistry.t :=
  set_members (insert (key a) (Member.mk a received_at)) d.

Lemma upsert_cases a t d :
  (¬ valid_advertisement a ∧ upsert a t d = (Err DiscoveryError.InvalidAdvertisement, d)) ∨
  (valid_advertisement a ∧
   ((t < Advertisement.observed_at a)%Z ∨ t = SystemTime.UNIX_EPOCH) ∧
   upsert a t d = (Err DiscoveryError.InvalidTimestamp, d)) ∨
  (valid_advertisement a ∧ (Advertisement.observed_at a ≤ t)%Z ∧ t ≠ SystemTime.UNIX_EPOCH ∧
   ((outdated a d ∧ upsert a t d = (Err DiscoveryError.StaleSequence, d)) ∨
    (¬ outdated a d ∧ upsert a t d = (Ok (), store a t d)))).
Proof.
  unfold upsert, lift, mbind, op_bind, gets, fail, modify.
  destruct (Advertisement.validate a) as [[]| |] eqn:Hv.
  - apply advertisement_ok in Hv. right. destruct (_ || _) eqn:Ht; bools.
    + left. auto.
    + left. auto.
    + right. split_and!; try done. unfold outdated.
      destruct (members_map d !! key a) as [m|] eqn:Hm.
      * destruct (_ <? _)%N eqn:Hs; bools; [left; eauto|right].
        split; [|done]. intros (m' & ? & ?). simplify_eq. lia.
      * right. split; [|done]. by intros (? & ? & _).
  - left. assert (¬ valid_advertisement a) as Hn by (rewrite <- advertisement_ok, Hv; done).
    split; [done|]. rewrite advertisement_validate_err in Hv by done. by simplify_eq.
  - unfold Advertisement.validate in Hv. by case_match.
Qed.

(** Members are stored under their participant, valid, and were received after they were sent. *)
Definition wf d : Prop :=
  valid_policy (policy d) ∧
  ∀ k m, members_map d !! k = Some m →
    key (Member.advertisement m) = k ∧ valid_advertisement (Member.advertisement m) ∧
    (Advertisement.observed_at (Member.advertisement m) ≤ Member.last_seen m)%Z ∧
    Member.last_seen m ≠ SystemTime.UNIX_EPOCH.

Lemma discovery_new_wf p d : MemoryRegistry.new p = Ok d → wf d.
Proof.
  unfold MemoryRegistry.new. intros Hd. invert_result. split; [by apply policy_ok|].
  intros k m Hm. cbn in Hm. by apply lookup_empty_Some in Hm.
Qed.

Lemma upsert_wf a t d : wf d → wf (upsert a t d).2.
Proof.
  intros Hd. pose proof Hd as [Hp Hm].
  destruct (upsert_cases a t d) as [[_ ->]|[(_ & _ & ->)|(Hv & Hle & Hne & [[_ ->]|[_ ->]])]];
    try exact Hd.
  split; [done|]. simpl. intros k m [[<- <-]|[_ Hk]]%lookup_insert_Some; [done|by apply Hm].
Qed.

Lemma discovery_remove_eq id d :
  remove id d =
    if bad_identity Kind.Participant id then (Err DiscoveryError.InvalidAdvertisement, d)
    else match members_map d !! Identity.id id with
         | Some _ => (Ok (), set_members (delete (Identity.id id)) d)
         | None => (Err DiscoveryError.NotFound, d)
         end.
Proof.
  unfold remove, mbind, op_bind, gets, modify, lift, fail. case_match; [done|].
  destruct (members_map d !! Identity.id id) eqn:Hl; [done|]. simpl.
  destruct d as [m p]. unfold set_members. simpl in *. by rewrite delete_id.
Qed.

Lemma discovery_remove_wf id d : wf d → wf (remove id d).2.
Proof.
  intros [Hp Hm]. rewrite discovery_remove_eq. repeat case_match; try done.
  split; [done|]. simpl. intros k m [_ Hk]%lookup_delete_Some. by apply Hm.
Qed.

Lemma members_keys d : wf d → (key ∘ Member.advertisement) <$> members d = (btree_elements (members_map d)).*1.
Proof. intros [_ Hm]. apply btree_values_keys. intros k m Hk. by apply Hm in Hk as [? _]. Qed.
End memory_registry.

(** ** Properties *)

(** A member's state is determined by its age: active below [stale_after], stale from there,
    expired from [expire_after]; it is an error exactly when the member was never seen or was seen
    later than [now], and as time passes the state only moves from active to stale to expired. *)
Theorem state_at_freshness (m : Member.t) (p : FreshnessPolicy.t) (now later : SystemTime) :
  FreshnessPolicy.validate p = Ok () → (now ≤ later)%Z →
  (Member.state_at m now p = Err DiscoveryError.InvalidTimestamp ∧ ¬ seen_by now m) ∨
  ∃ s s', Member.state_at m now p = Ok s ∧ Member.state_at m later p = Ok s' ∧
    s = freshness p (Z.to_N (now - Member.last_seen m)) ∧ freshness_rank s ≤ freshness_rank s'.
Proof.
  intros Hp%policy_ok Hle. destruct (state_at_spec m now p Hp) as [[Hs Hn]|[Hs Hn]]; [right|by left].
  destruct (state_at_spec m later p Hp) as [[Hs' Hl]|[Hs' Hl]].
  - do 2 eexists. split_and!; [done..|]. apply freshness_mono; [done|]. destruct Hs. lia.
  - destruct Hs'. destruct Hs as [? ?]. split; [done|lia].
Qed.

Inductive discovery_event :=
| Announce (a : Advertisement.t) (received_at : SystemTime)
| Forget (id : Identity.t).

Definition run_discovery_event `{UuidLib} (d : MemoryRegistry.t) (e : discovery_event)
    : MemoryRegistry.t :=
  match e with
  | Announce a t => (MemoryRegistry.upsert a t d).2
  | Forget id => (MemoryRegistry.remove id d).2
  end.

Lemma run_discovery_wf `{UuidLib} es d : wf d → wf (foldl run_discovery_event d es).
Proof.
  revert d. induction es as [|[a t|id] es IH]; intros d Hd; [done|apply IH..].
  - by apply upsert_wf.
  - by apply discovery_remove_wf.
Qed.

Lemma store_policy `{UuidLib} e d :
  MemoryRegistry.policy (run_discovery_event d e) = MemoryRegistry.policy d.
Proof.
  destruct e as [a t|id]; simpl.
  - by destruct (upsert_cases a t d) as [[_ ->]|[(_ & _ & ->)|(_ & _ & _ & [[_ ->]|[_ ->]])]].
  - rewrite discovery_remove_eq. by repeat case_match.
Qed.

(** The member [m] is superseded by one with at least its sequence number. *)
Definition superseded `{UuidLib} (k : string) (m : Member.t) (d : MemoryRegistry.t) : Prop :=
  ∃ m', MemoryRegistry.members_map d !! k = Some m' ∧
    (Advertisement.sequence (Member.advertisement m) ≤
     Advertisement.sequence (Member.advertisement m'))%N.

Lemma superseded_step `{UuidLib} k m d e :
  MemoryRegistry.members_map d !! k = Some m → (∀ id, e = Forget id → Identity.id id ≠ k) →
  superseded k m (run_discovery_event d e).
Proof.
  intros Hm He. unfold superseded. destruct e as [a t|id]; simpl.
  - destruct (upsert_cases a t d)
      as [[_ ->]|[(_ & _ & ->)|(_ & _ & _ & [[_ ->]|[Ho ->]])]]; simpl; eauto.
    destruct (decide (MemoryRegistry.key a = k)) as [Hk|Hk].
    + rewrite Hk, lookup_insert_eq. eexists. split; [done|]. simpl.
      apply N.nlt_ge. intros Hlt. apply Ho. exists m. by rewrite Hk.
    + rewrite lookup_insert_ne by done. eauto.
  - rewrite discovery_remove_eq. repeat case_match; simpl; eauto.
    rewrite lookup_delete_ne by (by eapply He). eauto.
Qed.

Lemma superseded_run `{UuidLib} k m d es :
  MemoryRegistry.members_map d !! k = Some m →
  Forall (λ e, ∀ id, e = Forget id → Identity.id id ≠ k) es →
  superseded k m (foldl run_discovery_event d es).
Proof.
  intros Hm Hes. revert d m Hm. induction Hes as [|e es He _ IH]; intros d m Hm.
  { by exists m. }
  destruct (superseded_step k m d e Hm He) as (m1 & Hm1 & Hle1).
  destruct (IH _ _ Hm1) as (m2 & ? & ?). exists m2. split; [done|]. lia.
Qed.

(** While a participant is not removed, the sequence number stored for it never decreases, and
    an advertisement with a smaller one is refused without changing the registry. *)
Theorem sequence_monotone `{UuidLib} (d : MemoryRegistry.t) (es : list discovery_event) k m :
  MemoryRegistry.members_map d !! k = Some m →
  Forall (λ e, ∀ id, e = Forget id → Identity.id id ≠ k) es →
  let d' := foldl run_discovery_event d es in
  superseded k m d' ∧
  ∀ a t, MemoryRegistry.key a = k →
    (Advertisement.sequence a < Advertisement.sequence (Member.advertisement m))%N →
    ∃ e, MemoryRegistry.upsert a t d' = (Err e, d').
Proof.
  intros Hm Hes d'. assert (superseded k m d') as Hs by (by apply superseded_run).
  split; [done|]. intros a t Hk Hlt. destruct Hs as (m' & Hm' & Hle).
  destruct (upsert_cases a t d') as [[_ ->]|[(_ & _ & ->)|(_ & _ & _ & [[_ ->]|[Ho ->]])]]; eauto.
  destruct Ho. exists m'. rewrite Hk. split; [done|]. lia.
Qed.

Section members_at.
Context `{UuidLib}.

Lemma members_at_ok now d :
  wf d →
  (∀ k m, MemoryRegistry.members_map d !! k = Some m → (Member.last_seen m ≤ now)%Z) →
  MemoryRegistry.members_at now d =
    Ok ((λ m, (m, freshness (MemoryRegistry.policy d) (Z.to_N (now - Member.last_seen m))))
      <$> MemoryRegistry.members d).
Proof.
  intros [Hp Hm] Hall. apply mapM_result_ok, Forall2_fmap_r, Forall_Forall2_diag, Forall_forall.
  intros m (k & Hk)%elem_of_btree_values.
  destruct (state_at_spec m now _ Hp) as [[_ ->]|[Hn _]]; [done|].
  destruct Hn. split; [by apply Hm in Hk as (_ & _ & _ & ?)|by eapply Hall].
Qed.

Lemma members_at_err now d k m :
  wf d → MemoryRegistry.members_map d !! k = Some m → (now < Member.last_seen m)%Z →
  MemoryRegistry.members_at now d = Err DiscoveryError.InvalidTimestamp.
Proof.
  intros [Hp Hm] Hk Hlt. unfold MemoryRegistry.members_at.
  destruct (mapM _ _) as [l|e|] eqn:E.
  - exfalso. apply mapM_result_ok in E.
    assert (m ∈ MemoryRegistry.members d) as [i Hi]%list_elem_of_lookup_1
      by (apply elem_of_btree_values; eauto).
    destruct (Forall2_lookup_l _ _ _ _ _ E Hi) as (y & _ & Hy).
    destruct (state_at_spec m now _ Hp) as [[[_ ?] _]|[_ Hn]]; [lia|]. by rewrite Hn in Hy.
  - apply mapM_result_err in E as (l1 & k1 & x & l2 & _ & _ & Hx).
    destruct (state_at_spec x now _ Hp) as [[_ Hn]|[_ Hn]]; rewrite Hn in Hx; simpl in Hx;
      by simplify_eq.
  - exfalso. revert E. apply mapM_result_no_panic. intros x _.
    by destruct (state_at_spec x now _ Hp) as [[_ ->]|[_ ->]].
Qed.
End members_at.

(** C27: in a registry made by [new] and changed by any announcements and removals, [members_at]
    lists every member with its state, in the order of the participants, when no member was seen
    after [now]; a single member seen later makes the whole query fail. *)
Theorem members_at_spec `{UuidLib} (p : FreshnessPolicy.t) d0 (es : list discovery_event) now :
  MemoryRegistry.new p = Ok d0 →
  let d := foldl run_discovery_event d0 es in
  StronglySorted String.le ((MemoryRegistry.key ∘ Member.advertisement) <$> MemoryRegistry.members d) ∧
  ((∃ k m, MemoryRegistry.members_map d !! k = Some m ∧ (now < Member.last_seen m)%Z) →
    MemoryRegistry.members_at now d = Err DiscoveryError.InvalidTimestamp) ∧
  ((∀ k m, MemoryRegistry.members_map d !! k = Some m → (Member.last_seen m ≤ now)%Z) →
    MemoryRegistry.members_at now d =
      Ok ((λ m, (m, freshness p (Z.to_N (now - Member.last_seen m)))) <$> MemoryRegistry.members d)).
Proof.
  intros Hd0 d. assert (wf d) as Hwf by (apply run_discovery_wf; by eapply discovery_new_wf).
  assert (MemoryRegistry.policy d = p) as Hpol.
  { assert (MemoryRegistry.policy d0 = p) as <-
      by (unfold MemoryRegistry.new in Hd0; by invert_result).
    unfold d. clear. revert d0. induction es as [|e es IH]; intros d1; [done|]. simpl.
    by rewrite IH, store_policy. }
  split; [rewrite members_keys by done; apply btree_keys_sorted|]. split.
  - intros (k & m & Hk & Hlt). by eapply members_at_err.
  - intros Hall. rewrite members_at_ok, Hpol by done. done.
Qed.

(** ** A concrete registry *)

Definition demo_policy : FreshnessPolicy.t := FreshnessPolicy.mk 10 20.

Definition demo_advertisement (id : string) (sequence : N) : Advertisement.t := {|
  Advertisement.participant := Identity.mk id Kind.Participant;
  Advertisement.capability := {|
    Capability.compute := ComputeCapability.mk f64_one 0;
    Capability.memory := MemoryCapability.mk 0;
    Capability.storage := StorageCapability.mk 0;
    Capability.network := NetworkCapability.mk 0;
    Capability.reliability := Reliability.mk f64_one;
    Capability.latency := Latency.mk 0;
    Capability.lifetime := Lifetime.mk None;
    Capability.security := Security.mk true |};
  Advertisement.sequence := sequence;
  Advertisement.observed_at := 100;
|}.

Lemma state_at_freshness_witness :
  (0 < 1)%Z ∧
  let m := Member.mk (demo_advertisement uuid_a 1) 100 in
  (Member.state_at m 115 demo_policy = Err DiscoveryError.InvalidTimestamp ∧ ¬ seen_by 115 m) ∨
  ∃ s s', Member.state_at m 115 demo_policy = Ok s ∧ Member.state_at m 130 demo_policy = Ok s' ∧
    s = freshness demo_policy 15 ∧ freshness_rank s ≤ freshness_rank s'.
Proof.
  split; [lia|].
  refine (state_at_freshness (Member.mk (demo_advertisement uuid_a 1) 100) demo_policy 115 130 _ _);
    [reflexivity|lia].
Defined.

Definition demo_events : list discovery_event := [
  Announce (demo_advertisement uuid_b 4) 110; Announce (demo_advertisement uuid_a 3) 120;
  Announce (demo_advertisement uuid_a 2) 130; Forget (Identity.mk uuid_b Kind.Participant)].

Lemma sequence_monotone_witness :
  let m := Member.mk (demo_advertisement uuid_a 3) 120 in
  let d := MemoryRegistry.mk {[uuid_a := m]} demo_policy in
  superseded uuid_a m (foldl run_discovery_event d demo_events).
Proof.
  cbv zeta. apply (sequence_monotone _ demo_events).
  - reflexivity.
  - unfold demo_events. repeat constructor; intros id [=]; subst; discriminate.
Defined.

Lemma members_at_spec_witness :
  MemoryRegistry.members_at 131 (foldl run_discovery_event (MemoryRegistry.mk ∅ demo_policy) demo_events) =
    Ok [(Member.mk (demo_advertisement uuid_a 3) 120, Freshness.Stale)].
Proof.
  destruct (members_at_spec demo_policy (MemoryRegistry.mk ∅ demo_policy) demo_events 131 eq_refl)
    as (_ & _ & Hok).
  rewrite Hok; [vm_compute; reflexivity|].
  intros k m Hk. assert ((k, m) ∈ btree_elements (MemoryRegistry.members_map
    (foldl run_discovery_event (MemoryRegistry.mk ∅ demo_policy) demo_events))) as Hin
    by (by apply elem_of_btree_elements).
  vm_compute in Hin. apply list_elem_of_singleton in Hin. injection Hin as -> ->. vm_compute. done.
Defined.
