(* ===== verification/scheduler.v ===== *)
(** * The aggregating scheduler ([src/scheduler.rs])

    The scheduler reads the offers of a fabric, sorts them by participant, checks all of them, and
    then takes from each what the requirement still lacks until it is satisfied. A plan draws one
    UUID, so it is an operation on the number of draws made so far. *)
From S2P Require Import prelude bytes time float identity uuid_demo resource node fabric.
From stdpp Require Import list.
From Stdlib Require Import SpecFloat.

Module SchedulerError.
Inductive t := InvalidRequirement | InsufficientResources | InvalidOffer.
#[global] Instance eq_dec : EqDecision t.
Proof. solve_decision. Defined.
End SchedulerError.

(** The [Scheduler] trait, for a scheduler that sees the world [W]. *)
Class Scheduler (W : Type) := plan : W → ResourceFragment.t → op nat SchedulerError.t LogicalNode.t.

(** [Identity::new] as an operation. *)
Definition draw `{UuidLib} {E} (k : Kind.t) : op nat E Identity.t := λ n,
  let '(i, n') := Identity.new k n in (Ok i, n').

Module AggregatingScheduler.

Definition remaining (required allocated : ResourceFragment.t) : ResourceFragment.t := {|
  ResourceFragment.cpu := Cpu.mk (f64_max
    (f64_sub (ResourceFragment.cores required) (ResourceFragment.cores allocated)) f64_zero);
  ResourceFragment.memory :=
    Memory.mk (saturating_sub (ResourceFragment.mem required) (ResourceFragment.mem allocated));
  ResourceFragment.storage :=
    Storage.mk (saturating_sub (ResourceFragment.sto required) (ResourceFragment.sto allocated));
  ResourceFragment.network :=
    Network.mk (saturating_sub (ResourceFragment.bps required) (ResourceFragment.bps allocated));
  ResourceFragment.gpu :=
    Gpu.mk (saturating_sub (ResourceFragment.units required) (ResourceFragment.units allocated));
  ResourceFragment.lifetime := ResourceFragment.lifetime required;
|}.

(** [if let (Some(a), Some(r)) = (available.lifetime, remaining.lifetime) && a < r]. *)
Definition too_short (available remaining : ResourceFragment.t) : bool :=
  match ResourceFragment.lifetime available, ResourceFragment.lifetime remaining with
  | Some a, Some r => (a <? r)%N
  | _, _ => false
  end.

Definition allocation_share (available remaining : ResourceFragment.t)
    : option ResourceFragment.t :=
  if too_short available remaining then None
  else
    let share := {|
      ResourceFragment.cpu := Cpu.mk
        (f64_min (ResourceFragment.cores available) (ResourceFragment.cores remaining));
      ResourceFragment.memory :=
        Memory.mk (N.min (ResourceFragment.mem available) (ResourceFragment.mem remaining));
      ResourceFragment.storage :=
        Storage.mk (N.min (ResourceFragment.sto available) (ResourceFragment.sto remaining));
      ResourceFragment.network :=
        Network.mk (N.min (ResourceFragment.bps available) (ResourceFragment.bps remaining));
      ResourceFragment.gpu :=
        Gpu.mk (N.min (ResourceFragment.units available) (ResourceFragment.units remaining));
      ResourceFragment.lifetime := ResourceFragment.lifetime remaining;
    |} in
    if negb (ResourceFragment.is_empty share) then Some share else None.

(** The loop that validates the complete offer set before anything is allocated. *)
Fixpoint check_offers (seen_participants : gset string) (offers : list ResourceOffer.t)
    : result SchedulerError.t () :=
  match offers with
  | [] => Ok ()
  | offer :: rest =>
    if is_empty_str (ResourceOffer.participant_id offer)
      || is_err (ResourceFragment.validate (ResourceOffer.resources offer))
      || bool_decide (ResourceOffer.participant_id offer ∈ seen_participants)
    then Err SchedulerError.InvalidOffer
    else check_offers ({[ResourceOffer.participant_id offer]} ∪ seen_participants) rest
  end.

(** The allocation loop, which breaks as soon as the total satisfies the requirement. *)
Fixpoint allocate (requirement total : ResourceFragment.t) (allocations : list Allocation.t)
    (offers : list ResourceOffer.t) : ResourceFragment.t * list Allocation.t :=
  match offers with
  | [] => (total, allocations)
  | offer :: rest =>
    match allocation_share (ResourceOffer.resources offer) (remaining requirement total) with
    | None => allocate requirement total allocations rest
    | Some share =>
      let total := ResourceFragment.add total share in
      let allocations := allocations ++ [{|
        Allocation.participant_id := ResourceOffer.participant_id offer;
        Allocation.resources := share |}] in
      if ResourceFragment.satisfies total requirement then (total, allocations)
      else allocate requirement total allocations rest
    end
  end.

#[global] Instance scheduler `{UuidLib} `{Fabric F} : Scheduler F := λ fabric requirement,
  _ ← lift (ResourceFragment.validate_requirement requirement
              .map_err (λ _, SchedulerError.InvalidRequirement));
  let offers := sort_on ResourceOffer.participant_id (offers fabric) in
  _ ← lift (check_offers ∅ offers);
  let '(total, allocations) := allocate requirement ResourceFragment.default [] offers in
  if negb (ResourceFragment.satisfies total requirement)
  then fail SchedulerError.InsufficientResources
  else
    resources ← lift (CompositeResource.compose allocations
                        .map_err (λ _, SchedulerError.InvalidOffer));
    _ ← lift (CompositeResource.validate resources .map_err (λ _, SchedulerError.InvalidOffer));
    id ← draw Kind.LogicalNode;
    mret {|
      LogicalNode.id := Identity.id id;
      LogicalNode.resources := resources;
      LogicalNode.runtime := RuntimeSpec.default;
    |}.
End AggregatingScheduler.

(** ** The integer quantities of a fragment, with the maximum of their width *)

Definition integer_fields : list ((ResourceFragment.t → N) * N) :=
  [(ResourceFragment.mem, U64_MAX); (ResourceFragment.sto, U64_MAX);
   (ResourceFragment.bps, U64_MAX); (ResourceFragment.units, U32_MAX)].

Ltac each_field H :=
  unfold integer_fields in H; rewrite !elem_of_cons, elem_of_nil in H;
  destruct H as [H|[H|[H|[H|[]]]]]; injection H as -> ->.

Section fields.
Context (f : ResourceFragment.t → N) (max : N) (Hf : (f, max) ∈ integer_fields).
Import AggregatingScheduler.

Lemma field_add a b : f (ResourceFragment.add a b) = saturating_add max (f a) (f b).
Proof. by each_field Hf. Qed.

Lemma field_default : f ResourceFragment.default = 0%N.
Proof. by each_field Hf. Qed.

Lemma field_remaining q t : f (remaining q t) = (f q - f t)%N.
Proof. by each_field Hf. Qed.

Lemma field_share a r s : allocation_share a r = Some s → f s = N.min (f a) (f r).
Proof. unfold allocation_share. repeat case_match; try done. intros [= <-]. by each_field Hf. Qed.

Lemma field_share_none a r :
  allocation_share a r = None → too_short a r = true ∨ N.min (f a) (f r) = 0%N.
Proof.
  unfold allocation_share. case_match eqn:Hs; [by left|]. case_match eqn:He; [done|]. intros _.
  right. apply negb_false_iff in He. unfold ResourceFragment.is_empty in He. bools.
  by each_field Hf.
Qed.

Lemma field_wf r : ResourceFragment.wf r → (f r ≤ max)%N.
Proof. intros [(? & ? & ? & ?) _]. by each_field Hf. Qed.

Lemma field_satisfies r q : ResourceFragment.satisfies r q = true → (f q ≤ f r)%N.
Proof. unfold ResourceFragment.satisfies. intros H. bools. by each_field Hf. Qed.
End fields.

Lemma satisfies_fields r q :
  f64_leb (ResourceFragment.cores q) (ResourceFragment.cores r) = true →
  (∀ f max, (f, max) ∈ integer_fields → (f q ≤ f r)%N) →
  ResourceFragment.lifetime_covers (ResourceFragment.lifetime r) (ResourceFragment.lifetime q) = true →
  ResourceFragment.satisfies r q = true.
Proof.
  intros Hc Hf Hl. unfold ResourceFragment.satisfies, f64_geb.
  rewrite Hc, Hl, !andb_true_iff, !N.leb_le.
  split_and!; try done; [apply (Hf _ U64_MAX)..|apply (Hf _ U32_MAX)];
    unfold integer_fields; set_solver.
Qed.

(** ** Shares *)

Section shares.
Import AggregatingScheduler.

(** The lifetime of an offer is long enough for a requirement: at least as long as the required
    one, when both are bounded. *)
Definition eligible (requirement : ResourceFragment.t) (o : ResourceOffer.t) : Prop :=
  match ResourceFragment.lifetime (ResourceOffer.resources o), ResourceFragment.lifetime requirement with
  | Some available, Some required => (required ≤ available)%N
  | _, _ => True
  end.

#[export] Instance eligible_dec q o : Decision (eligible q o).
Proof. unfold eligible. repeat case_match; apply _. Defined.

Lemma too_short_eligible q o : too_short (ResourceOffer.resources o) q = false ↔ eligible q o.
Proof. unfold too_short, eligible. repeat case_match; rewrite ?N.ltb_ge; done. Qed.

(** [share] takes no more than [available] has. *)
Definition share_within (share available : ResourceFragment.t) : Prop :=
  f64_leb (ResourceFragment.cores share) (ResourceFragment.cores available) = true ∧
  ∀ f max, (f, max) ∈ integer_fields → (f share ≤ f available)%N.

Lemma remaining_nonneg q t : nonneg (ResourceFragment.cores (remaining q t)) = true.
Proof. apply f64_max_zero_nonneg. Qed.

Lemma share_spec a q t s :
  valid_fragment a → allocation_share a (remaining q t) = Some s →
  valid_requirement s ∧ share_within s a ∧ too_short a q = false ∧
  ResourceFragment.lifetime s = ResourceFragment.lifetime q.
Proof.
  intros [Hfin Hn] Hs. pose proof (remaining_nonneg q t) as Hr. split_and!.
  - unfold allocation_share in Hs. case_match; [done|]. case_match eqn:He; [|done].
    apply negb_true_iff in He. simplify_eq. split; [|done]. by apply f64_min_finite.
  - split; [|intros f max Hf; rewrite (field_share f max Hf _ _ _ Hs); lia].
    unfold allocation_share in Hs. repeat case_match; try done. simplify_eq. simpl.
    apply f64_min_le_l. by apply nonneg_not_nan.
  - unfold allocation_share in Hs. by case_match.
  - unfold allocation_share in Hs. repeat case_match; try done. by simplify_eq.
Qed.
End shares.

(** ** Checking the offers *)

Section check.
Import AggregatingScheduler.

Lemma offer_guard o (seen : gset string) :
  is_empty_str (ResourceOffer.participant_id o)
    || is_err (ResourceFragment.validate (ResourceOffer.resources o))
    || bool_decide (ResourceOffer.participant_id o ∈ seen) = false ↔
  valid_offer o ∧ (ResourceOffer.participant_id o ∉ seen).
Proof.
  unfold valid_offer. rewrite !orb_false_iff, is_empty_str_false, bool_decide_eq_false.
  rewrite <- fragment_validate_ok.
  pose proof (fragment_validate_no_panic (ResourceOffer.resources o)).
  destruct (ResourceFragment.validate _) as [[]| |]; simpl; intuition congruence.
Qed.

Lemma check_offers_spec l seen :
  (check_offers seen l = Ok () ∧ well_formed_offers l ∧ (∀ x, x ∈ offer_ids l → x ∉ seen)) ∨
  (check_offers seen l = Err SchedulerError.InvalidOffer ∧
   ¬ (well_formed_offers l ∧ (∀ x, x ∈ offer_ids l → x ∉ seen))).
Proof.
  revert seen. induction l as [|o l IH]; intros seen; cbn [check_offers].
  { left. split_and!; [done|split; constructor|set_solver]. }
  unfold well_formed_offers. rewrite Forall_cons, fmap_cons, NoDup_cons.
  destruct (_ || _ || _) eqn:E.
  - right. split; [done|]. intros [[[Ho _] _] Hs].
    assert (valid_offer o ∧ (ResourceOffer.participant_id o ∉ seen)) as Hg by set_solver.
    apply offer_guard in Hg. by rewrite E in Hg.
  - apply offer_guard in E as [Ho Hn].
    destruct (IH ({[ResourceOffer.participant_id o]} ∪ seen)) as [(-> & [? ?] & ?)|[-> Hbad]].
    + left. split_and!; try done; set_solver.
    + right. split; [done|]. intros [[[_ Hl] [Hx Hnd]] Hs]. destruct Hbad.
      split; [done|]. set_solver.
Qed.

Lemma check_offers_perm l1 l2 : l1 ≡ₚ l2 → check_offers ∅ l1 = check_offers ∅ l2.
Proof.
  intros Hp.
  assert (well_formed_offers l1 ↔ well_formed_offers l2) as Hwf.
  { unfold well_formed_offers. by rewrite Hp. }
  destruct (check_offers_spec l1 ∅) as [(-> & ? & _)|[-> Hn1]],
    (check_offers_spec l2 ∅) as [(-> & ? & _)|[-> Hn2]]; try done.
  - destruct Hn2. split; [by apply Hwf|set_solver].
  - destruct Hn1. split; [by apply Hwf|set_solver].
Qed.
End check.

(** ** The allocation loop *)

(** What the eligible offers of a list add up to in one quantity. *)
Definition offered (f : ResourceFragment.t → N) (q : ResourceFragment.t)
    (l : list ResourceOffer.t) : N :=
  foldr N.add 0%N ((f ∘ ResourceOffer.resources) <$> filter (eligible q) l).

Lemma offered_snoc f q l o :
  offered f q (l ++ [o]) =
    (offered f q l + if decide (eligible q o) then f (ResourceOffer.resources o) else 0)%N.
Proof.
  unfold offered. rewrite filter_app, fmap_app. induction (filter (eligible q) l) as [|x l' IH].
  - rewrite filter_cons, filter_nil. case_decide; simpl; lia.
  - rewrite fmap_cons, <- app_comm_cons. cbn [foldr]. rewrite IH. lia.
Qed.

(** The share [a] was taken from the offer [o] for the requirement [q]. *)
Definition taken_from (q : ResourceFragment.t) (a : Allocation.t) (o : ResourceOffer.t) : Prop :=
  Allocation.participant_id a = ResourceOffer.participant_id o ∧ eligible q o ∧
  share_within (Allocation.resources a) (ResourceOffer.resources o) ∧
  ResourceFragment.lifetime (Allocation.resources a) = ResourceFragment.lifetime q.

(** The state of the loop after the offers of [seen]. *)
Record allocated (q : ResourceFragment.t) (seen : list ResourceOffer.t)
    (total : ResourceFragment.t) (allocations : list Allocation.t) : Prop := {
  al_total : total = sum_of allocations;
  al_valid : Forall valid_allocation allocations;
  al_ids : ids_of allocations `sublist_of` offer_ids seen;
  al_taken : Forall (λ a, ∃ o, o ∈ seen ∧ taken_from q a o) allocations;
  al_field : ResourceFragment.wf q → ∀ f max, (f, max) ∈ integer_fields →
    f total = N.min (f q) (offered f q seen);
}.

Section allocate.
Import AggregatingScheduler.
Context (q : ResourceFragment.t).

Lemma allocated_nil : allocated q [] ResourceFragment.default [].
Proof.
  split; try done. intros _ f max Hf. rewrite (field_default f max Hf).
  unfold offered. rewrite filter_nil. simpl. lia.
Qed.

Lemma allocated_skip seen total allocations o :
  allocated q seen total allocations →
  allocation_share (ResourceOffer.resources o) (remaining q total) = None →
  allocated q (seen ++ [o]) total allocations.
Proof.
  intros [H1 H2 H3 H4 H5] Hs. split; try done.
  - rewrite fmap_app. by apply sublist_inserts_r.
  - eapply Forall_impl; [exact H4|]. intros a (o' & ? & ?). exists o'. set_solver.
  - intros Hq f max Hf. rewrite (H5 Hq f max Hf), offered_snoc.
    destruct (field_share_none f max Hf _ _ Hs) as [Ht|Ht].
    + change (too_short _ (remaining q total)) with (too_short (ResourceOffer.resources o) q) in Ht.
      rewrite decide_False; [lia|]. intros He%too_short_eligible. congruence.
    + rewrite (field_remaining f max Hf), (H5 Hq f max Hf) in Ht. case_decide; lia.
Qed.

Lemma allocated_take seen total allocations o share :
  allocated q seen total allocations → valid_offer o →
  allocation_share (ResourceOffer.resources o) (remaining q total) = Some share →
  allocated q (seen ++ [o]) (ResourceFragment.add total share)
    (allocations ++ [Allocation.mk (ResourceOffer.participant_id o) share]).
Proof.
  intros [H1 H2 H3 H4 H5] [Hne Hv] Hs.
  destruct (share_spec _ _ _ _ Hv Hs) as (Hreq & Hw & Hshort%too_short_eligible & Hlife). split.
  - unfold sum_from. rewrite foldl_app. simpl. by rewrite H1.
  - apply Forall_app. split; [done|]. by apply Forall_singleton.
  - rewrite !fmap_app. by apply sublist_app.
  - apply Forall_app. split.
    + eapply Forall_impl; [exact H4|]. intros a (o' & ? & ?). exists o'. set_solver.
    + apply Forall_singleton. exists o. split; [set_solver|]. done.
  - intros Hq f max Hf. rewrite (field_add f max Hf), (field_share f max Hf _ _ _ Hs).
    rewrite (field_remaining f max Hf), (H5 Hq f max Hf), offered_snoc.
    rewrite decide_True by done. unfold saturating_add.
    pose proof (field_wf f max Hf q Hq). lia.
Qed.

(** The loop ends with the total of a prefix of the offers, and stops early only once the total
    satisfies the requirement. *)
Lemma allocate_spec l seen total allocations t al :
  allocated q seen total allocations → Forall valid_offer l →
  allocate q total allocations l = (t, al) →
  ∃ l1 l2, l = l1 ++ l2 ∧ allocated q (seen ++ l1) t al ∧
    (l2 = [] ∨ ResourceFragment.satisfies t q = true).
Proof.
  intros Hal Hl. revert seen total allocations Hal.
  induction Hl as [|o l Ho Hl IH]; intros seen total allocations Hal; cbn [allocate].
  { intros [= <- <-]. exists [], []. split_and!; [done|by rewrite app_nil_r|by left]. }
  destruct (allocation_share _ _) as [share|] eqn:Hs.
  - apply (allocated_take _ _ _ _ _ Hal Ho) in Hs. case_match eqn:Hsat.
    + intros [= <- <-]. exists [o], l. auto.
    + intros H. apply (IH _ _ _ Hs) in H as (l1 & l2 & -> & H1 & H2).
      exists (o :: l1), l2. split; [done|]. by rewrite cons_middle, app_assoc.
  - apply (allocated_skip _ _ _ _ Hal) in Hs.
    intros H. apply (IH _ _ _ Hs) in H as (l1 & l2 & -> & H1 & H2).
    exists (o :: l1), l2. split; [done|]. by rewrite cons_middle, app_assoc.
Qed.
End allocate.

(** ** The plan *)

Section plan.
Context `{U : UuidLib} `{Fabric F}.
Import AggregatingScheduler.
Implicit Types (f : F) (q : ResourceFragment.t).

Abbreviation sorted_offers f := (sort_on ResourceOffer.participant_id (offers f)).
Abbreviation run_allocate q f := (allocate q ResourceFragment.default [] (sorted_offers f)).

Lemma sorted_well_formed f : well_formed_offers (sorted_offers f) ↔ well_formed_offers (offers f).
Proof. unfold well_formed_offers. by rewrite (sort_on_perm _ (offers f)). Qed.

Lemma default_satisfies_empty q :
  valid_fragment q → ResourceFragment.satisfies ResourceFragment.default q = true →
  ResourceFragment.is_empty q = true.
Proof.
  intros [_ Hn] Hs. unfold ResourceFragment.satisfies, f64_geb in Hs. bools.
  unfold ResourceFragment.is_empty. rewrite !andb_true_iff, !N.eqb_eq. cbn in *.
  split_and!; try lia. apply f64_leb_antisym; [done|]. by rewrite nonneg_leb_zero.
Qed.

(** What the loop has allocated when it ends. *)
Lemma run_allocate_spec f q :
  well_formed_offers (offers f) →
  ∃ l1 l2, sorted_offers f = l1 ++ l2 ∧
    allocated q l1 (run_allocate q f).1 (run_allocate q f).2 ∧
    (l2 = [] ∨ ResourceFragment.satisfies (run_allocate q f).1 q = true).
Proof.
  intros [Hv _]%sorted_well_formed. destruct (run_allocate q f) as [t al] eqn:Ht.
  eapply (allocate_spec q _ []) in Ht; [done|apply allocated_nil|done].
Qed.

Lemma run_allocate_compose f q :
  well_formed_offers (offers f) → valid_requirement q →
  ResourceFragment.satisfies (run_allocate q f).1 q = true →
  CompositeResource.compose (run_allocate q f).2 =
    Ok (CompositeResource.mk (run_allocate q f).1 (run_allocate q f).2).
Proof.
  intros Hwf [Hv He] Hs. destruct (run_allocate_spec f q Hwf) as (l1 & l2 & Hl & Hal & _).
  apply compose_ok. split_and!.
  - intros Hnil. destruct Hal as [Ht _ _ _ _]. rewrite Hnil in Ht. rewrite Ht in Hs.
    apply default_satisfies_empty in Hs; [congruence|done].
  - by destruct Hal.
  - apply sorted_well_formed in Hwf as [_ Hnd]. eapply sublist_NoDup; [exact Hnd|].
    etrans; [apply Hal|]. rewrite Hl, fmap_app. by apply sublist_inserts_r.
  - by rewrite <- (al_total _ _ _ _ Hal).
Qed.

(** The four ways a plan ends. *)
Lemma plan_cases f q n :
  (¬ valid_requirement q ∧ plan f q n = (Err SchedulerError.InvalidRequirement, n)) ∨
  (valid_requirement q ∧ ¬ well_formed_offers (offers f) ∧
   plan f q n = (Err SchedulerError.InvalidOffer, n)) ∨
  (valid_requirement q ∧ well_formed_offers (offers f) ∧
   ResourceFragment.satisfies (run_allocate q f).1 q = false ∧
   plan f q n = (Err SchedulerError.InsufficientResources, n)) ∨
  (valid_requirement q ∧ well_formed_offers (offers f) ∧
   ResourceFragment.satisfies (run_allocate q f).1 q = true ∧
   let r := CompositeResource.mk (run_allocate q f).1 (run_allocate q f).2 in
   CompositeResource.compose (run_allocate q f).2 = Ok r ∧
   plan f q n = (Ok (LogicalNode.mk (uuid_to_string (new_v4 n)) r RuntimeSpec.default), S n)).
Proof.
  unfold plan, scheduler, lift, mbind, op_bind.
  destruct (requirement_ok_dec q) as [Hq|[e Hq]].
  2: { left. rewrite <- requirement_ok, Hq. done. }
  right. apply requirement_ok in Hq as Hq'. rewrite Hq'. cbn [map_err].
  destruct (check_offers_spec (sorted_offers f) ∅) as [(-> & Hwf%sorted_well_formed & _)|[-> Hn]].
  2: { left. rewrite <- sorted_well_formed. split_and!; [done| |done]. set_solver. }
  right. pose proof (run_allocate_compose f q Hwf Hq) as Hc.
  destruct (run_allocate q f) as [t al]. cbn [fst snd] in *.
  destruct (ResourceFragment.satisfies t q); [right|by left].
  specialize (Hc eq_refl). simpl. split_and!; try done. rewrite Hc. simpl.
  by rewrite (composed_validates _ _ Hc).
Qed.

Lemma offered_perm fld q l1 l2 : l1 ≡ₚ l2 → offered fld q l1 = offered fld q l2.
Proof.
  intros Hp. unfold offered. induction Hp as [|x l1 l2 _ IH|x y l|l1 l2 l3 _ IH1 _ IH2].
  - done.
  - rewrite !filter_cons. case_decide; [|done]. rewrite !fmap_cons. simpl. by rewrite IH.
  - rewrite !filter_cons. repeat case_decide; rewrite ?fmap_cons; simpl; lia.
  - by rewrite IH1.
Qed.

Lemma foldl_min_lifetime_const (d : option Duration) ls :
  Forall (λ x, x = d) ls → ls ≠ [] → foldl ResourceFragment.min_lifetime None ls = d.
Proof.
  intros Hd Hls. destruct Hd as [|x ls -> Hd]; [done|]. cbn [foldl ResourceFragment.min_lifetime].
  clear Hls. induction Hd as [|y ls -> _ IH]; [done|]. cbn [foldl].
  destruct d as [d|]; simpl; [|done]. by rewrite N.min_id.
Qed.

Lemma allocated_lifetime q seen t al :
  allocated q seen t al → al ≠ [] → ResourceFragment.lifetime t = ResourceFragment.lifetime q.
Proof.
  intros [-> _ _ Hal _] Hne. rewrite sum_from_lifetime. apply foldl_min_lifetime_const.
  - rewrite !Forall_fmap. eapply Forall_impl; [exact Hal|]. by intros a (o & _ & _ & _ & _ & ?).
  - by destruct al.
Qed.

Lemma lifetime_covers_refl d : ResourceFragment.lifetime_covers d d = true.
Proof. destruct d; [|done]. apply N.leb_refl. Qed.

(** Without a CPU requirement, the loop succeeds once every integer quantity is on offer. *)
Lemma run_allocate_complete f q :
  ResourceFragment.wf q → f64_eqb (ResourceFragment.cores q) f64_zero = true →
  well_formed_offers (offers f) →
  (∀ fld max, (fld, max) ∈ integer_fields → (fld q ≤ offered fld q (offers f))%N) →
  ResourceFragment.satisfies (run_allocate q f).1 q = true.
Proof.
  intros Hq Hc Hwf Hoff. destruct (run_allocate_spec f q Hwf) as (l1 & l2 & Hl & Hal & [->|]); [|done].
  rewrite app_nil_r in Hl. pose proof Hal as [Ht Hv _ _ Hf]. apply satisfies_fields.
  - assert (nonneg (ResourceFragment.cores (run_allocate q f).1) = true) as Hn.
    { rewrite Ht. by apply sum_from_nonneg. }
    apply f64_eqb_zero in Hc as [s ->]. by destruct (ResourceFragment.cores (run_allocate q f).1) as [|[]| |[]].
  - intros fld max Hfld. rewrite (Hf Hq fld max Hfld), <- Hl.
    rewrite (offered_perm _ _ _ _ (sort_on_perm _ _)). apply Hoff in Hfld. lia.
  - destruct (decide ((run_allocate q f).2 = [])) as [Hnil|Hne].
    + rewrite Ht, Hnil. by destruct (ResourceFragment.lifetime q).
    + rewrite (allocated_lifetime _ _ _ _ Hal Hne). apply lifetime_covers_refl.
Qed.
End plan.

(** What is known of a planned node. *)
Lemma plan_ok_facts `{UuidLib} `{Fabric F} (f : F) q n node n' :
  plan f q n = (Ok node, n') →
  let r := LogicalNode.resources node in
  n' = S n ∧ LogicalNode.id node = uuid_to_string (new_v4 n) ∧
  LogicalNode.runtime node = RuntimeSpec.default ∧
  CompositeResource.compose (CompositeResource.allocations r) = Ok r ∧
  CompositeResource.satisfies r q = true ∧
  Forall (λ a, ∃ o, o ∈ offers f ∧ taken_from q a o) (CompositeResource.allocations r) ∧
  (ResourceFragment.wf q → ∀ fld max, (fld, max) ∈ integer_fields →
    fld (CompositeResource.capacity r) = fld q) ∧
  ResourceFragment.lifetime (CompositeResource.capacity r) = ResourceFragment.lifetime q ∧
  StronglySorted String.le (ids_of (CompositeResource.allocations r)).
Proof.
  intros Hp. cbv zeta.
  destruct (plan_cases f q n) as [(_ & E)|[(_ & _ & E)|[(_ & _ & _ & E)|(_ & Hwf & Hs & Hc & E)]]];
    rewrite E in Hp; simplify_eq; cbn [LogicalNode.id LogicalNode.runtime LogicalNode.resources
      CompositeResource.capacity CompositeResource.allocations].
  destruct (run_allocate_spec f q Hwf) as (l1 & l2 & Hl & Hal & _).
  apply compose_ok in Hc as Hc'. destruct Hc' as (Hne & _).
  split_and!; try done.
  - eapply Forall_impl; [apply (al_taken _ _ _ _ Hal)|]. intros a (o & Ho & ?). exists o. split; [|done].
    apply (elem_of_sort_on ResourceOffer.participant_id). rewrite Hl. set_solver.
  - intros Hq fld max Hfld. pose proof (al_field _ _ _ _ Hal Hq fld max Hfld).
    pose proof (field_satisfies fld max Hfld _ _ Hs). lia.
  - by eapply allocated_lifetime.
  - eapply StronglySorted_sublist; [|apply (sort_on_keys_sorted ResourceOffer.participant_id (offers f))].
    etrans; [apply Hal|]. rewrite Hl, fmap_app. by apply sublist_inserts_r.
Qed.

(** ** The interface the control plane uses *)

(** What a scheduler promises: it neither panics nor takes UUIDs back, and a planned node carries
    a drawn UUID and a composite that validates and satisfies the requirement. *)
Class SchedulerLaws `{UuidLib} (W : Type) `{Scheduler W} : Prop := {
  plan_no_panic : ∀ w q n, (plan w q n).1 ≠ Panic;
  plan_draws : ∀ w q n, n ≤ (plan w q n).2;
  plan_node : ∀ w q n node n', plan w q n = (Ok node, n') →
    (∃ i, n ≤ i < n' ∧ LogicalNode.id node = uuid_to_string (new_v4 i)) ∧
    CompositeResource.validate (LogicalNode.resources node) = Ok () ∧
    CompositeResource.satisfies (LogicalNode.resources node) q = true;
}.

#[export] Instance aggregating_scheduler_laws `{UuidLib} `{Fabric F} : SchedulerLaws F.
Proof.
  split; intros f q n; try intros node n';
    destruct (plan_cases f q n) as [(? & ->)|[(? & ? & ->)|[(? & ? & ? & ->)|(? & ? & Hs & Hc & ->)]]];
    try done; cbn; try lia.
  intros [= <- <-]. cbn. split_and!; [eauto with lia| |done]. by eapply composed_validates.
Qed.

(** ** Properties *)

(** C3: a planned node fits its requirement. Its UUID is the next draw; its composite validates,
    satisfies the requirement, has exactly the required integer quantities and lifetime, and every
    share is within an offer of the fabric of the same participant whose lifetime is long enough;
    the participants are distinct and in order. *)
Theorem plan_sound `{UuidLib} `{Fabric F} (f : F) (q : ResourceFragment.t) (n n' : nat)
    (node : LogicalNode.t) :
  ResourceFragment.wf q → plan f q n = (Ok node, n') →
  let r := LogicalNode.resources node in
  n' = S n ∧ LogicalNode.id node = uuid_to_string (new_v4 n) ∧
  LogicalNode.runtime node = RuntimeSpec.default ∧
  CompositeResource.validate r = Ok () ∧ CompositeResource.satisfies r q = true ∧
  (∀ fld max, (fld, max) ∈ integer_fields → fld (CompositeResource.capacity r) = fld q) ∧
  ResourceFragment.lifetime (CompositeResource.capacity r) = ResourceFragment.lifetime q ∧
  Forall (λ a, ∃ o, o ∈ offers f ∧ taken_from q a o) (CompositeResource.allocations r) ∧
  NoDup (ids_of (CompositeResource.allocations r)) ∧
  StronglySorted String.le (ids_of (CompositeResource.allocations r)).
Proof.
  intros Hq (-> & Hid & Hrt & Hc & Hs & Hal & Hf & Hl & Hsort)%plan_ok_facts. cbv zeta.
  apply compose_ok in Hc as Hc'. destruct Hc' as (_ & _ & Hnd & _).
  split_and!; try done; [by eapply composed_validates|by apply Hf].
Qed.

(** How a plan fails. It never panics and a failure draws no UUID; a requirement that is not
    valid is rejected first, then a set of offers with an unusable or repeated one; what is left
    to fail is that the allocated total does not satisfy the requirement. *)
Theorem plan_outcome `{UuidLib} `{Fabric F} (f : F) (q : ResourceFragment.t) (n : nat) :
  let total := (AggregatingScheduler.allocate q ResourceFragment.default []
                  (sort_on ResourceOffer.participant_id (offers f))).1 in
  (plan f q n).1 ≠ Panic ∧
  (∀ e, (plan f q n).1 = Err e → (plan f q n).2 = n) ∧
  ((plan f q n).1 = Err SchedulerError.InvalidRequirement ↔ ¬ valid_requirement q) ∧
  ((plan f q n).1 = Err SchedulerError.InvalidOffer ↔
    valid_requirement q ∧ ¬ well_formed_offers (offers f)) ∧
  ((plan f q n).1 = Err SchedulerError.InsufficientResources ↔
    valid_requirement q ∧ well_formed_offers (offers f) ∧
    ResourceFragment.satisfies total q = false).
Proof.
  destruct (plan_cases f q n) as [(? & ->)|[(? & ? & ->)|[(? & ? & ? & ->)|(? & ? & Hs & _ & ->)]]];
    cbn [fst snd]; split_and!; intuition congruence.
Qed.

(** C10: a requirement without CPU is planned exactly when, in each integer quantity, the offers
    whose lifetime is long enough add up to at least what is required. *)
Theorem plan_complete `{UuidLib} `{Fabric F} (f : F) (q : ResourceFragment.t) (n : nat) :
  ResourceFragment.wf q → valid_requirement q → well_formed_offers (offers f) →
  f64_eqb (ResourceFragment.cores q) f64_zero = true →
  is_ok (plan f q n).1 = true ↔
  ∀ fld max, (fld, max) ∈ integer_fields → (fld q ≤ offered fld q (offers f))%N.
Proof.
  intros Hq Hv Hwf Hc. split.
  - destruct (plan_cases f q n) as [(? & ->)|[(? & ? & ->)|[(? & ? & ? & ->)|(_ & _ & Hs & _ & ->)]]];
      try done. intros _ fld max Hfld.
    destruct (run_allocate_spec f q Hwf) as (l1 & l2 & Hl & Hal & _).
    pose proof (al_field _ _ _ _ Hal Hq fld max Hfld).
    pose proof (field_satisfies fld max Hfld _ _ Hs).
    rewrite <- (offered_perm _ _ _ _ (sort_on_perm ResourceOffer.participant_id _)), Hl.
    assert (offered fld q l1 ≤ offered fld q (l1 ++ l2))%N; [|lia].
    clear. induction l2 as [|o l2 IH] using rev_ind; [by rewrite app_nil_r|].
    rewrite app_assoc, offered_snoc. lia.
  - intros Hoff. pose proof (run_allocate_complete f q Hq Hc Hwf Hoff) as Hs.
    destruct (plan_cases f q n) as [(? & ->)|[(? & ? & ->)|[(_ & _ & Hs' & _)|(_ & _ & _ & _ & ->)]]];
      try done. congruence.
Qed.

(** Planning does not depend on the order in which a fabric lists its offers, nor on which
    fabric lists them. *)
Theorem plan_deterministic `{UuidLib} `{Fabric F} `{Fabric G} (f : F) (g : G)
    (q : ResourceFragment.t) (n : nat) :
  offers f ≡ₚ offers g → plan f q n = plan g q n.
Proof.
  intros Hp.
  assert (well_formed_offers (offers f) ↔ well_formed_offers (offers g)) as Hwf.
  { unfold well_formed_offers. by rewrite Hp. }
  destruct (plan_cases f q n) as [(Hn & E)|[(? & ? & E)|[(? & Hw & Hs & E)|(? & Hw & Hs & _ & E)]]];
    rewrite E;
    destruct (plan_cases g q n) as [(? & ->)|[(? & ? & ->)|[(? & ? & Hs' & ->)|(? & ? & Hs' & _ & ->)]]];
    try done; try tauto; try (destruct Hn; tauto).
  all: rewrite <- (sort_on_perm_eq ResourceOffer.participant_id (offers f)) in Hs' by (try done; apply Hw).
  all: rewrite ?(sort_on_perm_eq ResourceOffer.participant_id (offers f) (offers g)) by (try done; apply Hw).
  all: congruence.
Qed.

(** Over a fabric that keeps its promise, planning never reports an invalid offer. *)
Theorem plan_lawful_fabric `{UuidLib} `{FabricLaws F wf} (f : F) (q : ResourceFragment.t) (n : nat) :
  wf f → (plan f q n).1 ≠ Err SchedulerError.InvalidOffer.
Proof.
  intros Hf. apply fabric_offers in Hf.
  by destruct (plan_cases f q n)
    as [(? & ->)|[(? & ? & ->)|[(? & ? & ? & ->)|(? & ? & ? & _ & ->)]]].
Qed.

(** ** Concrete plans *)

Definition fragment (cores : f64) (mem sto bps units : N) (life : option Duration)
    : ResourceFragment.t :=
  ResourceFragment.mk (Cpu.mk cores) (Memory.mk mem) (Storage.mk sto) (Network.mk bps)
    (Gpu.mk units) life.

(** The fabric after the upserts of [l]. *)
Definition memory_fabric_of (l : list ResourceOffer.t) : MemoryFabric.t :=
  foldl (λ m o, (MemoryFabric.upsert o m).2) MemoryFabric.new l.

Lemma memory_fabric_of_wf l : MemoryFabric.wf (memory_fabric_of l).
Proof.
  unfold memory_fabric_of. assert (MemoryFabric.wf MemoryFabric.new) as H by apply memory_fabric_new_wf.
  revert H. generalize MemoryFabric.new. induction l as [|o l IH]; intros m Hm; [done|].
  by apply IH, memory_fabric_upsert_wf.
Qed.

Definition demo_offers : list ResourceOffer.t := [
  ResourceOffer.mk uuid_b (fragment f64_one 100 10 0 1 (Some 1000%N));
  ResourceOffer.mk uuid_a (fragment f64_one 50 0 7 0 None)].
Definition demo_fabric : MemoryFabric.t := memory_fabric_of demo_offers.

(** One more byte of memory than the participant [uuid_a] has, and one core. *)
Definition demo_requirement : ResourceFragment.t := fragment f64_one 51 0 7 1 (Some 900%N).
Definition demo_memory : ResourceFragment.t := fragment f64_zero 150 0 0 0 (Some 900%N).

Example demo_shares :
  match plan demo_fabric demo_requirement 0 with
  | (Ok node, 1) =>
    CompositeResource.allocations (LogicalNode.resources node) = [
      Allocation.mk uuid_a (fragment f64_one 50 0 7 0 (Some 900%N));
      Allocation.mk uuid_b (fragment f64_zero 1 0 0 1 (Some 900%N))]
  | _ => False
  end.
Proof. vm_compute. reflexivity. Qed.

Lemma wf_bound_dec m s b u d :
  ((m <=? U64_MAX) && (s <=? U64_MAX) && (b <=? U64_MAX) && (u <=? U32_MAX) &&
    (d <=? Duration.MAX))%N = true →
  ∀ c, ResourceFragment.wf (fragment c m s b u (Some d)).
Proof. intros H c. bools. split; [by split_and!|]. intros d' [= <-]. done. Qed.

Lemma plan_sound_witness :
  match plan demo_fabric demo_requirement 0 with
  | (Ok node, n') =>
    n' = 1 ∧ CompositeResource.satisfies (LogicalNode.resources node) demo_requirement = true ∧
    ResourceFragment.mem (CompositeResource.capacity (LogicalNode.resources node)) = 51%N
  | _ => False
  end.
Proof.
  destruct (plan demo_fabric demo_requirement 0) as [[node|e|] n'] eqn:E;
    [|vm_compute in E; discriminate..].
  pose proof (plan_sound demo_fabric demo_requirement 0 n' node
    (wf_bound_dec 51 0 7 1 900 eq_refl _) E) as (Hn & _ & _ & _ & Hs & Hf & _).
  split; [exact Hn|split; [exact Hs|]].
  apply (Hf ResourceFragment.mem U64_MAX). by left.
Defined.

Lemma demo_offers_well_formed : well_formed_offers (offers demo_fabric).
Proof. apply memory_fabric_laws, memory_fabric_of_wf. Qed.

Lemma plan_complete_witness :
  is_ok (plan demo_fabric demo_memory 0).1 = true ↔
  ∀ fld max, (fld, max) ∈ integer_fields →
    (fld demo_memory ≤ offered fld demo_memory (offers demo_fabric))%N.
Proof.
  apply (plan_complete demo_fabric demo_memory 0).
  - by apply wf_bound_dec.
  - by apply requirement_ok.
  - exact demo_offers_well_formed.
  - reflexivity.
Defined.

Example demo_memory_fits : is_ok (plan demo_fabric demo_memory 0).1 = true.
Proof. vm_compute. reflexivity. Qed.

Lemma plan_deterministic_witness :
  plan (Scheduler := @AggregatingScheduler.scheduler _ (list ResourceOffer.t) (λ l, l))
    demo_offers demo_requirement 0 = plan demo_fabric demo_requirement 0.
Proof.
  apply (@plan_deterministic _ (list ResourceOffer.t) (λ l, l) MemoryFabric.t _
           demo_offers demo_fabric demo_requirement 0).
  assert (offers demo_fabric = rev demo_offers) as -> by (vm_compute; reflexivity).
  apply perm_swap.
Defined.

Lemma plan_lawful_fabric_witness :
  (plan demo_fabric demo_requirement 0).1 ≠ Err SchedulerError.InvalidOffer.
Proof. apply plan_lawful_fabric, memory_fabric_of_wf. Defined.

(** Requirements and offers at which the rounding of the remaining CPU shows:
    [1 + 2^-52] cores, against [2^-53] and [2] cores. *)
Definition cores_required : f64 := S754_finite false 4503599627370497 (-52).
Definition cores_tiny : f64 := S754_finite false 4503599627370496 (-105).
Definition cores_two : f64 := S754_finite false 4503599627370496 (-51).

(** C39: the allocation loop computes with rounded numbers of cores, so a scheduler can reject a
    requirement as unsatisfiable although a single offer of the fabric satisfies it: what an
    earlier, tiny offer contributes is lost when the rest is rounded. *)
Theorem plan_rounding_rejects `{UuidLib} (n : nat) :
  let requirement := fragment cores_required 0 0 0 0 None in
  let large := fragment cores_two 0 0 0 0 None in
  let fabric := memory_fabric_of [ResourceOffer.mk uuid_a (fragment cores_tiny 0 0 0 0 None);
                                  ResourceOffer.mk uuid_b large] in
  valid_requirement requirement ∧ well_formed_offers (offers fabric) ∧
  ResourceOffer.mk uuid_b large ∈ offers fabric ∧
  ResourceFragment.satisfies large requirement = true ∧
  plan fabric requirement n = (Err SchedulerError.InsufficientResources, n).
Proof.
  cbv zeta. split_and!.
  - by apply requirement_ok.
  - apply memory_fabric_laws, memory_fabric_of_wf.
  - right. left.
  - reflexivity.
  - vm_compute. reflexivity.
Qed.
