(* ===== verification/testing.v ===== *)
(** * Results that are unwrapped

    What a program does with a result it does not expect to fail: [unwrap] and its kin panic. The
    unit tests of the crate are such programs; a test passes when it does not panic. *)
From S2P Require Import prelude bytes time float identity uuid_demo resource.
From stdpp Require Import list.
From Stdlib Require Import SpecFloat.

(** A program that can only panic, over the UUIDs drawn so far or another state. *)
Abbreviation prog S A := (op S Empty_set A).
Abbreviation test := (prog nat ()).

Section unwrap.
Context {S E A : Type}.

(** [panic!]. *)
Definition panic : prog S A := λ s, (Panic, s).

(** [Result::unwrap] and [Result::unwrap_err]. *)
Definition unwrap (r : result E A) : prog S A :=
  match r with Ok a => mret a | _ => panic end.
Definition unwrap_err (r : result E A) : prog S E :=
  match r with Err e => mret e | _ => λ s, (Panic, s) end.

(** [Result::expect] or [unwrap] of what an operation returns, and [unwrap_err] of it. *)
Definition expect (m : op S E A) : prog S A := λ s,
  match m s with (Ok a, s') => (Ok a, s') | (_, s') => (Panic, s') end.
Definition expect_err (m : op S E A) : prog S E := λ s,
  match m s with (Err e, s') => (Ok e, s') | (_, s') => (Panic, s') end.
End unwrap.

(** [assert!] and [assert_eq!]. *)
Definition assert {S} (b : bool) : prog S () := if b then mret () else panic.
Definition assert_eq {S} `{EqDecision A} (x y : A) : prog S () := assert (bool_decide (x = y)).

(** A mutable variable of another state: what the program leaves there is returned with its
    value. *)
Definition local {S T A} (s : T) (m : prog T A) : prog S (A * T) := λ st,
  let '(r, s') := m s in (r ≫= λ a, Ok (a, s'), st).

(** [for x in l]. *)
Fixpoint for_each {S A} (l : list A) (f : A → prog S ()) : prog S () :=
  match l with [] => mret () | x :: l => _ ← f x; for_each l f end.

(** [l.iter().map(f).collect()], for an [f] that may panic. *)
Fixpoint map_all {S A B} (f : A → prog S B) (l : list A) : prog S (list B) :=
  match l with [] => mret [] | x :: l => y ← f x; ys ← map_all f l; mret (y :: ys) end.

(** [l[i]], which panics when it is out of range, and [t + Duration::from_secs(secs)]. *)
Definition index {S A} (l : list A) (i : nat) : prog S A := unwrap (ok_or (l !! i) ()).
Definition after {S} (t : SystemTime) (secs : N) : prog S SystemTime :=
  unwrap (SystemTime.add (E := Empty_set) t (Duration.from_secs secs)).

(** A test that starts without having drawn a UUID. *)
Definition passes (t : test) : bool := is_ok (t 0).1.

(** [vec![...]] of numbers below 256. *)
Definition vec (l : list N) : list u8 := Ascii.ascii_of_N <$> l.

(** ** Numbers and fragments of the programs *)

Definition f64_two : f64 := S754_finite false 4503599627370496 (-51).
Definition f64_three : f64 := S754_finite false 6755399441055744 (-51).
Definition f64_half : f64 := S754_finite false 4503599627370496 (-53).
Definition f64_three_quarters : f64 := S754_finite false 6755399441055744 (-53).
Definition f64_one_and_a_quarter : f64 := S754_finite false 5629499534213120 (-52).

(** [ResourceFragment { cpu: Cpu { cores }, lifetime, ..Default::default() }]. *)
Definition cpu_for (cores : f64) (lifetime : option Duration) : ResourceFragment.t := {|
  ResourceFragment.cpu := Cpu.mk cores;
  ResourceFragment.memory := ResourceFragment.memory ResourceFragment.default;
  ResourceFragment.storage := ResourceFragment.storage ResourceFragment.default;
  ResourceFragment.network := ResourceFragment.network ResourceFragment.default;
  ResourceFragment.gpu := ResourceFragment.gpu ResourceFragment.default;
  ResourceFragment.lifetime := lifetime;
|}.
Abbreviation cpu cores := (cpu_for cores None).

Example three_is_one_plus_two : f64_add f64_one f64_two = f64_three.
Proof. reflexivity. Qed.
Example two_is_a_sum : f64_add f64_three_quarters f64_one_and_a_quarter = f64_two.
Proof. reflexivity. Qed.
