(* ===== verification/main.v ===== *)
(** * The demonstration binary ([src/bin/openhost.rs])

    [main] offers one participant's resources on an in-memory fabric, plans a logical node for half
    of them and prints it. A run is an operation on the UUIDs drawn so far that returns the lines
    it prints. *)
From S2P Require Import prelude bytes time float identity uuid_demo resource node fabric scheduler.
From S2P Require Import testing.
From stdpp Require Import list pretty.
From Stdlib Require Import SpecFloat.
Open Scope string_scope.

(** ** [format!("{x:.2}")] of an [f64] *)

(** [n * 2 ^ e] rounded to an integer, ties to even. *)
Definition round_half_even (n : N) (e : Z) : N :=
  if (0 <=? e)%Z then (n * 2 ^ Z.to_N e)%N
  else
    let d := (2 ^ Z.to_N (- e))%N in
    let q := (n / d)%N in
    let r := (n mod d)%N in
    if (2 * r <? d)%N then q
    else if (d <? 2 * r)%N then (q + 1)%N
    else if N.even q then q else (q + 1)%N.

Definition sign_str (s : bool) : string := if s then "-" else "".

Definition show_hundredths (n : N) : string :=
  pretty (n / 100)%N +:+ "." +:+ pretty ((n mod 100) / 10)%N +:+ pretty (n mod 10)%N.

Definition fixed2 (x : f64) : string :=
  match x with
  | S754_nan => "NaN"
  | S754_infinity s => sign_str s +:+ "inf"
  | S754_zero s => sign_str s +:+ "0.00"
  | S754_finite s m e => sign_str s +:+ show_hundredths (round_half_even (100 * N.pos m) e)
  end.

Lemma round_half_even_nearest n e :
  (e < 0)%Z →
  let d := (2 ^ Z.to_N (- e))%N in
  (2 * Z.abs (Z.of_N n - Z.of_N (round_half_even n e) * Z.of_N d) ≤ Z.of_N d)%Z.
Proof.
  intros He d. unfold round_half_even. rewrite (proj2 (Z.leb_gt 0 e)) by done. fold d.
  assert (d ≠ 0%N) as Hd by (unfold d; apply N.pow_nonzero; lia).
  pose proof (N.div_mod n d Hd). pose proof (N.mod_lt n d Hd).
  generalize dependent (n / d)%N. generalize dependent (n mod d)%N. clearbody d.
  intros r Hr q ->. rewrite N2Z.inj_add, N2Z.inj_mul.
  repeat case_match; bools; rewrite ?N2Z.inj_add;
    match goal with |- (2 * Z.abs ?x ≤ _)%Z => ring_simplify x end; lia.
Qed.

Example fixed2_quarter : fixed2 (S754_finite false 4503599627370496 (-54)) = "0.25".
Proof. reflexivity. Qed.
Example fixed2_tie : fixed2 (S754_finite false 4503599627370496 (-55)) = "0.12".
Proof. reflexivity. Qed.
Example fixed2_negative : fixed2 (S754_finite true 6755399441055744 (-52)) = "-1.50".
Proof. reflexivity. Qed.

(** ** The program *)

Definition demo_offer : ResourceOffer.t := {|
  ResourceOffer.participant_id := "local-demo";
  ResourceOffer.resources := {|
    ResourceFragment.cpu := Cpu.mk f64_one;
    ResourceFragment.memory := Memory.mk (N.shiftl 256 20);
    ResourceFragment.storage := ResourceFragment.storage ResourceFragment.default;
    ResourceFragment.network := ResourceFragment.network ResourceFragment.default;
    ResourceFragment.gpu := ResourceFragment.gpu ResourceFragment.default;
    ResourceFragment.lifetime := ResourceFragment.lifetime ResourceFragment.default;
  |};
|}.

Definition demo_requirement : ResourceFragment.t := {|
  ResourceFragment.cpu := Cpu.mk f64_half;
  ResourceFragment.memory := Memory.mk (N.shiftl 128 20);
  ResourceFragment.storage := ResourceFragment.storage ResourceFragment.default;
  ResourceFragment.network := ResourceFragment.network ResourceFragment.default;
  ResourceFragment.gpu := ResourceFragment.gpu ResourceFragment.default;
  ResourceFragment.lifetime := ResourceFragment.lifetime ResourceFragment.default;
|}.

Definition node_line (node : LogicalNode.t) : string :=
  let resources := LogicalNode.resources node in
  "logical node: " +:+ LogicalNode.id node +:+ " (" +:+
  pretty (N.of_nat (length (CompositeResource.allocations resources))) +:+ " allocation(s), " +:+
  fixed2 (ResourceFragment.cores (CompositeResource.capacity resources)) +:+ " CPU cores, " +:+
  pretty (ResourceFragment.mem (CompositeResource.capacity resources)) +:+ " bytes memory)".

(** The fabric is shared with the scheduler, which only reads it. *)
Definition main `{UuidLib} : op nat Empty_set (list string) := λ draws,
  match MemoryFabric.upsert demo_offer MemoryFabric.new with
  | (Ok (), fabric) =>
    (node ← expect (plan fabric demo_requirement);
     mret ["OpenHost"; "The infrastructure is the network, not the machine."; node_line node])
      draws
  | (_, _) => (Panic, draws)
  end.

(** Whatever UUID it draws, the demonstration neither panics nor fails: it plans one allocation
    of exactly the required half core and 128 MiB, and prints the node with the drawn identity. *)
Theorem main_prints_the_node `{UuidLib} (draws : nat) :
  main draws =
    (Ok ["OpenHost"; "The infrastructure is the network, not the machine.";
         "logical node: " +:+ uuid_to_string (new_v4 draws) +:+
         " (1 allocation(s), 0.50 CPU cores, 134217728 bytes memory)"], S draws).
Proof. vm_compute. reflexivity. Qed.
