(* ===== verification/lease.v ===== *)
(** * Leases ([src/lease.rs])

    A lease binds a fragment of a participant's resources to a logical node for a window of time. *)
From S2P Require Import prelude bytes time float identity uuid_demo resource.

Module LeaseError.
Inductive t := InvalidLease | InvalidExpiry | InvalidLifetime | InvalidParticipant | InvalidNode.
#[global] Instance eq_dec : EqDecision t.
Proof. solve_decision. Defined.
End LeaseError.

Module Lease.
Record t := mk {
  id : Identity.t;
  logical_node_id : Identity.t;
  participant_id : Identity.t;
  resources : ResourceFragment.t;
  created_at : SystemTime;
  expires_at : SystemTime;
}.
#[global] Instance eq_dec : EqDecision t.
Proof. solve_decision. Defined.

Section ops.
Context `{UuidLib}.

Definition validate (self : t) : result LeaseError.t () :=
  if bad_identity Kind.Lease (id self) then Err LeaseError.InvalidLease
  else if bad_identity Kind.LogicalNode (logical_node_id self) then Err LeaseError.InvalidNode
  else if bad_identity Kind.Participant (participant_id self) then Err LeaseError.InvalidParticipant
  else
    _ ← ResourceFragment.validate_requirement (resources self)
          .map_err (λ _, LeaseError.InvalidLease);
    if (created_at self =? SystemTime.UNIX_EPOCH)%Z || (expires_at self <=? created_at self)%Z
    then Err LeaseError.InvalidExpiry
    else
      duration ← ok_or (SystemTime.duration_since (expires_at self) (created_at self))
                   LeaseError.InvalidExpiry;
      if from_option (λ l, l <? duration)%N false (ResourceFragment.lifetime (resources self))
      then Err LeaseError.InvalidLifetime
      else Ok ().

Definition new (id logical_node_id participant_id : Identity.t) (resources : ResourceFragment.t)
    (created_at expires_at : SystemTime) : result LeaseError.t t :=
  let lease := {|
    id := id; logical_node_id := logical_node_id; participant_id := participant_id;
    resources := resources; created_at := created_at; expires_at := expires_at |} in
  _ ← validate lease;
  Ok lease.
End ops.

Definition active_at (self : t) (now : SystemTime) : bool :=
  (created_at self <=? now)%Z && (now <? expires_at self)%Z.

(** [unwrap_or_default]: no time remains once the lease has expired. *)
Definition remaining_at (self : t) (now : SystemTime) : Duration :=
  default 0%N (SystemTime.duration_since (expires_at self) now).
End Lease.

(** What [validate] accepts. *)
Record valid_lease `{UuidLib} (l : Lease.t) : Prop := {
  vl_id : valid_identity Kind.Lease (Lease.id l);
  vl_node : valid_identity Kind.LogicalNode (Lease.logical_node_id l);
  vl_participant : valid_identity Kind.Participant (Lease.participant_id l);
  vl_resources : valid_requirement (Lease.resources l);
  vl_created : Lease.created_at l ≠ SystemTime.UNIX_EPOCH;
  vl_window : (Lease.created_at l < Lease.expires_at l)%Z;
  vl_lifetime : ∀ d, ResourceFragment.lifetime (Lease.resources l) = Some d →
    (Lease.expires_at l - Lease.created_at l ≤ Z.of_N d)%Z;
}.

Section lease.
Context `{UuidLib}.
Import Lease.

Lemma lease_window_ok (l : Lease.t) :
  ((created_at l =? SystemTime.UNIX_EPOCH)%Z || (expires_at l <=? created_at l)%Z = false) ↔
  created_at l ≠ SystemTime.UNIX_EPOCH ∧ (created_at l < expires_at l)%Z.
Proof. rewrite orb_false_iff, Z.eqb_neq, Z.leb_gt. done. Qed.

Lemma lease_lifetime_ok (l : Lease.t) :
  (created_at l < expires_at l)%Z →
  from_option (λ d, d <? Z.to_N (expires_at l - created_at l))%N false
    (ResourceFragment.lifetime (resources l)) = false ↔
  ∀ d, ResourceFragment.lifetime (resources l) = Some d →
    (expires_at l - created_at l ≤ Z.of_N d)%Z.
Proof.
  intros Hlt. destruct (ResourceFragment.lifetime (resources l)) as [d|]; simpl; [|naive_solver].
  rewrite N.ltb_ge. split; [intros Hd d' [= <-]|intros Hd; specialize (Hd d eq_refl)]; lia.
Qed.

Lemma lease_ok l : Lease.validate l = Ok () ↔ valid_lease l.
Proof.
  unfold Lease.validate. split.
  - intros Hv. case_match eqn:H1; [done|]. case_match eqn:H2; [done|]. case_match eqn:H3; [done|].
    apply bad_identity_false in H1, H2, H3.
    apply result_bind_ok in Hv as ([] & Hr%map_err_ok%requirement_ok & Hv).
    case_match eqn:Hw; [done|]. apply lease_window_ok in Hw as [Hc Hw].
    apply result_bind_ok in Hv as (d & Hd%ok_or_ok & Hv).
    unfold SystemTime.duration_since in Hd.
    destruct (created_at l <=? expires_at l)%Z; [|done]. simplify_eq.
    case_match eqn:Hl; [done|]. pose proof (proj1 (lease_lifetime_ok l Hw) Hl). by split.
  - intros [H1 H2 H3 Hr Hc Hw Hl]. apply bad_identity_false in H1, H2, H3.
    apply requirement_ok in Hr. rewrite H1, H2, H3, Hr. simpl.
    rewrite (proj2 (lease_window_ok l) (conj Hc Hw)).
    unfold SystemTime.duration_since.
    assert ((created_at l <=? expires_at l)%Z = true) as -> by (apply Z.leb_le; lia). simpl.
    by rewrite (proj2 (lease_lifetime_ok l Hw) Hl).
Qed.

Lemma lease_no_panic l : Lease.validate l ≠ Panic.
Proof.
  unfold Lease.validate. intros Hv. do 3 (case_match; [done|]). invert_result.
  - by eapply requirement_no_panic.
  - case_match; [done|]. invert_result. by case_match.
Qed.

Lemma lease_new_ok i n p r c e l :
  Lease.new i n p r c e = Ok l ↔ l = Lease.mk i n p r c e ∧ valid_lease l.
Proof.
  unfold Lease.new. rewrite result_bind_ok. split.
  - intros ([] & Hv%lease_ok & [= <-]). done.
  - intros [-> Hv]. exists (). by rewrite lease_ok.
Qed.

Lemma lease_new_no_panic i n p r c e : Lease.new i n p r c e ≠ Panic.
Proof. unfold Lease.new. intros Hv. invert_result. by eapply lease_no_panic. Qed.

Lemma active_at_spec l t : active_at l t = true ↔ (created_at l ≤ t < expires_at l)%Z.
Proof. unfold active_at. by rewrite andb_true_iff, Z.leb_le, Z.ltb_lt. Qed.
End lease.

#[export] Hint Resolve lease_no_panic lease_new_no_panic : rust.

(** ** Properties *)

(** C25: [Lease::new] accepts a lease exactly when its three identities are valid and of their
    kinds, its resources are a valid non-empty fragment and its window is non-empty and no longer
    than the resources' lifetime. An accepted lease is active from its creation until just before
    its expiry; the time that remains is exactly what is left until its expiry, none from then on;
    and while it is active what remains is within the lifetime of its resources. *)
Theorem lease_lifecycle `{UuidLib} (l l' : Lease.t) :
  (Lease.new (Lease.id l) (Lease.logical_node_id l) (Lease.participant_id l) (Lease.resources l)
     (Lease.created_at l) (Lease.expires_at l) = Ok l' ↔ l' = l ∧ valid_lease l) ∧
  (valid_lease l →
    Lease.active_at l (Lease.created_at l) = true ∧
    (∀ t, Lease.active_at l t = true ↔ (Lease.created_at l ≤ t < Lease.expires_at l)%Z) ∧
    (∀ t, Z.of_N (Lease.remaining_at l t) = Z.max 0 (Lease.expires_at l - t)) ∧
    (∀ t d, Lease.active_at l t = true → ResourceFragment.lifetime (Lease.resources l) = Some d →
      (Lease.remaining_at l t ≤ d)%N)).
Proof.
  split; [rewrite lease_new_ok; destruct l; naive_solver|]. intros [_ _ _ _ _ Hw Hl]. split_and!.
  - apply active_at_spec. lia.
  - apply active_at_spec.
  - intros t. unfold Lease.remaining_at, SystemTime.duration_since. case_match eqn:Ht; simpl; bools; lia.
  - intros t d Ha%active_at_spec Hd. apply Hl in Hd.
    unfold Lease.remaining_at, SystemTime.duration_since. case_match; simpl; bools; lia.
Qed.

(** Validating a lease never panics, and it reports an error only when the field the error
    names is at fault. *)
Theorem lease_errors `{UuidLib} (l : Lease.t) (e : LeaseError.t) :
  Lease.validate l ≠ Panic ∧
  (Lease.validate l = Err e →
    match e with
    | LeaseError.InvalidNode =>
      valid_identity Kind.Lease (Lease.id l) ∧
      ¬ valid_identity Kind.LogicalNode (Lease.logical_node_id l)
    | LeaseError.InvalidParticipant =>
      valid_identity Kind.LogicalNode (Lease.logical_node_id l) ∧
      ¬ valid_identity Kind.Participant (Lease.participant_id l)
    | LeaseError.InvalidLease =>
      ¬ valid_identity Kind.Lease (Lease.id l) ∨ ¬ valid_requirement (Lease.resources l)
    | LeaseError.InvalidExpiry =>
      valid_requirement (Lease.resources l) ∧
      (Lease.created_at l = SystemTime.UNIX_EPOCH ∨ (Lease.expires_at l ≤ Lease.created_at l)%Z)
    | LeaseError.InvalidLifetime =>
      (Lease.created_at l < Lease.expires_at l)%Z ∧
      ∃ d, ResourceFragment.lifetime (Lease.resources l) = Some d ∧
        (Z.of_N d < Lease.expires_at l - Lease.created_at l)%Z
    end).
Proof.
  split; [apply lease_no_panic|]. unfold Lease.validate. intros Hv.
  case_match eqn:H1; [apply bad_identity_true in H1; simplify_eq; by left|].
  apply bad_identity_false in H1.
  case_match eqn:H2; [apply bad_identity_true in H2; by simplify_eq|]. apply bad_identity_false in H2.
  case_match eqn:H3; [apply bad_identity_true in H3; by simplify_eq|].
  destruct (requirement_ok_dec (Lease.resources l)) as [Hr|[e' Hr]].
  2: { assert (¬ valid_requirement (Lease.resources l)) as Hn by (by rewrite <- requirement_ok, Hr).
       rewrite Hr in Hv. simplify_eq/=. by right. }
  apply requirement_ok in Hr as Hr'. rewrite Hr' in Hv. cbn [map_err mbind result_bind] in Hv.
  case_match eqn:Hw.
  - simplify_eq. split; [done|]. bools; auto.
  - apply lease_window_ok in Hw as [_ Hw]. unfold SystemTime.duration_since in Hv.
    assert ((Lease.created_at l <=? Lease.expires_at l)%Z = true) as Hle by (apply Z.leb_le; lia).
    rewrite Hle in Hv. cbn [ok_or mbind result_bind] in Hv. case_match eqn:Hl; [|done].
    simplify_eq. split; [done|]. destruct (ResourceFragment.lifetime _) as [d|]; [|done].
    exists d. split; [done|]. simpl in *. bools. lia.
Qed.

Example demo_lease_accepted :
  let r := ResourceFragment.mk (Cpu.mk f64_one) (Memory.mk 1) (Storage.mk 0) (Network.mk 0) (Gpu.mk 0)
             (Some 50%N) in
  let lease e := Lease.new (Identity.mk uuid_a Kind.Lease) (Identity.mk uuid_b Kind.LogicalNode)
             (Identity.mk uuid_a Kind.Participant) r 100 e in
  is_ok (lease 150%Z) = true ∧ lease 151%Z = Err LeaseError.InvalidLifetime ∧
  lease 100%Z = Err LeaseError.InvalidExpiry.
Proof. vm_compute. auto. Qed.
