(* ===== verification/runtime.v ===== *)
(** * Workloads and runtimes ([src/runtime.rs])

    A [dyn Runtime] is foreign code: a name and a [run] that may change the world [W] and fail.
    The registry resolves a runtime specification to the runtime registered under it. *)
From S2P Require Import prelude bytes float identity uuid_demo resource node.

Module RuntimeError.
Inductive t :=
| EmptyWorkloadId
| InvalidParticipantIdentity
| InvalidNodeIdentity
| InvalidResources
| Unsupported
| ExecutionFailed.
#[global] Instance eq_dec : EqDecision t.
Proof. solve_decision. Defined.
End RuntimeError.

Module Workload.
Record t := mk { id : string; payload : list u8 }.
#[global] Instance eq_dec : EqDecision t.
Proof. solve_decision. Defined.

Definition validate (self : t) : result RuntimeError.t () :=
  if is_empty_str (id self) then Err RuntimeError.EmptyWorkloadId else Ok ().
End Workload.

Module RuntimeContext.
Record t := mk { participant_id : Identity.t; node_id : Identity.t; resources : ResourceFragment.t }.
#[global] Instance eq_dec : EqDecision t.
Proof. solve_decision. Defined.

Definition new (participant_id node_id : Identity.t) (resources : ResourceFragment.t)
    : result RuntimeError.t t :=
  if negb (bool_decide (Identity.kind participant_id = Kind.Participant))
  then Err RuntimeError.InvalidParticipantIdentity
  else if negb (bool_decide (Identity.kind node_id = Kind.LogicalNode))
  then Err RuntimeError.InvalidNodeIdentity
  else
    _ ← ResourceFragment.validate_requirement resources
          .map_err (λ _, RuntimeError.InvalidResources);
    Ok {| participant_id := participant_id; node_id := node_id; resources := resources |}.
End RuntimeContext.

(** The [Runtime] trait. *)
Module Runtime.
Record t (W : Type) := mk {
  name : string;
  run : RuntimeContext.t → Workload.t → op W RuntimeError.t ();
}.
Arguments mk {W}.
Arguments name {W}.
Arguments run {W}.
End Runtime.

Module RuntimeRegistryError.
Inductive t := EmptyName | EmptyVersion | DuplicateRuntime | RuntimeNotFound.
#[global] Instance eq_dec : EqDecision t.
Proof. solve_decision. Defined.
End RuntimeRegistryError.

Module RuntimeRegistry.
Abbreviation t W := (gmap (string * string) (Runtime.t W)).

Section ops.
Context {W : Type}.

Definition new : t W := ∅.

Definition validate_spec (spec : RuntimeSpec.t) : result RuntimeRegistryError.t () :=
  if is_empty_str (RuntimeSpec.name spec) then Err RuntimeRegistryError.EmptyName
  else if is_empty_str (RuntimeSpec.version spec) then Err RuntimeRegistryError.EmptyVersion
  else Ok ().

Definition key (spec : RuntimeSpec.t) : string * string :=
  (RuntimeSpec.name spec, RuntimeSpec.version spec).

Definition register (spec : RuntimeSpec.t) (runtime : Runtime.t W)
    : op (t W) RuntimeRegistryError.t () :=
  _ ← lift (validate_spec spec);
  runtimes ← gets (λ self : t W, self);
  if bool_decide (is_Some (runtimes !! key spec)) then fail RuntimeRegistryError.DuplicateRuntime
  else modify (λ self : t W, <[key spec := runtime]> self).

Definition resolve (spec : RuntimeSpec.t) (self : t W) : result RuntimeRegistryError.t (Runtime.t W) :=
  _ ← validate_spec spec;
  ok_or (self !! key spec) RuntimeRegistryError.RuntimeNotFound.

Definition contains (spec : RuntimeSpec.t) (self : t W) : result RuntimeRegistryError.t bool :=
  _ ← validate_spec spec;
  Ok (bool_decide (is_Some (self !! key spec))).

Definition len (self : t W) : nat := size self.
Definition is_empty (self : t W) : bool := len self =? 0.
End ops.
End RuntimeRegistry.

(** ** Lemmas *)

Lemma workload_ok w : Workload.validate w = Ok () ↔ Workload.id w ≠ EmptyString.
Proof. unfold Workload.validate. rewrite <- is_empty_str_false. case_match; naive_solver. Qed.

Lemma runtime_context_ok p n r c :
  RuntimeContext.new p n r = Ok c ↔
  c = RuntimeContext.mk p n r ∧ Identity.kind p = Kind.Participant ∧
  Identity.kind n = Kind.LogicalNode ∧ valid_requirement r.
Proof.
  unfold RuntimeContext.new. do 2 (case_bool_decide; simpl; [|naive_solver]).
  rewrite result_bind_ok. split.
  - by intros ([] & Hr%map_err_ok%requirement_ok & [= <-]).
  - intros (-> & _ & _ & Hr). exists (). by rewrite map_err_ok, requirement_ok.
Qed.

Lemma runtime_context_no_panic p n r : RuntimeContext.new p n r ≠ Panic.
Proof.
  unfold RuntimeContext.new. intros Hp. do 2 (case_match; [done|]). invert_result.
  by eapply requirement_no_panic.
Qed.

Section registry.
Context {W : Type}.
Import RuntimeRegistry.
Implicit Types (m : RuntimeRegistry.t W) (s : RuntimeSpec.t).

Lemma validate_spec_ok s : validate_spec s = Ok () ↔ valid_runtime s.
Proof.
  unfold validate_spec, valid_runtime. rewrite <- !is_empty_str_false.
  repeat case_match; intuition congruence.
Qed.

Lemma validate_spec_no_panic s : validate_spec s ≠ Panic.
Proof. unfold validate_spec. guards. Qed.

Lemma validate_spec_dec s : valid_runtime s ∨ ∃ e, validate_spec s = Err e.
Proof.
  destruct (validate_spec s) as [[]|e|] eqn:Hs; [left; by apply validate_spec_ok|eauto|].
  by apply validate_spec_no_panic in Hs.
Qed.

Lemma key_inj s s' : key s = key s' → s = s'.
Proof. unfold key. destruct s, s'. simpl. congruence. Qed.

Lemma runtime_register_cases s r m :
  (valid_runtime s ∧ m !! key s = None ∧ register s r m = (Ok (), <[key s := r]> m)) ∨
  ((¬ valid_runtime s ∨ is_Some (m !! key s)) ∧ ∃ e, register s r m = (Err e, m)).
Proof.
  unfold register, lift, gets, fail, modify, mbind, op_bind.
  destruct (validate_spec_dec s) as [Hs|[e He]].
  - rewrite (proj2 (validate_spec_ok s) Hs). case_bool_decide as Hm.
    + right. eauto.
    + left. by apply eq_None_not_Some in Hm.
  - right. rewrite He. split; [left; by rewrite <- validate_spec_ok, He|eauto].
Qed.

(** The registry after an attempt to register each pair of a list. *)
Definition register_all (l : list (RuntimeSpec.t * Runtime.t W)) : RuntimeRegistry.t W :=
  foldl (λ m '(s, r), (register s r m).2) new l.

(** The runtime first registered under a specification. *)
Definition first_registered (s : RuntimeSpec.t) (l : list (RuntimeSpec.t * Runtime.t W))
    : option (Runtime.t W) :=
  snd <$> (snd <$> list_find (λ x, x.1 = s) l).

Lemma first_registered_snoc s l s' r :
  first_registered s (l ++ [(s', r)]) =
    match first_registered s l with
    | Some r0 => Some r0
    | None => if decide (s' = s) then Some r else None
    end.
Proof.
  unfold first_registered. induction l as [|[s0 r0] l IH]; simpl.
  - by case_decide.
  - destruct (decide (s0 = s)) as [|]; simpl; [done|].
    destruct (list_find _ (l ++ _)) as [[? []]|], (list_find _ l) as [[? []]|]; simpl in *;
      try case_decide; congruence.
Qed.

Lemma register_all_lookup l s :
  valid_runtime s → register_all l !! key s = first_registered s l.
Proof.
  intros Hs. unfold register_all. induction l as [|[s' r] l IH] using rev_ind; [done|].
  rewrite foldl_app, first_registered_snoc, <- IH. simpl.
  destruct (runtime_register_cases s' r (foldl (λ m '(s, r), (register s r m).2) new l))
    as [(Hs' & Hn & ->)|(Hn & e & ->)]; simpl.
  - case_decide as Heq.
    + subst. by rewrite lookup_insert_eq, Hn.
    + rewrite lookup_insert_ne by (intros ?%key_inj; done). by destruct (_ !! _).
  - destruct (foldl _ new l !! key s) eqn:Hl; [done|]. case_decide; [|done]. subst.
    destruct Hn as [|[? ?]]; congruence.
Qed.
End registry.

(** ** Properties *)

(** A registry resolves a well-formed specification to the runtime that was first registered
    under it, later registrations under it being refused, and reports a missing one or a malformed
    specification as an error; [contains] agrees with [resolve]. *)
Theorem runtime_registry_resolves {W} (l : list (RuntimeSpec.t * Runtime.t W)) (s : RuntimeSpec.t) :
  let m := register_all l in
  (valid_runtime s →
    RuntimeRegistry.resolve s m =
      ok_or (first_registered s l) RuntimeRegistryError.RuntimeNotFound ∧
    RuntimeRegistry.contains s m = Ok (is_ok (RuntimeRegistry.resolve s m)) ∧
    ∀ r, is_Some (first_registered s l) → ∃ e, RuntimeRegistry.register s r m = (Err e, m)) ∧
  (¬ valid_runtime s → ∃ e, RuntimeRegistry.resolve s m = Err e ∧
    RuntimeRegistry.contains s m = Err e ∧ ∀ r, RuntimeRegistry.register s r m = (Err e, m)).
Proof.
  cbv zeta. unfold RuntimeRegistry.resolve, RuntimeRegistry.contains. split.
  - intros Hs. rewrite (proj2 (validate_spec_ok s) Hs). cbn [mbind result_bind].
    rewrite register_all_lookup by done. split_and!; [done| |].
    + by destruct (first_registered s l).
    + intros r Hf. destruct (runtime_register_cases s r (register_all l)) as [(_ & Hn & _)|(_ & ?)];
        [|done]. rewrite register_all_lookup in Hn by done. destruct Hf. congruence.
  - intros Hs. destruct (validate_spec_dec s) as [|[e He]]; [done|]. exists e. rewrite He.
    split_and!; [done..|]. intros r. unfold RuntimeRegistry.register, lift, mbind, op_bind.
    by rewrite He.
Qed.
