(* ===== verification/messages.v ===== *)
(** * Execution messages ([src/execution.rs], [src/transport.rs])

    What travels between a control plane and a participant: execution units, endpoints, requests
    and responses, the transport errors, and the [Transport] trait. *)
From S2P Require Import prelude bytes float identity resource node runtime.

Abbreviation WorkItem := Workload.t (only parsing).

Module ExecutionUnit.
Record t := mk { participant_id : Identity.t; resources : ResourceFragment.t }.
#[global] Instance eq_dec : EqDecision t.
Proof. solve_decision. Defined.
End ExecutionUnit.

Module TransportError.
Inductive t :=
| EmptyRequestId
| EmptyWorkloadId
| InvalidEndpointIdentity
| EmptyLocator
| InvalidLocator
| InvalidSourceIdentity
| MissingSourceIdentity
| UnauthorizedClient
| EmptyClientAllowlist
| DuplicateAuthorizedClientCertificate
| CertificateAssignedToMultipleIdentities
| InvalidNodeIdentity
| InvalidParticipantIdentity
| InvalidRuntimeSpec
| InvalidResources
| EndpointUnavailable
| EndpointAlreadyRegistered
| RequestRejected
| NetworkFailure
| UnsupportedProtocolVersion
| TlsConfigurationFailure
| TlsHandshakeFailure
| ResponseIdMismatch
| FrameTooLarge
| MalformedFrame.
#[global] Instance eq_dec : EqDecision t.
Proof. solve_decision. Defined.
End TransportError.

Module ExecutionEndpoint.
Record t := mk { participant_id : Identity.t; locator : string }.
#[global] Instance eq_dec : EqDecision t.
Proof. solve_decision. Defined.

Definition new (participant_id : Identity.t) (locator : string) : result TransportError.t t :=
  if negb (bool_decide (Identity.kind participant_id = Kind.Participant))
  then Err TransportError.InvalidEndpointIdentity
  else if is_empty_str locator then Err TransportError.EmptyLocator
  else Ok {| participant_id := participant_id; locator := locator |}.
End ExecutionEndpoint.

Module ExecutionRequest.
Record t := mk {
  request_id : string;
  source_participant_id : option Identity.t;
  workload : WorkItem;
  node_id : Identity.t;
  runtime : RuntimeSpec.t;
  unit : ExecutionUnit.t;
  endpoint : ExecutionEndpoint.t;
}.
#[global] Instance eq_dec : EqDecision t.
Proof. solve_decision. Defined.
End ExecutionRequest.

Module ExecutionStatus.
Inductive t := Pending | Dispatched | Running | Completed | Failed | Cancelled.
#[global] Instance eq_dec : EqDecision t.
Proof. solve_decision. Defined.
End ExecutionStatus.

Module ExecutionResponse.
Record t := mk { request_id : string; status : ExecutionStatus.t; error : option string }.
#[global] Instance eq_dec : EqDecision t.
Proof. solve_decision. Defined.

Definition completed (request_id : string) : t :=
  {| request_id := request_id; status := ExecutionStatus.Completed; error := None |}.
Definition failed (request_id error : string) : t :=
  {| request_id := request_id; status := ExecutionStatus.Failed; error := Some error |}.
End ExecutionResponse.

(** The [Transport] trait, for a transport that acts on the world [W]. *)
Class Transport (T W : Type) :=
  dispatch : T → ExecutionRequest.t → op W TransportError.t ExecutionResponse.t.
