(* ===== verification/endpoint.v ===== *)
(** * Participant endpoints ([src/endpoint.rs])

    An endpoint validates a request for its participant and hands it to an executor, which for the
    runtime adapters ends in a [Runtime]. Executors and handlers may change the world [W]. *)
From S2P Require Import prelude bytes float identity uuid_demo resource node runtime messages.

Module EndpointExecutionError.
Inductive t :=
| Rejected
| ExecutionFailed
| Runtime (e : RuntimeError.t)
| RuntimeRegistry (e : RuntimeRegistryError.t).
#[global] Instance eq_dec : EqDecision t.
Proof. solve_decision. Defined.
End EndpointExecutionError.

Module EndpointError.
Inductive t :=
| EmptyRequestId
| EmptyWorkloadId
| InvalidParticipantIdentity
| InvalidNodeIdentity
| InvalidRuntimeSpec
| ParticipantMismatch
| ExecutionFailed (request_id : string) (error : EndpointExecutionError.t).
#[global] Instance eq_dec : EqDecision t.
Proof. solve_decision. Defined.
End EndpointError.

(** The [ParticipantExecutor] trait. *)
Class ParticipantExecutor (E W : Type) :=
  execute : E → Identity.t → Identity.t → RuntimeSpec.t → ResourceFragment.t → WorkItem →
    op W EndpointExecutionError.t ().

(** What both adapters do once they have a runtime. *)
Definition run_in_context {W} (runtime : Runtime.t W) (participant_id node_id : Identity.t)
    (resources : ResourceFragment.t) (workload : WorkItem) : op W EndpointExecutionError.t () :=
  context ← lift (RuntimeContext.new participant_id node_id resources
                    .map_err EndpointExecutionError.Runtime);
  _ ← lift (Workload.validate workload .map_err EndpointExecutionError.Runtime);
  Runtime.run runtime context workload .op_map_err EndpointExecutionError.Runtime.

Module RuntimeAdapter.
Record t (W : Type) := mk { runtime : Runtime.t W }.
Arguments mk {W}.
Arguments runtime {W}.

#[global] Instance executor {W} : ParticipantExecutor (t W) W :=
  λ self participant_id node_id _ resources workload,
    run_in_context (runtime self) participant_id node_id resources workload.
End RuntimeAdapter.

Module RegistryRuntimeAdapter.
Record t (W : Type) := mk { registry : RuntimeRegistry.t W }.
Arguments mk {W}.
Arguments registry {W}.

#[global] Instance executor {W} : ParticipantExecutor (t W) W :=
  λ self participant_id node_id runtime resources workload,
    runtime ← lift (RuntimeRegistry.resolve runtime (registry self)
                      .map_err EndpointExecutionError.RuntimeRegistry);
    run_in_context runtime participant_id node_id resources workload.
End RegistryRuntimeAdapter.

Module NoopParticipantExecutor.
Inductive t := mk.

#[global] Instance executor {W} : ParticipantExecutor t W := λ _ _ _ _ _ _, mret ().
End NoopParticipantExecutor.

(** The [ExecutionHandler] trait object. *)
Module ExecutionHandler.
Record t (W : Type) := mk {
  participant_id : Identity.t;
  handle_request : ExecutionRequest.t → op W EndpointError.t ExecutionResponse.t;
}.
Arguments mk {W}.
Arguments participant_id {W}.
Arguments handle_request {W}.
End ExecutionHandler.

Definition validate_request (participant_id : Identity.t) (request : ExecutionRequest.t)
    : result EndpointError.t () :=
  let runtime := ExecutionRequest.runtime request in
  let unit_participant := ExecutionUnit.participant_id (ExecutionRequest.unit request) in
  let endpoint_participant :=
    ExecutionEndpoint.participant_id (ExecutionRequest.endpoint request) in
  if is_empty_str (ExecutionRequest.request_id request) then Err EndpointError.EmptyRequestId
  else if is_empty_str (Workload.id (ExecutionRequest.workload request))
  then Err EndpointError.EmptyWorkloadId
  else if negb (bool_decide (Identity.kind (ExecutionRequest.node_id request) = Kind.LogicalNode))
  then Err EndpointError.InvalidNodeIdentity
  else if is_empty_str (RuntimeSpec.name runtime) then Err EndpointError.InvalidRuntimeSpec
  else if is_empty_str (RuntimeSpec.version runtime) then Err EndpointError.InvalidRuntimeSpec
  else if negb (bool_decide (Identity.kind unit_participant = Kind.Participant))
  then Err EndpointError.InvalidParticipantIdentity
  else if negb (bool_decide (unit_participant = participant_id))
    || negb (bool_decide (endpoint_participant = participant_id))
    || negb (bool_decide (endpoint_participant = unit_participant))
  then Err EndpointError.ParticipantMismatch
  else Ok ().

Module ParticipantExecutionEndpoint.
Record t (E : Type) := mk { participant_id : Identity.t; executor : E }.
Arguments mk {E}.
Arguments participant_id {E}.
Arguments executor {E}.

Definition new {E} (participant_id : Identity.t) (executor : E) : result EndpointError.t (t E) :=
  if negb (bool_decide (Identity.kind participant_id = Kind.Participant))
  then Err EndpointError.InvalidParticipantIdentity
  else Ok {| participant_id := participant_id; executor := executor |}.

Definition handle {E W} `{ParticipantExecutor E W} (self : t E) (request : ExecutionRequest.t)
    : op W EndpointError.t ExecutionResponse.t :=
  _ ← lift (validate_request (participant_id self) request);
  let request_id := ExecutionRequest.request_id request in
  _ ← execute (executor self) (participant_id self) (ExecutionRequest.node_id request)
        (ExecutionRequest.runtime request)
        (ExecutionUnit.resources (ExecutionRequest.unit request))
        (ExecutionRequest.workload request)
        .op_map_err (EndpointError.ExecutionFailed request_id);
  mret {| ExecutionResponse.request_id := request_id;
          ExecutionResponse.status := ExecutionStatus.Completed;
          ExecutionResponse.error := None |}.

Definition handler {E W} `{ParticipantExecutor E W} (self : t E) : ExecutionHandler.t W :=
  {| ExecutionHandler.participant_id := participant_id self;
     ExecutionHandler.handle_request := handle self |}.
End ParticipantExecutionEndpoint.

(** ** Requests an endpoint accepts *)

(** The checks every party makes on the shape of a request. *)
Record well_formed_request (r : ExecutionRequest.t) : Prop := {
  wr_id : ExecutionRequest.request_id r ≠ EmptyString;
  wr_workload : Workload.id (ExecutionRequest.workload r) ≠ EmptyString;
  wr_node : Identity.kind (ExecutionRequest.node_id r) = Kind.LogicalNode;
  wr_runtime : valid_runtime (ExecutionRequest.runtime r);
  wr_unit : Identity.kind (ExecutionUnit.participant_id (ExecutionRequest.unit r)) = Kind.Participant;
  wr_endpoint : ExecutionEndpoint.participant_id (ExecutionRequest.endpoint r) =
    ExecutionUnit.participant_id (ExecutionRequest.unit r);
}.

Lemma validate_request_ok p r :
  validate_request p r = Ok () ↔
  well_formed_request r ∧ ExecutionUnit.participant_id (ExecutionRequest.unit r) = p.
Proof.
  unfold validate_request. split.
  - intros Hv.
    repeat (let E := fresh "E" in case_match eqn:E; [done|];
      try apply is_empty_str_false in E; try apply negb_false_iff in E).
    bools. by repeat split.
  - intros ([H1%is_empty_str_false H2%is_empty_str_false H3 [H4%is_empty_str_false H5%is_empty_str_false]
      H6 H7] & H8).
    by rewrite H1, H2, H4, H5, !bool_decide_true by congruence.
Qed.

Lemma validate_request_no_panic p r : validate_request p r ≠ Panic.
Proof. unfold validate_request. guards. Qed.

Lemma validate_request_dec p r :
  (validate_request p r = Ok ()) ∨ (∃ e, validate_request p r = Err e).
Proof.
  pose proof (validate_request_no_panic p r). destruct (validate_request p r) as [[]|e|]; eauto; done.
Qed.

Section handle.
Context {E W : Type} `{ParticipantExecutor E W}.
Implicit Types self : ParticipantExecutionEndpoint.t E.

(** The call an accepted request leads to. *)
Definition execution_of self (r : ExecutionRequest.t) : op W EndpointExecutionError.t () :=
  execute (ParticipantExecutionEndpoint.executor self)
    (ParticipantExecutionEndpoint.participant_id self) (ExecutionRequest.node_id r)
    (ExecutionRequest.runtime r) (ExecutionUnit.resources (ExecutionRequest.unit r))
    (ExecutionRequest.workload r).

Lemma handle_valid self r w :
  validate_request (ParticipantExecutionEndpoint.participant_id self) r = Ok () →
  ParticipantExecutionEndpoint.handle self r w =
    match execution_of self r w with
    | (Ok (), w') => (Ok (ExecutionResponse.completed (ExecutionRequest.request_id r)), w')
    | (Err e, w') => (Err (EndpointError.ExecutionFailed (ExecutionRequest.request_id r) e), w')
    | (Panic, w') => (Panic, w')
    end.
Proof.
  intros Hv. unfold ParticipantExecutionEndpoint.handle, lift, mbind, op_bind, op_map_err.
  rewrite Hv. unfold execution_of. destruct (execute _ _ _ _ _ _ w) as [[[]|e|] w']; done.
Qed.

Lemma handle_invalid self r w e :
  validate_request (ParticipantExecutionEndpoint.participant_id self) r = Err e →
  ParticipantExecutionEndpoint.handle self r w = (Err e, w).
Proof.
  intros Hv. unfold ParticipantExecutionEndpoint.handle, lift, mbind, op_bind. by rewrite Hv.
Qed.
End handle.

(** The runs a registry adapter makes: the runtime resolved for the specification, in the context
    of the participant, the node and the resources. *)
Lemma run_in_context_valid {W} (rt : Runtime.t W) p n r k w :
  Identity.kind p = Kind.Participant → Identity.kind n = Kind.LogicalNode →
  Workload.id k ≠ EmptyString →
  run_in_context rt p n r k w =
    if decide (valid_fragment r ∧ ResourceFragment.is_empty r = false) then
      (Runtime.run rt (RuntimeContext.mk p n r) k .op_map_err EndpointExecutionError.Runtime) w
    else (Err (EndpointExecutionError.Runtime RuntimeError.InvalidResources), w).
Proof.
  intros Hp Hn Hk. unfold run_in_context, RuntimeContext.new, lift, mbind, op_bind.
  rewrite Hp, Hn. simpl. rewrite (proj2 (workload_ok k) Hk).
  case_decide as Hr.
  - by rewrite (proj2 (requirement_ok r) Hr).
  - destruct (requirement_ok_dec r) as [|[e He]]; [done|]. by rewrite He.
Qed.

(** How an endpoint over a registry handles a request that it accepts. *)
Lemma registry_handle_cases {W} (l : list (RuntimeSpec.t * Runtime.t W)) p r w :
  let self := ParticipantExecutionEndpoint.mk p (RegistryRuntimeAdapter.mk (register_all l)) in
  let id := ExecutionRequest.request_id r in
  let resources := ExecutionUnit.resources (ExecutionRequest.unit r) in
  let failed e := EndpointError.ExecutionFailed id e in
  well_formed_request r → ExecutionUnit.participant_id (ExecutionRequest.unit r) = p →
  match first_registered (ExecutionRequest.runtime r) l with
  | None =>
    ParticipantExecutionEndpoint.handle self r w =
      (Err (failed (EndpointExecutionError.RuntimeRegistry RuntimeRegistryError.RuntimeNotFound)), w)
  | Some runtime =>
    (¬ valid_requirement resources ∧
     ParticipantExecutionEndpoint.handle self r w =
       (Err (failed (EndpointExecutionError.Runtime RuntimeError.InvalidResources)), w)) ∨
    (valid_requirement resources ∧
     ParticipantExecutionEndpoint.handle self r w =
       match Runtime.run runtime (RuntimeContext.mk p (ExecutionRequest.node_id r) resources)
               (ExecutionRequest.workload r) w with
       | (Ok (), w') => (Ok (ExecutionResponse.completed id), w')
       | (Err e, w') => (Err (failed (EndpointExecutionError.Runtime e)), w')
       | (Panic, w') => (Panic, w')
       end)
  end.
Proof.
  intros self id resources failed Hr Hp. pose proof Hr as [_ Hk Hn Hrt Hu _].
  assert (Identity.kind p = Kind.Participant) as Hpk by congruence.
  pose proof (handle_valid self r w (proj2 (validate_request_ok _ _) (conj Hr Hp))) as Hh.
  unfold execution_of, execute, RegistryRuntimeAdapter.executor, RuntimeRegistry.resolve, lift, mbind,
    op_bind in Hh.
  cbn [ParticipantExecutionEndpoint.executor ParticipantExecutionEndpoint.participant_id self
    RegistryRuntimeAdapter.registry] in Hh.
  rewrite (proj2 (validate_spec_ok _) Hrt), (register_all_lookup l _ Hrt) in Hh.
  destruct (first_registered (ExecutionRequest.runtime r) l) as [runtime|]; cbn in Hh; [|done].
  rewrite run_in_context_valid in Hh by done. case_decide as Hq; [right|left]; (split; [exact Hq|]).
  - etrans; [exact Hh|]. unfold op_map_err. by destruct (Runtime.run _ _ _ w) as [[[]|e|] w'].
  - exact Hh.
Qed.

(** ** Properties *)

(** An endpoint acts on a request exactly when it is well-formed and addressed to it: it then
    makes one call of its executor, for itself and with the node, runtime, resources and workload
    of the request, and answers with the request's identifier, or with the executor's error. Any
    other request is refused with an error of the validation and without a call. *)
Theorem endpoint_handle_spec {E W} `{ParticipantExecutor E W}
    (self : ParticipantExecutionEndpoint.t E) (r : ExecutionRequest.t) (w : W) :
  let p := ParticipantExecutionEndpoint.participant_id self in
  let id := ExecutionRequest.request_id r in
  (well_formed_request r ∧ ExecutionUnit.participant_id (ExecutionRequest.unit r) = p →
    ParticipantExecutionEndpoint.handle self r w =
      match execute (ParticipantExecutionEndpoint.executor self) p (ExecutionRequest.node_id r)
              (ExecutionRequest.runtime r) (ExecutionUnit.resources (ExecutionRequest.unit r))
              (ExecutionRequest.workload r) w with
      | (Ok (), w') => (Ok (ExecutionResponse.completed id), w')
      | (Err e, w') => (Err (EndpointError.ExecutionFailed id e), w')
      | (Panic, w') => (Panic, w')
      end) ∧
  (¬ (well_formed_request r ∧ ExecutionUnit.participant_id (ExecutionRequest.unit r) = p) →
    ∃ e, ParticipantExecutionEndpoint.handle self r w = (Err e, w) ∧
      ∀ id' e', e ≠ EndpointError.ExecutionFailed id' e').
Proof.
  cbv zeta. rewrite <- validate_request_ok. split; [apply handle_valid|]. intros Hn.
  destruct (validate_request_dec (ParticipantExecutionEndpoint.participant_id self) r) as [|[e He]];
    [done|].
  exists e. split; [by apply handle_invalid|]. intros id' e' ->. revert He. unfold validate_request.
  guards.
Qed.

(** An endpoint over a runtime registry runs, for a request it accepts, the runtime that was
    first registered under the request's specification, in the context of its participant, the
    node and the resources; without such a runtime, or with resources that are not a valid
    non-empty fragment, nothing runs and the reason is reported. *)
Theorem registry_endpoint_runs_registered {W} (l : list (RuntimeSpec.t * Runtime.t W))
    (p : Identity.t) (r : ExecutionRequest.t) (w : W) :
  let self := ParticipantExecutionEndpoint.mk p (RegistryRuntimeAdapter.mk (register_all l)) in
  let id := ExecutionRequest.request_id r in
  let resources := ExecutionUnit.resources (ExecutionRequest.unit r) in
  let failed e := EndpointError.ExecutionFailed id e in
  well_formed_request r → ExecutionUnit.participant_id (ExecutionRequest.unit r) = p →
  match first_registered (ExecutionRequest.runtime r) l with
  | None =>
    ParticipantExecutionEndpoint.handle self r w =
      (Err (failed (EndpointExecutionError.RuntimeRegistry RuntimeRegistryError.RuntimeNotFound)), w)
  | Some runtime =>
    (¬ valid_requirement resources ∧
     ParticipantExecutionEndpoint.handle self r w =
       (Err (failed (EndpointExecutionError.Runtime RuntimeError.InvalidResources)), w)) ∨
    (valid_requirement resources ∧
     ParticipantExecutionEndpoint.handle self r w =
       match Runtime.run runtime (RuntimeContext.mk p (ExecutionRequest.node_id r) resources)
               (ExecutionRequest.workload r) w with
       | (Ok (), w') => (Ok (ExecutionResponse.completed id), w')
       | (Err e, w') => (Err (failed (EndpointExecutionError.Runtime e)), w')
       | (Panic, w') => (Panic, w')
       end)
  end.
Proof.
  intros self id resources failed Hr Hp. by apply registry_handle_cases.
Qed.

(** ** A concrete request *)

Definition demo_request : ExecutionRequest.t := {|
  ExecutionRequest.request_id := "r";
  ExecutionRequest.source_participant_id := None;
  ExecutionRequest.workload := Workload.mk "w" [Ascii.ascii_of_N 1; Ascii.ascii_of_N 255];
  ExecutionRequest.node_id := Identity.mk uuid_b Kind.LogicalNode;
  ExecutionRequest.runtime := RuntimeSpec.mk "rt" "1";
  ExecutionRequest.unit := ExecutionUnit.mk (Identity.mk uuid_a Kind.Participant)
    (ResourceFragment.mk (Cpu.mk f64_one) (Memory.mk 300) (Storage.mk 0) (Network.mk 0) (Gpu.mk 2)
      (Some 1500000000%N));
  ExecutionRequest.endpoint :=
    ExecutionEndpoint.mk (Identity.mk uuid_a Kind.Participant) "127.0.0.1:9";
|}.

Lemma demo_request_well_formed : well_formed_request demo_request.
Proof. by repeat split. Qed.

(** A runtime that records the workloads it runs. *)
Definition demo_runtime : Runtime.t (list string) :=
  Runtime.mk "rt" (λ _ workload w, (Ok (), w ++ [Workload.id workload])).

Lemma registry_endpoint_runs_registered_witness :
  ParticipantExecutionEndpoint.handle
    (ParticipantExecutionEndpoint.mk (Identity.mk uuid_a Kind.Participant)
      (RegistryRuntimeAdapter.mk (register_all [(RuntimeSpec.mk "rt" "1", demo_runtime)])))
    demo_request [] = (Ok (ExecutionResponse.completed "r"), ["w"]).
Proof.
  destruct (registry_endpoint_runs_registered [(RuntimeSpec.mk "rt" "1", demo_runtime)]
    (Identity.mk uuid_a Kind.Participant) demo_request [] demo_request_well_formed eq_refl)
    as [[Hn _]|[_ Hr]].
  - destruct Hn. by apply requirement_ok.
  - rewrite Hr. reflexivity.
Defined.
