(* ===== verification/transport.v ===== *)
(** * In-process transports and request validation ([src/transport.rs])

    [EndpointTransport] routes a request to the handler registered for its participant;
    [LoopbackTransport] only checks it. [validate_transport_request] is what the network transports
    check on both sides of a connection. *)
From S2P Require Import prelude bytes float identity uuid_demo resource node runtime messages.
From S2P Require Import endpoint.

Module EndpointTransport.
(** [RwLock<BTreeMap<String, Arc<dyn ExecutionHandler>>>]. *)
Abbreviation t W := (gmap string (ExecutionHandler.t W)).

(** The early returns of [dispatch]. *)
Definition check (request : ExecutionRequest.t) : result TransportError.t () :=
  let runtime := ExecutionRequest.runtime request in
  let unit_participant := ExecutionUnit.participant_id (ExecutionRequest.unit request) in
  if is_empty_str (ExecutionRequest.request_id request) then Err TransportError.EmptyRequestId
  else if is_empty_str (Workload.id (ExecutionRequest.workload request))
  then Err TransportError.EmptyWorkloadId
  else if negb (bool_decide (Identity.kind (ExecutionRequest.node_id request) = Kind.LogicalNode))
  then Err TransportError.InvalidNodeIdentity
  else if is_empty_str (RuntimeSpec.name runtime) || is_empty_str (RuntimeSpec.version runtime)
  then Err TransportError.InvalidRuntimeSpec
  else if negb (bool_decide (Identity.kind unit_participant = Kind.Participant))
  then Err TransportError.InvalidParticipantIdentity
  else if negb (bool_decide (ExecutionEndpoint.participant_id (ExecutionRequest.endpoint request)
                             = unit_participant))
  then Err TransportError.InvalidParticipantIdentity
  else Ok ().

Section ops.
Context {W : Type}.

Definition new : t W := ∅.

Definition register (endpoint : ExecutionHandler.t W) : op (t W) TransportError.t () :=
  let participant_id := ExecutionHandler.participant_id endpoint in
  if negb (bool_decide (Identity.kind participant_id = Kind.Participant))
  then fail TransportError.InvalidParticipantIdentity
  else
    endpoints ← gets (λ self : t W, self);
    if bool_decide (is_Some (endpoints !! Identity.id participant_id))
    then fail TransportError.EndpointAlreadyRegistered
    else modify (λ self : t W, <[Identity.id participant_id := endpoint]> self).

Definition unregister (participant_id : Identity.t) : op (t W) TransportError.t () :=
  if negb (bool_decide (Identity.kind participant_id = Kind.Participant))
  then fail TransportError.InvalidParticipantIdentity
  else modify (λ self : t W, delete (Identity.id participant_id) self).

Definition len (self : t W) : nat := size self.
Definition is_empty (self : t W) : bool := len self =? 0.

#[global] Instance transport : Transport (t W) W := λ self request,
  _ ← lift (check request);
  endpoint ← lift (ok_or (self !! Identity.id (ExecutionUnit.participant_id
                                                 (ExecutionRequest.unit request)))
                     TransportError.EndpointUnavailable);
  ExecutionHandler.handle_request endpoint request .op_map_err (λ _, TransportError.RequestRejected).
End ops.
End EndpointTransport.

Module LoopbackTransport.
Inductive t := mk.

(** The early returns of [dispatch]. *)
Definition check (request : ExecutionRequest.t) : result TransportError.t () :=
  let runtime := ExecutionRequest.runtime request in
  let unit_participant := ExecutionUnit.participant_id (ExecutionRequest.unit request) in
  if is_empty_str (ExecutionRequest.request_id request) then Err TransportError.EmptyRequestId
  else if is_empty_str (Workload.id (ExecutionRequest.workload request))
  then Err TransportError.EmptyWorkloadId
  else if negb (bool_decide (Identity.kind (ExecutionRequest.node_id request) = Kind.LogicalNode))
  then Err TransportError.InvalidNodeIdentity
  else if is_empty_str (RuntimeSpec.name runtime) then Err TransportError.InvalidRuntimeSpec
  else if is_empty_str (RuntimeSpec.version runtime) then Err TransportError.InvalidRuntimeSpec
  else if negb (bool_decide (Identity.kind unit_participant = Kind.Participant))
  then Err TransportError.InvalidParticipantIdentity
  else if negb (bool_decide (ExecutionEndpoint.participant_id (ExecutionRequest.endpoint request)
                             = unit_participant))
  then Err TransportError.InvalidParticipantIdentity
  else Ok ().

#[global] Instance transport {W} : Transport t W := λ _ request,
  _ ← lift (check request);
  mret {| ExecutionResponse.request_id := ExecutionRequest.request_id request;
          ExecutionResponse.status := ExecutionStatus.Dispatched;
          ExecutionResponse.error := None |}.
End LoopbackTransport.

Definition validate_transport_request `{UuidLib} (request : ExecutionRequest.t)
    : result TransportError.t () :=
  let runtime := ExecutionRequest.runtime request in
  let unit_participant := ExecutionUnit.participant_id (ExecutionRequest.unit request) in
  if is_empty_str (ExecutionRequest.request_id request) then Err TransportError.EmptyRequestId
  else if is_empty_str (Workload.id (ExecutionRequest.workload request))
  then Err TransportError.EmptyWorkloadId
  else if negb (bool_decide (Identity.kind (ExecutionRequest.node_id request) = Kind.LogicalNode))
  then Err TransportError.InvalidNodeIdentity
  else if from_option (bad_identity Kind.Participant) false
            (ExecutionRequest.source_participant_id request)
  then Err TransportError.InvalidSourceIdentity
  else if is_empty_str (RuntimeSpec.name runtime) || is_empty_str (RuntimeSpec.version runtime)
  then Err TransportError.InvalidRuntimeSpec
  else if negb (bool_decide (Identity.kind unit_participant = Kind.Participant))
  then Err TransportError.InvalidParticipantIdentity
  else if negb (bool_decide (ExecutionEndpoint.participant_id (ExecutionRequest.endpoint request)
                             = unit_participant))
  then Err TransportError.InvalidParticipantIdentity
  else
    _ ← ResourceFragment.validate_requirement (ExecutionUnit.resources (ExecutionRequest.unit request))
          .map_err (λ _, TransportError.InvalidResources);
    Ok ().

(** ** What the checks accept *)

Lemma transport_check_ok r : EndpointTransport.check r = Ok () ↔ well_formed_request r.
Proof.
  unfold EndpointTransport.check. split.
  - intros Hv.
    repeat (let E := fresh "E" in case_match eqn:E; [done|];
      try apply is_empty_str_false in E; try apply negb_false_iff in E).
    bools. repeat match goal with H : is_empty_str _ = false |- _ => apply is_empty_str_false in H end.
    by repeat split.
  - intros [H1%is_empty_str_false H2%is_empty_str_false H3 [H4%is_empty_str_false H5%is_empty_str_false]
      H6 H7].
    by rewrite H1, H2, H4, H5, !bool_decide_true by congruence.
Qed.

Lemma transport_check_no_panic r : EndpointTransport.check r ≠ Panic.
Proof. unfold EndpointTransport.check. guards. Qed.

Lemma transport_check_dec r : EndpointTransport.check r = Ok () ∨ ∃ e, EndpointTransport.check r = Err e.
Proof. pose proof (transport_check_no_panic r). destruct (EndpointTransport.check r) as [[]|e|]; eauto; done. Qed.

Lemma loopback_check r : LoopbackTransport.check r = EndpointTransport.check r.
Proof.
  unfold LoopbackTransport.check, EndpointTransport.check.
  by destruct (is_empty_str (RuntimeSpec.name _)), (is_empty_str (RuntimeSpec.version _)).
Qed.

(** A source identity the network transports accept. *)
Definition valid_source `{UuidLib} (r : ExecutionRequest.t) : Prop :=
  ∀ i, ExecutionRequest.source_participant_id r = Some i → valid_identity Kind.Participant i.

Lemma source_guard `{UuidLib} r :
  from_option (bad_identity Kind.Participant) false (ExecutionRequest.source_participant_id r) = false
  ↔ valid_source r.
Proof.
  unfold valid_source. destruct (ExecutionRequest.source_participant_id r) as [i|]; simpl;
    [rewrite bad_identity_false|]; naive_solver.
Qed.

Lemma validate_transport_request_ok `{UuidLib} r :
  validate_transport_request r = Ok () ↔
  well_formed_request r ∧ valid_source r ∧
  valid_requirement (ExecutionUnit.resources (ExecutionRequest.unit r)).
Proof.
  unfold validate_transport_request. rewrite <- source_guard. split.
  - intros Hv.
    repeat (let E := fresh "E" in case_match eqn:E; [done|];
      try apply is_empty_str_false in E; try apply negb_false_iff in E).
    apply result_bind_ok in Hv as ([] & Hr%map_err_ok%requirement_ok & _).
    bools. repeat match goal with H : is_empty_str _ = false |- _ => apply is_empty_str_false in H end.
    split_and!; [by repeat split|done|done].
  - intros ([H1%is_empty_str_false H2%is_empty_str_false H3 [H4%is_empty_str_false H5%is_empty_str_false]
      H6 H7] & Hs & Hr%requirement_ok).
    by rewrite H1, H2, Hs, H4, H5, !bool_decide_true, Hr by congruence.
Qed.

Lemma validate_transport_request_no_panic `{UuidLib} r : validate_transport_request r ≠ Panic.
Proof.
  unfold validate_transport_request. intros Hv. repeat (case_match; [done|]). invert_result.
  by eapply requirement_no_panic.
Qed.

(** ** Properties *)

(** The handlers registered by a sequence of attempts. *)
Definition register_handlers {W} (l : list (ExecutionHandler.t W)) : EndpointTransport.t W :=
  foldl (λ m h, (EndpointTransport.register h m).2) EndpointTransport.new l.

(** The handler first registered for a participant. *)
Definition first_handler {W} (x : string) (l : list (ExecutionHandler.t W))
    : option (ExecutionHandler.t W) :=
  snd <$> list_find (λ h, ExecutionHandler.participant_id h = Identity.mk x Kind.Participant) l.

Lemma endpoint_register {W} (h : ExecutionHandler.t W) (m : EndpointTransport.t W) :
  let p := ExecutionHandler.participant_id h in
  (EndpointTransport.register h m).2 =
    if decide (Identity.kind p = Kind.Participant ∧ m !! Identity.id p = None)
    then <[Identity.id p := h]> m else m.
Proof.
  cbv zeta. unfold EndpointTransport.register, gets, fail, modify, mbind, op_bind.
  case_bool_decide as Hk; simpl; [|by rewrite decide_False by tauto].
  case_bool_decide as Hm; simpl.
  - rewrite decide_False; [done|]. intros [_ Hn]. rewrite Hn in Hm. by destruct Hm.
  - rewrite decide_True; [done|]. by apply eq_None_not_Some in Hm.
Qed.

Lemma first_handler_snoc {W} x l (h : ExecutionHandler.t W) :
  first_handler x (l ++ [h]) =
    match first_handler x l with
    | Some h0 => Some h0
    | None => if decide (ExecutionHandler.participant_id h = Identity.mk x Kind.Participant)
              then Some h else None
    end.
Proof.
  unfold first_handler. induction l as [|h0 l IH]; simpl.
  - by case_decide.
  - destruct (decide (ExecutionHandler.participant_id h0 = _)) as [|]; simpl; [done|].
    destruct (list_find _ (l ++ _)) as [[]|], (list_find _ l) as [[]|]; simpl in *;
      try case_decide; congruence.
Qed.

Lemma register_handlers_lookup {W} x (l : list (ExecutionHandler.t W)) :
  register_handlers l !! x = first_handler x l.
Proof.
  unfold register_handlers. induction l as [|h l IH] using rev_ind; [done|].
  rewrite foldl_app, first_handler_snoc. cbn [foldl]. rewrite endpoint_register, <- IH.
  destruct (ExecutionHandler.participant_id h) as [y k] eqn:Hh. cbn [Identity.kind Identity.id].
  destruct (decide (k = Kind.Participant ∧ _)) as [[-> Hn]|Hn].
  - destruct (decide (y = x)) as [->|Hne].
    + by rewrite lookup_insert_eq, Hn, decide_True.
    + rewrite lookup_insert_ne by done. destruct (_ !! x); [done|].
      by rewrite decide_False by congruence.
  - destruct (_ !! x) eqn:Hx; [done|]. rewrite decide_False; [done|]. intros [= -> ->]. tauto.
Qed.

(** An endpoint transport hands a well-formed request to the handler first registered for the
    request's participant, and to no other, and reports its refusal as such; a participant without
    a handler is unavailable, and a malformed request reaches no handler. *)
Theorem endpoint_transport_routes {W} (l : list (ExecutionHandler.t W)) (r : ExecutionRequest.t)
    (w : W) :
  let x := Identity.id (ExecutionUnit.participant_id (ExecutionRequest.unit r)) in
  (well_formed_request r →
    dispatch (register_handlers l) r w =
      match first_handler x l with
      | None => (Err TransportError.EndpointUnavailable, w)
      | Some h =>
        let '(res, w') := ExecutionHandler.handle_request h r w in
        (res .map_err (λ _, TransportError.RequestRejected), w')
      end) ∧
  (¬ well_formed_request r → ∃ e, EndpointTransport.check r = Err e ∧
    dispatch (register_handlers l) r w = (Err e, w)).
Proof.
  cbv zeta. unfold dispatch, EndpointTransport.transport, lift, mbind, op_bind, op_map_err.
  rewrite register_handlers_lookup. split.
  - intros Hr. rewrite (proj2 (transport_check_ok r) Hr). by destruct (first_handler _ l).
  - intros Hr. destruct (transport_check_dec r) as [H|[e He]]; [by apply transport_check_ok in H|].
    exists e. by rewrite He.
Qed.

(** A loopback transport accepts exactly the well-formed requests, without running them. *)
Theorem loopback_checks_only {W} (r : ExecutionRequest.t) (w : W) :
  (dispatch LoopbackTransport.mk r w).2 = w ∧
  (∀ response, (dispatch LoopbackTransport.mk r w).1 = Ok response ↔
    well_formed_request r ∧
    response = ExecutionResponse.mk (ExecutionRequest.request_id r) ExecutionStatus.Dispatched None).
Proof.
  unfold dispatch, LoopbackTransport.transport, lift, mbind, op_bind.
  rewrite loopback_check. setoid_rewrite <- transport_check_ok. destruct (transport_check_dec r) as [->|[e ->]]; simpl; [|naive_solver].
  split; [done|]. intros response. split; [by intros [= <-]|by intros [_ ->]].
Qed.
