(* ===== verification/codec.v ===== *)
(** * The wire protocol ([src/transport.rs])

    A frame is an 8-byte big-endian length and a payload; a payload is a protocol version followed
    by the fields of a request or a response. Writers append to a buffer, readers advance a
    position in the payload, both as operations on that state. *)
From S2P Require Import prelude bytes time float identity uuid_demo resource node runtime.
From S2P Require Import messages endpoint transport.
From stdpp Require Import list.

Definition MAX_FRAME_SIZE : N := 64 * 1024 * 1024.
Definition PROTOCOL_VERSION : u8 := Ascii.ascii_of_N 1.

Abbreviation byte n := (Ascii.ascii_of_N n) (only parsing).
Definition blen (bs : list u8) : N := N.of_nat (length bs).

(** ** Streams *)

(** A connected stream: the bytes that will arrive, those sent, and how many bytes can still be
    sent before the connection fails. *)
Module Stream.
Record t := mk { input : list u8; output : list u8; room : N }.
#[global] Instance eq_dec : EqDecision t.
Proof. solve_decision. Defined.

(** [Read::read_exact]: an error when fewer bytes arrive. *)
Definition read_exact (n : N) : op t () (list u8) := λ s,
  if (n <=? blen (input s))%N then
    (Ok (take (N.to_nat n) (input s)), mk (drop (N.to_nat n) (input s)) (output s) (room s))
  else (Err (), mk [] (output s) (room s)).

(** [Write::write_all]: what the connection still took is sent before an error. *)
Definition write_all (bs : list u8) : op t () () := λ s,
  if (blen bs <=? room s)%N then
    (Ok (), mk (input s) (output s ++ bs) (room s - blen bs))
  else (Err (), mk (input s) (output s ++ take (N.to_nat (room s)) bs) 0).
End Stream.

Definition write_frame (payload : list u8) : op Stream.t TransportError.t () :=
  if (MAX_FRAME_SIZE <? blen payload)%N then fail TransportError.FrameTooLarge
  else
    (_ ← Stream.write_all (to_be_bytes 8 (blen payload)); Stream.write_all payload)
      .op_map_err (λ _, TransportError.NetworkFailure).

Definition read_frame : op Stream.t TransportError.t (list u8) :=
  header ← Stream.read_exact 8 .op_map_err (λ _, TransportError.NetworkFailure);
  let length := from_be_bytes header in
  if (MAX_FRAME_SIZE <? length)%N then fail TransportError.FrameTooLarge
  else Stream.read_exact length .op_map_err (λ _, TransportError.NetworkFailure).

(** ** Writing *)

Abbreviation writer := (op (list u8) TransportError.t ()).

(** [buffer.push(b)] and [buffer.extend_from_slice(bs)]. *)
Definition push (b : u8) : writer := modify (λ buffer, buffer ++ [b]).
Definition extend_from_slice (bs : list u8) : writer := modify (λ buffer, buffer ++ bs).

Definition write_string (value : string) : writer :=
  let bytes := as_bytes value in
  if (U32_MAX <? blen bytes)%N then fail TransportError.FrameTooLarge
  else
    _ ← extend_from_slice (to_be_bytes 4 (blen bytes));
    extend_from_slice bytes.

Definition write_bytes (value : list u8) : writer :=
  if (U32_MAX <? blen value)%N then fail TransportError.FrameTooLarge
  else
    _ ← extend_from_slice (to_be_bytes 4 (blen value));
    extend_from_slice value.

Definition kind_to_u8 (kind : Kind.t) : u8 :=
  match kind with
  | Kind.Participant => byte 0
  | Kind.LogicalNode => byte 1
  | Kind.Lease => byte 2
  | Kind.VirtualMachine => byte 3
  end.

Definition status_to_u8 (status : ExecutionStatus.t) : u8 :=
  match status with
  | ExecutionStatus.Pending => byte 0
  | ExecutionStatus.Dispatched => byte 1
  | ExecutionStatus.Running => byte 2
  | ExecutionStatus.Completed => byte 3
  | ExecutionStatus.Failed => byte 4
  | ExecutionStatus.Cancelled => byte 5
  end.

Definition write_identity (identity : Identity.t) : writer :=
  _ ← write_string (Identity.id identity);
  push (kind_to_u8 (Identity.kind identity)).

Definition write_resources (resources : ResourceFragment.t) : writer :=
  _ ← extend_from_slice (to_be_bytes 8 (f64_to_bits (ResourceFragment.cores resources)));
  _ ← extend_from_slice (to_be_bytes 8 (ResourceFragment.mem resources));
  _ ← extend_from_slice (to_be_bytes 8 (ResourceFragment.sto resources));
  _ ← extend_from_slice (to_be_bytes 8 (ResourceFragment.bps resources));
  _ ← extend_from_slice (to_be_bytes 4 (ResourceFragment.units resources));
  match ResourceFragment.lifetime resources with
  | Some duration =>
    _ ← push (byte 1);
    _ ← extend_from_slice (to_be_bytes 8 (Duration.as_secs duration));
    extend_from_slice (to_be_bytes 4 (Duration.subsec_nanos duration))
  | None => push (byte 0)
  end.

(** The payload [write_request] builds. *)
Definition request_payload (request : ExecutionRequest.t) : writer :=
  _ ← push PROTOCOL_VERSION;
  _ ← write_string (ExecutionRequest.request_id request);
  _ ← match ExecutionRequest.source_participant_id request with
      | Some identity => _ ← push (byte 1); write_identity identity
      | None => push (byte 0)
      end;
  _ ← write_string (Workload.id (ExecutionRequest.workload request));
  _ ← write_bytes (Workload.payload (ExecutionRequest.workload request));
  _ ← write_identity (ExecutionRequest.node_id request);
  _ ← write_string (RuntimeSpec.name (ExecutionRequest.runtime request));
  _ ← write_string (RuntimeSpec.version (ExecutionRequest.runtime request));
  _ ← write_identity (ExecutionUnit.participant_id (ExecutionRequest.unit request));
  _ ← write_resources (ExecutionUnit.resources (ExecutionRequest.unit request));
  _ ← write_identity (ExecutionEndpoint.participant_id (ExecutionRequest.endpoint request));
  write_string (ExecutionEndpoint.locator (ExecutionRequest.endpoint request)).

(** The payload [write_response] builds. *)
Definition response_payload (response : ExecutionResponse.t) : writer :=
  _ ← push PROTOCOL_VERSION;
  _ ← write_string (ExecutionResponse.request_id response);
  _ ← push (status_to_u8 (ExecutionResponse.status response));
  match ExecutionResponse.error response with
  | Some error => _ ← push (byte 1); write_string error
  | None => push (byte 0)
  end.

(** A payload is built in a fresh buffer and sent as one frame when that succeeds. *)
Definition write_payload (payload : writer) : op Stream.t TransportError.t () :=
  let '(r, buffer) := payload [] in
  _ ← lift r;
  write_frame buffer.

Definition write_request (request : ExecutionRequest.t) : op Stream.t TransportError.t () :=
  write_payload (request_payload request).
Definition write_response (response : ExecutionResponse.t) : op Stream.t TransportError.t () :=
  write_payload (response_payload response).

(** ** Reading *)

Module Reader.
Record t := mk { bytes_ : list u8; position : N }.

Definition new (bytes : list u8) : t := {| bytes_ := bytes; position := 0 |}.

Abbreviation reader := (op t TransportError.t).

(** [checked_add] fails beyond [usize::MAX], which is 64 bits wide here. *)
Definition take_ (length : N) : reader (list u8) := λ self,
  let end_ := (position self + length)%N in
  if (U64_MAX <? end_)%N then (Err TransportError.MalformedFrame, self)
  else if (blen (bytes_ self) <? end_)%N then (Err TransportError.MalformedFrame, self)
  else (Ok (take (N.to_nat length) (drop (N.to_nat (position self)) (bytes_ self))),
        {| bytes_ := bytes_ self; position := end_ |}).

(** [Ok(self.take(1)?[0])]. *)
Definition byte : reader u8 :=
  bs ← take_ 1;
  match bs with b :: _ => mret b | [] => lift Panic end.

(** The slices have the width of the integer, so [try_into().unwrap()] does not panic. *)
Definition u32 : reader N := bs ← take_ 4; mret (from_be_bytes bs).
Definition u64 : reader N := bs ← take_ 8; mret (from_be_bytes bs).
Definition f64 : reader f64 := bs ← take_ 8; mret (f64_of_bits (from_be_bytes bs)).

Definition string : reader string :=
  length ← u32;
  bs ← take_ length;
  lift (ok_or (from_utf8 bs) TransportError.MalformedFrame).

Definition bytes : reader (list u8) :=
  length ← u32;
  take_ length.

Section identity.
Context `{UuidLib}.

Definition u8_to_kind (b : u8) : option Kind.t :=
  match N_of_ascii b with
  | 0%N => Some Kind.Participant
  | 1%N => Some Kind.LogicalNode
  | 2%N => Some Kind.Lease
  | 3%N => Some Kind.VirtualMachine
  | _ => None
  end.

Definition identity : reader Identity.t :=
  id ← string;
  b ← byte;
  kind ← lift (ok_or (u8_to_kind b) TransportError.MalformedFrame);
  lift (Identity.parse id kind .map_err (λ _, TransportError.MalformedFrame)).
End identity.

Definition resources : reader ResourceFragment.t :=
  cores ← f64;
  memory ← u64;
  storage ← u64;
  bits_per_second ← u64;
  units ← u32;
  flag ← byte;
  lifetime ← match N_of_ascii flag with
             | 0%N => mret None
             | 1%N =>
               secs ← u64;
               nanos ← u32;
               d ← lift (Duration.new secs nanos);
               mret (Some d)
             | _ => fail TransportError.MalformedFrame
             end;
  let resources := {|
    ResourceFragment.cpu := Cpu.mk cores;
    ResourceFragment.memory := Memory.mk memory;
    ResourceFragment.storage := Storage.mk storage;
    ResourceFragment.network := Network.mk bits_per_second;
    ResourceFragment.gpu := Gpu.mk units;
    ResourceFragment.lifetime := lifetime |} in
  _ ← lift (ResourceFragment.validate_requirement resources
              .map_err (λ _, TransportError.InvalidResources));
  mret resources.

Definition finish : reader () := λ self,
  (if (position self =? blen (bytes_ self))%N then Ok () else Err TransportError.MalformedFrame, self).
End Reader.

Definition u8_to_status (value : u8) : result TransportError.t ExecutionStatus.t :=
  match N_of_ascii value with
  | 0%N => Ok ExecutionStatus.Pending
  | 1%N => Ok ExecutionStatus.Dispatched
  | 2%N => Ok ExecutionStatus.Running
  | 3%N => Ok ExecutionStatus.Completed
  | 4%N => Ok ExecutionStatus.Failed
  | 5%N => Ok ExecutionStatus.Cancelled
  | _ => Err TransportError.MalformedFrame
  end.

(** [reader.byte()? != PROTOCOL_VERSION]. *)
Definition check_version : op Reader.t TransportError.t () :=
  version ← Reader.byte;
  if negb (bool_decide (version = PROTOCOL_VERSION))
  then fail TransportError.UnsupportedProtocolVersion
  else mret ().

(** An optional field behind a byte that says whether it is there. *)
Definition optional {A} (m : op Reader.t TransportError.t A) : op Reader.t TransportError.t (option A) :=
  flag ← Reader.byte;
  match N_of_ascii flag with
  | 0%N => mret None
  | 1%N => a ← m; mret (Some a)
  | _ => fail TransportError.MalformedFrame
  end.

(** The fields of a request, up to the end of its payload. *)
Definition decode_request `{UuidLib} : op Reader.t TransportError.t ExecutionRequest.t :=
  _ ← check_version;
  request_id ← Reader.string;
  source_participant_id ← optional Reader.identity;
  id ← Reader.string;
  payload ← Reader.bytes;
  node_id ← Reader.identity;
  name ← Reader.string;
  version ← Reader.string;
  unit_participant_id ← Reader.identity;
  resources ← Reader.resources;
  endpoint_participant_id ← Reader.identity;
  locator ← Reader.string;
  _ ← Reader.finish;
  mret {|
    ExecutionRequest.request_id := request_id;
    ExecutionRequest.source_participant_id := source_participant_id;
    ExecutionRequest.workload := Workload.mk id payload;
    ExecutionRequest.node_id := node_id;
    ExecutionRequest.runtime := RuntimeSpec.mk name version;
    ExecutionRequest.unit := ExecutionUnit.mk unit_participant_id resources;
    ExecutionRequest.endpoint := ExecutionEndpoint.mk endpoint_participant_id locator |}.

Definition decode_response : op Reader.t TransportError.t ExecutionResponse.t :=
  _ ← check_version;
  request_id ← Reader.string;
  status ← Reader.byte;
  status ← lift (u8_to_status status);
  error ← optional Reader.string;
  _ ← Reader.finish;
  mret {|
    ExecutionResponse.request_id := request_id;
    ExecutionResponse.status := status;
    ExecutionResponse.error := error |}.

(** Reading a frame and decoding its payload. *)
Definition read_payload {A} (decode : op Reader.t TransportError.t A) : op Stream.t TransportError.t A :=
  payload ← read_frame;
  lift (decode (Reader.new payload)).1.

Definition read_request `{UuidLib} : op Stream.t TransportError.t ExecutionRequest.t :=
  request ← read_payload decode_request;
  _ ← lift (validate_transport_request request);
  mret request.

Definition read_response : op Stream.t TransportError.t ExecutionResponse.t :=
  read_payload decode_response.
