(* ===== verification/codec_laws.v ===== *)
(** * Round trips and safety of the wire protocol

    [emits m bs] says what a writer appends, [reads m bs a] what a reader makes of the bytes in
    front of it, and [yields m P] what every value it returns satisfies; each is closed under
    sequencing, so the laws of whole messages follow field by field. *)
From S2P Require Import prelude bytes time float identity uuid_demo resource node runtime.
From S2P Require Import messages endpoint transport codec.
From stdpp Require Import list.

Lemma blen_app a b : blen (a ++ b) = (blen a + blen b)%N.
Proof. unfold blen. rewrite length_app. lia. Qed.

Lemma blen_be n v : blen (to_be_bytes n v) = N.of_nat n.
Proof. unfold blen. by rewrite length_to_be_bytes. Qed.

(** ** Writers *)

(** [m] appends [bs], or fails when [bs] is too long for any frame. *)
Definition emits (m : writer) (bs : list u8) : Prop :=
  ∀ buffer, m buffer = (Ok (), buffer ++ bs) ∨
    ((MAX_FRAME_SIZE < blen bs)%N ∧ ∃ buffer', m buffer = (Err TransportError.FrameTooLarge, buffer')).

Lemma emits_bind m1 m2 bs1 bs2 :
  emits m1 bs1 → emits m2 bs2 → emits (_ ← m1; m2) (bs1 ++ bs2).
Proof.
  intros H1 H2 buffer. unfold mbind, op_bind.
  destruct (H1 buffer) as [->|(Hlt & b' & ->)].
  - destruct (H2 (buffer ++ bs1)) as [->|(Hlt & b' & ->)].
    + left. by rewrite app_assoc.
    + right. split; [rewrite blen_app; lia|eauto].
  - right. split; [rewrite blen_app; lia|eauto].
Qed.

Lemma emits_extend bs : emits (extend_from_slice bs) bs.
Proof. intros buffer. by left. Qed.

Lemma emits_push b : emits (push b) [b].
Proof. intros buffer. by left. Qed.

Definition enc_bytes (bs : list u8) : list u8 := to_be_bytes 4 (blen bs) ++ bs.
Definition enc_string (s : string) : list u8 := enc_bytes (as_bytes s).
Definition enc_identity (i : Identity.t) : list u8 :=
  enc_string (Identity.id i) ++ [kind_to_u8 (Identity.kind i)].
Definition enc_option {A} (enc : A → list u8) (o : option A) : list u8 :=
  match o with Some a => [byte 1] ++ enc a | None => [byte 0] end.
Definition enc_duration (d : Duration) : list u8 :=
  to_be_bytes 8 (Duration.as_secs d) ++ to_be_bytes 4 (Duration.subsec_nanos d).
Definition enc_resources (r : ResourceFragment.t) : list u8 :=
  to_be_bytes 8 (f64_to_bits (ResourceFragment.cores r)) ++
  to_be_bytes 8 (ResourceFragment.mem r) ++ to_be_bytes 8 (ResourceFragment.sto r) ++
  to_be_bytes 8 (ResourceFragment.bps r) ++ to_be_bytes 4 (ResourceFragment.units r) ++
  enc_option enc_duration (ResourceFragment.lifetime r).

(** The payload of a request and of a response. *)
Definition enc_request (r : ExecutionRequest.t) : list u8 :=
  [PROTOCOL_VERSION] ++ enc_string (ExecutionRequest.request_id r) ++
  enc_option enc_identity (ExecutionRequest.source_participant_id r) ++
  enc_string (Workload.id (ExecutionRequest.workload r)) ++
  enc_bytes (Workload.payload (ExecutionRequest.workload r)) ++
  enc_identity (ExecutionRequest.node_id r) ++
  enc_string (RuntimeSpec.name (ExecutionRequest.runtime r)) ++
  enc_string (RuntimeSpec.version (ExecutionRequest.runtime r)) ++
  enc_identity (ExecutionUnit.participant_id (ExecutionRequest.unit r)) ++
  enc_resources (ExecutionUnit.resources (ExecutionRequest.unit r)) ++
  enc_identity (ExecutionEndpoint.participant_id (ExecutionRequest.endpoint r)) ++
  enc_string (ExecutionEndpoint.locator (ExecutionRequest.endpoint r)).
Definition enc_response (r : ExecutionResponse.t) : list u8 :=
  [PROTOCOL_VERSION] ++ enc_string (ExecutionResponse.request_id r) ++
  [status_to_u8 (ExecutionResponse.status r)] ++
  enc_option enc_string (ExecutionResponse.error r).

(** A frame around a payload. *)
Definition frame (payload : list u8) : list u8 := to_be_bytes 8 (blen payload) ++ payload.

Lemma emits_bytes bs : emits (write_bytes bs) (enc_bytes bs).
Proof.
  unfold write_bytes, enc_bytes. intros buffer. destruct (_ <? _)%N eqn:Hl; bools.
  - right. split; [|by eexists]. rewrite blen_app. unfold U32_MAX, MAX_FRAME_SIZE in *. lia.
  - apply emits_bind; apply emits_extend.
Qed.

Lemma emits_string s : emits (write_string s) (enc_string s).
Proof. apply (emits_bytes (as_bytes s)). Qed.

Lemma emits_identity i : emits (write_identity i) (enc_identity i).
Proof. apply emits_bind; [apply emits_string|apply emits_push]. Qed.

#[export] Hint Resolve emits_bind emits_extend emits_push emits_bytes emits_string emits_identity
  : rust.

Lemma emits_resources r : emits (write_resources r) (enc_resources r).
Proof.
  unfold write_resources, enc_resources. do 5 (apply emits_bind; [auto with rust|]).
  destruct (ResourceFragment.lifetime r); simpl; [|auto with rust].
  apply (emits_bind _ _ [byte 1]); auto with rust.
  apply emits_bind; auto with rust.
Qed.

Lemma emits_request r : emits (request_payload r) (enc_request r).
Proof.
  unfold request_payload, enc_request.
  repeat (apply emits_bind; [auto using emits_resources with rust|]); [|auto with rust].
  destruct (ExecutionRequest.source_participant_id r); cbn [enc_option]; [|auto with rust].
  apply emits_bind; auto with rust.
Qed.

Lemma emits_response r : emits (response_payload r) (enc_response r).
Proof.
  unfold response_payload, enc_response. do 3 (apply emits_bind; [auto with rust|]).
  destruct (ExecutionResponse.error r); cbn [enc_option]; [|auto with rust].
  apply emits_bind; auto with rust.
Qed.

Lemma take_blen_app n (a b : list u8) :
  take (N.to_nat n) (a ++ b) =
    if (blen a <=? n)%N then a ++ take (N.to_nat (n - blen a)) b else take (N.to_nat n) a.
Proof.
  unfold blen. destruct (_ <=? _)%N eqn:H; bools.
  - rewrite take_app, take_ge by lia. do 2 f_equal. lia.
  - apply take_app_le. lia.
Qed.

Lemma write_all_app a b s :
  (_ ← Stream.write_all a; Stream.write_all b) s = Stream.write_all (a ++ b) s.
Proof.
  unfold mbind, op_bind, Stream.write_all. rewrite blen_app, take_blen_app.
  destruct (blen a <=? Stream.room s)%N eqn:Ha; cbn [Stream.room Stream.input Stream.output]; bools.
  - destruct (blen b <=? Stream.room s - blen a)%N eqn:Hb; bools.
    + rewrite (proj2 (N.leb_le (blen a + blen b) _)) by lia. rewrite app_assoc.
      do 2 f_equal. lia.
    + rewrite (proj2 (N.leb_gt (blen a + blen b) _)) by lia. by rewrite app_assoc.
  - by rewrite (proj2 (N.leb_gt (blen a + blen b) _)) by lia.
Qed.

(** Sending a payload: the whole frame or, when it is too long, nothing. *)
Lemma write_payload_spec m bs s :
  emits m bs →
  write_payload m s =
    if (MAX_FRAME_SIZE <? blen bs)%N then (Err TransportError.FrameTooLarge, s)
    else (Stream.write_all (frame bs) .op_map_err (λ _, TransportError.NetworkFailure)) s.
Proof.
  intros Hm. unfold write_payload. destruct (Hm []) as [->|(Hlt & b & ->)]; cbn [app].
  - change ((_ ← lift (Ok ()); write_frame bs) s) with (write_frame bs s).
    unfold write_frame. case_match; [done|]. unfold op_map_err. by rewrite write_all_app.
  - by rewrite (proj2 (N.ltb_lt _ _) Hlt).
Qed.

(** ** Readers *)

(** In front of [bs], [m] consumes exactly [bs] and returns [a]. *)
Definition reads {A} (m : op Reader.t TransportError.t A) (bs : list u8) (a : A) : Prop :=
  ∀ pre suf, (blen (pre ++ bs ++ suf) ≤ U64_MAX)%N →
    m (Reader.mk (pre ++ bs ++ suf) (blen pre)) =
      (Ok a, Reader.mk (pre ++ bs ++ suf) (blen (pre ++ bs))).

Lemma reads_bind {A B} m (f : A → op Reader.t TransportError.t B) bs1 bs2 a b :
  reads m bs1 a → reads (f a) bs2 b → reads (m ≫= f) (bs1 ++ bs2) b.
Proof.
  intros H1 H2 pre suf. assert (pre ++ (bs1 ++ bs2) ++ suf = pre ++ bs1 ++ bs2 ++ suf) as ->
    by (by rewrite <- app_assoc).
  intros Hlen. unfold mbind, op_bind. rewrite (H1 pre (bs2 ++ suf)) by done.
  specialize (H2 (pre ++ bs1) suf). rewrite <- !app_assoc in H2. by apply H2.
Qed.

Lemma reads_ret {A} (a : A) : reads (mret a) [] a.
Proof. intros pre suf _. by rewrite app_nil_r. Qed.

Lemma reads_lift {A} (r : result TransportError.t A) a : r = Ok a → reads (lift r) [] a.
Proof. intros -> pre suf _. unfold lift. by rewrite app_nil_r. Qed.

(** A reader whose last step consumes nothing. *)
Lemma reads_then {A B} m (f : A → op Reader.t TransportError.t B) bs a b :
  reads m bs a → reads (f a) [] b → reads (m ≫= f) bs b.
Proof. intros H1 H2. rewrite <- (app_nil_r bs). by eapply reads_bind. Qed.

Lemma reads_take n bs : blen bs = n → reads (Reader.take_ n) bs bs.
Proof.
  intros <- pre suf Hlen. unfold Reader.take_. cbn [Reader.position Reader.bytes_].
  rewrite !blen_app in *. rewrite (proj2 (N.ltb_ge _ _)) by lia.
  rewrite (proj2 (N.ltb_ge _ _)) by lia. do 2 f_equal.
  unfold blen. rewrite !Nat2N.id, drop_app_length, take_app_length. done.
Qed.

Lemma reads_byte b : reads Reader.byte [b] b.
Proof. apply (reads_then _ _ _ [b]); [by apply reads_take|apply reads_ret]. Qed.

Lemma reads_be n (m : op Reader.t TransportError.t N) v :
  m = (bs ← Reader.take_ (N.of_nat n); mret (from_be_bytes bs)) → (v < 256 ^ N.of_nat n)%N →
  reads m (to_be_bytes n v) v.
Proof.
  intros -> Hv. apply (reads_then _ _ _ (to_be_bytes n v)).
  - apply reads_take, blen_be.
  - rewrite from_to_be_bytes by done. apply reads_ret.
Qed.

Lemma reads_u32 v : (v ≤ U32_MAX)%N → reads Reader.u32 (to_be_bytes 4 v) v.
Proof. intros Hv. apply (reads_be 4); [done|]. unfold U32_MAX in *. simpl. lia. Qed.

Lemma reads_u64 v : (v ≤ U64_MAX)%N → reads Reader.u64 (to_be_bytes 8 v) v.
Proof. intros Hv. apply (reads_be 8); [done|]. unfold U64_MAX in *. simpl. lia. Qed.

Lemma reads_f64 x : f64_valid x → reads Reader.f64 (to_be_bytes 8 (f64_to_bits x)) x.
Proof.
  intros Hx. pose proof (f64_to_bits_bound x Hx).
  apply (reads_then _ _ _ (to_be_bytes 8 (f64_to_bits x))); [apply reads_take, blen_be|].
  rewrite from_to_be_bytes by (simpl; lia). rewrite f64_of_to_bits by done. apply reads_ret.
Qed.

Lemma reads_bytes bs : (blen bs ≤ U32_MAX)%N → reads Reader.bytes (enc_bytes bs) bs.
Proof. intros Hl. eapply reads_bind; [by apply reads_u32|by apply reads_take]. Qed.

Lemma reads_string s : utf8 s → (blen (as_bytes s) ≤ U32_MAX)%N → reads Reader.string (enc_string s) s.
Proof.
  intros Hs Hl. eapply reads_bind; [by apply reads_u32|].
  eapply reads_then; [by apply reads_take|]. apply reads_lift. by rewrite from_utf8_as_bytes.
Qed.

Lemma u8_to_kind_to_u8 k : Reader.u8_to_kind (kind_to_u8 k) = Some k.
Proof. by destruct k. Qed.

Lemma u8_to_status_to_u8 s : u8_to_status (status_to_u8 s) = Ok s.
Proof. by destruct s. Qed.

Lemma reads_identity `{UuidLib} i :
  utf8 (Identity.id i) → (blen (as_bytes (Identity.id i)) ≤ U32_MAX)%N → v4_string (Identity.id i) →
  reads Reader.identity (enc_identity i) i.
Proof.
  intros Hu Hl Hv. eapply reads_bind; [by apply reads_string|].
  eapply reads_then; [apply reads_byte|].
  eapply reads_then; [apply reads_lift; by rewrite u8_to_kind_to_u8|].
  apply reads_lift, map_err_ok, parse_ok. split; [by destruct i|done].
Qed.

Lemma reads_optional {A} (m : op Reader.t TransportError.t A) enc o :
  (∀ a, o = Some a → reads m (enc a) a) → reads (optional m) (enc_option enc o) o.
Proof.
  intros Hm. destruct o as [a|].
  - eapply reads_bind; [apply reads_byte|]. simpl. eapply reads_then; [by apply Hm|apply reads_ret].
  - eapply reads_then; [apply reads_byte|apply reads_ret].
Qed.

Lemma reads_duration d :
  Duration.wf d →
  reads (secs ← Reader.u64; nanos ← Reader.u32; d ← lift (Duration.new secs nanos); mret (Some d))
    (enc_duration d) (Some d).
Proof.
  intros Hd. pose proof (Duration.as_secs_bound d Hd). pose proof (Duration.subsec_nanos_bound d) as Hn.
  eapply reads_bind; [apply reads_u64; unfold U64_MAX; lia|].
  eapply reads_then; [apply reads_u32; unfold U32_MAX, NANOS_PER_SEC in *; lia|].
  eapply reads_then; [apply reads_lift; by apply Duration.new_as_secs_subsec_nanos|apply reads_ret].
Qed.

Lemma reads_resources r :
  ResourceFragment.wf r → f64_valid (ResourceFragment.cores r) → valid_requirement r →
  reads Reader.resources (enc_resources r) r.
Proof.
  intros [(Hm & Hs & Hb & Hu) Hl] Hc Hv.
  eapply reads_bind; [by apply reads_f64|]. do 3 (eapply reads_bind; [by apply reads_u64|]).
  eapply reads_bind; [by apply reads_u32|].
  assert (r = ResourceFragment.mk (Cpu.mk (ResourceFragment.cores r))
    (Memory.mk (ResourceFragment.mem r)) (Storage.mk (ResourceFragment.sto r))
    (Network.mk (ResourceFragment.bps r)) (Gpu.mk (ResourceFragment.units r))
    (ResourceFragment.lifetime r)) as Hr by (by destruct r as [[] [] [] [] []]).
  destruct (ResourceFragment.lifetime r) as [d|].
  - eapply reads_bind; [apply reads_byte|]. simpl.
    eapply reads_then; [by apply reads_duration, Hl|]. rewrite <- Hr.
    eapply reads_then; [by apply reads_lift, map_err_ok, requirement_ok|apply reads_ret].
  - eapply reads_then; [apply reads_byte|]. simpl.
    eapply reads_then; [apply reads_ret|]. rewrite <- Hr.
    eapply reads_then; [by apply reads_lift, map_err_ok, requirement_ok|apply reads_ret].
Qed.

(** What Rust's types guarantee of a request and of a response. *)
Record typed_request (r : ExecutionRequest.t) : Prop := {
  tr_id : utf8 (ExecutionRequest.request_id r);
  tr_source : ∀ i, ExecutionRequest.source_participant_id r = Some i → utf8 (Identity.id i);
  tr_workload : utf8 (Workload.id (ExecutionRequest.workload r));
  tr_node : utf8 (Identity.id (ExecutionRequest.node_id r));
  tr_name : utf8 (RuntimeSpec.name (ExecutionRequest.runtime r));
  tr_version : utf8 (RuntimeSpec.version (ExecutionRequest.runtime r));
  tr_unit : utf8 (Identity.id (ExecutionUnit.participant_id (ExecutionRequest.unit r)));
  tr_resources : ResourceFragment.wf (ExecutionUnit.resources (ExecutionRequest.unit r));
  tr_cores : f64_valid (ResourceFragment.cores (ExecutionUnit.resources (ExecutionRequest.unit r)));
  tr_endpoint :
    utf8 (Identity.id (ExecutionEndpoint.participant_id (ExecutionRequest.endpoint r)));
  tr_locator : utf8 (ExecutionEndpoint.locator (ExecutionRequest.endpoint r));
}.

Record typed_response (r : ExecutionResponse.t) : Prop := {
  ts_id : utf8 (ExecutionResponse.request_id r);
  ts_error : ∀ e, ExecutionResponse.error r = Some e → utf8 e;
}.

(** The identities a reader parses again. *)
Definition v4_request `{UuidLib} (r : ExecutionRequest.t) : Prop :=
  v4_string (Identity.id (ExecutionRequest.node_id r)) ∧
  v4_string (Identity.id (ExecutionUnit.participant_id (ExecutionRequest.unit r))).

(** In front of the last bytes [bs] of a payload, [m] returns [a]. *)
Definition ends {A} (m : op Reader.t TransportError.t A) (bs : list u8) (a : A) : Prop :=
  ∀ pre, (blen (pre ++ bs) ≤ U64_MAX)%N → (m (Reader.mk (pre ++ bs) (blen pre))).1 = Ok a.

Lemma ends_bind {A B} m (f : A → op Reader.t TransportError.t B) bs1 bs2 a b :
  reads m bs1 a → ends (f a) bs2 b → ends (m ≫= f) (bs1 ++ bs2) b.
Proof.
  intros Hm Hf pre Hl. unfold mbind, op_bind. rewrite (Hm pre bs2) by done.
  specialize (Hf (pre ++ bs1)). rewrite <- !app_assoc in Hf. by apply Hf.
Qed.

Lemma ends_finish {A B} m (f : A → B) bs a :
  reads m bs a → ends (a ← m; _ ← Reader.finish; mret (f a)) bs (f a).
Proof.
  intros Hm pre Hl. specialize (Hm pre []). rewrite !app_nil_r in Hm.
  unfold mbind, op_bind. rewrite Hm by done. simpl. by rewrite N.eqb_refl.
Qed.

Lemma ends_decode {A} (m : op Reader.t TransportError.t A) bs a :
  ends m bs a → (blen bs ≤ U64_MAX)%N → (m (Reader.new bs)).1 = Ok a.
Proof. intros Hm Hl. by apply (Hm []). Qed.

Lemma reads_version : reads check_version [PROTOCOL_VERSION] ().
Proof. eapply reads_then; [apply reads_byte|]. apply reads_ret. Qed.

Lemma blen_bytes bs : blen (enc_bytes bs) = (4 + blen bs)%N.
Proof. unfold enc_bytes. by rewrite blen_app, blen_be. Qed.

Lemma blen_identity i : blen (enc_identity i) = (5 + blen (as_bytes (Identity.id i)))%N.
Proof.
  unfold enc_identity, enc_string. rewrite blen_app, blen_bytes.
  change (blen [kind_to_u8 (Identity.kind i)]) with 1%N. lia.
Qed.

Lemma blen_option {A} (enc : A → list u8) o :
  blen (enc_option enc o) = (1 + from_option (blen ∘ enc) 0 o)%N.
Proof. destruct o; simpl; [|done]. unfold blen. simpl. lia. Qed.

Lemma decode_encode_request `{UuidLib} r :
  typed_request r → well_formed_request r → valid_source r → v4_request r →
  valid_requirement (ExecutionUnit.resources (ExecutionRequest.unit r)) →
  (blen (enc_request r) ≤ MAX_FRAME_SIZE)%N →
  (decode_request (Reader.new (enc_request r))).1 = Ok r.
Proof.
  intros [] [] Hsrc [Hn Hu] Hq Hl.
  assert (blen (enc_request r) ≤ U64_MAX)%N as Hl' by (unfold MAX_FRAME_SIZE, U64_MAX in *; lia).
  unfold enc_request, enc_string in Hl.
  rewrite !blen_app, !blen_bytes, !blen_identity, blen_option in Hl.
  unfold MAX_FRAME_SIZE in Hl.
  assert (U32_MAX = 4294967295)%N as HU by done.
  refine (ends_decode _ _ _ _ Hl'). unfold decode_request, enc_request.
  eapply ends_bind; [apply reads_version|].
  eapply ends_bind; [apply reads_string; [done|lia]|].
  eapply ends_bind.
  { apply reads_optional. intros i Hi. rewrite Hi in Hl. simpl in Hl. rewrite blen_identity in Hl.
    apply reads_identity; [by eapply tr_source0|lia|by eapply Hsrc]. }
  eapply ends_bind; [apply reads_string; [done|lia]|].
  eapply ends_bind; [apply reads_bytes; lia|].
  eapply ends_bind; [apply reads_identity; [done|lia|done]|].
  do 2 (eapply ends_bind; [apply reads_string; [done|lia]|]).
  eapply ends_bind; [apply reads_identity; [done|lia|done]|].
  eapply ends_bind; [by apply reads_resources|].
  eapply ends_bind; [apply reads_identity; [done|lia|by rewrite wr_endpoint]|].
  destruct r as [? ? [] ? [] [] []].
  apply (ends_finish _ (λ l, ExecutionRequest.mk _ _ _ _ _ _ (ExecutionEndpoint.mk _ l))).
  apply reads_string; [done|]. simpl in *. lia.
Qed.

Lemma ends_then {A B} m (f : A → op Reader.t TransportError.t B) bs a b :
  reads m [] a → ends (f a) bs b → ends (m ≫= f) bs b.
Proof. intros Hm Hf. by apply (ends_bind m f [] bs a b). Qed.

Lemma decode_encode_response r :
  typed_response r → (blen (enc_response r) ≤ MAX_FRAME_SIZE)%N →
  (decode_response (Reader.new (enc_response r))).1 = Ok r.
Proof.
  intros [] Hl.
  assert (blen (enc_response r) ≤ U64_MAX)%N as Hl' by (unfold MAX_FRAME_SIZE, U64_MAX in *; lia).
  unfold enc_response, enc_string in Hl. rewrite !blen_app, !blen_bytes, blen_option in Hl.
  unfold MAX_FRAME_SIZE in Hl. assert (U32_MAX = 4294967295)%N as HU by done.
  refine (ends_decode _ _ _ _ Hl'). unfold decode_response, enc_response.
  eapply ends_bind; [apply reads_version|].
  eapply ends_bind; [apply reads_string; [done|lia]|].
  eapply ends_bind; [apply reads_byte|].
  eapply ends_then; [apply reads_lift, u8_to_status_to_u8|].
  destruct r as [id st err]. apply (ends_finish _ (λ e, ExecutionResponse.mk id st e)).
  apply reads_optional. intros e ->. simpl in Hl. rewrite blen_bytes in Hl.
  apply reads_string; [by eapply ts_error0|lia].
Qed.

(** ** Frames *)

(** Reading a frame off the front of a stream. *)
Lemma read_exact_app bs rest o n :
  Stream.read_exact (blen bs) (Stream.mk (bs ++ rest) o n) = (Ok bs, Stream.mk rest o n).
Proof.
  unfold Stream.read_exact. cbn [Stream.input Stream.output Stream.room].
  rewrite blen_app, (proj2 (N.leb_le _ _)) by lia. unfold blen.
  by rewrite Nat2N.id, take_app_length, drop_app_length.
Qed.

Lemma read_frame_app payload rest o n :
  (blen payload ≤ MAX_FRAME_SIZE)%N →
  read_frame (Stream.mk (frame payload ++ rest) o n) = (Ok payload, Stream.mk rest o n).
Proof.
  intros Hl. unfold read_frame, mbind, op_bind, op_map_err, frame. rewrite <- app_assoc.
  pose proof (read_exact_app (to_be_bytes 8 (blen payload)) (payload ++ rest) o n) as Hh.
  rewrite blen_be in Hh. change (N.of_nat 8) with 8%N in Hh. rewrite Hh. cbn [map_err].
  rewrite from_to_be_bytes by (unfold MAX_FRAME_SIZE in Hl; simpl; lia).
  rewrite (proj2 (N.ltb_ge _ _)) by done. by rewrite read_exact_app.
Qed.

Lemma read_payload_app {A} (m : op Reader.t TransportError.t A) payload a rest o n :
  (blen payload ≤ MAX_FRAME_SIZE)%N → (m (Reader.new payload)).1 = Ok a →
  read_payload m (Stream.mk (frame payload ++ rest) o n) = (Ok a, Stream.mk rest o n).
Proof.
  intros Hl Hm. unfold read_payload, lift, mbind, op_bind. rewrite read_frame_app by done. by rewrite Hm.
Qed.

(** A payload that fits is sent whole when the connection takes it. *)
Lemma write_payload_fits m bs s :
  emits m bs → (blen bs ≤ MAX_FRAME_SIZE)%N → (blen (frame bs) ≤ Stream.room s)%N →
  write_payload m s =
    (Ok (), Stream.mk (Stream.input s) (Stream.output s ++ frame bs)
              (Stream.room s - blen (frame bs))).
Proof.
  intros Hm Hl Hr. rewrite (write_payload_spec _ _ _ Hm), (proj2 (N.ltb_ge _ _)) by done.
  unfold op_map_err, Stream.write_all. by rewrite (proj2 (N.leb_le _ _)).
Qed.

(** ** What readers return *)

Definition yields {S E A} (m : op S E A) (P : A → Prop) : Prop := ∀ s a s', m s = (Ok a, s') → P a.

Section yields.
Context {S E : Type}.

Lemma yields_bind {A B} (m : op S E A) (f : A → op S E B) (P : A → Prop) (Q : B → Prop) :
  yields m P → (∀ a, P a → yields (f a) Q) → yields (m ≫= f) Q.
Proof.
  intros Hm Hf s b s' Hb. unfold mbind, op_bind in Hb. destruct (m s) as [[a|e|] s1] eqn:Ha; try done.
  eapply Hf; [by eapply Hm|done].
Qed.

Lemma yields_any {A} (m : op S E A) : yields m (λ _, True).
Proof. by intros s a s'. Qed.

Lemma yields_step {A B} (m : op S E A) (f : A → op S E B) (Q : B → Prop) :
  (∀ a, yields (f a) Q) → yields (m ≫= f) Q.
Proof. intros Hf. eapply yields_bind; [apply yields_any|]. auto. Qed.

Lemma yields_ret {A} (a : A) (P : A → Prop) : P a → yields (mret (M:=op S E) a) P.
Proof. intros Ha s b s' [= <- <-]. done. Qed.

Lemma yields_lift {A} (r : result E A) (P : A → Prop) : (∀ a, r = Ok a → P a) → yields (lift (S:=S) r) P.
Proof. intros Hr s a s' [= -> <-]. auto. Qed.

Lemma yields_guard {A B} (r : result E A) (f : A → op S E B) (Q : B → Prop) :
  (∀ a, r = Ok a → yields (f a) Q) → yields (lift r ≫= f) Q.
Proof. intros Hf. eapply yields_bind; [apply (yields_lift r (λ a, r = Ok a)); done|exact Hf]. Qed.

Lemma yields_fail {A} (e : E) (P : A → Prop) : yields (fail (S:=S) e) P.
Proof. by intros s a s'. Qed.
End yields.

Lemma yields_string : yields Reader.string utf8.
Proof.
  do 2 (apply yields_step; intros ?). apply yields_lift. intros s Hs%ok_or_ok.
  by apply from_utf8_some in Hs as [? _].
Qed.

Lemma yields_identity `{UuidLib} :
  yields Reader.identity (λ i, utf8 (Identity.id i) ∧ v4_string (Identity.id i)).
Proof.
  eapply yields_bind; [apply yields_string|]. intros s Hs. do 2 (apply yields_step; intros ?).
  apply yields_lift. by intros i [-> Hv]%map_err_ok%parse_ok.
Qed.

Lemma yields_optional {A} (m : op Reader.t TransportError.t A) P :
  yields m P → yields (optional m) (λ o, ∀ a, o = Some a → P a).
Proof.
  intros Hm. apply yields_step. intros flag. destruct (N_of_ascii flag) as [|[]];
    try apply yields_fail.
  - by apply yields_ret.
  - eapply yields_bind; [exact Hm|]. intros a Ha. apply yields_ret. by intros a' [= <-].
Qed.

Lemma yields_take n : yields (Reader.take_ n) (λ bs, blen bs = n).
Proof.
  intros s bs s' H. unfold Reader.take_ in H. case_match eqn:E1; [done|]. case_match eqn:E2; [done|]. simplify_eq. bools.
  unfold blen in *. rewrite length_take, length_drop. lia.
Qed.

Lemma yields_be n : yields (bs ← Reader.take_ n; mret (from_be_bytes bs)) (λ v, v < 256 ^ n)%N.
Proof.
  eapply yields_bind; [apply yields_take|]. intros bs Hbs. apply yields_ret.
  pose proof (from_be_bytes_bound bs) as Hb. unfold blen in Hbs. by rewrite Hbs in Hb.
Qed.

Lemma yields_u64 : yields Reader.u64 (λ v, v ≤ U64_MAX)%N.
Proof. intros s v s' H. apply yields_be in H. unfold U64_MAX. simpl in H. lia. Qed.

Lemma yields_u32 : yields Reader.u32 (λ v, v ≤ U32_MAX)%N.
Proof. intros s v s' H. apply yields_be in H. unfold U32_MAX. simpl in H. lia. Qed.

Lemma yields_f64 : yields Reader.f64 f64_valid.
Proof. apply yields_step. intros bs. apply yields_ret, f64_of_bits_valid. Qed.

Lemma yields_resources :
  yields Reader.resources
    (λ r, ResourceFragment.wf r ∧ f64_valid (ResourceFragment.cores r) ∧ valid_requirement r).
Proof.
  eapply yields_bind; [apply yields_f64|]. intros c Hc.
  eapply yields_bind; [apply yields_u64|]. intros m Hm.
  eapply yields_bind; [apply yields_u64|]. intros st Hst.
  eapply yields_bind; [apply yields_u64|]. intros b Hb.
  eapply yields_bind; [apply yields_u32|]. intros u Hu.
  apply yields_step. intros flag.
  eapply (yields_bind _ _ (λ l, ∀ d, l = Some d → Duration.wf d)).
  - destruct (N_of_ascii flag) as [|[]]; try apply yields_fail; [by apply yields_ret|].
    do 2 (apply yields_step; intros ?).
    eapply (yields_bind _ _ Duration.wf).
    + apply yields_lift. intros d. unfold Duration.new. case_match eqn:E; [|done]. intros [= <-].
      by apply N.leb_le.
    + intros d Hd. apply yields_ret. by intros d' [= <-].
  - intros l Hl. apply yields_guard. intros [] Hr%map_err_ok%requirement_ok. by apply yields_ret.
Qed.

(** What decoding a request establishes, besides the checks of [validate_transport_request]. *)
Definition decoded_request `{UuidLib} (r : ExecutionRequest.t) : Prop :=
  typed_request r ∧ v4_request r ∧
  v4_string (Identity.id (ExecutionEndpoint.participant_id (ExecutionRequest.endpoint r))).

Lemma yields_decode_request `{UuidLib} : yields decode_request decoded_request.
Proof.
  apply yields_step. intros _.
  eapply yields_bind; [apply yields_string|]. intros id Hid.
  eapply yields_bind; [apply yields_optional, yields_identity|]. intros src Hsrc.
  eapply yields_bind; [apply yields_string|]. intros wid Hwid.
  apply yields_step. intros payload.
  eapply yields_bind; [apply yields_identity|]. intros node [Hn1 Hn2].
  eapply yields_bind; [apply yields_string|]. intros name Hname.
  eapply yields_bind; [apply yields_string|]. intros version Hversion.
  eapply yields_bind; [apply yields_identity|]. intros unit [Hu1 Hu2].
  eapply yields_bind; [apply yields_resources|]. intros r (Hwf & Hc & _).
  eapply yields_bind; [apply yields_identity|]. intros ep [He1 He2].
  eapply yields_bind; [apply yields_string|]. intros loc Hloc.
  apply yields_step. intros _. apply yields_ret. repeat split; try done; try apply Hwf.
  intros i Hi. by apply Hsrc in Hi as [? _].
Qed.

Lemma yields_read_payload {A} (m : op Reader.t TransportError.t A) P :
  yields m P → yields (read_payload m) P.
Proof.
  intros Hm. apply yields_step. intros payload. apply yields_lift. intros a Ha.
  destruct (m (Reader.new payload)) as [r s'] eqn:E. simpl in Ha. subst. by eapply Hm.
Qed.

Lemma yields_read_request `{UuidLib} :
  yields read_request (λ r, decoded_request r ∧ validate_transport_request r = Ok ()).
Proof.
  eapply yields_bind; [apply yields_read_payload, yields_decode_request|]. intros r Hr.
  apply yields_guard. intros [] Hv. by apply yields_ret.
Qed.

(** ** When reading panics *)

(** Somewhere in [bs] there is the encoding of a lifetime that [Duration::new] cannot represent. *)
Definition overflowing_lifetime (bs : list u8) : Prop :=
  ∃ pre secs nanos suf, bs = pre ++ to_be_bytes 8 secs ++ to_be_bytes 4 nanos ++ suf ∧
    (2 ^ 64 * NANOS_PER_SEC ≤ secs * NANOS_PER_SEC + nanos)%N.

(** [m] leaves the payload alone and panics only over the payloads [Q] describes. *)
Definition careful (Q : list u8 → Prop) {A} (m : op Reader.t TransportError.t A) : Prop :=
  ∀ rd, Reader.bytes_ (m rd).2 = Reader.bytes_ rd ∧ ((m rd).1 = Panic → Q (Reader.bytes_ rd)).

Section careful.
Context (Q : list u8 → Prop).
Abbreviation careful := (careful Q).

Lemma careful_bind {A B} m (f : A → op Reader.t TransportError.t B) :
  careful m → (∀ a, careful (f a)) → careful (m ≫= f).
Proof.
  intros Hm Hf rd. destruct (Hm rd) as [Hb Hp]. unfold mbind, op_bind.
  destruct (m rd) as [[a|e|] rd']; simpl in *; [|by split; auto..].
  destruct (Hf a rd') as [Hb' Hp']. rewrite Hb in Hb', Hp'. by split.
Qed.

Lemma careful_lift {A} (r : result TransportError.t A) : r ≠ Panic → careful (lift r).
Proof. by intros Hr rd. Qed.

Lemma careful_fail {A} e : careful (fail (A:=A) e).
Proof. by intros rd. Qed.

Lemma careful_ret {A} (a : A) : careful (mret a).
Proof. done. Qed.

Lemma careful_take n : careful (Reader.take_ n).
Proof. intros rd. unfold Reader.take_. by repeat case_match; simpl. Qed.

Lemma take_ok n rd bs rd' :
  Reader.take_ n rd = (Ok bs, rd') →
  ∃ pre suf, Reader.bytes_ rd = pre ++ bs ++ suf ∧ blen bs = n ∧
    rd = Reader.mk (pre ++ bs ++ suf) (blen pre) ∧
    rd' = Reader.mk (pre ++ bs ++ suf) (blen (pre ++ bs)).
Proof.
  destruct rd as [l p]. unfold Reader.take_. cbn [Reader.bytes_ Reader.position]. intros H.
  case_match eqn:E1; [done|]. case_match eqn:E2; [done|]. injection H as <- <-. bools.
  exists (take (N.to_nat p) l), (drop (N.to_nat n) (drop (N.to_nat p) l)).
  assert (blen (take (N.to_nat p) l) = p) as Hp by (unfold blen in *; rewrite length_take; lia).
  rewrite blen_app, !take_drop, Hp.
  assert (blen (take (N.to_nat n) (drop (N.to_nat p) l)) = n) as ->; [|done].
  unfold blen in *. rewrite length_take, length_drop. lia.
Qed.

Lemma careful_byte : careful Reader.byte.
Proof.
  intros rd. unfold Reader.byte, mbind, op_bind. destruct (careful_take 1 rd) as [Hb Hp].
  destruct (Reader.take_ 1 rd) as [[bs|e|] rd'] eqn:E; simpl in *; [|by split; auto..].
  destruct bs; [by apply yields_take in E|by split].
Qed.

Lemma careful_u32 : careful Reader.u32.
Proof. apply careful_bind; [apply careful_take|intros; apply careful_ret]. Qed.
Lemma careful_u64 : careful Reader.u64.
Proof. apply careful_bind; [apply careful_take|intros; apply careful_ret]. Qed.
Lemma careful_f64 : careful Reader.f64.
Proof. apply careful_bind; [apply careful_take|intros; apply careful_ret]. Qed.

Lemma careful_ok_or {A} (o : option A) e : careful (lift (ok_or o e)).
Proof. apply careful_lift. by destruct o. Qed.

#[local] Hint Resolve careful_bind careful_ret careful_take careful_byte careful_u32 careful_u64
  careful_f64 careful_ok_or : rust.

Lemma careful_string : careful Reader.string.
Proof. unfold Reader.string. auto with rust. Qed.
Lemma careful_bytes : careful Reader.bytes.
Proof. unfold Reader.bytes. auto with rust. Qed.

Lemma careful_map_err {E A} (r : result E A) (f : E → TransportError.t) :
  r ≠ Panic → careful (lift (r .map_err f)).
Proof. intros Hr. apply careful_lift. by rewrite map_err_panic. Qed.

#[local] Hint Resolve careful_string careful_bytes careful_map_err : rust.

Lemma careful_identity `{UuidLib} : careful Reader.identity.
Proof. unfold Reader.identity. auto 10 with rust. Qed.

Lemma careful_optional {A} (m : op Reader.t TransportError.t A) : careful m → careful (optional m).
Proof.
  intros Hm. apply careful_bind; [apply careful_byte|]. intros b.
  destruct (N_of_ascii b) as [|[]]; auto with rust; done.
Qed.
End careful.

#[export] Hint Resolve careful_bind careful_ret careful_fail careful_take careful_byte careful_u32
  careful_u64 careful_f64 careful_ok_or careful_string careful_bytes careful_map_err careful_identity
  careful_optional : rust.

Lemma careful_duration :
  careful overflowing_lifetime (secs ← Reader.u64; nanos ← Reader.u32; d ← lift (Duration.new secs nanos); mret (Some d)).
Proof.
  intros rd. unfold Reader.u64, Reader.u32, mbind, op_bind.
  destruct (careful_take overflowing_lifetime 8 rd) as [Hb Hp].
  destruct (Reader.take_ 8 rd) as [[b8|e|] rd1] eqn:E1; simpl in Hb, Hp |- *; [|by split; auto..].
  destruct (careful_take overflowing_lifetime 4 rd1) as [Hb' Hp']. rewrite Hb in Hb', Hp'.
  destruct (Reader.take_ 4 rd1) as [[b4|e|] rd2] eqn:E2; simpl in Hb', Hp' |- *; [|by split; auto..].
  unfold lift, Duration.new. destruct (_ <=? _)%N eqn:Hd; simpl; (split; [done|]); [done|]. intros _.
  apply take_ok in E1 as (pre & suf & Hl & Hl8 & -> & ->).
  apply take_ok in E2 as (pre' & suf' & Hl' & Hl4 & Heq & _). injection Heq as Heq Hlen.
  exists pre, (from_be_bytes b8), (from_be_bytes b4), suf'.
  assert (to_be_bytes 8 (from_be_bytes b8) = b8) as ->.
  { rewrite <- (to_from_be_bytes b8) at 2. f_equal. unfold blen in Hl8. lia. }
  assert (to_be_bytes 4 (from_be_bytes b4) = b4) as ->.
  { rewrite <- (to_from_be_bytes b4) at 2. f_equal. unfold blen in Hl4. lia. }
  split; [|bools; unfold Duration.MAX, NANOS_PER_SEC in *; lia].
  rewrite app_assoc in Heq. apply app_inj_1 in Heq as [_ ->]; [done|]. unfold blen in Hlen. lia.
Qed.

Lemma careful_resources : careful overflowing_lifetime Reader.resources.
Proof.
  unfold Reader.resources. do 6 (apply careful_bind; [auto with rust|intros]).
  apply careful_bind.
  - match goal with |- careful _ (match ?n with _ => _ end) => destruct n as [|[]] end;
      auto with rust; try done. apply careful_duration.
  - intros. apply careful_bind; auto with rust.
Qed.

Lemma careful_version Q : careful Q check_version.
Proof. apply careful_bind; [auto with rust|]. intros b. case_match; auto with rust. Qed.

Lemma careful_finish Q {A} (a : A) : careful Q (_ ← Reader.finish; mret a).
Proof. apply careful_bind; [|auto with rust]. intros rd. unfold Reader.finish. by case_match. Qed.

#[local] Hint Resolve careful_version careful_finish careful_resources : rust.

Lemma careful_decode_request `{UuidLib} : careful overflowing_lifetime decode_request.
Proof.
  unfold decode_request. apply careful_bind; [auto with rust|].
  do 11 (intros ?; apply careful_bind; [auto with rust|]). auto with rust.
Qed.

Lemma careful_decode_response : careful (λ _, False) decode_response.
Proof.
  unfold decode_response. do 3 (apply careful_bind; [auto with rust|intros ?]).
  apply careful_bind; [apply careful_lift; unfold u8_to_status; by repeat case_match|].
  intros ?. apply careful_bind; [auto with rust|]. intros ?. apply careful_finish.
Qed.

Lemma read_exact_input n s bs s' :
  Stream.read_exact n s = (Ok bs, s') → Stream.input s = bs ++ Stream.input s'.
Proof.
  unfold Stream.read_exact. case_match; [|done]. intros [= <- <-]. simpl. by rewrite take_drop.
Qed.

(** Reading sends nothing. *)
Definition quiet {A} (m : op Stream.t TransportError.t A) : Prop :=
  ∀ s, Stream.output (m s).2 = Stream.output s.

Lemma quiet_bind {A B} m (f : A → op Stream.t TransportError.t B) :
  quiet m → (∀ a, quiet (f a)) → quiet (m ≫= f).
Proof.
  intros Hm Hf s. specialize (Hm s). unfold mbind, op_bind. destruct (m s) as [[a|e|] s']; simpl in *;
    [by rewrite Hf|done..].
Qed.

Lemma quiet_read_exact n f : quiet (Stream.read_exact n .op_map_err f).
Proof. intros s. unfold op_map_err, Stream.read_exact. by destruct (_ <=? _)%N. Qed.

Lemma quiet_lift {A} (r : result TransportError.t A) : quiet (lift r).
Proof. by intros s. Qed.

Lemma quiet_read_payload {A} (m : op Reader.t TransportError.t A) : quiet (read_payload m).
Proof.
  apply quiet_bind; [|intros; apply quiet_lift]. apply quiet_bind; [apply quiet_read_exact|].
  intros h. cbv zeta. destruct (_ <? _)%N; [by intros s|apply quiet_read_exact].
Qed.

Lemma read_request_output `{UuidLib} s :
  Stream.output (read_request s).2 = Stream.output s.
Proof.
  revert s. apply quiet_bind; [apply quiet_read_payload|]. intros r.
  apply quiet_bind; [apply quiet_lift|]. by intros a s.
Qed.

Lemma read_exact_no_panic n s : (Stream.read_exact n s).1 ≠ Panic.
Proof. unfold Stream.read_exact. by case_match. Qed.

(** A frame that was read is in the input, and reading one does not panic. *)
Lemma read_frame_input s :
  (read_frame s).1 ≠ Panic ∧
  ∀ payload s', read_frame s = (Ok payload, s') → ∃ header, Stream.input s = header ++ payload ++ Stream.input s'.
Proof.
  unfold read_frame, op_map_err, fail, mbind, op_bind.
  pose proof (read_exact_no_panic 8 s). destruct (Stream.read_exact 8 s) as [[h|e|] s1] eqn:E1;
    cbn [map_err fst] in *; try done.
  case_match; [done|].
  pose proof (read_exact_no_panic (from_be_bytes h) s1).
  destruct (Stream.read_exact (from_be_bytes h) s1) as [[b|e|] s2] eqn:E2; cbn [map_err fst] in *;
    try done.
  split; [done|]. intros ?? [= <- <-]. exists h.
  by rewrite (read_exact_input _ _ _ _ E1), (read_exact_input _ _ _ _ E2).
Qed.

Lemma write_frame_bounds payload s :
  let '(r, s') := write_frame payload s in
  ∃ sent, Stream.output s' = Stream.output s ++ sent ∧ (blen sent ≤ 8 + MAX_FRAME_SIZE)%N ∧
    (blen sent ≤ Stream.room s)%N ∧
    (r = Ok () ↔ sent = to_be_bytes 8 (blen payload) ++ payload ∧ (blen payload ≤ MAX_FRAME_SIZE)%N) ∧
    ((MAX_FRAME_SIZE < blen payload)%N → sent = [] ∧ r = Err TransportError.FrameTooLarge).
Proof.
  unfold write_frame. destruct (N.ltb_spec MAX_FRAME_SIZE (blen payload)) as [Hl|Hl].
  { exists []. rewrite app_nil_r. cbn [blen length]. split_and!; [done|unfold blen; simpl; lia..| |done].
    split; [done|]. intros [_ ?]. lia. }
  unfold op_map_err. rewrite write_all_app. unfold Stream.write_all.
  assert (blen (to_be_bytes 8 (blen payload) ++ payload) = 8 + blen payload)%N as Hb
    by by rewrite blen_app, blen_be.
  rewrite Hb. destruct (N.leb_spec (8 + blen payload) (Stream.room s)) as [Hr|Hr]; cbn [map_err].
  - exists (to_be_bytes 8 (blen payload) ++ payload). cbn [Stream.output]. rewrite Hb.
    split_and!; [done|lia|lia|done|lia].
  - assert (blen (take (N.to_nat (Stream.room s)) (to_be_bytes 8 (blen payload) ++ payload)) =
      Stream.room s) as Ht.
    { unfold blen in *. rewrite length_take. lia. }
    eexists. cbn [Stream.output]. split; [done|]. rewrite Ht. split_and!; [lia|lia| |lia].
    split; [done|]. intros [Heq _]. rewrite Heq, Hb in Ht. lia.
Qed.

Lemma to_be_bytes_take n l : (N.of_nat n ≤ blen l)%N →
  l = to_be_bytes n (from_be_bytes (take n l)) ++ drop n l ∧ (from_be_bytes (take n l) < 256 ^ N.of_nat n)%N.
Proof.
  intros Hn. assert (length (take n l) = n) as Hl by (rewrite length_take; unfold blen in Hn; lia).
  split; [|pose proof (from_be_bytes_bound (take n l)) as Hb; by rewrite Hl in Hb].
  pose proof (to_from_be_bytes (take n l)) as H. rewrite Hl in H. by rewrite H, take_drop.
Qed.

Lemma read_frame_bounds s :
  match read_frame s with
  | (Ok received, s') =>
    Stream.input s = to_be_bytes 8 (blen received) ++ received ++ Stream.input s' ∧
    (blen received ≤ MAX_FRAME_SIZE)%N
  | (Err TransportError.FrameTooLarge, s') => ∃ n,
    Stream.input s = to_be_bytes 8 n ++ Stream.input s' ∧ (MAX_FRAME_SIZE < n ≤ U64_MAX)%N
  | (Err e, s') => e = TransportError.NetworkFailure ∧ Stream.input s' = [] ∧
    ((blen (Stream.input s) < 8)%N ∨ ∃ n rest,
       Stream.input s = to_be_bytes 8 n ++ rest ∧ (blen rest < n ≤ MAX_FRAME_SIZE)%N)
  | (Panic, _) => False
  end.
Proof.
  unfold read_frame, op_map_err, fail, mbind, op_bind, Stream.read_exact.
  destruct (N.leb_spec 8 (blen (Stream.input s))) as [H8|H8]; cbn [map_err];
    [|split_and!; [done|done|by left]].
  destruct (to_be_bytes_take 8 (Stream.input s) H8) as [Hin Hb].
  change (N.to_nat 8) with 8. set (n := from_be_bytes (take 8 (Stream.input s))) in *.
  destruct (N.ltb_spec MAX_FRAME_SIZE n) as [Hm|Hm].
  - exists n. cbn [Stream.input]. split; [exact Hin|]. split; [done|].
    unfold U64_MAX. change (256 ^ N.of_nat 8)%N with (2 ^ 64)%N in Hb. lia.
  - cbn [Stream.input]. set (rest := drop 8 (Stream.input s)) in *.
    destruct (N.leb_spec n (blen rest)) as [Hr|Hr]; cbn [map_err Stream.input].
    + assert (blen (take (N.to_nat n) rest) = n) as Hn by (unfold blen in *; rewrite length_take; lia).
      rewrite Hn, take_drop. done.
    + split_and!; [done|done|]. right. by exists n, rest.
Qed.

Lemma read_payload_panic Q {A} (m : op Reader.t TransportError.t A) s :
  careful Q m → (read_payload m s).1 = Panic →
  ∃ header payload rest, Stream.input s = header ++ payload ++ rest ∧ Q payload.
Proof.
  intros Hm. unfold read_payload, lift, mbind, op_bind. destruct (read_frame_input s) as [Hn Hi].
  destruct (read_frame s) as [[payload|e|] s'] eqn:E; simpl in *; try done.
  intros Hp. destruct (Hm (Reader.new payload)) as [_ HQ]. destruct (Hi _ _ eq_refl) as [h Hin].
  exists h, payload, (Stream.input s'). split; [done|by apply HQ].
Qed.

(** ** Properties *)

(** C6: what a client sends for a valid request, the server reads back as the same request. The
    request fits one frame that the connection takes whole; a request that is too long for a frame
    is refused before anything is sent. *)
Theorem request_roundtrip `{UuidLib} (r : ExecutionRequest.t) (s : Stream.t) :
  typed_request r → validate_transport_request r = Ok () → v4_request r →
  ((MAX_FRAME_SIZE < blen (enc_request r))%N →
    write_request r s = (Err TransportError.FrameTooLarge, s)) ∧
  ((blen (enc_request r) ≤ MAX_FRAME_SIZE)%N → (8 + blen (enc_request r) ≤ Stream.room s)%N →
    ∃ bytes s', write_request r s = (Ok (), s') ∧ Stream.output s' = Stream.output s ++ bytes ∧
      blen bytes = (8 + blen (enc_request r))%N ∧
      ∀ rest o n, read_request (Stream.mk (bytes ++ rest) o n) = (Ok r, Stream.mk rest o n)).
Proof.
  intros Ht Hv Hids. unfold write_request.
  pose proof (proj1 (validate_transport_request_ok r) Hv) as (Hw & Hs & Hq). split.
  - intros Hl. rewrite (write_payload_spec _ _ _ (emits_request r)). by rewrite (proj2 (N.ltb_lt _ _) Hl).
  - intros Hl Hroom.
    assert (blen (frame (enc_request r)) = 8 + blen (enc_request r))%N as Hf
      by (unfold frame; by rewrite blen_app, blen_be).
    exists (frame (enc_request r)). eexists. split; [|split; [|split; [done|]]].
    + apply (write_payload_fits _ _ _ (emits_request r)); [done|lia].
    + done.
    + intros rest o n. unfold read_request, lift, mbind, op_bind.
      rewrite (read_payload_app _ _ r) by (try done; by apply decode_encode_request).
      by rewrite Hv.
Qed.

(** A response a server sends is read back as the same response. *)
Theorem response_roundtrip (r : ExecutionResponse.t) (s : Stream.t) :
  typed_response r →
  ((MAX_FRAME_SIZE < blen (enc_response r))%N →
    write_response r s = (Err TransportError.FrameTooLarge, s)) ∧
  ((blen (enc_response r) ≤ MAX_FRAME_SIZE)%N → (8 + blen (enc_response r) ≤ Stream.room s)%N →
    ∃ bytes s', write_response r s = (Ok (), s') ∧ Stream.output s' = Stream.output s ++ bytes ∧
      ∀ rest o n, read_response (Stream.mk (bytes ++ rest) o n) = (Ok r, Stream.mk rest o n)).
Proof.
  intros Ht. unfold write_response. split.
  - intros Hl. rewrite (write_payload_spec _ _ _ (emits_response r)). by rewrite (proj2 (N.ltb_lt _ _) Hl).
  - intros Hl Hroom. exists (frame (enc_response r)). eexists. split; [|split].
    + apply (write_payload_fits _ _ _ (emits_response r)); [done|].
      unfold frame. rewrite blen_app, blen_be. lia.
    + done.
    + intros rest o n. apply read_payload_app; [done|]. by apply decode_encode_response.
Qed.

(** C28: whatever bytes arrive, a request that [read_request] returns has passed every check: its
    shape and source identity are valid, its identities are canonical version-4 UUIDs, its strings
    are UTF-8, its resources are within their widths and are a valid, non-empty fragment. *)
Theorem read_request_sound `{UuidLib} (s s' : Stream.t) (r : ExecutionRequest.t) :
  read_request s = (Ok r, s') →
  well_formed_request r ∧ valid_source r ∧ typed_request r ∧ v4_request r ∧
  v4_string (Identity.id (ExecutionEndpoint.participant_id (ExecutionRequest.endpoint r))) ∧
  valid_requirement (ExecutionUnit.resources (ExecutionRequest.unit r)).
Proof.
  intros Hr. destruct (yields_read_request s r s' Hr) as [(Ht & Hi & He) Hv].
  by apply validate_transport_request_ok in Hv as (? & ? & ?).
Qed.

(** Reading a response never panics, and reading a request panics only when the received bytes
    hold a lifetime whose seconds and nanoseconds exceed the largest [Duration]. *)
Theorem read_panics_only_on_lifetime `{UuidLib} (s : Stream.t) :
  (read_response s).1 ≠ Panic ∧
  ((read_request s).1 = Panic → overflowing_lifetime (Stream.input s)).
Proof.
  split.
  - intros Hp. by apply (read_payload_panic _ _ _ careful_decode_response) in Hp as (? & ? & ? & _ & ?).
  - intros Hp.
    assert ((read_payload decode_request s).1 = Panic) as Hd.
    { unfold read_request, lift, mbind, op_bind in Hp.
      destruct (read_payload decode_request s) as [[r|e|] s'] eqn:E; simpl in *; [|done..].
      pose proof (validate_transport_request_no_panic r). by destruct (validate_transport_request r). }
    apply (read_payload_panic _ _ _ careful_decode_request) in Hd
      as (h & payload & rest & -> & (pre & secs & nanos & suf & -> & Ho)).
    exists (h ++ pre), secs, nanos, (suf ++ rest). split; [|done]. by rewrite <- !app_assoc.
Qed.

(** C21: frames are bounded. What is sent for a payload is never more than the header and the largest
    frame, and is the whole frame exactly on success; a payload that is too long sends nothing. On
    the other side the announced length is checked before the payload is awaited: a frame that is
    read has exactly the announced length and leaves what follows it, one that announces too much
    is refused right after its header, and otherwise the input ended within a frame. *)
Theorem frames_bounded (payload : list u8) (s : Stream.t) :
  (let '(r, s') := write_frame payload s in
   ∃ sent, Stream.output s' = Stream.output s ++ sent ∧ (blen sent ≤ 8 + MAX_FRAME_SIZE)%N ∧
     (blen sent ≤ Stream.room s)%N ∧
     (r = Ok () ↔ sent = to_be_bytes 8 (blen payload) ++ payload ∧ (blen payload ≤ MAX_FRAME_SIZE)%N) ∧
     ((MAX_FRAME_SIZE < blen payload)%N → sent = [] ∧ r = Err TransportError.FrameTooLarge)) ∧
  match read_frame s with
  | (Ok received, s') =>
    Stream.input s = to_be_bytes 8 (blen received) ++ received ++ Stream.input s' ∧
    (blen received ≤ MAX_FRAME_SIZE)%N
  | (Err TransportError.FrameTooLarge, s') => ∃ n,
    Stream.input s = to_be_bytes 8 n ++ Stream.input s' ∧ (MAX_FRAME_SIZE < n ≤ U64_MAX)%N
  | (Err e, s') => e = TransportError.NetworkFailure ∧ Stream.input s' = [] ∧
    ((blen (Stream.input s) < 8)%N ∨ ∃ n rest,
       Stream.input s = to_be_bytes 8 n ++ rest ∧ (blen rest < n ≤ MAX_FRAME_SIZE)%N)
  | (Panic, _) => False
  end.
Proof. split; [apply write_frame_bounds|apply read_frame_bounds]. Qed.

(** ** Concrete messages *)

(** A request whose lifetime is [u64::MAX] seconds and one more second in nanoseconds. *)
Definition overflow_head : list u8 :=
  [PROTOCOL_VERSION] ++ enc_string "r" ++ [byte 0] ++ enc_string "w" ++ enc_bytes [] ++
  enc_identity (Identity.mk uuid_b Kind.LogicalNode) ++ enc_string "rt" ++ enc_string "1" ++
  enc_identity (Identity.mk uuid_a Kind.Participant) ++
  to_be_bytes 8 (f64_to_bits f64_one) ++ to_be_bytes 8 0 ++ to_be_bytes 8 0 ++ to_be_bytes 8 0 ++
  to_be_bytes 4 0 ++ [byte 1].
Definition overflow_payload : list u8 :=
  overflow_head ++ to_be_bytes 8 U64_MAX ++ to_be_bytes 4 NANOS_PER_SEC ++
  enc_identity (Identity.mk uuid_a Kind.Participant) ++ enc_string "127.0.0.1:9".

(** C40: there is a short frame on which [read_request] panics instead of reporting a malformed
    frame: the lifetime of its resources overflows [Duration::new]. *)
Theorem read_request_overflow_panics :
  let s := Stream.mk (frame overflow_payload) [] 1000 in
  (blen overflow_payload < 256)%N ∧ overflowing_lifetime overflow_payload ∧
  (read_request s).1 = Panic ∧ Stream.output (read_request s).2 = [].
Proof.
  cbv zeta. split_and!; [vm_compute; reflexivity| |vm_compute; reflexivity..].
  exists overflow_head, U64_MAX, NANOS_PER_SEC. eexists. split; [reflexivity|].
  vm_compute. discriminate.
Qed.

Lemma demo_request_typed : typed_request demo_request.
Proof.
  split; [by vm_compute|discriminate|by vm_compute..| | |by vm_compute|by vm_compute].
  - split; [by split_and!|]. intros d [= <-]. done.
  - vm_compute. reflexivity.
Qed.

Lemma demo_request_v4 : v4_request demo_request.
Proof. by split; apply validate_is_err; vm_compute. Qed.

Definition demo_response : ExecutionResponse.t := ExecutionResponse.failed "r" "no".
Definition demo_stream (bs : list u8) : Stream.t := Stream.mk bs [] 1000.

Lemma request_roundtrip_witness :
  ∃ bytes s', write_request demo_request (demo_stream []) = (Ok (), s') ∧ Stream.output s' = bytes ∧
    ∀ rest, (read_request (demo_stream (bytes ++ rest))).1 = Ok demo_request.
Proof.
  destruct (request_roundtrip demo_request (demo_stream []) demo_request_typed) as [_ H].
  - vm_compute. reflexivity.
  - exact demo_request_v4.
  - destruct H as (bytes & s' & H1 & H2 & _ & H3); [vm_compute; discriminate..|].
    exists bytes, s'. split; [exact H1|split; [exact H2|]]. intros rest.
    unfold demo_stream. by rewrite H3.
Defined.

Lemma response_roundtrip_witness :
  ∃ bytes s', write_response demo_response (demo_stream []) = (Ok (), s') ∧ Stream.output s' = bytes ∧
    (read_response (demo_stream bytes)).1 = Ok demo_response.
Proof.
  destruct (response_roundtrip demo_response (demo_stream [])) as [_ H].
  - split; [vm_compute; reflexivity|]. intros e [= <-]. vm_compute. reflexivity.
  - destruct H as (bytes & s' & H1 & H2 & H3); [vm_compute; discriminate..|].
    exists bytes, s'. split; [exact H1|split; [exact H2|]].
    specialize (H3 [] [] 1000%N). rewrite app_nil_r in H3. unfold demo_stream. by rewrite H3.
Defined.

Lemma read_request_sound_witness :
  let s := demo_stream (frame (enc_request demo_request)) in
  match read_request s with
  | (Ok r, _) => well_formed_request r ∧ valid_source r
  | _ => False
  end.
Proof.
  cbv zeta. destruct (read_request _) as [[r|e|] s'] eqn:E; [|vm_compute in E; discriminate..].
  destruct (read_request_sound _ _ _ E) as (H1 & H2 & _). split; [exact H1|exact H2].
Defined.
