(* ===== verification/server.v ===== *)
(** * Serving and calling over TCP ([src/transport.rs])

    One connection from both ends: the server reads a request, checks the caller against the
    certificates it pinned, calls its handler and answers; the client validates, connects, sends
    and checks the answer. A connection is the stream of [codec.v]; what the socket and TLS layers
    report is data of the connection ([Accepted], [Connection]). *)
From S2P Require Import prelude bytes time float identity uuid_demo resource node runtime.
From S2P Require Import messages endpoint transport codec codec_laws.
From stdpp Require Import list.

(** ** Pinned certificates *)

Abbreviation certificate := (list u8) (only parsing).
Abbreviation ClientAllowlist := (gmap string (list (list u8))) (only parsing).

Module AuthorizedClientCertificate.
Record t := mk { participant_id : Identity.t; certificate_der : certificate }.
#[global] Instance eq_dec : EqDecision t.
Proof. solve_decision. Defined.

(** [from_pem], given what [load_certificates] returns for the path. *)
Definition from_pem `{UuidLib} (participant_id : Identity.t)
    (loaded : result TransportError.t (list certificate)) : result TransportError.t t :=
  if bad_identity Kind.Participant participant_id then Err TransportError.InvalidSourceIdentity
  else
    certificates ← loaded;
    certificate ← ok_or (head certificates) TransportError.TlsConfigurationFailure;
    Ok {| participant_id := participant_id; certificate_der := certificate |}.
End AuthorizedClientCertificate.

(** The loop of [build_client_allowlist], with both maps as its state. *)
Fixpoint allow_clients (allowlist : ClientAllowlist) (certificate_owners : gmap (list u8) string)
    (clients : list AuthorizedClientCertificate.t) : result TransportError.t ClientAllowlist :=
  match clients with
  | [] => Ok allowlist
  | client :: rest =>
    let der := AuthorizedClientCertificate.certificate_der client in
    let id := Identity.id (AuthorizedClientCertificate.participant_id client) in
    match certificate_owners !! der with
    | Some owner =>
      if negb (bool_decide (owner = id))
      then Err TransportError.CertificateAssignedToMultipleIdentities
      else Err TransportError.DuplicateAuthorizedClientCertificate
    | None =>
      allow_clients (<[id := default [] (allowlist !! id) ++ [der]]> allowlist)
        (<[der := id]> certificate_owners) rest
    end
  end.

Definition build_client_allowlist (authorized_clients : list AuthorizedClientCertificate.t)
    : result TransportError.t ClientAllowlist :=
  match authorized_clients with
  | [] => Err TransportError.EmptyClientAllowlist
  | _ => allow_clients ∅ ∅ authorized_clients
  end.

(** ** The text of an error *)

(** [format!("{error:?}")] as the derived [Debug] writes it, given how [str] is written. *)
Section debug.
Context (debug_str : string → string).
Open Scope string_scope.

Definition debug_runtime_error (e : RuntimeError.t) : string :=
  match e with
  | RuntimeError.EmptyWorkloadId => "EmptyWorkloadId"
  | RuntimeError.InvalidParticipantIdentity => "InvalidParticipantIdentity"
  | RuntimeError.InvalidNodeIdentity => "InvalidNodeIdentity"
  | RuntimeError.InvalidResources => "InvalidResources"
  | RuntimeError.Unsupported => "Unsupported"
  | RuntimeError.ExecutionFailed => "ExecutionFailed"
  end.

Definition debug_registry_error (e : RuntimeRegistryError.t) : string :=
  match e with
  | RuntimeRegistryError.EmptyName => "EmptyName"
  | RuntimeRegistryError.EmptyVersion => "EmptyVersion"
  | RuntimeRegistryError.DuplicateRuntime => "DuplicateRuntime"
  | RuntimeRegistryError.RuntimeNotFound => "RuntimeNotFound"
  end.

Definition debug_execution_error (e : EndpointExecutionError.t) : string :=
  match e with
  | EndpointExecutionError.Rejected => "Rejected"
  | EndpointExecutionError.ExecutionFailed => "ExecutionFailed"
  | EndpointExecutionError.Runtime e => "Runtime(" +:+ debug_runtime_error e +:+ ")"
  | EndpointExecutionError.RuntimeRegistry e =>
    "RuntimeRegistry(" +:+ debug_registry_error e +:+ ")"
  end.

Definition debug_endpoint_error (e : EndpointError.t) : string :=
  match e with
  | EndpointError.EmptyRequestId => "EmptyRequestId"
  | EndpointError.EmptyWorkloadId => "EmptyWorkloadId"
  | EndpointError.InvalidParticipantIdentity => "InvalidParticipantIdentity"
  | EndpointError.InvalidNodeIdentity => "InvalidNodeIdentity"
  | EndpointError.InvalidRuntimeSpec => "InvalidRuntimeSpec"
  | EndpointError.ParticipantMismatch => "ParticipantMismatch"
  | EndpointError.ExecutionFailed request_id error =>
    "ExecutionFailed { request_id: " +:+ debug_str request_id +:+ ", error: " +:+
    debug_execution_error error +:+ " }"
  end.
End debug.

(** ** The server *)

(** An accepted socket: whether its timeouts could be set, and what the TLS handshake reports when
    the server asks for one, the leaf certificate of the peer or an error. *)
Module Accepted.
Record t := mk {
  timeouts_set : bool;
  handshake : result TransportError.t (option certificate);
}.
End Accepted.

Section server.
Context {W : Type} `{UuidLib} (debug_str : string → string).

Definition on_stream {E A} (m : op Stream.t E A) : op (Stream.t * W) E A := λ '(s, w),
  let '(r, s') := m s in (r, (s', w)).
Definition on_world {E A} (m : op W E A) : op (Stream.t * W) E A := λ '(s, w),
  let '(r, w') := m w in (r, (s, w')).

(** The check of the caller's identity against the certificate of the connection. *)
Definition authorize (request : ExecutionRequest.t)
    (authorization : option (ClientAllowlist * option certificate)) : result TransportError.t () :=
  match authorization with
  | None => Ok ()
  | Some (allowed_clients, peer_certificate) =>
    source ← ok_or (ExecutionRequest.source_participant_id request)
               TransportError.MissingSourceIdentity;
    authorized_certificates ← ok_or (allowed_clients !! Identity.id source)
                                TransportError.UnauthorizedClient;
    peer_certificate ← ok_or peer_certificate TransportError.UnauthorizedClient;
    if negb (existsb (λ certificate, bool_decide (certificate = peer_certificate))
               authorized_certificates)
    then Err TransportError.UnauthorizedClient
    else Ok ()
  end.

(** [match endpoint.handle_request(request)], with an error turned into a failed response. *)
Definition respond (endpoint : ExecutionHandler.t W) (request : ExecutionRequest.t)
    : op W TransportError.t ExecutionResponse.t := λ w,
  match ExecutionHandler.handle_request endpoint request w with
  | (Ok response, w') => (Ok response, w')
  | (Err error, w') =>
    (Ok (ExecutionResponse.failed (ExecutionRequest.request_id request)
           (debug_endpoint_error debug_str error)), w')
  | (Panic, w') => (Panic, w')
  end.

Definition handle_request_stream (endpoint : ExecutionHandler.t W)
    (authorization : option (ClientAllowlist * option certificate))
    : op (Stream.t * W) TransportError.t () :=
  request ← on_stream read_request;
  _ ← lift (authorize request authorization);
  response ← on_world (respond endpoint request);
  on_stream (write_response response).

Definition handle_connection (socket : Accepted.t) (endpoint : ExecutionHandler.t W)
    (tls_config : bool) (authorized_clients : option ClientAllowlist)
    : op (Stream.t * W) TransportError.t () :=
  if negb (Accepted.timeouts_set socket) then fail TransportError.NetworkFailure
  else if tls_config then
    peer_certificate ← lift (Accepted.handshake socket);
    handle_request_stream endpoint ((λ allowed, (allowed, peer_certificate)) <$> authorized_clients)
  else handle_request_stream endpoint None.
End server.

(** ** The client *)

(** A connected socket: whether its timeouts could be set, how much it takes, and the bytes the
    peer answers when it has received what was sent. *)
Module Connection.
Record t (W : Type) := mk {
  timeouts_set : bool;
  room : N;
  peer : list u8 → W → list u8 * W;
}.
Arguments mk {W}.
Arguments timeouts_set {W}.
Arguments room {W}.
Arguments peer {W}.
End Connection.

(** The network a client sees: name resolution and connection attempts. *)
Class Network (Addr W : Type) := {
  to_socket_addrs : string → option (list Addr);
  connect_timeout : Addr → option (Connection.t W);
}.

Section client.
Context {Addr W : Type} `{Network Addr W} `{UuidLib}.

Fixpoint connect_first (addresses : list Addr) : result TransportError.t (Connection.t W) :=
  match addresses with
  | [] => Err TransportError.NetworkFailure
  | address :: rest =>
    match connect_timeout address with
    | Some stream => Ok stream
    | None => connect_first rest
    end
  end.

Definition connect_with_timeout (locator : string) : result TransportError.t (Connection.t W) :=
  addresses ← ok_or (to_socket_addrs locator) TransportError.NetworkFailure;
  connect_first addresses.

Definition configure_stream (stream : Connection.t W) : result TransportError.t () :=
  if Connection.timeouts_set stream then Ok () else Err TransportError.NetworkFailure.

(** Sending the request and reading the answer. Whatever was sent, the peer acts on it. *)
Definition exchange (stream : Connection.t W) (request : ExecutionRequest.t)
    : op W TransportError.t ExecutionResponse.t := λ w,
  let '(sent, s) := write_request request (Stream.mk [] [] (Connection.room stream)) in
  let '(reply, w') := Connection.peer stream (Stream.output s) w in
  match sent with
  | Ok () => ((read_response (Stream.mk reply [] 0)).1, w')
  | Err e => (Err e, w')
  | Panic => (Panic, w')
  end.

Definition check_response (request : ExecutionRequest.t) (response : ExecutionResponse.t)
    : result TransportError.t ExecutionResponse.t :=
  if negb (bool_decide (ExecutionResponse.request_id response = ExecutionRequest.request_id request))
  then Err TransportError.ResponseIdMismatch
  else Ok response.
End client.

Module TcpTransport.
Inductive t := mk.

#[global] Instance transport {Addr W} `{Network Addr W} `{UuidLib} : Transport t W := λ _ request,
  _ ← lift (validate_transport_request request);
  stream ← lift (connect_with_timeout
                   (ExecutionEndpoint.locator (ExecutionRequest.endpoint request)));
  _ ← lift (configure_stream stream);
  response ← exchange stream request;
  lift (check_response request response).
End TcpTransport.

(** ** The allowlist *)

Abbreviation client_id c :=
  (Identity.id (AuthorizedClientCertificate.participant_id c)) (only parsing).
Abbreviation client_der := AuthorizedClientCertificate.certificate_der (only parsing).

(** The certificate [der] is pinned to the participant [id] by one of the clients. *)
Definition pinned (clients : list AuthorizedClientCertificate.t) (id : string) (der : list u8) : Prop :=
  ∃ c, c ∈ clients ∧ client_id c = id ∧ client_der c = der.

(** The state of the loop after the clients of [seen]. *)
Record allowing (seen : list AuthorizedClientCertificate.t) (allowlist : ClientAllowlist)
    (owners : gmap (list u8) string) : Prop := {
  al_list : ∀ id der, der ∈ default [] (allowlist !! id) ↔ pinned seen id der;
  al_owner : ∀ id der, owners !! der = Some id ↔ pinned seen id der;
  al_distinct : NoDup (client_der <$> seen);
}.

Lemma pinned_snoc seen c id der :
  pinned (seen ++ [c]) id der ↔ pinned seen id der ∨ (client_id c = id ∧ client_der c = der).
Proof. unfold pinned. set_solver. Qed.

Lemma allowing_step seen m owners c :
  allowing seen m owners → owners !! client_der c = None →
  allowing (seen ++ [c]) (<[client_id c := default [] (m !! client_id c) ++ [client_der c]]> m)
    (<[client_der c := client_id c]> owners).
Proof.
  intros [Hl Ho Hd] Hn. split.
  - intros id der. rewrite pinned_snoc, <- Hl. destruct (decide (client_id c = id)) as [<-|Hne].
    + rewrite lookup_insert_eq. simpl. set_solver.
    + rewrite lookup_insert_ne by done. naive_solver.
  - intros id der. rewrite pinned_snoc, <- Ho. destruct (decide (client_der c = der)) as [<-|Hne].
    + rewrite lookup_insert_eq, Hn. naive_solver.
    + rewrite lookup_insert_ne by done. naive_solver.
  - rewrite fmap_app. apply NoDup_app. split_and!; [done| |apply NoDup_singleton].
    intros der Hin Hc. apply list_elem_of_singleton in Hc as ->.
    apply list_elem_of_fmap in Hin as (c' & Hder & Hc').
    assert (owners !! client_der c = Some (client_id c')) as Hs by (apply Ho; by exists c').
    congruence.
Qed.

(** Which error a repeated certificate leads to. *)
Definition repeated (e : TransportError.t) (seen : list AuthorizedClientCertificate.t)
    (c : AuthorizedClientCertificate.t) : Prop :=
  ∃ owner, pinned seen owner (client_der c) ∧
    e = if decide (owner = client_id c) then TransportError.DuplicateAuthorizedClientCertificate
        else TransportError.CertificateAssignedToMultipleIdentities.

Lemma allow_clients_spec l seen m owners :
  allowing seen m owners →
  (∃ m' owners', allow_clients m owners l = Ok m' ∧ allowing (seen ++ l) m' owners') ∨
  (∃ e l1 c l2, allow_clients m owners l = Err e ∧ l = l1 ++ c :: l2 ∧
     NoDup (client_der <$> seen ++ l1) ∧ repeated e (seen ++ l1) c).
Proof.
  revert seen m owners. induction l as [|c l IH]; intros seen m owners Ha; cbn [allow_clients].
  { left. rewrite app_nil_r. eauto. }
  destruct (owners !! client_der c) as [owner|] eqn:Hc.
  - right. apply (al_owner _ _ _ Ha) in Hc.
    exists (if decide (owner = client_id c) then TransportError.DuplicateAuthorizedClientCertificate
            else TransportError.CertificateAssignedToMultipleIdentities), [], c, l.
    rewrite app_nil_r. split_and!; [by case_bool_decide; case_decide|done|apply Ha|by exists owner].
  - destruct (IH _ _ _ (allowing_step _ _ _ _ Ha Hc))
      as [(m' & owners' & Hm & Hal)|(e & l1 & c' & l2 & He & -> & Hd & Hr)].
    + left. exists m', owners'. by rewrite <- app_assoc in Hal.
    + right. exists e, (c :: l1), c', l2. by rewrite <- app_assoc in Hd, Hr.
Qed.

Lemma allowing_nil : allowing [] ∅ ∅.
Proof.
  split; [| |constructor]; intros id der; rewrite lookup_empty; unfold pinned; simpl; set_solver.
Qed.

Lemma repeated_distinct e seen c l :
  repeated e seen c → ¬ NoDup (client_der <$> seen ++ c :: l).
Proof.
  intros (owner & (c' & Hin & _ & Hder) & _). rewrite fmap_app, fmap_cons.
  intros (_ & Hd & _)%NoDup_app. apply (Hd (client_der c)); [|by left].
  rewrite <- Hder. by apply list_elem_of_fmap_2.
Qed.

Lemma build_client_allowlist_cases clients :
  clients ≠ [] →
  (∃ m owners, build_client_allowlist clients = Ok m ∧ allowing clients m owners) ∨
  (∃ e l1 c l2, build_client_allowlist clients = Err e ∧ clients = l1 ++ c :: l2 ∧
     NoDup (client_der <$> l1) ∧ repeated e l1 c).
Proof.
  destruct clients as [|c l]; [done|]. intros _. apply (allow_clients_spec (c :: l) [] ∅ ∅ allowing_nil).
Qed.

Lemma allowlist_pinned clients allowed id der :
  build_client_allowlist clients = Ok allowed →
  der ∈ default [] (allowed !! id) ↔ pinned clients id der.
Proof.
  intros Hb. destruct clients as [|c l]; [done|].
  destruct (build_client_allowlist_cases (c :: l)) as [(m & o & Hm & Hl)|(e & ? & ? & ? & He & _)];
    [done| |congruence]. rewrite Hb in Hm. injection Hm as ->. apply Hl.
Qed.

(** ** Authorization *)

Lemma authorize_ok r allowed peer :
  authorize r (Some (allowed, peer)) = Ok () ↔
  ∃ src cert, ExecutionRequest.source_participant_id r = Some src ∧ peer = Some cert ∧
    cert ∈ default [] (allowed !! Identity.id src).
Proof.
  unfold authorize. split.
  - intros Ha. apply result_bind_ok in Ha as (src & Hs%ok_or_ok & Ha).
    apply result_bind_ok in Ha as (l & Hl%ok_or_ok & Ha).
    apply result_bind_ok in Ha as (cert & Hc%ok_or_ok & Ha).
    case_match eqn:He; [done|]. apply negb_false_iff, existsb_exists in He as (x & Hx & Heq).
    bools. subst x. exists src, cert. rewrite Hl. split_and!; [done..|]. by apply list_elem_of_In.
  - intros (src & cert & -> & -> & Hin). simpl. destruct (allowed !! Identity.id src) as [l|];
      simpl in *; [|by apply elem_of_nil in Hin].
    assert (existsb (λ c, bool_decide (c = cert)) l = true) as ->; [|done].
    apply existsb_exists. exists cert. split; [by apply list_elem_of_In|by apply bool_decide_eq_true].
Qed.

Lemma authorize_no_panic r a : authorize r a ≠ Panic.
Proof.
  unfold authorize. destruct a as [[allowed peer]|]; [|done]. intros Ha. invert_result. by case_match.
Qed.

(** ** One request on the server *)

Section handle.
Context {W : Type} `{UuidLib} (debug_str : string → string) (endpoint : ExecutionHandler.t W).
Implicit Types (s : Stream.t) (w : W).

(** A request that is read and authorized reaches the handler; any other leaves the world alone
    and sends nothing. *)
Lemma handle_request_stream_cases authorization s w :
  (∃ r s1, read_request s = (Ok r, s1) ∧ authorize r authorization = Ok () ∧
    handle_request_stream debug_str endpoint authorization (s, w) =
      match respond debug_str endpoint r w with
      | (Ok response, w') =>
        let '(res, s2) := write_response response s1 in (res, (s2, w'))
      | (Err e, w') => (Err e, (s1, w'))
      | (Panic, w') => (Panic, (s1, w'))
      end) ∨
  ∃ res s1, handle_request_stream debug_str endpoint authorization (s, w) = (res, (s1, w)) ∧
    res ≠ Ok () ∧ Stream.output s1 = Stream.output s ∧
    ∀ r s2, read_request s = (Ok r, s2) → authorize r authorization ≠ Ok ().
Proof.
  unfold handle_request_stream, on_stream, on_world, lift, mbind, op_bind.
  assert (Stream.output (read_request s).2 = Stream.output s) as Hout by apply read_request_output.
  destruct (read_request s) as [[r|e|] s1] eqn:Hr; simpl in Hout.
  - destruct (authorize r authorization) as [[]|e|] eqn:Ha.
    + left. exists r, s1. split_and!; [done..|]. by destruct (respond debug_str endpoint r w) as [[]].
    + right. exists (Err e), s1. split_and!; [done..|]. intros ?? [= <- <-]. by rewrite Ha.
    + by apply authorize_no_panic in Ha.
  - right. by exists (Err e), s1.
  - right. by exists Panic, s1.
Qed.
End handle.

(** ** One call over TCP *)

Section call.
Context {Addr W : Type} `{Network Addr W} `{UuidLib} (debug_str : string → string).
Context (endpoint : ExecutionHandler.t W).

(** A server behind a connection: what it answers to the bytes it received, when its side of the
    connection takes [room] bytes. *)
Definition serve_peer (socket : Accepted.t) (tls_config : bool)
    (authorized_clients : option ClientAllowlist) (room : N) (received : list u8) (w : W)
    : list u8 * W :=
  let '(_, (s, w')) :=
    handle_connection debug_str socket endpoint tls_config authorized_clients
      (Stream.mk received [] room, w) in
  (Stream.output s, w').

Lemma write_response_fits r s :
  (blen (enc_response r) ≤ MAX_FRAME_SIZE)%N → (8 + blen (enc_response r) ≤ Stream.room s)%N →
  ∃ s', write_response r s = (Ok (), s') ∧ Stream.output s' = Stream.output s ++ frame (enc_response r).
Proof.
  intros Hl Hr. eexists. split; [apply (write_payload_fits _ _ _ (emits_response r)); [done|]|done].
  unfold frame. rewrite blen_app, blen_be. lia.
Qed.

Lemma read_request_frame r room :
  typed_request r → validate_transport_request r = Ok () → v4_request r →
  (blen (enc_request r) ≤ MAX_FRAME_SIZE)%N →
  read_request (Stream.mk (frame (enc_request r)) [] room) = (Ok r, Stream.mk [] [] room).
Proof.
  intros Ht Hv Hids Hl. pose proof (proj1 (validate_transport_request_ok r) Hv) as (Hw & Hs & Hq).
  unfold read_request, lift, mbind, op_bind.
  rewrite <- (app_nil_r (frame (enc_request r))).
  rewrite (read_payload_app _ _ r) by (try done; by apply decode_encode_request). by rewrite Hv.
Qed.

(** What the server checks the caller against. *)
Definition authorization_of (socket : Accepted.t) (tls_config : bool)
    (authorized_clients : option ClientAllowlist)
    : result TransportError.t (option (ClientAllowlist * option certificate)) :=
  if tls_config then
    (λ peer, (λ allowed, (allowed, peer)) <$> authorized_clients) <$> Accepted.handshake socket
  else Ok None.

(** A request that fits is answered when its caller is authorized, and dropped otherwise. *)
Lemma serve_peer_request socket tls clients authorization r w room :
  typed_request r → validate_transport_request r = Ok () → v4_request r →
  (blen (enc_request r) ≤ MAX_FRAME_SIZE)%N → Accepted.timeouts_set socket = true →
  authorization_of socket tls clients = Ok authorization →
  serve_peer socket tls clients room (frame (enc_request r)) w =
    match authorize r authorization with
    | Ok () =>
      match respond debug_str endpoint r w with
      | (Ok response, w') =>
        (Stream.output (write_response response (Stream.mk [] [] room)).2, w')
      | (_, w') => ([], w')
      end
    | _ => ([], w)
    end.
Proof.
  intros Ht Hv Hids Hl Hset Hauth. pose proof (read_request_frame r room Ht Hv Hids Hl) as Hr.
  assert (serve_peer socket tls clients room (frame (enc_request r)) w =
    let '(_, (s, w')) := handle_request_stream debug_str endpoint authorization
      (Stream.mk (frame (enc_request r)) [] room, w) in (Stream.output s, w')) as ->.
  { unfold serve_peer, handle_connection, authorization_of, lift, mbind, op_bind in *. rewrite Hset.
    destruct tls; simpl in *; [|by simplify_eq].
    destruct (Accepted.handshake socket); simpl in *; by simplify_eq. }
  destruct (handle_request_stream_cases debug_str endpoint authorization
    (Stream.mk (frame (enc_request r)) [] room) w)
    as [(r' & s1 & Hr' & Ha & ->)|(res & s1 & -> & _ & Hout & Hn)].
  - rewrite Hr in Hr'. simplify_eq. rewrite Ha.
    destruct (respond debug_str endpoint r' w) as [[response|e|] w']; [|done..].
    by destruct (write_response response _) as [res s].
  - specialize (Hn _ _ Hr). rewrite Hout. by destruct (authorize r authorization) as [[]| |].
Qed.

Lemma read_response_frame r :
  typed_response r → (blen (enc_response r) ≤ MAX_FRAME_SIZE)%N →
  (read_response (Stream.mk (frame (enc_response r)) [] 0)).1 = Ok r.
Proof.
  intros Ht Hl. rewrite <- (app_nil_r (frame (enc_response r))).
  unfold read_response. rewrite (read_payload_app _ _ r); [done..|by apply decode_encode_response].
Qed.

(** Nothing comes back from a connection that was dropped. *)
Lemma read_response_nothing : (read_response (Stream.mk [] [] 0)).1 = Err TransportError.NetworkFailure.
Proof. done. Qed.

(** A request that fits is sent whole, and the peer acts on it. *)
Lemma exchange_fits (stream : Connection.t W) r w :
  validate_transport_request r = Ok () → (blen (enc_request r) ≤ MAX_FRAME_SIZE)%N →
  (8 + blen (enc_request r) ≤ Connection.room stream)%N →
  exchange stream r w =
    let '(reply, w') := Connection.peer stream (frame (enc_request r)) w in
    ((read_response (Stream.mk reply [] 0)).1, w').
Proof.
  intros Hv Hl Hr. unfold exchange, write_request.
  rewrite (write_payload_fits _ _ (Stream.mk [] [] (Connection.room stream)) (emits_request r)) by
    (try done; unfold frame; rewrite blen_app, blen_be; simpl; lia).
  done.
Qed.

(** The handler's answer crosses the connection when it fits. *)
Lemma read_written_response response room :
  typed_response response → (blen (enc_response response) ≤ MAX_FRAME_SIZE)%N →
  (8 + blen (enc_response response) ≤ room)%N →
  (read_response (Stream.mk (Stream.output (write_response response (Stream.mk [] [] room)).2) [] 0)).1
    = Ok response.
Proof.
  intros Ht Hl Hroom. destruct (write_response_fits response (Stream.mk [] [] room)) as (s & -> & Hs);
    [done..|].
  cbn [snd]. rewrite Hs. cbn [Stream.output app]. by apply read_response_frame.
Qed.

(** What an authorized exchange makes of what the handler does. *)
Lemma exchange_served (stream : Connection.t W) socket tls clients authorization r w room :
  typed_request r → validate_transport_request r = Ok () → v4_request r →
  (blen (enc_request r) ≤ MAX_FRAME_SIZE)%N →
  (8 + blen (enc_request r) ≤ Connection.room stream)%N → Accepted.timeouts_set socket = true →
  authorization_of socket tls clients = Ok authorization → authorize r authorization = Ok () →
  Connection.peer stream = serve_peer socket tls clients room →
  match respond debug_str endpoint r w with
  | (Ok response, w') =>
    typed_response response → (blen (enc_response response) ≤ MAX_FRAME_SIZE)%N →
    (8 + blen (enc_response response) ≤ room)%N → exchange stream r w = (Ok response, w')
  | (_, w') => exchange stream r w = (Err TransportError.NetworkFailure, w')
  end.
Proof.
  intros Ht Hv Hids Hl Hr Hset Hauth Ha Hpeer.
  rewrite exchange_fits, Hpeer, (serve_peer_request _ _ _ authorization), Ha by done.
  destruct (respond debug_str endpoint r w) as [[response|e|] w']; [|done..].
  intros Htr Hlr Hroom. by rewrite read_written_response.
Qed.

(** The client's side of a call that is valid and fits. *)
Lemma tcp_dispatch_connected conn r w :
  validate_transport_request r = Ok () →
  connect_with_timeout (ExecutionEndpoint.locator (ExecutionRequest.endpoint r)) = Ok conn →
  Connection.timeouts_set conn = true →
  dispatch TcpTransport.mk r w =
    (exchange conn r ≫= λ response, lift (check_response r response)) w.
Proof.
  intros Hv Hc Ht. unfold dispatch, TcpTransport.transport, configure_stream, lift, mbind, op_bind.
  by rewrite Hv, Hc, Ht.
Qed.
End call.

(** ** Properties *)

(** C29: an allowlist pins every given certificate to its participant and no other certificate to
    anyone, and it is built exactly when there are clients and no certificate occurs twice; a
    repeated certificate is reported as a duplicate when it has the same owner and as ambiguous
    otherwise. *)
Theorem client_allowlist_spec (clients : list AuthorizedClientCertificate.t) :
  match build_client_allowlist clients with
  | Ok allowed =>
    clients ≠ [] ∧ NoDup (client_der <$> clients) ∧
    (∀ id der, der ∈ default [] (allowed !! id) ↔ pinned clients id der) ∧
    (∀ id id' der, der ∈ default [] (allowed !! id) → der ∈ default [] (allowed !! id') → id = id')
  | Err TransportError.EmptyClientAllowlist => clients = []
  | Err e =>
    ¬ NoDup (client_der <$> clients) ∧
    ∃ l1 c l2, clients = l1 ++ c :: l2 ∧ NoDup (client_der <$> l1) ∧ repeated e l1 c
  | Panic => False
  end.
Proof.
  destruct (decide (clients = [])) as [->|Hne]; [done|].
  destruct (build_client_allowlist_cases clients Hne)
    as [(m & owners & -> & [Hl Ho Hd])|(e & l1 & c' & l2 & -> & Heq & Hd & Hr)].
  - split_and!; [done..|]. intros id id' der. rewrite !Hl, <- !Ho. congruence.
  - assert (¬ NoDup (client_der <$> clients) ∧ ∃ l1 c' l2, clients = l1 ++ c' :: l2 ∧
      NoDup (client_der <$> l1) ∧ repeated e l1 c') as Hgoal.
    { split; [rewrite Heq; by eapply (repeated_distinct e)|]. by exists l1, c', l2. }
    pose proof Hr as (owner & _ & He). case_decide; by rewrite He in *.
Qed.

(** C5: on a server that demands TLS and pins client certificates, the handler acts only for a
    caller that named a valid participant and presented a certificate pinned to that very
    participant; whatever else arrives leaves the world as it was and is not answered. *)
Theorem mtls_only_authorized_callers {W} `{UuidLib} debug_str (endpoint : ExecutionHandler.t W)
    (clients : list AuthorizedClientCertificate.t) allowed socket s s' (w w' : W) res :
  build_client_allowlist clients = Ok allowed →
  handle_connection debug_str socket endpoint true (Some allowed) (s, w) = (res, (s', w')) →
  (w' = w ∧ res ≠ Ok () ∧ Stream.output s' = Stream.output s) ∨
  ∃ r s1 src cert, read_request s = (Ok r, s1) ∧
    ExecutionRequest.source_participant_id r = Some src ∧ valid_identity Kind.Participant src ∧
    Accepted.handshake socket = Ok (Some cert) ∧ pinned clients (Identity.id src) cert ∧
    w' = (ExecutionHandler.handle_request endpoint r w).2.
Proof.
  intros Hb. unfold handle_connection, lift, fail, mbind, op_bind.
  destruct (Accepted.timeouts_set socket); cbn [negb]; [|intros [= <- <- <-]; by left].
  destruct (Accepted.handshake socket) as [peer|e|]; [|intros [= <- <- <-]; by left..].
  destruct (handle_request_stream_cases debug_str endpoint (Some (allowed, peer)) s w)
    as [(r & s1 & Hr & Ha & Heq)|(res' & s1 & Heq & Hres & Hout & _)]; intros Hh;
    cbn [option_fmap option_map fmap] in Hh; rewrite Heq in Hh; [right|left; by simplify_eq].
  apply authorize_ok in Ha as (src & cert & Hsrc & -> & Hin).
  apply (allowlist_pinned _ _ _ _ Hb) in Hin.
  exists r, s1, src, cert. split_and!; try done.
  - destruct (yields_read_request s r s1 Hr) as [_ Hv].
    apply validate_transport_request_ok in Hv as (_ & Hv & _). by apply Hv.
  - unfold respond in Hh. destruct (ExecutionHandler.handle_request endpoint r w) as [[response|e|] w1];
      [destruct (write_response _ s1)|destruct (write_response _ s1)|]; by simplify_eq.
Qed.

(** C15: a call over TCP is a local call. For a valid request that fits a frame, dispatching it to a
    server has the effect of its handler on the world and returns the handler's response when its
    identifier is the request's, a failed response with the text of the handler's error, or a
    network failure when the handler panics. *)
Theorem tcp_call_is_local_call {Addr W} `{Network Addr W} `{UuidLib} debug_str
    (endpoint : ExecutionHandler.t W) (conn : Connection.t W) (r : ExecutionRequest.t) (w : W) room :
  typed_request r → validate_transport_request r = Ok () → v4_request r →
  (blen (enc_request r) ≤ MAX_FRAME_SIZE)%N → (8 + blen (enc_request r) ≤ Connection.room conn)%N →
  connect_with_timeout (ExecutionEndpoint.locator (ExecutionRequest.endpoint r)) = Ok conn →
  Connection.timeouts_set conn = true →
  Connection.peer conn =
    serve_peer debug_str endpoint (Accepted.mk true (Ok None)) false None room →
  match respond debug_str endpoint r w with
  | (Ok response, w') =>
    typed_response response → (blen (enc_response response) ≤ MAX_FRAME_SIZE)%N →
    (8 + blen (enc_response response) ≤ room)%N →
    dispatch TcpTransport.mk r w = (check_response r response, w')
  | (_, w') => dispatch TcpTransport.mk r w = (Err TransportError.NetworkFailure, w')
  end.
Proof.
  intros Ht Hv Hids Hl Hroom Hc Hset Hpeer. rewrite (tcp_dispatch_connected conn r w) by done.
  pose proof (exchange_served debug_str endpoint conn (Accepted.mk true (Ok None)) false None None r w
    room Ht Hv Hids Hl Hroom eq_refl eq_refl eq_refl Hpeer) as H1.
  unfold lift, mbind, op_bind.
  destruct (respond debug_str endpoint r w) as [[response|e|] w']; [|by rewrite H1..].
  intros Htr Hlr Hroom'. by rewrite H1.
Qed.

(** ** Concrete calls *)

Definition demo_handler : ExecutionHandler.t (list string) :=
  ParticipantExecutionEndpoint.handler (ParticipantExecutionEndpoint.mk
    (Identity.mk uuid_a Kind.Participant)
    (RegistryRuntimeAdapter.mk (register_all [(RuntimeSpec.mk "rt" "1", demo_runtime)]))).

(** The requests of [endpoint.v], sent by the participant [uuid_b]. *)
Definition demo_request_from (source : string) : ExecutionRequest.t :=
  ExecutionRequest.mk "r" (Some (Identity.mk source Kind.Participant))
    (ExecutionRequest.workload demo_request) (ExecutionRequest.node_id demo_request)
    (ExecutionRequest.runtime demo_request) (ExecutionRequest.unit demo_request)
    (ExecutionRequest.endpoint demo_request).

Definition demo_certificate : list u8 := [Ascii.ascii_of_N 48; Ascii.ascii_of_N 130].
Definition demo_clients : list AuthorizedClientCertificate.t :=
  [AuthorizedClientCertificate.mk (Identity.mk uuid_b Kind.Participant) demo_certificate].

(** A connection with the demo certificate, on which [source] calls. *)
Definition demo_mtls (source : string) : result TransportError.t () * (Stream.t * list string) :=
  handle_connection (λ s, s) (Accepted.mk true (Ok (Some demo_certificate))) demo_handler true
    (to_option (build_client_allowlist demo_clients))
    (demo_stream (frame (enc_request (demo_request_from source))), []).

Example demo_mtls_authorized : (demo_mtls uuid_b).1 = Ok () ∧ (demo_mtls uuid_b).2.2 = ["w"].
Proof. vm_compute. by split. Qed.
Example demo_mtls_unauthorized :
  (demo_mtls uuid_a).1 = Err TransportError.UnauthorizedClient ∧ (demo_mtls uuid_a).2.2 = [].
Proof. vm_compute. by split. Qed.

Lemma mtls_only_authorized_callers_witness :
  match demo_mtls uuid_b with
  | (_, (_, w')) => w' = [] ∨ pinned demo_clients uuid_b demo_certificate
  end.
Proof.
  destruct (demo_mtls uuid_b) as [res [s' w']] eqn:E.
  assert (build_client_allowlist demo_clients = Ok {[uuid_b := [demo_certificate]]}) as Hb
    by (vm_compute; reflexivity).
  unfold demo_mtls in E. rewrite Hb in E.
  destruct (mtls_only_authorized_callers (λ s, s) demo_handler demo_clients _
    (Accepted.mk true (Ok (Some demo_certificate))) _ s' _ w' res Hb E)
    as [(Hw & _)|(r & s1 & src & cert & Hr & Hsrc & _ & Hh & Hp & _)]; [left; exact Hw|right].
  vm_compute in Hr. injection Hr as <- <-. injection Hsrc as <-. injection Hh as <-. exact Hp.
Defined.

(** A network on which every locator leads to the demo server. *)
Definition demo_connection : Connection.t (list string) :=
  Connection.mk true 1000
    (serve_peer (λ s, s) demo_handler (Accepted.mk true (Ok None)) false None 1000).
#[local] Instance demo_network : Network () (list string) := {
  to_socket_addrs _ := Some [()];
  connect_timeout _ := Some demo_connection;
}.

Lemma tcp_call_is_local_call_witness :
  dispatch TcpTransport.mk demo_request [] = (Ok (ExecutionResponse.completed "r"), ["w"]).
Proof.
  assert (connect_with_timeout (ExecutionEndpoint.locator (ExecutionRequest.endpoint demo_request)) =
    Ok demo_connection) as Hc by reflexivity.
  pose proof (tcp_call_is_local_call (λ s, s) demo_handler demo_connection demo_request [] 1000
    demo_request_typed) as H.
  assert (respond (λ s, s) demo_handler demo_request [] =
    (Ok (ExecutionResponse.completed "r"), ["w"])) as Hr by (vm_compute; reflexivity).
  rewrite Hr in H. rewrite H.
  - reflexivity.
  - vm_compute. reflexivity.
  - exact demo_request_v4.
  - vm_compute. discriminate.
  - vm_compute. discriminate.
  - exact Hc.
  - reflexivity.
  - reflexivity.
  - split; [vm_compute; reflexivity|discriminate].
  - vm_compute. discriminate.
  - vm_compute. discriminate.
Defined.
