(* ===== verification/execution.v ===== *)
(** * Execution plans and their dispatch ([src/execution.rs])

    A plan lists the units of a logical node. A backend executes it; the dispatcher sends one
    request per unit over a transport, each from a scoped thread, and joins the threads in order.
    A dispatch is one atomic step on the world [W]; a [Schedule] is the order in which the threads
    of a plan take theirs. [scoped.v] has threads of many steps, and shows when interleaving them
    gives nothing else. *)
From S2P Require Import prelude bytes float identity uuid_demo resource node fabric participant.
From S2P Require Import registry scheduler runtime messages endpoint transport.
From stdpp Require Import list.

Module ExecutionError.
Inductive t :=
| EmptyWorkloadId
| InvalidNodeIdentity
| InvalidParticipantIdentity
| EmptyPlan
| InvalidResources
| InvalidRuntimeSpec
| WorkloadMismatch
| BackendRejected.
#[global] Instance eq_dec : EqDecision t.
Proof. solve_decision. Defined.
End ExecutionError.

Module ExecutionReceipt.
Record t := mk { workload_id : string; node_id : Identity.t; dispatched_units : nat }.
#[global] Instance eq_dec : EqDecision t.
Proof. solve_decision. Defined.
End ExecutionReceipt.

Module DispatchReceipt.
Record t := mk { workload_id : string; node_id : Identity.t; dispatched_units : nat }.
#[global] Instance eq_dec : EqDecision t.
Proof. solve_decision. Defined.

Definition from_responses (workload_id : string) (node_id : Identity.t) (responses : nat) : t :=
  {| workload_id := workload_id; node_id := node_id; dispatched_units := responses |}.
End DispatchReceipt.

Module ExecutionPlan.
Record t := mk {
  workload_id : string;
  node_id : Identity.t;
  runtime : RuntimeSpec.t;
  units : list ExecutionUnit.t;
}.
#[global] Instance eq_dec : EqDecision t.
Proof. solve_decision. Defined.

Section from_node.
Context `{UuidLib}.

(** The loop over the allocations of the node. *)
Fixpoint push_units (units : list ExecutionUnit.t) (allocations : list Allocation.t)
    : result ExecutionError.t (list ExecutionUnit.t) :=
  match allocations with
  | [] => Ok units
  | allocation :: rest =>
    participant_id ← Identity.parse (Allocation.participant_id allocation) Kind.Participant
                       .map_err (λ _, ExecutionError.InvalidParticipantIdentity);
    _ ← ResourceFragment.validate_requirement (Allocation.resources allocation)
          .map_err (λ _, ExecutionError.InvalidResources);
    push_units (units ++ [{| ExecutionUnit.participant_id := participant_id;
                             ExecutionUnit.resources := Allocation.resources allocation |}]) rest
  end.

Definition from_node (node : LogicalNode.t) (workload : WorkItem) : result ExecutionError.t t :=
  if is_empty_str (Workload.id workload) then Err ExecutionError.EmptyWorkloadId
  else
    node_id ← Identity.parse (LogicalNode.id node) Kind.LogicalNode
                .map_err (λ _, ExecutionError.InvalidNodeIdentity);
    let allocations := CompositeResource.allocations (LogicalNode.resources node) in
    match allocations with
    | [] => Err ExecutionError.EmptyPlan
    | _ =>
      units ← push_units [] allocations;
      let runtime := LogicalNode.runtime node in
      if is_empty_str (RuntimeSpec.name runtime) || is_empty_str (RuntimeSpec.version runtime)
      then Err ExecutionError.InvalidRuntimeSpec
      else Ok {| workload_id := Workload.id workload; node_id := node_id;
                 runtime := runtime; units := units |}
    end.
End from_node.

Definition total_resources (self : t) : ResourceFragment.t :=
  foldl (λ total unit, ResourceFragment.add total (ExecutionUnit.resources unit))
    ResourceFragment.default (units self).
End ExecutionPlan.

(** The [ExecutionBackend] trait. *)
Class ExecutionBackend (B W : Type) :=
  backend_execute : B → ExecutionPlan.t → WorkItem → op W ExecutionError.t ExecutionReceipt.t.

(** [ExecutionPlan::execute]. *)
Definition plan_execute {B W} `{ExecutionBackend B W} (self : ExecutionPlan.t) (backend : B)
    (workload : WorkItem) : op W ExecutionError.t ExecutionReceipt.t :=
  backend_execute backend self workload.

Module NoopBackend.
Inductive t := mk.

#[global] Instance backend {W} : ExecutionBackend t W := λ _ plan workload,
  if negb (bool_decide (ExecutionPlan.workload_id plan = Workload.id workload))
  then fail ExecutionError.WorkloadMismatch
  else
    match ExecutionPlan.units plan with
    | [] => fail ExecutionError.EmptyPlan
    | _ => mret {| ExecutionReceipt.workload_id := Workload.id workload;
                   ExecutionReceipt.node_id := ExecutionPlan.node_id plan;
                   ExecutionReceipt.dispatched_units := length (ExecutionPlan.units plan) |}
    end.
End NoopBackend.

(** ** Scoped threads *)

(** The order in which [n] threads run; a complete one runs every thread once. *)
Class Schedule := thread_order : nat → list nat.
Class CompleteSchedule (S : Schedule) : Prop :=
  thread_order_perm : ∀ n, thread_order n ≡ₚ seq 0 n.

#[export] Instance in_order : Schedule | 100 := seq 0.
#[export] Instance in_order_complete : CompleteSchedule in_order.
Proof. intros n. reflexivity. Qed.

Section threads.
Context {W E A : Type}.

Definition is_panic (r : result E A) : bool := match r with Panic => true | _ => false end.

(** The threads run to completion in the given order; thread [i] leaves its outcome at [i]. *)
Fixpoint run_threads (tasks : list (op W E A)) (order : list nat) (outcomes : gmap nat (result E A))
    (w : W) : gmap nat (result E A) * W :=
  match order with
  | [] => (outcomes, w)
  | i :: order =>
    match tasks !! i with
    | None => run_threads tasks order outcomes w
    | Some task =>
      let '(r, w) := task w in run_threads tasks order (<[i := r]> outcomes) w
    end
  end.

(** The outcomes of all threads, by thread. *)
Definition scope (tasks : list (op W E A)) (order : list nat) (w : W) : list (result E A) * W :=
  let '(outcomes, w) := run_threads tasks order ∅ w in
  (imap (λ i _, default Panic (outcomes !! i)) tasks, w).

(** [handle.join()] in order, stopping at the first thread that panicked. [thread::scope] panics
    when a thread it had to wait for, because its handle was not joined, has panicked. *)
Fixpoint join_threads (outcomes : list (result E A)) : result ExecutionError.t (list (result E A)) :=
  match outcomes with
  | [] => Ok []
  | r :: rest =>
    if is_panic r then
      if existsb is_panic rest then Panic else Err ExecutionError.BackendRejected
    else
      rs ← join_threads rest;
      Ok (r :: rs)
  end.
End threads.

Module ExecutionDispatcher.
Record t (T : Type) := mk {
  source_participant_id : option Identity.t;
  transport : T;
  endpoints : list ExecutionEndpoint.t;
}.
Arguments mk {T}.
Arguments source_participant_id {T}.
Arguments transport {T}.
Arguments endpoints {T}.

Definition new {T} (transport : T) (endpoints : list ExecutionEndpoint.t) : t T :=
  {| source_participant_id := None; transport := transport; endpoints := endpoints |}.

Definition with_identity {T} (source_participant_id : Identity.t) (transport : T)
    (endpoints : list ExecutionEndpoint.t) : t T :=
  {| source_participant_id := Some source_participant_id; transport := transport;
     endpoints := endpoints |}.

Section dispatch.
Context {T W : Type} `{Transport T W} `{Schedule}.

(** The endpoint that serves a unit, and the request for it. *)
Definition find_endpoint (self : t T) (unit : ExecutionUnit.t) : option ExecutionEndpoint.t :=
  snd <$> list_find (λ endpoint,
    ExecutionEndpoint.participant_id endpoint = ExecutionUnit.participant_id unit) (endpoints self).

Definition request_for (self : t T) (plan : ExecutionPlan.t) (workload : WorkItem)
    (unit : ExecutionUnit.t) : result ExecutionError.t ExecutionRequest.t :=
  endpoint ← ok_or (find_endpoint self unit) ExecutionError.BackendRejected;
  Ok {|
    ExecutionRequest.request_id :=
      (Workload.id workload +:+ ":" +:+ Identity.id (ExecutionUnit.participant_id unit))%string;
    ExecutionRequest.source_participant_id := source_participant_id self;
    ExecutionRequest.workload := workload;
    ExecutionRequest.node_id := ExecutionPlan.node_id plan;
    ExecutionRequest.runtime := ExecutionPlan.runtime plan;
    ExecutionRequest.unit := unit;
    ExecutionRequest.endpoint := endpoint |}.

(** The loop over requests and responses. *)
Fixpoint count_dispatched (dispatched : nat) (requests : list ExecutionRequest.t)
    (responses : list (result TransportError.t ExecutionResponse.t)) : result ExecutionError.t nat :=
  match requests, responses with
  | request :: requests, response :: responses =>
    response ← response .map_err (λ _, ExecutionError.BackendRejected);
    if negb (bool_decide (ExecutionResponse.request_id response = ExecutionRequest.request_id request))
    then Err ExecutionError.BackendRejected
    else
      match ExecutionResponse.status response with
      | ExecutionStatus.Dispatched | ExecutionStatus.Running | ExecutionStatus.Completed =>
        count_dispatched (S dispatched) requests responses
      | ExecutionStatus.Pending | ExecutionStatus.Failed | ExecutionStatus.Cancelled =>
        Err ExecutionError.BackendRejected
      end
  | _, _ => Ok dispatched
  end.

Definition dispatch (self : t T) (plan : ExecutionPlan.t) (workload : WorkItem)
    : op W ExecutionError.t DispatchReceipt.t :=
  if negb (bool_decide (ExecutionPlan.workload_id plan = Workload.id workload))
  then fail ExecutionError.WorkloadMismatch
  else
    match ExecutionPlan.units plan with
    | [] => fail ExecutionError.EmptyPlan
    | _ =>
      requests ← lift (mapM (request_for self plan workload) (ExecutionPlan.units plan));
      responses ← (λ w,
        let '(outcomes, w) :=
          scope (messages.dispatch (transport self) <$> requests) (thread_order (length requests)) w in
        (join_threads outcomes, w));
      dispatched ← lift (count_dispatched 0 requests responses);
      mret (DispatchReceipt.from_responses (Workload.id workload) (ExecutionPlan.node_id plan)
              dispatched)
    end.

#[global] Instance backend : ExecutionBackend (t T) W := λ self plan workload,
  receipt ← dispatch self plan workload;
  mret {| ExecutionReceipt.workload_id := DispatchReceipt.workload_id receipt;
          ExecutionReceipt.node_id := DispatchReceipt.node_id receipt;
          ExecutionReceipt.dispatched_units := DispatchReceipt.dispatched_units receipt |}.
End dispatch.
End ExecutionDispatcher.

(** ** Plans *)

Section plans.
Context `{UuidLib}.
Import ExecutionPlan.

Definition unit_of (a : Allocation.t) : ExecutionUnit.t :=
  ExecutionUnit.mk (Identity.mk (Allocation.participant_id a) Kind.Participant)
    (Allocation.resources a).

(** An allocation that can become a unit. *)
Definition executable (a : Allocation.t) : Prop :=
  v4_string (Allocation.participant_id a) ∧ valid_requirement (Allocation.resources a).

Lemma push_units_ok l us us' :
  push_units us l = Ok us' ↔ Forall executable l ∧ us' = us ++ (unit_of <$> l).
Proof.
  revert us. induction l as [|a l IH]; intros us; cbn [push_units].
  { rewrite app_nil_r. split; [intros [= <-]; by split|by intros [_ ->]]. }
  rewrite Forall_cons, fmap_cons, cons_middle, app_assoc. unfold executable at 1. split.
  - intros Hp. apply result_bind_ok in Hp as (i & [-> Hv]%map_err_ok%parse_ok & Hp).
    apply result_bind_ok in Hp as ([] & Hr%map_err_ok%requirement_ok & Hp).
    apply IH in Hp as [? ->]. done.
  - intros ([[Hv Hr] Hl] & ->).
    rewrite (proj2 (parse_ok _ Kind.Participant _) (conj eq_refl Hv)). simpl.
    rewrite (proj2 (requirement_ok _) Hr). simpl. by apply IH.
Qed.

Lemma push_units_no_panic l us : push_units us l ≠ Panic.
Proof.
  revert us. induction l as [|a l IH]; intros us Hp; [done|]. cbn [push_units] in Hp. invert_result.
  - by eapply parse_no_panic.
  - by eapply requirement_no_panic.
  - by eapply IH.
Qed.

Definition plannable (node : LogicalNode.t) : Prop :=
  v4_string (LogicalNode.id node) ∧
  CompositeResource.allocations (LogicalNode.resources node) ≠ [] ∧
  Forall executable (CompositeResource.allocations (LogicalNode.resources node)) ∧
  valid_runtime (LogicalNode.runtime node).

Lemma runtime_guard r :
  is_empty_str (RuntimeSpec.name r) || is_empty_str (RuntimeSpec.version r) = false ↔ valid_runtime r.
Proof. unfold valid_runtime. by rewrite orb_false_iff, !is_empty_str_false. Qed.

Lemma plan_from_node_ok node k p :
  from_node node k = Ok p ↔
  Workload.id k ≠ EmptyString ∧ plannable node ∧
  p = ExecutionPlan.mk (Workload.id k) (Identity.mk (LogicalNode.id node) Kind.LogicalNode)
        (LogicalNode.runtime node)
        (unit_of <$> CompositeResource.allocations (LogicalNode.resources node)).
Proof.
  unfold from_node, plannable. rewrite <- is_empty_str_false, <- runtime_guard.
  destruct (is_empty_str (Workload.id k)); [naive_solver|]. rewrite result_bind_ok.
  setoid_rewrite map_err_ok. setoid_rewrite parse_ok.
  destruct (CompositeResource.allocations _) as [|a l]; [naive_solver|].
  setoid_rewrite result_bind_ok. setoid_rewrite push_units_ok.
  destruct (_ || _); naive_solver.
Qed.

Lemma plan_from_node_no_panic node k : from_node node k ≠ Panic.
Proof.
  unfold from_node. intros Hp. case_match; [done|]. invert_result; [by eapply parse_no_panic|].
  case_match; [done|]. invert_result; [by eapply push_units_no_panic|]. by case_match.
Qed.

Lemma total_resources_sum l w n r :
  total_resources (ExecutionPlan.mk w n r (unit_of <$> l)) = sum_of l.
Proof.
  unfold total_resources, sum_from. cbn [units]. generalize ResourceFragment.default.
  induction l as [|a l IH]; intros q; [done|]. apply IH.
Qed.
End plans.

(** ** Threads *)

Section thread_lemmas.
Context {W E A : Type}.
Implicit Types (tasks : list (op W E A)) (outcomes : list (result E A)).

(** The world after the threads of [order]. *)
Definition run_order tasks (order : list nat) (w : W) : W :=
  foldl (λ w i, match tasks !! i with Some task => (task w).2 | None => w end) w order.

Lemma run_threads_world tasks order m w : (run_threads tasks order m w).2 = run_order tasks order w.
Proof.
  revert m w. induction order as [|i order IH]; intros m w; [done|]. cbn [run_threads run_order foldl].
  destruct (tasks !! i) as [task|]; [|apply IH]. destruct (task w) as [r w']. apply IH.
Qed.

(** A thread that runs leaves the outcome it had in some world; one that does not, none. *)
Lemma run_threads_outcome tasks order m w i task :
  tasks !! i = Some task → NoDup order →
  (i ∈ order → ∃ w1, (run_threads tasks order m w).1 !! i = Some (task w1).1) ∧
  (i ∉ order → (run_threads tasks order m w).1 !! i = m !! i).
Proof.
  intros Hi. revert m w. induction order as [|j order IH]; intros m w Hnd; [set_solver|].
  apply NoDup_cons in Hnd as [Hj Hnd]. cbn [run_threads].
  destruct (decide (j = i)) as [->|Hne].
  - rewrite Hi. destruct (task w) as [r w'] eqn:Ht. destruct (IH (<[i:=r]> m) w' Hnd) as [_ H].
    rewrite H, lookup_insert_eq by done. split; [|set_solver]. intros _. exists w. by rewrite Ht.
  - destruct (tasks !! j) as [task'|].
    + destruct (task' w) as [r w']. destruct (IH (<[j:=r]> m) w' Hnd) as [H1 H2].
      split; [set_solver|]. intros Hn. rewrite H2 by set_solver. by rewrite lookup_insert_ne.
    + destruct (IH m w Hnd) as [H1 H2]. split; set_solver.
Qed.

Lemma scope_spec `{CompleteSchedule} tasks w :
  let '(outcomes, w') := scope tasks (thread_order (length tasks)) w in
  w' = run_order tasks (thread_order (length tasks)) w ∧
  length outcomes = length tasks ∧
  ∀ i (task : op W E A), tasks !! i = Some task → ∃ w1, outcomes !! i = Some (task w1).1.
Proof.
  unfold scope. pose proof (run_threads_world tasks (thread_order (length tasks)) ∅ w) as Hw.
  pose proof (λ i task Hi, run_threads_outcome tasks (thread_order (length tasks)) ∅ w i task Hi) as Ho.
  destruct (run_threads _ _ ∅ w) as [m w'] eqn:Hrun. simpl in *.
  split; [done|]. split; [by rewrite length_imap|]. intros i task Hi.
  destruct (Ho i task Hi) as [[w1 Hm] _].
  - rewrite thread_order_perm. apply NoDup_seq.
  - rewrite thread_order_perm. apply elem_of_seq. apply lookup_lt_Some in Hi. split; [lia|exact Hi].
  - exists w1. rewrite list_lookup_imap, Hi. simpl. by rewrite Hm.
Qed.

Definition panics outcomes : nat := length (List.filter is_panic outcomes).

Lemma panics_none outcomes : panics outcomes = 0 ↔ existsb is_panic outcomes = false.
Proof.
  unfold panics. induction outcomes as [|r l IH]; [done|]. simpl. by destruct (is_panic r).
Qed.

Lemma join_threads_spec outcomes :
  join_threads outcomes =
    match panics outcomes with
    | 0 => Ok outcomes
    | 1 => Err ExecutionError.BackendRejected
    | _ => Panic
    end.
Proof.
  induction outcomes as [|r l IH]; [done|]. cbn [join_threads]. unfold panics in *.
  cbn [List.filter]. destruct (is_panic r); cbn [length].
  - destruct (existsb is_panic l) eqn:He.
    + destruct (length (List.filter is_panic l)) eqn:Hl; [|done].
      apply panics_none in Hl. congruence.
    + apply panics_none in He. unfold panics in He. by rewrite He.
  - rewrite IH. by destruct (length (List.filter is_panic l)) as [|[]].
Qed.
End thread_lemmas.

(** ** Dispatching *)

Section dispatch.
Context {T W : Type} `{Transport T W} `{Schedule}.
Import ExecutionDispatcher.

(** The responses a dispatch counts. *)
Definition accepted (request : ExecutionRequest.t)
    (outcome : result TransportError.t ExecutionResponse.t) : Prop :=
  ∃ response, outcome = Ok response ∧
    ExecutionResponse.request_id response = ExecutionRequest.request_id request ∧
    (ExecutionResponse.status response = ExecutionStatus.Dispatched ∨
     ExecutionResponse.status response = ExecutionStatus.Running ∨
     ExecutionResponse.status response = ExecutionStatus.Completed).

Lemma count_dispatched_spec d requests outcomes :
  length outcomes = length requests → panics outcomes = 0 →
  (Forall2 accepted requests outcomes ∧
   count_dispatched d requests outcomes = Ok (d + length requests)) ∨
  (¬ Forall2 accepted requests outcomes ∧
   count_dispatched d requests outcomes = Err ExecutionError.BackendRejected).
Proof.
  revert d outcomes. induction requests as [|q requests IH]; intros d [|o outcomes] Hlen Hp; try done.
  { left. rewrite Nat.add_0_r. by split. }
  unfold panics in Hp. simpl in Hlen, Hp. injection Hlen as Hlen. cbn [count_dispatched].
  rewrite Forall2_cons. destruct o as [response|e|]; [|right; split; [|done]; by intros [(? & ? & _) _]|done].
  cbn [map_err mbind result_bind]. case_bool_decide as Hid; cbn [negb];
    [|right; split; [|done]; intros [(? & [= <-] & ? & _) _]; done].
  destruct (IH (S d) outcomes Hlen Hp) as [[Hall Hc]|[Hall Hc]];
    destruct (ExecutionResponse.status response) eqn:Hs; rewrite ?Hc;
    first [ left; split; [split; [exists response; auto|done]|cbn [length]; f_equal; lia]
          | right; split; [|done]; intros [(? & [= <-] & _ & Hst) ?]; destruct Hst as [|[|]];
            congruence ].
Qed.

(** The requests of a plan, when every unit has an endpoint. *)
Definition requests_of (self : ExecutionDispatcher.t T) plan workload : result ExecutionError.t (list ExecutionRequest.t) :=
  mapM (request_for self plan workload) (ExecutionPlan.units plan).

Lemma requests_of_cases (self : ExecutionDispatcher.t T) plan workload :
  (∃ requests, requests_of self plan workload = Ok requests ∧
    Forall2 (λ unit request, request_for self plan workload unit = Ok request)
      (ExecutionPlan.units plan) requests) ∨
  (requests_of self plan workload = Err ExecutionError.BackendRejected ∧
   ∃ unit, unit ∈ ExecutionPlan.units plan ∧ find_endpoint self unit = None).
Proof.
  unfold requests_of. destruct (mapM _ _) as [requests|e|] eqn:E.
  - left. exists requests. split; [done|]. by apply mapM_result_ok.
  - right. apply mapM_result_err in E as (l1 & k1 & x & l2 & -> & _ & Hx). unfold request_for in Hx.
    destruct (find_endpoint self x) eqn:Hf; [done|]. simpl in Hx. simplify_eq.
    split; [done|]. exists x. split; [set_solver|done].
  - exfalso. revert E. apply mapM_result_no_panic. intros x _. unfold request_for.
    by destruct (find_endpoint self x).
Qed.
End dispatch.

(** A participant the registry offers has a valid identifier. *)
Lemma registry_offer_v4 `{UuidLib} (w : Registry.t) o :
  Registry.wf w → o ∈ offers w → v4_string (ResourceOffer.participant_id o).
Proof.
  intros Hw Ho. apply elem_of_offers in Ho as (arc & p & Hk & Hst & _); [|done].
  destruct Hw as [Hs Hp]. apply Hp in Hk as (q & Hq & <-).
  by destruct (Hs _ _ Hq) as [[_ ?] _].
Qed.

Section dispatch_lemmas.
Context {T W : Type} `{Transport T W} `{CompleteSchedule}.
Implicit Types self : ExecutionDispatcher.t T.

(** The threads of a dispatch: each outcome is that of its request in some world. *)
Lemma dispatch_threads self requests w :
  let tasks := dispatch (ExecutionDispatcher.transport self) <$> requests in
  ∃ outcomes,
    scope tasks (thread_order (length requests)) w =
      (outcomes, run_order tasks (thread_order (length requests)) w) ∧
    Forall2 (λ request outcome, ∃ w1,
      outcome = (dispatch (ExecutionDispatcher.transport self) request w1).1) requests outcomes.
Proof.
  cbv zeta. pose proof (scope_spec (dispatch (ExecutionDispatcher.transport self) <$> requests) w) as Hs.
  rewrite length_fmap in Hs. destruct (scope _ _ w) as [outcomes w']. destruct Hs as (-> & Hlen & Ho).
  exists outcomes. split; [done|]. apply Forall2_same_length_lookup_2; [by symmetry|].
  intros i request outcome Hi Hout.
  destruct (Ho i (dispatch (ExecutionDispatcher.transport self) request)) as [w1 Hw1].
  - by rewrite list_lookup_fmap, Hi.
  - exists w1. congruence.
Qed.

(** A dispatch whose units all have endpoints, in terms of the outcomes of its threads. *)
Lemma dispatch_requests self p k w requests :
  ExecutionPlan.workload_id p = Workload.id k → ExecutionPlan.units p ≠ [] →
  requests_of self p k = Ok requests →
  ∃ outcomes,
    Forall2 (λ request outcome, ∃ w1,
      outcome = (dispatch (ExecutionDispatcher.transport self) request w1).1) requests outcomes ∧
    ExecutionDispatcher.dispatch self p k w =
      ((responses ← join_threads outcomes;
        dispatched ← ExecutionDispatcher.count_dispatched 0 requests responses;
        Ok (DispatchReceipt.from_responses (Workload.id k) (ExecutionPlan.node_id p) dispatched)),
       run_order (dispatch (ExecutionDispatcher.transport self) <$> requests)
         (thread_order (length requests)) w).
Proof.
  intros Hid Hne Hr. destruct (dispatch_threads self requests w) as (outcomes & Hs & Ho).
  exists outcomes. split; [done|].
  unfold requests_of in Hr. unfold ExecutionDispatcher.dispatch, lift, fail, mbind, op_bind.
  rewrite bool_decide_true by done. cbn [negb]. rewrite Hr.
  destruct (ExecutionPlan.units p); [done|]. rewrite Hs.
  destruct (join_threads outcomes) as [rs|e|]; cbn; [|done..].
  by destruct (ExecutionDispatcher.count_dispatched 0 requests rs).
Qed.

(** The result of joining and counting. *)
Lemma join_and_count requests outcomes (wid : string) (nid : Identity.t) :
  length outcomes = length requests →
  let res := responses ← join_threads outcomes;
    dispatched ← ExecutionDispatcher.count_dispatched 0 requests responses;
    Ok (DispatchReceipt.from_responses wid nid dispatched) in
  (∀ receipt, res = Ok receipt ↔ Forall2 accepted requests outcomes ∧
    receipt = DispatchReceipt.mk wid nid (length requests)) ∧
  (res = Panic ↔ 2 ≤ panics outcomes).
Proof.
  intros Hlen res. unfold res. rewrite join_threads_spec.
  assert (Forall2 accepted requests outcomes → panics outcomes = 0) as Hacc.
  { induction 1 as [|q o l k (r & -> & _) _ IH]; [done|]. simpl in Hlen. unfold panics. simpl.
    apply IH. lia. }
  destruct (panics outcomes) as [|[|n]] eqn:Hp; simpl.
  - destruct (count_dispatched_spec 0 requests outcomes Hlen Hp) as [[Ha ->]|[Ha ->]]; simpl.
    + split; [|split; [done|lia]]. intros receipt. split; [by intros [= <-]|by intros [_ ->]].
    + split; [|split; [done|lia]]. intros receipt. split; [done|by intros [? _]].
  - split; [|split; [done|lia]]. intros receipt. split; [done|]. intros [Ha%Hacc _]. lia.
  - split; [|split; [lia|done]]. intros receipt. split; [done|]. intros [Ha%Hacc _]. lia.
Qed.
End dispatch_lemmas.

(** ** Properties *)

(** A node becomes an execution plan exactly when the workload and the runtime are named, its
    identifier and those of its participants are canonical version-4 UUIDs, and it has allocations,
    all of them valid and non-empty. The plan has one unit per allocation in their order, its total
    is what the allocations compose to, and making it never panics. *)
Theorem plan_from_node_spec `{UuidLib} (node : LogicalNode.t) (k : WorkItem) :
  ExecutionPlan.from_node node k ≠ Panic ∧
  ∀ p, ExecutionPlan.from_node node k = Ok p ↔
    Workload.id k ≠ EmptyString ∧ plannable node ∧
    p = ExecutionPlan.mk (Workload.id k) (Identity.mk (LogicalNode.id node) Kind.LogicalNode)
          (LogicalNode.runtime node)
          (unit_of <$> CompositeResource.allocations (LogicalNode.resources node)) ∧
    (∀ r, CompositeResource.compose (CompositeResource.allocations (LogicalNode.resources node)) = Ok r →
      ExecutionPlan.total_resources p = CompositeResource.capacity r).
Proof.
  split; [apply plan_from_node_no_panic|]. intros p. rewrite plan_from_node_ok. split.
  - intros (Hk & Hp & ->). split_and!; try done.
    intros r (_ & _ & _ & ->)%compose_ok. by rewrite total_resources_sum.
  - by intros (? & ? & ? & _).
Qed.

(** What the scheduler plans over the participant registry can be executed: given a runtime,
    the node has an execution plan for any named workload, whose units are active participants of
    the registry and whose integer quantities add up to exactly what was required. *)
Theorem scheduled_node_executes `{UuidLaws} (w : Registry.t) (q : ResourceFragment.t) n node n'
    (rt : RuntimeSpec.t) (k : WorkItem) :
  Registry.wf w → ResourceFragment.wf q → plan w q n = (Ok node, n') → valid_runtime rt →
  Workload.id k ≠ EmptyString →
  ∃ p, ExecutionPlan.from_node (LogicalNode.set_runtime rt node) k = Ok p ∧
    (∀ fld max, (fld, max) ∈ integer_fields → fld (ExecutionPlan.total_resources p) = fld q) ∧
    Forall (λ u, ∃ o, o ∈ offers w ∧
      ResourceOffer.participant_id o = Identity.id (ExecutionUnit.participant_id u)) (ExecutionPlan.units p).
Proof.
  intros Hw Hq (_ & Hid & _ & Hc & _ & Hal & Hf & _)%plan_ok_facts Hrt Hk.
  apply compose_ok in Hc as Hc'. destruct Hc' as (Hne & Hv & _ & Hcap).
  eexists. split; [apply plan_from_node_ok; split; [done|]; split; [|done]|]; simpl.
  - unfold plannable. simpl. rewrite Hid. split_and!; try done; [apply v4_string_new|].
    rewrite Forall_forall in *. intros a Ha. destruct (Hal a Ha) as (o & Ho & Hpid & _).
    split; [rewrite Hpid; by eapply registry_offer_v4|]. by apply Hv.
  - split.
    + intros fld max Hfld. rewrite total_resources_sum. rewrite Hcap in Hf. by eapply Hf.
    + rewrite Forall_fmap. eapply Forall_impl; [exact Hal|]. intros a (o & Ho & Hpid & _). by exists o.
Qed.

(** C12: how a dispatch ends. Nothing is sent when the workload is not the plan's, when the plan has
    no units or when a unit has no endpoint. Otherwise one request per unit is sent, the world
    becomes what the threads make of it in their order, and the dispatch succeeds, counting every
    unit, exactly when each request was answered under its own identifier with an accepting
    status; when two or more threads panic, the caller panics too. *)
Theorem dispatch_outcome {T W} `{Transport T W} `{CompleteSchedule} (self : ExecutionDispatcher.t T)
    (p : ExecutionPlan.t) (k : WorkItem) (w : W) :
  let res := ExecutionDispatcher.dispatch self p k w in
  (ExecutionPlan.workload_id p ≠ Workload.id k → res = (Err ExecutionError.WorkloadMismatch, w)) ∧
  (ExecutionPlan.workload_id p = Workload.id k → ExecutionPlan.units p = [] →
    res = (Err ExecutionError.EmptyPlan, w)) ∧
  (ExecutionPlan.workload_id p = Workload.id k → ExecutionPlan.units p ≠ [] →
    (res = (Err ExecutionError.BackendRejected, w) ∧
     ∃ unit, unit ∈ ExecutionPlan.units p ∧ ExecutionDispatcher.find_endpoint self unit = None) ∨
    ∃ requests outcomes,
      Forall2 (λ unit request, ExecutionDispatcher.request_for self p k unit = Ok request)
        (ExecutionPlan.units p) requests ∧
      Forall2 (λ request outcome, ∃ w1,
        outcome = (dispatch (ExecutionDispatcher.transport self) request w1).1) requests outcomes ∧
      res.2 = run_order (dispatch (ExecutionDispatcher.transport self) <$> requests)
                (thread_order (length requests)) w ∧
      (∀ receipt, res.1 = Ok receipt ↔ Forall2 accepted requests outcomes ∧
        receipt = DispatchReceipt.mk (Workload.id k) (ExecutionPlan.node_id p)
                    (length (ExecutionPlan.units p))) ∧
      (res.1 = Panic ↔ 2 ≤ panics outcomes)).
Proof.
  intros res. unfold res. split_and!.
  - intros Hid. unfold ExecutionDispatcher.dispatch. by rewrite bool_decide_false.
  - intros Hid Hnil. unfold ExecutionDispatcher.dispatch. by rewrite bool_decide_true, Hnil.
  - intros Hid Hne. destruct (requests_of_cases self p k) as [(requests & Hr & Hf)|[He Hunit]].
    + right. destruct (dispatch_requests self p k w requests Hid Hne Hr) as (outcomes & Ho & ->).
      exists requests, outcomes. cbn [fst snd].
      assert (length (ExecutionPlan.units p) = length requests) as -> by (by eapply Forall2_length).
      destruct (join_and_count requests outcomes (Workload.id k) (ExecutionPlan.node_id p))
        as [Hok Hpanic]; [by symmetry; eapply Forall2_length|].
      by split_and!.
    + left. split; [|done]. unfold ExecutionDispatcher.dispatch, lift, mbind, op_bind.
      rewrite bool_decide_true by done. cbn [negb]. unfold requests_of in He. rewrite He.
      by destruct (ExecutionPlan.units p).
Qed.

(** ** Concrete plans and dispatches *)

(** More memory than one participant of the demo registry has. *)
Definition demo_large : ResourceFragment.t := fragment f64_zero 5000 0 0 0 (Some 900%N).
Definition demo_workload : WorkItem := Workload.mk "w" [].

Lemma scheduled_node_executes_witness :
  match plan demo_registry demo_large 0 with
  | (Ok node, _) =>
    ∃ p, ExecutionPlan.from_node (LogicalNode.set_runtime (RuntimeSpec.mk "rt" "1") node)
           demo_workload = Ok p ∧
      ResourceFragment.mem (ExecutionPlan.total_resources p) = 5000%N
  | _ => False
  end.
Proof.
  destruct (plan demo_registry demo_large 0) as [[node|e|] n'] eqn:E; [|vm_compute in E; discriminate..].
  destruct (scheduled_node_executes demo_registry demo_large 0 node n' (RuntimeSpec.mk "rt" "1")
    demo_workload) as (p & Hp & Hf & _).
  - apply run_registry_wf, registry_new_wf.
  - by apply wf_bound_dec.
  - exact E.
  - by split.
  - discriminate.
  - exists p. split; [exact Hp|]. apply (Hf ResourceFragment.mem U64_MAX). by left.
Defined.

Definition demo_plan : ExecutionPlan.t := {|
  ExecutionPlan.workload_id := "w";
  ExecutionPlan.node_id := Identity.mk uuid_b Kind.LogicalNode;
  ExecutionPlan.runtime := RuntimeSpec.mk "rt" "1";
  ExecutionPlan.units := [
    ExecutionUnit.mk (Identity.mk uuid_a Kind.Participant) demo_resources;
    ExecutionUnit.mk (Identity.mk uuid_b Kind.Participant) demo_resources];
|}.

Definition demo_dispatcher : ExecutionDispatcher.t LoopbackTransport.t :=
  ExecutionDispatcher.new LoopbackTransport.mk [
    ExecutionEndpoint.mk (Identity.mk uuid_b Kind.Participant) "b:1";
    ExecutionEndpoint.mk (Identity.mk uuid_a Kind.Participant) "a:1"].

Lemma dispatch_outcome_witness :
  ExecutionDispatcher.dispatch demo_dispatcher demo_plan demo_workload () =
    (Ok (DispatchReceipt.mk "w" (Identity.mk uuid_b Kind.LogicalNode) 2), ()) ∧
  ExecutionDispatcher.dispatch demo_dispatcher demo_plan (Workload.mk "x" []) () =
    (Err ExecutionError.WorkloadMismatch, ()).
Proof.
  split; [vm_compute; reflexivity|].
  apply (dispatch_outcome demo_dispatcher demo_plan (Workload.mk "x" []) ()). discriminate.
Defined.
