(* ===== verification/scoped.v ===== *)
(** * Scoped threads, step by step ([ExecutionDispatcher::dispatch] of [src/execution.rs])

    [execution.v] runs the threads of a dispatch one after the other, each in one step. Here a
    thread takes as many steps as it likes, perhaps forever, and may have to wait for others;
    [std::thread::scope] is a transition system whose events are a spawn, a step of a thread, and a
    join. Threads of many steps whose requests take effect in one of them, the other steps being
    independent of what other threads do, dispatch as [execution.v] does in some order; and the
    opener of a scope takes few steps of its own and waits for nothing but a thread that has not
    finished. *)
From S2P Require Import prelude bytes float identity uuid_demo resource node fabric participant.
From S2P Require Import registry scheduler runtime messages endpoint transport execution.
From stdpp Require Import list relations.

(** Threads of states [L]: what a thread has returned, and the next step of one that has not
    returned, which may have to wait in a world ([None]). *)
Class Thread (L R : Type) := result_of : L → option R.
Class Advance (L W : Type) := advance : L → W → option (L * W).
#[global] Arguments result_of {L R _} l : simpl never, rename.
#[global] Arguments advance {L W _} l w : simpl never, rename.

Definition move {L W R} `{Thread L R, Advance L W} (l : L) (w : W) : option (L * W) :=
  match result_of l with Some _ => None | None => advance l w end.
#[global] Arguments move {L W R _ _} l w : rename.

Module Scope.
(** The thread that opened the scope: it spawns the others, collects their handles, joins them in
    order, and on leaving the scope after a failed join waits for the rest. *)
Inductive main (L E A : Type) :=
| Spawning (pending : list L)
| Joining (joined : list (result E A))
| Leaving (failed : nat)
| Returned (r : result ExecutionError.t (list (result E A))).
Arguments Spawning {L E A} pending.
Arguments Joining {L E A} joined.
Arguments Leaving {L E A} failed.
Arguments Returned {L E A} r.

Record t (L W E A : Type) := mk {
  opener : main L E A;
  threads : list L;
  world : W;
}.
Arguments mk {L W E A}.
Arguments opener {L W E A}.
Arguments threads {L W E A}.
Arguments world {L W E A}.

Inductive event := Main | Run (i : nat).

#[global] Instance event_eq_dec : EqDecision event.
Proof. solve_decision. Defined.

Section scope.
Context {L W E A : Type} `{Thread L (result E A), Advance L W}.
Implicit Types (s : t L W E A) (l : L) (ths : list L).

Definition start ths (w : W) : t L W E A := mk (Spawning ths) [] w.

(** The next step of the opener, when it does not have to wait. *)
Definition main_step (m : main L E A) ths : option (main L E A * list L) :=
  match m with
  | Spawning [] => Some (Joining [], ths)
  | Spawning (l :: pending) => Some (Spawning pending, ths ++ [l])
  | Joining joined =>
    match ths !! length joined with
    | None => Some (Returned (Ok joined), ths)
    | Some l =>
      r ← result_of l;
      Some (if is_panic r then Leaving (length joined) else Joining (joined ++ [r]), ths)
    end
  | Leaving failed =>
    outcomes ← mapM result_of ths;
    Some (Returned (if existsb is_panic (drop (S failed) outcomes) then Panic
                    else Err ExecutionError.BackendRejected), ths)
  | Returned _ => None
  end.

Definition step (e : event) s : option (t L W E A) :=
  match e with
  | Main => '(m, ths) ← main_step (opener s) (threads s); Some (mk m ths (world s))
  | Run i =>
    l ← threads s !! i;
    '(l, w) ← move l (world s);
    Some (mk (opener s) (<[i := l]> (threads s)) w)
  end.

Fixpoint run (es : list event) s : option (t L W E A) :=
  match es with [] => Some s | e :: es => s' ← step e s; run es s' end.

Definition returned s : option (result ExecutionError.t (list (result E A))) :=
  match opener s with Returned r => Some r | _ => None end.
End scope.
End Scope.

(** [dispatch] with the threads of its scope as [thread_of] makes them of the requests. *)
Section dispatch.
Context {T L W : Type} (self : ExecutionDispatcher.t T).
Context `{Thread L (result TransportError.t ExecutionResponse.t), Advance L W}.
Context (thread_of : ExecutionRequest.t → L).
Import ExecutionDispatcher.

Definition dispatch_run (es : list Scope.event) (plan : ExecutionPlan.t) (workload : WorkItem) (w : W)
    : option (result ExecutionError.t DispatchReceipt.t * W) :=
  if negb (bool_decide (ExecutionPlan.workload_id plan = Workload.id workload))
  then Some (Err ExecutionError.WorkloadMismatch, w)
  else
    match ExecutionPlan.units plan with
    | [] => Some (Err ExecutionError.EmptyPlan, w)
    | _ =>
      match mapM (request_for self plan workload) (ExecutionPlan.units plan) with
      | Err e => Some (Err e, w)
      | Panic => Some (Panic, w)
      | Ok requests =>
        s ← Scope.run es (Scope.start (thread_of <$> requests) w);
        responses ← Scope.returned s;
        Some (responses ← responses;
              dispatched ← count_dispatched 0 requests responses;
              Ok (DispatchReceipt.from_responses (Workload.id workload)
                    (ExecutionPlan.node_id plan) dispatched), Scope.world s)
      end
    end.
End dispatch.

(** ** What the opener returns *)

Section joined.
Context {L W E A : Type} `{Thread L (result E A), Advance L W}.
Import Scope.
Implicit Types (s : Scope.t L W E A) (l : L) (ths : list L) (outcomes joined : list (result E A)).

Lemma join_threads_ok outcomes : existsb is_panic outcomes = false → join_threads outcomes = Ok outcomes.
Proof.
  induction outcomes as [|r l IH]; [done|]. cbn. intros [-> Hl]%orb_false_iff. by rewrite IH.
Qed.

Lemma join_threads_failed (l1 : list (result E A)) r (l2 : list (result E A)) :
  existsb is_panic l1 = false → is_panic r = true →
  join_threads (l1 ++ r :: l2) =
    if existsb is_panic l2 then Panic else Err ExecutionError.BackendRejected.
Proof.
  intros Hl Hr. induction l1 as [|x l1 IH]; cbn.
  - by rewrite Hr.
  - cbn in Hl. apply orb_false_iff in Hl as [-> Hl]. rewrite IH by done. by case_match.
Qed.

(** The threads that were spawned and those that were not yet. *)
Definition pending (m : main L E A) : list L :=
  match m with Spawning ths => ths | _ => [] end.
Definition all_threads s : list L := threads s ++ pending (opener s).

(** The threads that have been joined returned what the opener has collected. *)
Definition joined_of joined ths : Prop :=
  ∀ i r, joined !! i = Some r → ∃ l, ths !! i = Some l ∧ result_of l = Some r.

(** What the opener knows of the threads it has joined. *)
Definition opener_inv s : Prop :=
  match opener s with
  | Spawning _ => True
  | Joining joined => existsb is_panic joined = false ∧ joined_of joined (threads s)
  | Leaving failed =>
    ∃ joined r, existsb is_panic joined = false ∧ is_panic r = true ∧ failed = length joined ∧
      joined_of (joined ++ [r]) (threads s)
  | Returned r => ∃ outcomes, mapM result_of (threads s) = Some outcomes ∧ r = join_threads outcomes
  end.

Lemma joined_of_length joined ths : joined_of joined ths → length joined ≤ length ths.
Proof.
  intros Hj. destruct (decide (length joined ≤ length ths)) as [|Hn]; [done|].
  destruct (lookup_lt_is_Some_2 joined (length ths)) as [r Hr]; [lia|].
  destruct (Hj _ _ Hr) as (l & Hl%lookup_lt_Some & _). lia.
Qed.

Lemma joined_of_snoc joined ths l r :
  joined_of joined ths → ths !! length joined = Some l → result_of l = Some r →
  joined_of (joined ++ [r]) ths.
Proof.
  intros Hj Hl Hr i r' [Hi|[-> Hi]]%lookup_snoc_Some; [by apply Hj; destruct Hi|].
  subst. by exists l.
Qed.

Lemma joined_of_prefix joined ths outcomes :
  joined_of joined ths → mapM result_of ths = Some outcomes → ∃ rest, outcomes = joined ++ rest.
Proof.
  intros Hj Ho%mapM_Some. exists (drop (length joined) outcomes).
  rewrite <- (take_drop (length joined) outcomes) at 1. f_equal. apply list_eq. intros i.
  destruct (joined !! i) as [r|] eqn:Hi.
  - destruct (Hj _ _ Hi) as (l & Hl & Hr). rewrite lookup_take_lt by (by eapply lookup_lt_Some).
    destruct (Forall2_lookup_l _ _ _ _ _ Ho Hl) as (r' & -> & Hr'). congruence.
  - apply lookup_take_ge. by apply lookup_ge_None.
Qed.

Lemma joined_of_all joined ths :
  joined_of joined ths → ths !! length joined = None → mapM result_of ths = Some joined.
Proof.
  intros Hj Hn%lookup_ge_None. pose proof (joined_of_length _ _ Hj). apply mapM_Some.
  apply Forall2_same_length_lookup. split; [lia|]. intros i l r Hl Hr.
  destruct (Hj _ _ Hr) as (l' & Hl' & Hr'). congruence.
Qed.

Lemma joined_of_insert joined ths i l l' :
  joined_of joined ths → ths !! i = Some l → result_of l = None → joined_of joined (<[i := l']> ths).
Proof.
  intros Hj Hi Hn k r Hk. destruct (Hj k r Hk) as (l1 & Hl1 & Hr). exists l1. split; [|done].
  rewrite list_lookup_insert_ne; [done|]. intros ->. congruence.
Qed.

Lemma move_Some l (w : W) l' w' :
  move l w = Some (l', w') ↔ result_of l = None ∧ advance l w = Some (l', w').
Proof. unfold move. destruct (result_of l); naive_solver. Qed.

Lemma mapM_unfinished ths i l : ths !! i = Some l → result_of l = None → mapM result_of ths = None.
Proof.
  intros Hi Hn. apply mapM_None, Exists_exists. exists l. split; [by eapply list_elem_of_lookup_2|done].
Qed.

Lemma main_step_inv m ths m' ths' (w : W) :
  opener_inv (mk m ths w) → main_step m ths = Some (m', ths') → opener_inv (mk m' ths' w).
Proof.
  unfold opener_inv. cbn [opener threads]. destruct m as [[|th p]|joined|failed|r]; cbn.
  - intros _ [= <- <-]. split; [done|]. intros i r Hi. discriminate Hi.
  - by intros _ [= <- <-].
  - intros [Hj Hof] Hm. destruct (ths !! length joined) as [l|] eqn:Hl; cbn in Hm.
    + destruct (result_of l) as [r|] eqn:Hr; [|done]. cbn in Hm.
      pose proof (joined_of_snoc _ _ _ _ Hof Hl Hr) as Hof'.
      destruct (is_panic r) eqn:Hp; simplify_eq.
      * by exists joined, r.
      * split; [|done]. rewrite existsb_app, Hj. cbn. by rewrite Hp.
    + simplify_eq. exists joined. split; [by apply joined_of_all|]. by rewrite join_threads_ok.
  - intros (joined & r & Hj & Hr & -> & Hof) Hm.
    destruct (mapM result_of ths) as [outcomes|] eqn:Ho; [|done]. cbn in Hm. simplify_eq.
    exists outcomes. split; [done|].
    destruct (joined_of_prefix _ _ _ Hof Ho) as [rest ->]. rewrite <- app_assoc. cbn [app].
    rewrite join_threads_failed by done. do 2 f_equal.
    rewrite <- (Nat.add_1_r (length joined)), drop_app_add. done.
  - done.
Qed.

(** The opener moves threads around, and a thread changes only itself. *)
Lemma main_step_all m ths m' ths' :
  main_step m ths = Some (m', ths') → ths' ++ pending m' = ths ++ pending m.
Proof.
  destruct m as [[|th p]|joined|failed|r]; cbn; intros Hm.
  - by injection Hm as <- <-.
  - injection Hm as <- <-. cbn. by rewrite <- app_assoc.
  - destruct (ths !! length joined) as [th|]; [|by injection Hm as <- <-].
    destruct (result_of th) as [r|]; [|done]. cbn in Hm. by destruct (is_panic r); injection Hm as <- <-.
  - destruct (mapM result_of ths); [|done]. by injection Hm as <- <-.
  - done.
Qed.

(** A step of the opener, or one of a thread. *)
Lemma step_Some e s s' :
  step e s = Some s' ↔
  (e = Main ∧ ∃ m ths, main_step (opener s) (threads s) = Some (m, ths) ∧ s' = mk m ths (world s)) ∨
  (∃ i l l' w', e = Run i ∧ threads s !! i = Some l ∧ move l (world s) = Some (l', w') ∧
    s' = mk (opener s) (<[i := l']> (threads s)) w').
Proof.
  destruct s as [o ths w]. destruct e as [|i]; cbn.
  - destruct (main_step o ths) as [[m ths']|]; naive_solver.
  - destruct (ths !! i) as [l|] eqn:Hl; [|naive_solver]. cbn.
    destruct (move l w) as [[l' w']|] eqn:Hm; naive_solver.
Qed.

Lemma scope_step_inv e s s' : opener_inv s → step e s = Some s' → opener_inv s'.
Proof.
  intros Hinv [(-> & m & ths & Hm & ->)|(i & l & l' & w' & -> & Hi & [Hn _]%move_Some & ->)]%step_Some.
  - destruct s as [o ths0 w]. by eapply main_step_inv.
  - unfold opener_inv in *. cbn [opener threads]. destruct (opener s) as [p|joined|failed|r].
    + done.
    + destruct Hinv as [Hj Hof]. split; [done|by eapply joined_of_insert].
    + destruct Hinv as (joined & r & Hj & Hr & -> & Hof). exists joined, r.
      split_and!; [done..|by eapply joined_of_insert].
    + destruct Hinv as (outcomes & Ho & _). by rewrite (mapM_unfinished _ _ _ Hi Hn) in Ho.
Qed.

Lemma scope_run_inv es s s' : opener_inv s → run es s = Some s' → opener_inv s'.
Proof.
  revert s. induction es as [|e es IH]; intros s Hinv Hr; cbn in Hr; [by injection Hr as <-|].
  destruct (step e s) as [s1|] eqn:Hs; [|done]. cbn in Hr. eapply IH; [by eapply scope_step_inv|done].
Qed.

Lemma step_all e s s' :
  step e s = Some s' →
  (e = Main ∧ all_threads s' = all_threads s ∧ world s' = world s) ∨
  ∃ i l l', e = Run i ∧ all_threads s !! i = Some l ∧
    move l (world s) = Some (l', world s') ∧ all_threads s' = <[i := l']> (all_threads s).
Proof.
  unfold all_threads. intros [(-> & m & ths & Hm & ->)|(i & l & l' & w' & -> & Hi & Hm & ->)]%step_Some.
  - left. split_and!; [done| |done]. by apply main_step_all.
  - right. exists i, l, l'. cbn. split_and!; [done|by apply lookup_app_l_Some|done|].
    rewrite insert_app_l; [done|]. by eapply lookup_lt_Some.
Qed.

(** The number of threads never changes. *)
Lemma step_length e s s' : step e s = Some s' → length (all_threads s') = length (all_threads s).
Proof.
  intros [(_ & -> & _)|(i & l & l' & _ & _ & _ & ->)]%step_all; [done|apply length_insert].
Qed.

Lemma run_length es s s' : run es s = Some s' → length (all_threads s') = length (all_threads s).
Proof.
  revert s. induction es as [|e es IH]; intros s Hr; cbn in Hr; [by injection Hr as <-|].
  destruct (step e s) as [s1|] eqn:Hs; [|done]. cbn in Hr. rewrite (IH _ Hr). by eapply step_length.
Qed.

(** A scope returns what joining the outcomes of all its threads gives. *)
Lemma scope_joins ths es (w : W) s r :
  run es (start ths w) = Some s → returned s = Some r →
  ∃ outcomes, length outcomes = length ths ∧ mapM result_of (threads s) = Some outcomes ∧
    r = join_threads outcomes.
Proof.
  intros Hr Hret. pose proof (scope_run_inv _ _ _ (I : opener_inv (start ths w)) Hr) as Hinv.
  pose proof (run_length _ _ _ Hr) as Hl. unfold opener_inv, returned, all_threads in *.
  cbn in Hl. destruct (opener s) as [| | |r']; try done. injection Hret as ->.
  destruct Hinv as (outcomes & Ht & ->). exists outcomes. split; [|done].
  apply mapM_Some, Forall2_length in Ht. cbn in Hl. rewrite app_nil_r in Hl. congruence.
Qed.
End joined.

(** ** Threads one after the other *)

Section alone.
Context {L W E A : Type} `{Thread L (result E A), Advance L W}.
Import Scope.
Implicit Types (s : Scope.t L W E A) (l : L) (ths : list L) (outcomes joined : list (result E A)).
Implicit Types (w : W) (m : gmap nat (result E A)).

(** A thread that runs by itself from [w] returns [r] and leaves [w']. *)
Inductive alone : L → W → result E A → W → Prop :=
| alone_returned l w r : result_of l = Some r → alone l w r w
| alone_moves l w l' w1 r w' : move l w = Some (l', w1) → alone l' w1 r w' → alone l w r w'.

(** The threads of [order] run by themselves, one after the other. *)
Fixpoint in_turn ths outcomes (order : list nat) (w w' : W) : Prop :=
  match order with
  | [] => w' = w
  | i :: order =>
    ∃ l r w1, ths !! i = Some l ∧ outcomes !! i = Some r ∧ alone l w r w1 ∧
      in_turn ths outcomes order w1 w'
  end.

Lemma alone_det l w r1 w1 r2 w2 : alone l w r1 w1 → alone l w r2 w2 → r1 = r2 ∧ w1 = w2.
Proof.
  intros H1. revert r2 w2. induction H1 as [l w r Hr|l w l' w' r1 w1 Hm _ IH]; intros r2 w2 H2.
  - destruct H2 as [|? ? ? ? ? ? [Hn _]%move_Some _]; [naive_solver|congruence].
  - apply IH. destruct H2 as [l w r Hr|l w l2 w3 r w2 Hm2 H2].
    + apply move_Some in Hm as [Hn _]. congruence.
    + by simplify_eq.
Qed.

Lemma in_turn_app ths outcomes o1 o2 w w' :
  in_turn ths outcomes (o1 ++ o2) w w' ↔
  ∃ w1, in_turn ths outcomes o1 w w1 ∧ in_turn ths outcomes o2 w1 w'.
Proof.
  revert w. induction o1 as [|i o1 IH]; intros w; cbn; [naive_solver|].
  setoid_rewrite IH. naive_solver.
Qed.

Lemma in_turn_insert ths outcomes order i l w w' :
  i ∉ order → in_turn (<[i := l]> ths) outcomes order w w' ↔ in_turn ths outcomes order w w'.
Proof.
  revert w. induction order as [|j order IH]; intros w Hi; [done|]. cbn.
  rewrite list_lookup_insert_ne by set_solver. setoid_rewrite IH; [done|set_solver].
Qed.

Lemma in_turn_finished ths outcomes order w :
  mapM result_of ths = Some outcomes → (∀ i, i ∈ order → i < length ths) →
  in_turn ths outcomes order w w.
Proof.
  intros Ho%mapM_Some. induction order as [|i order IH]; intros Hi; [done|]. cbn.
  destruct (lookup_lt_is_Some_2 ths i) as [l Hl]; [apply Hi; by left|].
  destruct (Forall2_lookup_l _ _ _ _ _ Ho Hl) as (r & Hr & Hlr). exists l, r, w.
  split_and!; [done|done|by constructor|]. apply IH. set_solver.
Qed.

(** The operations that the threads carry out when they run alone. *)
Definition implements (l : L) (task : op W E A) : Prop := ∀ w, alone l w (task w).1 (task w).2.

Lemma run_threads_cons (tasks : list (op W E A)) i order m w (task : op W E A) :
  tasks !! i = Some task →
  run_threads tasks (i :: order) m w = run_threads tasks order (<[i := (task w).1]> m) (task w).2.
Proof.
  intros Hi. cbn [run_threads]. change (W → result E A * W)%type with (op W E A). rewrite Hi.
  by destruct (task w).
Qed.

Lemma in_turn_run_threads ths (tasks : list (op W E A)) outcomes order m w w' :
  Forall2 implements ths tasks → NoDup order → in_turn ths outcomes order w w' →
  (run_threads tasks order m w).2 = w' ∧
  ∀ i, (run_threads tasks order m w).1 !! i = if decide (i ∈ order) then outcomes !! i else m !! i.
Proof.
  intros Himp. revert m w. induction order as [|j order IH]; intros m w Hnd Ht.
  { cbn in *. split; [done|]. intros i. rewrite decide_False by set_solver. done. }
  apply NoDup_cons in Hnd as [Hj Hnd]. destruct Ht as (l & r & w1 & Hl & Hr & Ha & Ht).
  destruct (Forall2_lookup_l _ _ _ _ _ Himp Hl) as (task & Htask & Hi). rewrite (run_threads_cons _ _ _ _ _ _ Htask).
  specialize (Hi w). destruct (task w) as [r' w'']. cbn [fst snd] in *.
  destruct (alone_det _ _ _ _ _ _ Ha Hi) as [-> ->].
  destruct (IH (<[j := r']> m) w'' Hnd Ht) as [H1 H2]. split; [done|]. intros i. rewrite H2.
  destruct (decide (i = j)) as [->|Hne].
  - rewrite decide_False, decide_True by set_solver. by rewrite lookup_insert_eq.
  - rewrite lookup_insert_ne by done. destruct (decide (i ∈ order)).
    + rewrite decide_True by set_solver. done.
    + rewrite decide_False by set_solver. done.
Qed.

Lemma in_turn_scope ths (tasks : list (op W E A)) outcomes order w w' :
  Forall2 implements ths tasks → length outcomes = length ths → order ≡ₚ seq 0 (length ths) →
  in_turn ths outcomes order w w' → scope tasks order w = (outcomes, w').
Proof.
  intros Himp Hlen Hp Ht.
  assert (NoDup order) as Hnd by (rewrite Hp; apply NoDup_seq).
  destruct (in_turn_run_threads _ _ _ _ ∅ _ _ Himp Hnd Ht) as [Hw Hm]. unfold scope.
  destruct (run_threads tasks order ∅ w) as [m w1]. cbn in Hw, Hm. subst w1. f_equal.
  pose proof (Forall2_length _ _ _ Himp) as Hlt. apply list_eq. intros i. rewrite list_lookup_imap.
  destruct (tasks !! i) as [task|] eqn:Htask; cbn.
  - apply lookup_lt_Some in Htask. rewrite Hm, decide_True by (rewrite Hp, elem_of_seq; lia).
    destruct (lookup_lt_is_Some_2 outcomes i) as [r ->]; [lia|]. done.
  - symmetry. apply lookup_ge_None. apply lookup_ge_None in Htask. lia.
Qed.

Lemma run_threads_in_turn ths (tasks : list (op W E A)) outcomes order m w :
  Forall2 implements ths tasks → NoDup order → (∀ i, i ∈ order → i < length ths) →
  (∀ i, i ∈ order → outcomes !! i = (run_threads tasks order m w).1 !! i) →
  in_turn ths outcomes order w (run_threads tasks order m w).2.
Proof.
  intros Himp. revert m w. induction order as [|i order IH]; intros m w Hnd Hlt Ho; [done|].
  apply NoDup_cons in Hnd as [Hi Hnd]. destruct (lookup_lt_is_Some_2 ths i) as [l Hl].
  { apply Hlt. by left. }
  destruct (Forall2_lookup_l _ _ _ _ _ Himp Hl) as (task & Htask & Ha). specialize (Ha w).
  rewrite (run_threads_cons _ _ _ _ _ _ Htask) in *. destruct (task w) as [r w1]. cbn [fst snd] in *.
  exists l, r, w1. split_and!; [done| |done|].
  - rewrite Ho by (by left). destruct (run_threads_outcome tasks order (<[i := r]> m) w1 i task) as [_ Hn];
      [done..|]. by rewrite Hn, lookup_insert_eq.
  - apply IH; [done|set_solver|]. intros j Hj. apply Ho. by right.
Qed.

Lemma scope_in_turn ths (tasks : list (op W E A)) order w :
  Forall2 implements ths tasks → order ≡ₚ seq 0 (length ths) →
  in_turn ths (scope tasks order w).1 order w (scope tasks order w).2.
Proof.
  intros Himp Hp. pose proof (Forall2_length _ _ _ Himp) as Hlt.
  assert (NoDup order) as Hnd by (rewrite Hp; apply NoDup_seq).
  assert (∀ i, i ∈ order → i < length ths) as Hin by (intros i; rewrite Hp, elem_of_seq; lia).
  pose proof (λ o, run_threads_in_turn ths tasks o order ∅ w Himp Hnd Hin) as Ht.
  pose proof (λ i task Hi, run_threads_outcome tasks order ∅ w i task Hi Hnd) as Ho.
  unfold scope. destruct (run_threads tasks order ∅ w) as [m w'].
  apply Ht. intros i Hi. cbn. rewrite list_lookup_imap.
  destruct (lookup_lt_is_Some_2 tasks i) as [task Htask]; [rewrite <- Hlt; by apply Hin|].
  destruct (Ho i task Htask) as [[w1 Hm] _]; [done|]. cbn in Hm. rewrite Htask, Hm. done.
Qed.

(** ** Orders are interleavings *)

Lemma scope_run_app es es' s : run (es ++ es') s = (s' ← run es s; run es' s').
Proof.
  revert s. induction es as [|e es IH]; intros s; [done|]. cbn [run app].
  destruct (step e s) as [s'|]; [apply IH|done].
Qed.

Lemma run_spawns ths (pend : list L) w :
  run (repeat Main (S (length pend))) (mk (Spawning pend) ths w) =
    Some (mk (Joining []) (ths ++ pend) w).
Proof.
  revert ths. induction pend as [|th pend IH]; intros ths; [by rewrite app_nil_r|].
  change (run (repeat Main (S (length pend))) (mk (Spawning pend) (ths ++ [th]) w) =
    Some (mk (Joining []) (ths ++ th :: pend) w)).
  rewrite IH. by rewrite <- app_assoc.
Qed.

Lemma run_alone l w r w' o ths i :
  alone l w r w' → ths !! i = Some l →
  ∃ k l', result_of l' = Some r ∧
    run (repeat (Run i) k) (mk o ths w) = Some (mk o (<[i := l']> ths) w').
Proof.
  intros Ha. revert ths. induction Ha as [l w r Hr|l w l' w1 r w' Hm _ IH]; intros ths Hi.
  - exists 0, l. split; [done|]. cbn. by rewrite list_insert_id.
  - destruct (IH (<[i := l']> ths)) as (k & l1 & Hr & Hk).
    { apply list_lookup_insert_eq. by eapply lookup_lt_Some. }
    exists (S k), l1. split; [done|]. cbn [repeat run].
    rewrite (proj2 (step_Some (Run i) (mk o ths w) (mk o (<[i := l']> ths) w1))).
    + cbn [mbind option_bind]. rewrite Hk. by rewrite list_insert_insert_eq.
    + right. exists i, l, l', w1. by split_and!.
Qed.

Lemma run_turns order ths outcomes o w w' :
  NoDup order → in_turn ths outcomes order w w' →
  ∃ es ths', run es (mk o ths w) = Some (mk o ths' w') ∧ length ths' = length ths ∧
    (∀ i, i ∈ order → ths' !! i ≫= result_of = outcomes !! i) ∧
    (∀ i, i ∉ order → ths' !! i = ths !! i).
Proof.
  revert ths w. induction order as [|i order IH]; intros ths w Hnd Ht.
  { cbn in Ht. subst w'. exists [], ths. split_and!; [done|done|set_solver|done]. }
  apply NoDup_cons in Hnd as [Hi Hnd]. destruct Ht as (l & r & w1 & Hl & Hr & Ha & Ht).
  destruct (run_alone l w r w1 o ths i Ha Hl) as (k & l' & Hl' & Hk).
  destruct (IH (<[i := l']> ths) w1 Hnd) as (es & ths' & Hes & Hlen & Hin & Hout).
  { by apply in_turn_insert. }
  exists (repeat (Run i) k ++ es), ths'. rewrite scope_run_app, Hk. cbn [mbind option_bind].
  rewrite length_insert in Hlen. split_and!; [done|done| |].
  - intros j [->|Hj]%elem_of_cons; [|by apply Hin]. rewrite Hout by done.
    rewrite list_lookup_insert_eq by (by eapply lookup_lt_Some). cbn. congruence.
  - intros j Hj. rewrite Hout by set_solver. apply list_lookup_insert_ne. set_solver.
Qed.

Lemma run_joins joined rest ths w :
  existsb is_panic joined = false → mapM result_of ths = Some (joined ++ rest) →
  ∃ k, run (repeat Main k) (mk (Joining joined) ths w) =
    Some (mk (Returned (join_threads (joined ++ rest))) ths w).
Proof.
  revert joined. induction rest as [|r rest IH]; intros joined Hj Ho;
    pose proof Ho as Hths; apply mapM_Some in Hths.
  - rewrite app_nil_r in *. exists 1. cbn.
    rewrite (proj2 (lookup_ge_None ths _)) by (rewrite (Forall2_length _ _ _ Hths); done). cbn.
    by rewrite join_threads_ok.
  - destruct (Forall2_lookup_r _ _ _ (length joined) r Hths) as (l & Hl & Hr).
    { by apply list_lookup_middle. }
    destruct (is_panic r) eqn:Hp.
    + exists 2. cbn. rewrite Hl. cbn. rewrite Hr. cbn. rewrite Hp. cbn. rewrite Ho. cbn.
      rewrite join_threads_failed by done. rewrite <- (Nat.add_1_r (length joined)), drop_app_add. done.
    + destruct (IH (joined ++ [r])) as [k Hk].
      { by rewrite existsb_app, Hj; cbn; rewrite Hp. }
      { by rewrite <- app_assoc. }
      exists (S k). cbn. rewrite Hl. cbn. rewrite Hr. cbn. rewrite Hp, <- !app_assoc in *. exact Hk.
Qed.

(** Threads that run in turn are a scope that spawns all of them, lets each run, and joins. *)
Lemma turns_scope ths outcomes order w w' :
  length outcomes = length ths → order ≡ₚ seq 0 (length ths) → in_turn ths outcomes order w w' →
  ∃ es s, run es (start ths w) = Some s ∧ returned s = Some (join_threads outcomes) ∧ world s = w'.
Proof.
  intros Hlen Hp Ht.
  destruct (run_turns order ths outcomes (Joining []) w w') as (es & ths' & Hes & Hl & Hin & _).
  { rewrite Hp. apply NoDup_seq. }
  { done. }
  destruct (run_joins [] outcomes ths' w' eq_refl) as [k Hk].
  - cbn [app]. apply mapM_Some, Forall2_same_length_lookup. split; [lia|]. intros i l r Hl' Hr.
    specialize (Hin i). rewrite Hl', Hr in Hin. apply Hin. rewrite Hp, elem_of_seq.
    apply lookup_lt_Some in Hr. lia.
  - exists (repeat Main (S (length ths)) ++ es ++ repeat Main k).
    eexists. rewrite scope_run_app. unfold start. rewrite run_spawns. cbn [mbind option_bind app].
    rewrite scope_run_app, Hes. cbn [mbind option_bind]. rewrite Hk. by split_and!.
Qed.
End alone.

(** ** Interleavings are orders *)

Section independence.
Context {K L W E A : Type} `{Thread L (result E A), Advance L W}.

(** The states of threads that work for different keys ([own k] are those of one that works for
    [k]), and which of them are those of a thread whose request has taken effect. Two steps of
    different threads that follow each other can be exchanged, unless both are the ones with which
    their requests take effect: such steps may be about state that the threads share. *)
Definition takes_effect (effective : L → bool) (l l' : L) : bool := negb (effective l) && effective l'.

Record independent (own : K → L → Prop) (effective : L → bool) : Prop := {
  own_move k l (w : W) l' w' : own k l → move l w = Some (l', w') → own k l';
  effective_move k l (w : W) l' w' :
    own k l → move l w = Some (l', w') → effective l = true → effective l' = true;
  exchange k1 k2 l1 l2 (w : W) l1' w1 l2' w2 :
    k1 ≠ k2 → own k1 l1 → own k2 l2 → move l1 w = Some (l1', w1) → move l2 w1 = Some (l2', w2) →
    takes_effect effective l1 l1' && takes_effect effective l2 l2' = false →
    ∃ w1', move l2 w = Some (l2', w1') ∧ move l1 w1' = Some (l1', w2);
}.

Context (own : K → L → Prop) (effective : L → bool) (Hind : independent own effective).
Implicit Types (l x : L) (w : W) (ths : list L) (outcomes : list (result E A)) (keys : list K).

Lemma move_over_alone k k' l l' x r w w1 w2 :
  k ≠ k' → own k l → own k' x → takes_effect effective l l' = false →
  move l w = Some (l', w1) → alone x w1 r w2 →
  ∃ w1', alone x w r w1' ∧ move l w1' = Some (l', w2).
Proof.
  intros Hk Hl Hx Hne Hm Ha. revert w Hx Hm.
  induction Ha as [x w1 r Hr|x w1 x' w3 r w2 Hm' _ IH]; intros w Hx Hm.
  - exists w. split; [by constructor|done].
  - destruct (exchange _ _ Hind k k' l x w l' w1 x' w3) as (w' & Hx' & Hl'); try done.
    { by rewrite Hne. }
    destruct (IH w') as (w1' & Ha & Hl1); [by eapply own_move|done|].
    exists w1'. split; [by econstructor|done].
Qed.

Lemma move_before_alone k k' l l' x r w w1 w2 :
  k ≠ k' → own k l → own k' x → takes_effect effective l l' = false →
  alone x w r w1 → move l w1 = Some (l', w2) →
  ∃ w1', move l w = Some (l', w1') ∧ alone x w1' r w2.
Proof.
  intros Hk Hl Hx Hne Ha Hm. induction Ha as [x w r Hr|x w x' w3 r w1 Hm' _ IH].
  - exists w2. split; [done|by constructor].
  - destruct IH as (w1' & Hl1 & Ha); [by eapply own_move|done|].
    destruct (exchange _ _ Hind k' k x l w x' w3 l' w1') as (w' & Hl' & Hx'); try done.
    { by rewrite Hne, andb_false_r. }
    exists w'. split; [done|by econstructor].
Qed.

Lemma other_key keys ths i j k l :
  NoDup keys → Forall2 own keys ths → keys !! i = Some k → ths !! j = Some l → i ≠ j →
  ∃ k', k ≠ k' ∧ own k' l.
Proof.
  intros Hnd Hown Hi Hj Hij. destruct (Forall2_lookup_r _ _ _ _ _ Hown Hj) as (k' & Hk' & Ho).
  exists k'. split; [|done]. intros <-. apply Hij. by eapply NoDup_lookup.
Qed.

Lemma move_over_turns keys ths outcomes i k l l' order w w1 w2 :
  NoDup keys → Forall2 own keys ths → keys !! i = Some k → own k l → i ∉ order →
  takes_effect effective l l' = false → move l w = Some (l', w1) →
  in_turn ths outcomes order w1 w2 →
  ∃ w1', in_turn ths outcomes order w w1' ∧ move l w1' = Some (l', w2).
Proof.
  intros Hnd Hown Hi Hl Hin Hne. revert w w1. induction order as [|j order IH]; intros w w1 Hm Ht.
  { cbn in Ht. subst w2. by exists w. }
  destruct Ht as (x & r & w3 & Hx & Hr & Ha & Ht).
  destruct (other_key _ _ _ j k x Hnd Hown Hi Hx) as (k' & Hk & Hk'); [set_solver|].
  destruct (move_over_alone k k' l l' x r w w1 w3) as (w' & Ha' & Hm'); try done.
  destruct (IH ltac:(set_solver) w' w3) as (w1' & Ht' & Hm1); [done..|].
  exists w1'. split; [|done]. cbn. by exists x, r, w'.
Qed.

Lemma move_before_turns keys ths outcomes i k l l' order w w1 w2 :
  NoDup keys → Forall2 own keys ths → keys !! i = Some k → own k l → i ∉ order →
  takes_effect effective l l' = false → in_turn ths outcomes order w w1 →
  move l w1 = Some (l', w2) →
  ∃ w1', move l w = Some (l', w1') ∧ in_turn ths outcomes order w1' w2.
Proof.
  intros Hnd Hown Hi Hl Hin Hne. revert w. induction order as [|j order IH]; intros w Ht Hm.
  { cbn in Ht. subst w1. by exists w2. }
  destruct Ht as (x & r & w3 & Hx & Hr & Ha & Ht).
  destruct (other_key _ _ _ j k x Hnd Hown Hi Hx) as (k' & Hk & Hk'); [set_solver|].
  destruct (IH ltac:(set_solver) w3 Ht Hm) as (w' & Hm' & Ht').
  destruct (move_before_alone k k' l l' x r w w3 w') as (w1' & Hm1 & Ha'); try done.
  exists w1'. split; [done|]. cbn. by exists x, r, w'.
Qed.

(** What is left of a thread whose request has taken effect can run before the others. *)
Lemma rest_before_turns keys ths outcomes i k l r order w w1 w2 :
  NoDup keys → Forall2 own keys ths → keys !! i = Some k → own k l → i ∉ order →
  effective l = true → in_turn ths outcomes order w w1 → alone l w1 r w2 →
  ∃ w1', alone l w r w1' ∧ in_turn ths outcomes order w1' w2.
Proof.
  intros Hnd Hown Hi Hl Hin Heff Ht Ha. revert w Hl Heff Ht.
  induction Ha as [l w1 r Hr|l w1 l' w3 r w2 Hm _ IH]; intros w Hl Heff Ht.
  { exists w. split; [by constructor|done]. }
  destruct (move_before_turns keys ths outcomes i k l l' order w w1 w3) as (w' & Hm' & Ht'); try done.
  { unfold takes_effect. by rewrite Heff. }
  destruct (IH w') as (w1' & Ha' & Ht1); [by eapply own_move|by eapply effective_move|done|].
  exists w1'. split; [by econstructor|done].
Qed.

(** The first move of thread [i] joins what is left of it, wherever in the order that runs; if it is
    the move with which the request of the thread takes effect, the thread becomes the first. *)
Lemma move_in_turn keys ths outcomes order i k l l' w w1 w' :
  NoDup keys → Forall2 own keys ths → keys !! i = Some k → ths !! i = Some l → own k l →
  move l w = Some (l', w1) → NoDup order → i ∈ order →
  in_turn (<[i := l']> ths) outcomes order w1 w' →
  ∃ order', order' ≡ₚ order ∧ in_turn ths outcomes order' w w'.
Proof.
  intros Hnd Hown Hk Hi Hl Hm Hno (o1 & o2 & ->)%list_elem_of_split.
  assert ((i ∉ o1) ∧ (i ∉ o2)) as [Ho1 Ho2].
  { apply NoDup_app in Hno as (_ & Hno & [? _]%NoDup_cons). split; [|done]. intros Ho1.
    apply (Hno i Ho1). by left. }
  intros (w2 & Ht1 & (x & r & w3 & Hx & Hri & Hal & Ht2))%in_turn_app.
  rewrite list_lookup_insert_eq in Hx by (by eapply lookup_lt_Some). injection Hx as <-.
  rewrite in_turn_insert in Ht1, Ht2 by done.
  destruct (takes_effect effective l l') eqn:Hte.
  - destruct (rest_before_turns keys ths outcomes i k l' r o1 w1 w2 w3) as (w4 & Hal' & Ht1');
      try done; [by eapply own_move| |].
    { unfold takes_effect in Hte. by apply andb_true_iff in Hte as [_ ?]. }
    exists (i :: o1 ++ o2). split; [by rewrite Permutation_middle|].
    exists l, r, w4. split_and!; [done|done|by econstructor|]. apply in_turn_app. by exists w3.
  - destruct (move_over_turns keys ths outcomes i k l l' o1 w w1 w2) as (w4 & Ht1' & Hm'); try done.
    exists (o1 ++ i :: o2). split; [done|]. apply in_turn_app. exists w4. split; [done|].
    exists l, r, w3. split_and!; [done|done|by econstructor|done].
Qed.

(** Whatever the interleaving, the threads leave the outcomes and the world of running by
    themselves in some order. *)
Lemma serialize keys es (s s' : Scope.t L W E A) outcomes :
  NoDup keys → Forall2 own keys (all_threads s) → Scope.run es s = Some s' →
  mapM result_of (all_threads s') = Some outcomes →
  ∃ order, order ≡ₚ seq 0 (length (all_threads s)) ∧
    in_turn (all_threads s) outcomes order (Scope.world s) (Scope.world s').
Proof.
  intros Hnd. revert s. induction es as [|e es IH]; intros s Hown Hr Ho; cbn in Hr.
  { injection Hr as <-. exists (seq 0 (length (all_threads s))). split; [done|].
    apply in_turn_finished; [done|]. intros i. rewrite elem_of_seq. lia. }
  destruct (Scope.step e s) as [s1|] eqn:Hs; [|done]. cbn in Hr. specialize (IH s1).
  apply step_all in Hs as [(_ & Ha & Hw)|(i & l & l' & _ & Hi & Hm & Ha)].
  { rewrite Ha, Hw in IH. by apply IH. }
  rewrite Ha, length_insert in IH. destruct (Forall2_lookup_r _ _ _ _ _ Hown Hi) as (k & Hk & Hl).
  destruct IH as (order & Hp & Ht); [|done..|].
  { rewrite <- (list_insert_id keys i k) by done. apply Forall2_insert; [done|by eapply own_move]. }
  destruct (move_in_turn keys (all_threads s) outcomes order i k l l' (Scope.world s)
    (Scope.world s1) (Scope.world s')) as (order' & Hp' & Ht'); try done.
  - rewrite Hp. apply NoDup_seq.
  - rewrite Hp, elem_of_seq. apply lookup_lt_Some in Hi. lia.
  - exists order'. split; [by rewrite Hp'|done].
Qed.

(** The threads of a scope that returns. *)
Lemma scope_serialized keys ths (tasks : list (op W E A)) es w s r :
  NoDup keys → Forall2 own keys ths → Forall2 implements ths tasks →
  Scope.run es (Scope.start ths w) = Some s → Scope.returned s = Some r →
  ∃ order, order ≡ₚ seq 0 (length tasks) ∧
    (r, Scope.world s) = (join_threads (scope tasks order w).1, (scope tasks order w).2).
Proof.
  intros Hnd Hown Himp Hr Hret.
  destruct (scope_joins _ _ _ _ _ Hr Hret) as (outcomes & Hlen & Ho & ->).
  destruct (serialize keys es (Scope.start ths w) s outcomes Hnd Hown Hr) as (order & Hp & Ht).
  { unfold all_threads, Scope.returned in *. destruct (Scope.opener s); try done.
    cbn. by rewrite app_nil_r. }
  unfold all_threads in Hp, Ht. cbn in Hp, Ht.
  exists order. split; [by rewrite <- (Forall2_length _ _ _ Himp)|].
  by rewrite (in_turn_scope _ _ _ _ _ _ Himp Hlen Hp Ht).
Qed.
End independence.

(** ** Dispatches whose threads interleave *)

(** The schedule that runs [n] threads in a given order. *)
Definition order_for (order : list nat) : Schedule := λ n,
  if decide (order ≡ₚ seq 0 n) then order else seq 0 n.

#[export] Instance order_for_complete order : CompleteSchedule (order_for order).
Proof. intros n. unfold thread_order, order_for. case_decide; [done|reflexivity]. Qed.

(** The participant a unit or a request is for. *)
Definition unit_participant (unit : ExecutionUnit.t) : string :=
  Identity.id (ExecutionUnit.participant_id unit).
Definition request_participant (request : ExecutionRequest.t) : string :=
  unit_participant (ExecutionRequest.unit request).

Lemma requests_participants {T} (self : ExecutionDispatcher.t T) p k units requests :
  mapM (ExecutionDispatcher.request_for self p k) units = Ok requests →
  request_participant <$> requests = unit_participant <$> units.
Proof.
  rewrite mapM_result_ok. induction 1 as [|unit request units requests Hr _ IH]; [done|].
  rewrite !fmap_cons, IH. f_equal. unfold ExecutionDispatcher.request_for in Hr.
  apply result_bind_ok in Hr as (endpoint & _ & [= <-]). done.
Qed.

Ltac early_return :=
  split; [intros [_ [= <- <-]]; exists in_order; split; [apply _|done]
         |intros (? & _ & [= <- <-]); by exists []].

(** C13: Interleaved dispatches are dispatches in an order. Let each scoped thread of a dispatch take
    any number of steps, such that it carries out the transport's dispatch of its request when it runs
    alone, and such that adjacent steps of threads for different participants can be exchanged unless
    both are the one step with which the request takes effect; and let the units of the plan be for
    different participants. Then, however the threads are spawned, run and joined, the dispatch ends
    with a result and a world exactly when the dispatch that runs its threads one after the other
    ends so for some complete order. *)
Theorem dispatch_interleavings {T L W} `{Transport T W}
    `{Thread L (result TransportError.t ExecutionResponse.t), Advance L W}
    (self : ExecutionDispatcher.t T) (thread_of : ExecutionRequest.t → L)
    (own : string → L → Prop) (effective : L → bool)
    (p : ExecutionPlan.t) (k : WorkItem) (w : W) r w' :
  independent own effective →
  (∀ request, own (request_participant request) (thread_of request)) →
  (∀ request, implements (thread_of request) (dispatch (ExecutionDispatcher.transport self) request)) →
  NoDup (unit_participant <$> ExecutionPlan.units p) →
  (∃ es, dispatch_run self thread_of es p k w = Some (r, w')) ↔
  ∃ order : Schedule, CompleteSchedule order ∧ ExecutionDispatcher.dispatch self p k w = (r, w').
Proof.
  intros Hind Hown Himp Hnd. unfold dispatch_run, ExecutionDispatcher.dispatch.
  case_bool_decide as Hid; cbn [negb]. 2: early_return.
  destruct (ExecutionPlan.units p) as [|u us] eqn:Hu; [early_return|].
  unfold lift, mbind, op_bind. destruct (mapM _ (u :: us)) as [requests|e|] eqn:Hrs.
  2,3: early_return.
  set (tasks := messages.dispatch (ExecutionDispatcher.transport self) <$> requests). assert (length tasks = length requests) as Hlen by apply length_fmap.
  assert (Forall2 implements (thread_of <$> requests) tasks) as Htasks.
  { apply Forall2_fmap, Forall_Forall2_diag, Forall_forall. intros q _. apply Himp. }
  split.
  - intros [es Hes]. destruct (Scope.run _ _) as [s|] eqn:Hrun; [|done]. cbn in Hes.
    destruct (Scope.returned s) as [responses|] eqn:Hret; [|done]. cbn in Hes.
    destruct (scope_serialized own effective Hind (unit_participant <$> u :: us)
      (thread_of <$> requests) tasks es w s responses) as (order & Hp & Hs); try done.
    { rewrite <- (requests_participants _ _ _ _ _ Hrs).
      apply Forall2_fmap, Forall_Forall2_diag, Forall_forall. intros q _. apply Hown. }
    exists (order_for order). split; [apply _|]. unfold thread_order, order_for.
    rewrite decide_True by (by rewrite <- Hlen). destruct (scope tasks order w) as [outcomes w1].
    injection Hs as -> Hw. cbn in Hw. rewrite Hw in Hes. injection Hes as <- <-.
    destruct (join_threads outcomes) as [l|e|]; [|done..]. cbn.
    by destruct (ExecutionDispatcher.count_dispatched _ _ _).
  - intros (order & Hcs & Hd).
    assert (order (length requests) ≡ₚ seq 0 (length (thread_of <$> requests))) as Hp.
    { rewrite length_fmap. apply Hcs. }
    destruct (turns_scope (thread_of <$> requests) (scope tasks (order (length requests)) w).1
      (order (length requests)) w (scope tasks (order (length requests)) w).2)
      as (es & s & Hrun & Hret & Hw).
    { unfold scope. destruct (run_threads _ _ _ _). cbn. by rewrite length_imap, Hlen, length_fmap. }
    { done. }
    { by apply scope_in_turn. }
    exists es. rewrite Hrun. cbn. rewrite Hret. cbn. rewrite Hw.
    unfold thread_order in Hd. destruct (scope tasks (order (length requests)) w) as [outcomes w1].
    cbn [fst snd]. f_equal.
    destruct (join_threads outcomes) as [l|e|]; [|by injection Hd as <- <-..].
    revert Hd. cbn. destruct (ExecutionDispatcher.count_dispatched _ _ _); by intros [= <- <-].
Qed.

(** ** What the opener waits for *)

Section progress.
Context {L W E A : Type} `{Thread L (result E A), Advance L W}.
Import Scope.
Implicit Types (s : Scope.t L W E A) (l : L) (ths : list L).

(** How far the opener is from returning, when [n] threads have been spawned. *)
Definition rank (m : main L E A) (n : nat) : nat :=
  match m with
  | Spawning pending => 2 * length pending + n + 2
  | Joining joined => (n - length joined) + 1
  | Leaving _ => 1
  | Returned _ => 0
  end.

Lemma main_step_rank m ths m' ths' :
  main_step m ths = Some (m', ths') → rank m' (length ths') < rank m (length ths).
Proof.
  destruct m as [[|th p]|joined|failed|r]; cbn; intros Hm.
  - injection Hm as <- <-. cbn. lia.
  - injection Hm as <- <-. cbn. rewrite length_app. cbn. lia.
  - destruct (ths !! length joined) as [th|] eqn:Hl; [|injection Hm as <- <-; cbn; lia].
    apply lookup_lt_Some in Hl. destruct (result_of th) as [r|]; [|done]. cbn in Hm.
    destruct (is_panic r); injection Hm as <- <-; cbn; rewrite ?length_app; cbn; lia.
  - destruct (mapM result_of ths); [|done]. injection Hm as <- <-. cbn. lia.
  - done.
Qed.

(** The steps that the opener takes itself. *)
Definition opener_steps (es : list event) : nat := length (filter (.= Main) es).

Lemma opener_steps_rank es s s' :
  run es s = Some s' →
  opener_steps es + rank (opener s') (length (threads s')) ≤ rank (opener s) (length (threads s)).
Proof.
  unfold opener_steps. revert s. induction es as [|e es IH]; intros s Hr; cbn in Hr.
  { injection Hr as <-. cbn. lia. }
  destruct (step e s) as [s1|] eqn:Hs; [|done]. cbn in Hr. apply IH in Hr.
  apply step_Some in Hs as [(-> & m & ths & Hm & ->)|(i & l & l' & w' & -> & _ & _ & ->)].
  - rewrite filter_cons_True by done. apply main_step_rank in Hm. cbn in *. lia.
  - rewrite filter_cons_False by done. cbn in *. by rewrite length_insert in Hr.
Qed.

(** What is left of a thread after a step, and of the threads after a step of one of them. *)
Definition rest_of l' l : Prop := ∃ (w w' : W), move l w = Some (l', w').
Definition rest_of_one ths' ths : Prop :=
  ∃ i l l', ths !! i = Some l ∧ rest_of l' l ∧ ths' = <[i := l']> ths.

Lemma rest_of_one_cons l ths : Acc rest_of l → Acc rest_of_one ths → Acc rest_of_one (l :: ths).
Proof.
  intros Hl. revert ths. induction Hl as [l _ IHl]. intros ths Hths.
  induction Hths as [ths Hths IHths]. constructor.
  intros ths' ([|i] & l1 & l' & Hi & Hr & ->); cbn in Hi |- *.
  - injection Hi as ->. apply IHl; [done|]. by constructor.
  - apply IHths. by exists i, l1, l'.
Qed.

Lemma rest_of_one_wf ths : Forall (Acc rest_of) ths → Acc rest_of_one ths.
Proof.
  induction 1 as [|l ths Hl _ IH]; [constructor; by intros ? (? & ? & ? & ? & ?)|].
  by apply rest_of_one_cons.
Qed.

Definition next_state s' s : Prop := ∃ e, step e s = Some s'.

Lemma next_state_wf s : Forall (Acc rest_of) (all_threads s) → Acc next_state s.
Proof.
  intros Hacc%rest_of_one_wf. remember (rank (opener s) (length (threads s))) as k eqn:Hk.
  revert s Hacc Hk. induction (lt_wf k) as [k _ IH]. intros s Hacc.
  remember (all_threads s) as all eqn:Hall. revert s Hall.
  induction Hacc as [all Hacc IHall]. intros s -> ->. constructor. intros s' [e Hs].
  pose proof Hs as [(-> & Ha & _)|(i & l & l' & -> & Hi & Hm & Ha)]%step_all.
  - eapply IH; [|by rewrite Ha; constructor|done].
    apply step_Some in Hs as [(_ & m & ths & Hm%main_step_rank & ->)|(? & ? & ? & ? & ? & _)]; done.
  - eapply (IHall (all_threads s')); [|done|].
    + rewrite Ha. exists i, l, l'. split_and!; [done| |done]. by eexists _, _.
    + apply step_Some in Hs as [(? & _)|(j & ? & ? & ? & _ & _ & _ & ->)]; [done|].
      cbn. by rewrite length_insert.
Qed.

(** The opener has returned, or it can take a step, or it waits for a thread. *)
Lemma opener_waits s :
  step Main s = None →
  is_Some (returned s) ∨
  (pending (opener s) = [] ∧ returned s = None ∧ ∃ l, l ∈ threads s ∧ result_of l = None).
Proof.
  destruct s as [m ths w]. cbn. intros Hs.
  destruct m as [[|th p]|joined|failed|r]; cbn in Hs; try done; [right|right|left; by eexists].
  - destruct (ths !! length joined) as [l|] eqn:Hl; [|done].
    destruct (result_of l) as [r|] eqn:Hr; cbn in Hs; [by destruct (is_panic r)|].
    split_and!; [done..|]. exists l. split; [by eapply list_elem_of_lookup_2|done].
  - destruct (mapM result_of ths) as [l|] eqn:Hl; [done|]. apply mapM_None, Exists_exists in Hl.
    by split_and!.
Qed.

Lemma stuck_threads s l :
  (∀ e, step e s = None) → l ∈ threads s → result_of l = None → advance l (world s) = None.
Proof.
  intros Hs [i Hi]%list_elem_of_lookup Hn. specialize (Hs (Run i)). cbn in Hs. rewrite Hi in Hs.
  cbn in Hs. unfold move in Hs. rewrite Hn in Hs. by destruct (advance l (world s)) as [[]|].
Qed.
End progress.

(** C34: The opener of a scope waits for its threads and for nothing else. Whatever steps the threads
    take, even endlessly many, the opener takes at most [2n + 2] of its own: it returns only when
    all its [n] threads have finished, and then what joining them gives; when it cannot take a step
    and has not returned, all threads have been spawned and one has not finished, so it never keeps
    a thread from starting; when nothing at all can happen, such threads all wait. If each of the
    threads can only take finitely many steps, so can the scope. *)
Theorem scope_ends_or_waits {L W E A} `{Thread L (result E A), Advance L W} (ths : list L) (w : W) es s :
  Scope.run es (Scope.start ths w) = Some s →
  opener_steps es ≤ 2 * length ths + 2 ∧
  (∀ r, Scope.returned s = Some r →
    ∃ outcomes, length outcomes = length ths ∧ mapM result_of (Scope.threads s) = Some outcomes ∧
      r = join_threads outcomes) ∧
  (Scope.step Scope.Main s = None → Scope.returned s = None →
    length (Scope.threads s) = length ths ∧
    (∃ l, l ∈ Scope.threads s ∧ result_of l = None) ∧
    ((∀ e, Scope.step e s = None) →
     ∀ l, l ∈ Scope.threads s → result_of l = None → advance l (Scope.world s) = None)) ∧
  (Forall (Acc rest_of) ths → Acc next_state s).
Proof.
  intros Hr. split_and!.
  - apply opener_steps_rank in Hr. cbn in Hr. lia.
  - intros r Hret. by eapply scope_joins.
  - intros Hs Hret. destruct (opener_waits s Hs) as [[r Hr']|(Hp & _ & Hl)]; [congruence|].
    split_and!; [|done|].
    + apply run_length in Hr. unfold all_threads in Hr. rewrite Hp, app_nil_r in Hr. exact Hr.
    + intros Hstuck l. by apply stuck_threads.
  - intros Hacc. apply (next_state_wf (Scope.start ths w : Scope.t L W E A)) in Hacc.
    revert Hacc Hr. generalize (Scope.start ths w : Scope.t L W E A). clear. induction es as [|e es IH]; intros s0 Hacc Hr.
    + by injection Hr as <-.
    + cbn in Hr. destruct (Scope.step e s0) as [s1|] eqn:Hs; [|done]. cbn in Hr.
      apply (IH s1); [|done]. apply Hacc. by exists e.
Qed.

(** ** Threads that meet at a barrier *)

(** [barrier.wait()], for [needed] threads, before a result: the world counts the threads that have
    arrived, and each goes on once enough have. *)
Inductive place := Away | There | Gone.
Record waiter (R : Type) := Waiter { needed : nat; here : place; value : R }.
Arguments Waiter {R}.
Arguments needed {R}.
Arguments here {R}.
Arguments value {R}.

#[export] Instance waiter_thread {R} : Thread (waiter R) R := λ l,
  match here l with Gone => Some (value l) | _ => None end.
#[export] Instance waiter_advance {R} : Advance (waiter R) nat := λ l arrived,
  match here l with
  | Away => Some (Waiter (needed l) There (value l), S arrived)
  | There =>
    if needed l <=? arrived then Some (Waiter (needed l) Gone (value l), arrived) else None
  | Gone => None
  end.

Definition meeting {R} (n : nat) : R → waiter R := Waiter n Away.

Section barrier.
Context {E A : Type} (n : nat).
Import Scope.
Abbreviation thread := (waiter (result E A)).
Implicit Types (rs : list (result E A)) (places : list place).

Definition thread_at (r : result E A) (p : place) : thread := Waiter n p r.
Definition arrived (p : place) : nat := match p with Away => 0 | _ => 1 end.

Lemma sum_insert places i p q :
  places !! i = Some p →
  sum_list_with arrived (<[i := q]> places) + arrived p = sum_list_with arrived places + arrived q.
Proof.
  revert i. induction places as [|x places IH]; intros [|i] Hi; [done|done| |].
  - injection Hi as ->. cbn. lia.
  - specialize (IH i Hi).
    assert (<[S i := q]> (x :: places) = x :: <[i := q]> places) as -> by done.
    cbn [sum_list_with]. lia.
Qed.

Lemma sum_all places :
  (∀ p, p ∈ places → p ≠ Away) → sum_list_with arrived places = length places.
Proof.
  induction places as [|p places IH]; intros Hp; [done|]. cbn. rewrite IH by set_solver.
  destruct p; [|done..]. by destruct (Hp Away); [left|].
Qed.

Definition met rs (s : Scope.t thread nat E A) : Prop :=
  ∃ places, length places = length rs ∧ all_threads s = zip_with thread_at rs places ∧
    world s = sum_list_with arrived places.

(** A step of a thread that is at the barrier moves it on. *)
Lemma move_thread_at r p (w : nat) l' w' :
  move (thread_at r p) w = Some (l', w') →
  ∃ q, l' = thread_at r q ∧ w' + arrived p = w + arrived q.
Proof.
  intros [_ Ha]%move_Some. unfold advance in Ha. destruct p; cbn in Ha; [|case_match; [|done]|done]; injection Ha as <- <-.
  - exists There. split; [done|]. cbn. lia.
  - by exists Gone.
Qed.

Lemma met_step rs e s s' : met rs s → step e s = Some s' → met rs s'.
Proof.
  unfold met. intros (places & Hl & Hall & Hw) [(_ & -> & ->)|(i & l & l' & _ & Hi & Hm & ->)]%step_all.
  { by exists places. }
  rewrite Hall in Hi |- *. rewrite lookup_zip_with in Hi.
  destruct (rs !! i) as [r|] eqn:Hr; [|done]. destruct (places !! i) as [p|] eqn:Hp; [|done].
  cbn in Hi. injection Hi as <-. apply move_thread_at in Hm as (q & -> & Hq).
  exists (<[i := q]> places). rewrite length_insert. split_and!; [done|..].
  - rewrite <- (list_insert_id rs i r) at 2 by done. apply (insert_zip_with thread_at rs places i r q).
  - pose proof (sum_insert places i p q Hp). lia.
Qed.

Lemma met_run rs es s s' : met rs s → run es s = Some s' → met rs s'.
Proof.
  revert s. induction es as [|e es IH]; intros s Hm Hr; cbn in Hr; [by injection Hr as <-|].
  destruct (step e s) as [s1|] eqn:Hs; [|done]. cbn in Hr. eapply IH; [by eapply met_step|done].
Qed.

Lemma met_start rs : met rs (start (meeting n <$> rs) 0).
Proof.
  exists ((λ _, Away) <$> rs). split_and!.
  - apply length_fmap.
  - cbn. induction rs as [|r rs IH]; [done|]. cbn. by f_equal.
  - cbn. induction rs as [|r rs IH]; [done|]. exact IH.
Qed.

Lemma gone_outcomes rs places outcomes :
  length places = length rs → mapM result_of (zip_with thread_at rs places) = Some outcomes →
  outcomes = rs.
Proof.
  intros Hl Ho%mapM_Some. apply list_eq_same_length with (length rs); [done|..].
  - apply Forall2_length in Ho. rewrite length_zip_with in Ho. lia.
  - intros i r1 r2 _ H1 H2. destruct (Forall2_lookup_r _ _ _ _ _ Ho H1) as (l & Hi & Hr).
    rewrite lookup_zip_with, H2 in Hi. destruct (places !! i) as [p|]; [|done]. cbn in Hi.
    injection Hi as <-. unfold result_of, waiter_thread in Hr. cbn in Hr. destruct p; congruence.
Qed.
End barrier.

(** As many threads as the barrier is for get past it: a scope over them that cannot go on has
    returned all their results. A scope that joined a thread before it spawned the next would hang. *)
Theorem barrier_scope_completes {E A} (rs : list (result E A)) es s :
  Scope.run es (Scope.start (meeting (length rs) <$> rs) 0) = Some s →
  (∀ e, Scope.step e s = None) → Scope.returned s = Some (join_threads rs).
Proof.
  intros Hr Hstuck.
  destruct (met_run (length rs) rs es _ _ (met_start _ rs) Hr) as (places & Hl & Hall & Hw).
  destruct (opener_waits s (Hstuck _)) as [[r Hret]|(Hp & _ & l & Hin & Hn)].
  - rewrite Hret. destruct (scope_joins _ _ _ _ _ Hr Hret) as (outcomes & _ & Ho & ->).
    do 2 f_equal. unfold all_threads, Scope.returned in *. destruct (Scope.opener s); try done.
    cbn in Hall. rewrite app_nil_r in Hall. rewrite Hall in Ho. by eapply gone_outcomes.
  - exfalso. unfold all_threads in Hall. rewrite Hp, app_nil_r in Hall.
    assert (∀ i p, places !! i = Some p → p ≠ Gone → p = There ∧ Scope.world s < length rs) as Hwait.
    { intros i p Hi Hg. destruct (lookup_lt_is_Some_2 rs i) as [r Hr'].
      { rewrite <- Hl. by eapply lookup_lt_Some. }
      assert (thread_at (length rs) r p ∈ Scope.threads s) as Hth.
      { rewrite Hall. apply list_elem_of_lookup. exists i. by rewrite lookup_zip_with, Hr', Hi. }
      pose proof (stuck_threads s _ Hstuck Hth) as Ha. unfold result_of, advance, waiter_thread, waiter_advance in Ha.
      cbn in Ha.
      destruct p; [by specialize (Ha eq_refl)| |done]. specialize (Ha eq_refl).
      case_match eqn:Hle; [done|]. apply Nat.leb_gt in Hle. done. }
    assert (Scope.world s = length rs) as Hn'.
    { rewrite Hw, <- Hl. apply sum_all. intros p [i Hi]%list_elem_of_lookup ->.
      by destruct (Hwait i Away Hi). }
    rewrite Hall in Hin. apply list_elem_of_lookup in Hin as [i Hi]. rewrite lookup_zip_with in Hi.
    destruct (rs !! i) as [r|]; [|done]. destruct (places !! i) as [p|] eqn:Hpi; [|done].
    cbn in Hi. injection Hi as <-. destruct (Hwait i p Hpi); [by intros ->|lia].
Qed.

(** ** Concrete runs *)

(** Two threads that meet; the second one leaves first. *)
Definition demo_meeting (n : nat) : list (waiter (result () nat)) := meeting n <$> [Ok 7; Ok 8].
Definition demo_events : list Scope.event :=
  [Scope.Main; Scope.Run 0; Scope.Main; Scope.Main; Scope.Run 1; Scope.Run 1; Scope.Run 0;
   Scope.Main; Scope.Main; Scope.Main].

Example demo_returns :
  (Scope.run demo_events (Scope.start (demo_meeting 2) 0) ≫= Scope.returned) = Some (Ok [Ok 7; Ok 8]).
Proof. reflexivity. Qed.

(** The same threads wait forever at a barrier for three. *)
Definition demo_deadlock : Scope.t (waiter (result () nat)) nat () nat :=
  default (Scope.start [] 0) (Scope.run (take 5 demo_events) (Scope.start (demo_meeting 3) 0)).

Lemma demo_deadlock_stuck e : Scope.step e demo_deadlock = None.
Proof. by destruct e as [|[|[|i]]]. Qed.

Lemma demo_meeting_ends n : Forall (Acc (rest_of (W := nat) (A := nat))) (demo_meeting n).
Proof.
  assert (∀ r : result () nat, Acc (rest_of (W := nat)) (Waiter n Away r)) as H.
  { intros r. do 3 (constructor; intros ? (? & ? & [_ Hm]%move_Some); unfold advance in Hm; cbn in Hm;
      repeat case_match; simplify_eq). }
  constructor; [apply H|]. constructor; [apply H|]. constructor.
Qed.

(** The two threads wait, and the opener with them; it took three steps. *)
Lemma scope_ends_or_waits_witness :
  opener_steps (take 5 demo_events) ≤ 6 ∧ length (Scope.threads demo_deadlock) = 2 ∧
  (∀ l, l ∈ Scope.threads demo_deadlock → result_of l = None → advance l 2 = None) ∧
  Acc next_state demo_deadlock.
Proof.
  destruct (scope_ends_or_waits (demo_meeting 3) 0 (take 5 demo_events) demo_deadlock)
    as (Hn & _ & Hs & Hacc).
  - reflexivity.
  - destruct (Hs (demo_deadlock_stuck Scope.Main) eq_refl) as (Hl & _ & Hstuck).
    split; [exact Hn|]. split; [exact Hl|]. split; [exact (Hstuck demo_deadlock_stuck)|].
    exact (Hacc (demo_meeting_ends 3)).
Defined.

(** A thread that never ends keeps the scope from returning. *)
Inductive spinner := Spin.
#[export] Instance spinner_thread {R} : Thread spinner R := λ _, None.
#[export] Instance spinner_advance {W} : Advance spinner W := λ l w, Some (l, w).

Lemma spinning_scope es (s : Scope.t spinner () () nat) :
  Scope.run es (Scope.start [Spin] ()) = Some s → Scope.returned s = None.
Proof.
  intros Hr. destruct (Scope.returned s) as [r|] eqn:Hret; [|done].
  destruct (scope_joins _ _ _ _ _ Hr Hret) as ([|o outcomes] & Hl & Ho%mapM_Some & _); [done|].
  inversion Ho as [|? ? ? ? Hx]. discriminate Hx.
Qed.

(** A transport whose exchange with a participant is a connection, the service of the request, which
    the participants log together, and the end of the connection. *)
Module Exchange.
Inductive stage := Connecting | Sending | Receiving | Finished.
Definition t : Type := stage * ExecutionRequest.t.
Definition world : Type := gset string * list string.

Definition connect (request : ExecutionRequest.t) (w : world) : world :=
  ({[request_participant request]} ∪ w.1, w.2).
Definition serve (request : ExecutionRequest.t) (w : world) : world :=
  (w.1, w.2 ++ [ExecutionRequest.request_id request]).
Definition disconnect (request : ExecutionRequest.t) (w : world) : world :=
  (w.1 ∖ {[request_participant request]}, w.2).
Definition response (request : ExecutionRequest.t) : result TransportError.t ExecutionResponse.t :=
  Ok (ExecutionResponse.completed (ExecutionRequest.request_id request)).

#[global] Instance transport : Transport () world := λ _ request w,
  (response request, disconnect request (serve request (connect request w))).
#[global] Instance thread : Thread t (result TransportError.t ExecutionResponse.t) := λ l,
  match l.1 with Finished => Some (response l.2) | _ => None end.
#[global] Instance moves : Advance t world := λ l w,
  match l.1 with
  | Connecting => Some ((Sending, l.2), connect l.2 w)
  | Sending => Some ((Receiving, l.2), serve l.2 w)
  | Receiving => Some ((Finished, l.2), disconnect l.2 w)
  | Finished => None
  end.

Definition thread_of (request : ExecutionRequest.t) : t := (Connecting, request).
Definition served (l : t) : bool :=
  match l.1 with Connecting | Sending => false | Receiving | Finished => true end.
Definition own (participant : string) (l : t) : Prop := request_participant l.2 = participant.

Lemma thread_implements request : implements (thread_of request) (messages.dispatch () request).
Proof.
  intros w. do 3 (eapply alone_moves; [reflexivity|]). by apply alone_returned.
Qed.

Lemma stages_independent : independent own served.
Proof.
  split.
  - intros k [st q] w l' w' Ho [_ Hm]%move_Some. unfold advance, moves in Hm.
    by destruct st; cbn in Hm; simplify_eq.
  - intros k [st q] w l' w' Ho [_ Hm]%move_Some He. unfold advance, moves in Hm.
    by destruct st; cbn in Hm, He; simplify_eq.
  - intros k1 k2 [st1 q1] [st2 q2] [c log] l1' w1 l2' w2 Hk H1 H2 [_ Hm1]%move_Some [_ Hm2]%move_Some Hte.
    unfold own in H1, H2. cbn in H1, H2. rewrite <- H1, <- H2 in Hk.
    unfold advance, moves in Hm1, Hm2.
    destruct st1, st2; cbn in Hm1, Hm2; simplify_eq; try discriminate Hte;
      (eexists; split; [reflexivity|]; unfold move, connect, serve, disconnect; cbn).
    all: unfold advance, moves; cbn; unfold connect, serve, disconnect; cbn; do 3 f_equal; set_solver.
Qed.
End Exchange.

Definition idle : Exchange.world := (∅, []).

(** Both units of the plan are connected before either is served, and the second is served first. *)
Definition exchange_events : list Scope.event :=
  [Scope.Main; Scope.Main; Scope.Main; Scope.Run 0; Scope.Run 1; Scope.Run 1; Scope.Run 0;
   Scope.Run 0; Scope.Main; Scope.Run 1; Scope.Main; Scope.Main].
Definition exchange_dispatcher : ExecutionDispatcher.t () :=
  ExecutionDispatcher.new () (ExecutionDispatcher.endpoints demo_dispatcher).

Lemma dispatch_interleavings_witness :
  let log := [("w:" +:+ uuid_b)%string; ("w:" +:+ uuid_a)%string] in
  ∃ order : Schedule, CompleteSchedule order ∧
    ExecutionDispatcher.dispatch exchange_dispatcher demo_plan demo_workload idle =
      (Ok (DispatchReceipt.mk "w" (Identity.mk uuid_b Kind.LogicalNode) 2), (∅, log)).
Proof.
  cbv zeta.
  apply (dispatch_interleavings exchange_dispatcher Exchange.thread_of Exchange.own Exchange.served
    demo_plan demo_workload idle).
  - exact Exchange.stages_independent.
  - intros request. reflexivity.
  - intros request. apply Exchange.thread_implements.
  - apply (bool_decide_unpack _). vm_compute. exact I.
  - exists exchange_events. vm_compute. reflexivity.
Defined.
