(* ===== verification/virtual_machine.v ===== *)
(** * Virtual machines ([src/virtual_machine.rs])

    A virtual machine is made from a logical node, with or without leases on its allocations, and
    runs workloads on a backend while it is running and its leases are active. *)
From S2P Require Import prelude bytes time float identity uuid_demo resource node fabric.
From S2P Require Import participant registry scheduler lease runtime messages endpoint transport.
From S2P Require Import execution.
From stdpp Require Import list.

Module VirtualMachineState.
Inductive t := Created | Running | Stopped | Failed.
#[global] Instance eq_dec : EqDecision t.
Proof. solve_decision. Defined.
End VirtualMachineState.

Module VirtualMachineError.
Inductive t :=
| InvalidVirtualMachineIdentity
| InvalidLogicalNodeIdentity
| InvalidResources
| InvalidRuntime (e : NodeError.t)
| EmptyResources
| NodeMismatch
| ResourceMismatch
| RuntimeMismatch
| InvalidLease
| LeaseNodeMismatch
| LeaseParticipantMismatch
| LeaseResourceMismatch
| LeaseExpired
| Execution (e : ExecutionError.t)
| NotRunning.
#[global] Instance eq_dec : EqDecision t.
Proof. solve_decision. Defined.
End VirtualMachineError.

Module VirtualMachineSpec.
Record t := mk { resources : ResourceFragment.t; runtime : RuntimeSpec.t }.
#[global] Instance eq_dec : EqDecision t.
Proof. solve_decision. Defined.

Definition new (resources : ResourceFragment.t) (runtime : RuntimeSpec.t) : t :=
  {| resources := resources; runtime := runtime |}.

Definition validate (self : t) : result VirtualMachineError.t () :=
  _ ← ResourceFragment.validate (resources self) .map_err (λ _, VirtualMachineError.InvalidResources);
  _ ← RuntimeSpec.validate (runtime self) .map_err VirtualMachineError.InvalidRuntime;
  Ok ().
End VirtualMachineSpec.

Definition same_capacity (left right : ResourceFragment.t) : bool :=
  f64_eqb (ResourceFragment.cores left) (ResourceFragment.cores right) &&
  (ResourceFragment.mem left =? ResourceFragment.mem right)%N &&
  (ResourceFragment.sto left =? ResourceFragment.sto right)%N &&
  (ResourceFragment.bps left =? ResourceFragment.bps right)%N &&
  (ResourceFragment.units left =? ResourceFragment.units right)%N.

Abbreviation lease_participant l := (Identity.id (Lease.participant_id l)).

Module VirtualMachine.
Record t := mk {
  id : Identity.t;
  node_id : Identity.t;
  spec : VirtualMachineSpec.t;
  leases : list Lease.t;
  state : VirtualMachineState.t;
  created_at : SystemTime;
}.
#[global] Instance eq_dec : EqDecision t.
Proof. solve_decision. Defined.

Definition set_state (state : VirtualMachineState.t) (self : t) : t := {|
  id := id self; node_id := node_id self; spec := spec self; leases := leases self;
  state := state; created_at := created_at self;
|}.

Section new.
Context `{UuidLib}.

(** The loop that matches every lease with an allocation of the node. *)
Fixpoint check_leases (node_id : Identity.t) (allocations : list Allocation.t)
    (created_at : SystemTime) (leases : list Lease.t) : result VirtualMachineError.t () :=
  match leases with
  | [] => Ok ()
  | lease :: rest =>
    _ ← Lease.validate lease .map_err (λ _, VirtualMachineError.InvalidLease);
    if negb (bool_decide (Lease.logical_node_id lease = node_id))
    then Err VirtualMachineError.LeaseNodeMismatch
    else if negb (Lease.active_at lease created_at) then Err VirtualMachineError.LeaseExpired
    else
      allocation ← ok_or (CompositeResource.find_allocation
                            (Identity.id (Lease.participant_id lease)) allocations)
                     VirtualMachineError.LeaseParticipantMismatch;
      if negb (same_capacity (Allocation.resources allocation) (Lease.resources lease))
      then Err VirtualMachineError.LeaseResourceMismatch
      else check_leases node_id allocations created_at rest
  end.

(** The block under [if !leases.is_empty()]. *)
Definition match_leases (node : LogicalNode.t) (node_id : Identity.t) (leases : list Lease.t)
    (created_at : SystemTime) : result VirtualMachineError.t () :=
  let allocations := CompositeResource.allocations (LogicalNode.resources node) in
  match leases with
  | [] => Ok ()
  | _ =>
    if negb (length leases =? length allocations) then Err VirtualMachineError.InvalidLease
    else
      _ ← check_leases node_id allocations created_at leases;
      let unique_participants : gset string :=
        list_to_set ((λ l, lease_participant l) <$> leases) in
      if negb (size unique_participants =? length leases) then Err VirtualMachineError.InvalidLease
      else Ok ()
  end.

Definition from_node_with_leases (node : LogicalNode.t) (leases : list Lease.t)
    (created_at : SystemTime) : op nat VirtualMachineError.t t :=
  if (created_at =? SystemTime.UNIX_EPOCH)%Z then fail VirtualMachineError.InvalidResources
  else
    node_id ← lift (Identity.parse (LogicalNode.id node) Kind.LogicalNode
                      .map_err (λ _, VirtualMachineError.InvalidLogicalNodeIdentity));
    let resources := CompositeResource.capacity (LogicalNode.resources node) in
    if ResourceFragment.is_empty resources then fail VirtualMachineError.EmptyResources
    else
      let spec := VirtualMachineSpec.new resources (LogicalNode.runtime node) in
      _ ← lift (VirtualMachineSpec.validate spec);
      _ ← lift (match_leases node node_id leases created_at);
      id ← draw Kind.VirtualMachine;
      mret {|
        id := id; node_id := node_id; spec := spec; leases := leases;
        state := VirtualMachineState.Created; created_at := created_at |}.

Definition from_node (node : LogicalNode.t) (created_at : SystemTime)
    : op nat VirtualMachineError.t t :=
  from_node_with_leases node [] created_at.

Definition from_leased_node (node : LogicalNode.t) (leases : list Lease.t)
    (created_at : SystemTime) : op nat VirtualMachineError.t t :=
  match leases with
  | [] => fail VirtualMachineError.InvalidLease
  | _ => from_node_with_leases node leases created_at
  end.

Definition execution_plan (self : t) (node : LogicalNode.t) (workload : WorkItem)
    : result VirtualMachineError.t ExecutionPlan.t :=
  parsed ← Identity.parse (LogicalNode.id node) Kind.LogicalNode
             .map_err (λ _, VirtualMachineError.InvalidLogicalNodeIdentity);
  if negb (bool_decide (parsed = node_id self)) then Err VirtualMachineError.NodeMismatch
  else if negb (ResourceFragment.eqb (CompositeResource.capacity (LogicalNode.resources node))
                  (VirtualMachineSpec.resources (spec self)))
  then Err VirtualMachineError.ResourceMismatch
  else if negb (bool_decide (LogicalNode.runtime node = VirtualMachineSpec.runtime (spec self)))
  then Err VirtualMachineError.RuntimeMismatch
  else ExecutionPlan.from_node node workload .map_err VirtualMachineError.Execution.
End new.

(** [&mut self] next to the world a backend acts on. *)
Definition execute_at {B W} `{UuidLib} `{ExecutionBackend B W} (node : LogicalNode.t)
    (workload : WorkItem) (backend : B) (now : SystemTime)
    : op (t * W) VirtualMachineError.t ExecutionReceipt.t := λ '(self, w),
  if negb (bool_decide (state self = VirtualMachineState.Running))
  then (Err VirtualMachineError.NotRunning, (self, w))
  else if existsb (λ lease, negb (Lease.active_at lease now)) (leases self)
  then (Err VirtualMachineError.LeaseExpired, (self, w))
  else
    match execution_plan self node workload with
    | Err e => (Err e, (self, w))
    | Panic => (Panic, (self, w))
    | Ok plan =>
      match plan_execute plan backend workload w with
      | (Ok receipt, w') => (Ok receipt, (self, w'))
      | (Err error, w') =>
        (Err (VirtualMachineError.Execution error), (set_state VirtualMachineState.Failed self, w'))
      | (Panic, w') => (Panic, (self, w'))
      end
    end.

(** [execute] reads the clock: [now] is what [SystemTime::now] returns. *)
Definition execute {B W} `{UuidLib} `{ExecutionBackend B W} (now : SystemTime)
    (node : LogicalNode.t) (workload : WorkItem) (backend : B)
    : op (t * W) VirtualMachineError.t ExecutionReceipt.t :=
  execute_at node workload backend now.

Definition start : op t VirtualMachineError.t () :=
  state ← gets state;
  if negb (bool_decide (state = VirtualMachineState.Created))
  then fail VirtualMachineError.InvalidVirtualMachineIdentity
  else modify (set_state VirtualMachineState.Running).

Definition stop : op t VirtualMachineError.t () :=
  state ← gets state;
  if negb (bool_decide (state = VirtualMachineState.Running))
  then fail VirtualMachineError.InvalidVirtualMachineIdentity
  else modify (set_state VirtualMachineState.Stopped).

(** [fail], which always succeeds. *)
Definition mark_failed : t → t := set_state VirtualMachineState.Failed.
End VirtualMachine.

(** ** Making a virtual machine *)

(** Two fragments have the same quantities, whatever their lifetimes. *)
Definition same_quantities (a b : ResourceFragment.t) : Prop :=
  f64_eqb (ResourceFragment.cores a) (ResourceFragment.cores b) = true ∧
  ∀ f max, (f, max) ∈ integer_fields → f a = f b.

Lemma same_capacity_spec a b : same_capacity a b = true ↔ same_quantities a b.
Proof.
  unfold same_capacity, same_quantities. rewrite !andb_true_iff, !N.eqb_eq. split.
  - intros ((((? & ?) & ?) & ?) & ?). split; [done|]. intros f max Hf. by each_field Hf.
  - intros [Hc Hf]. split_and!; [done|..];
      eapply Hf; unfold integer_fields; rewrite !elem_of_cons; eauto.
Qed.

Lemma size_list_to_set_NoDup (l : list string) :
  size (list_to_set l : gset string) = length l ↔ NoDup l.
Proof.
  split; [|apply size_list_to_set].
  assert (∀ k : list string, size (list_to_set k : gset string) ≤ length k) as Hle.
  { induction k as [|x k IH]; [done|]. simpl. rewrite size_union_alt, size_singleton.
    assert (size (list_to_set k ∖ {[x]} : gset string) ≤ size (list_to_set k : gset string)); [|lia].
    apply subseteq_size. set_solver. }
  induction l as [|x l IH]; [constructor|]. simpl. intros Hs. apply NoDup_cons.
  destruct (decide (x ∈ l)) as [Hx|Hx].
  - assert ({[x]} ∪ list_to_set l = (list_to_set l : gset string)) as Heq by set_solver.
    rewrite Heq in Hs. specialize (Hle l). lia.
  - split; [done|]. apply IH. rewrite size_union, size_singleton in Hs by set_solver. lia.
Qed.

Section make.
Context `{UuidLib}.
Import VirtualMachine.
Implicit Types (node : LogicalNode.t) (l : Lease.t).

(** A lease that covers an allocation of [node] when the machine is made. *)
Record lease_fits node (created : SystemTime) l : Prop := {
  lf_valid : valid_lease l;
  lf_node : Lease.logical_node_id l = Identity.mk (LogicalNode.id node) Kind.LogicalNode;
  lf_active : Lease.active_at l created = true;
  lf_allocation : ∃ a, CompositeResource.allocation_for (LogicalNode.resources node)
      (lease_participant l) = Some a ∧ same_quantities (Allocation.resources a) (Lease.resources l);
}.

Lemma check_leases_ok node created ls :
  check_leases (Identity.mk (LogicalNode.id node) Kind.LogicalNode)
    (CompositeResource.allocations (LogicalNode.resources node)) created ls = Ok () ↔
  Forall (lease_fits node created) ls.
Proof.
  induction ls as [|l ls IH]; cbn [check_leases]; [done|]. rewrite Forall_cons, <- IH. split.
  - intros Hc. apply result_bind_ok in Hc as ([] & Hv%map_err_ok%lease_ok & Hc).
    case_match eqn:Hn; [done|]. case_match eqn:Ha; [done|].
    apply result_bind_ok in Hc as (a & Hf%ok_or_ok & Hc). case_match eqn:Hs; [done|]. bools.
    split; [|done]. split; [done..|]. exists a. by rewrite <- same_capacity_spec.
  - intros [[Hv%lease_ok Hn Ha (a & Hf & Hs)] Hrest]. rewrite Hv. simpl.
    rewrite bool_decide_true by done. rewrite Ha. simpl.
    unfold CompositeResource.allocation_for in Hf. rewrite Hf. simpl.
    by rewrite (proj2 (same_capacity_spec _ _) Hs).
Qed.

Lemma check_leases_no_panic nid al created ls : check_leases nid al created ls ≠ Panic.
Proof.
  induction ls as [|l ls IH]; cbn [check_leases]; [done|]. intros Hc. invert_result.
  - by eapply lease_no_panic.
  - do 2 (case_match; [done|]). invert_result. by case_match.
Qed.

Lemma match_leases_ok node created ls :
  ls ≠ [] →
  match_leases node (Identity.mk (LogicalNode.id node) Kind.LogicalNode) ls created = Ok () ↔
  length ls = length (CompositeResource.allocations (LogicalNode.resources node)) ∧
  Forall (lease_fits node created) ls ∧ NoDup ((λ l, lease_participant l) <$> ls).
Proof.
  intros Hne. rewrite <- check_leases_ok, <- size_list_to_set_NoDup, length_fmap.
  unfold match_leases. destruct ls as [|l ls]; [done|].
  destruct (length (l :: ls) =? length _)%nat eqn:Hl; cbn [negb].
  2: { apply Nat.eqb_neq in Hl. split; [done|]. by intros [? _]. }
  apply Nat.eqb_eq in Hl. rewrite result_bind_ok. split.
  - intros ([] & Hc & Hs). case_match eqn:He; [done|]. apply negb_false_iff, Nat.eqb_eq in He. done.
  - intros (_ & Hc & Hs). exists (). split; [done|]. by rewrite Hs, Nat.eqb_refl.
Qed.

Lemma match_leases_no_panic node nid ls created : match_leases node nid ls created ≠ Panic.
Proof.
  unfold match_leases. destruct ls; [done|]. intros Hm. case_match; [done|]. invert_result.
  - by eapply check_leases_no_panic.
  - by case_match.
Qed.

(** The node can carry a machine made at [created] with these leases. *)
Record can_host node (created : SystemTime) (ls : list Lease.t) : Prop := {
  ch_time : created ≠ SystemTime.UNIX_EPOCH;
  ch_id : v4_string (LogicalNode.id node);
  ch_resources : valid_requirement (CompositeResource.capacity (LogicalNode.resources node));
  ch_runtime : valid_runtime (LogicalNode.runtime node);
  ch_leases : match_leases node (Identity.mk (LogicalNode.id node) Kind.LogicalNode) ls created = Ok ();
}.

(** The machine made for the draw [n]. *)
Definition hosted node created ls (n : nat) : VirtualMachine.t := {|
  VirtualMachine.id := Identity.mk (uuid_to_string (new_v4 n)) Kind.VirtualMachine;
  VirtualMachine.node_id := Identity.mk (LogicalNode.id node) Kind.LogicalNode;
  VirtualMachine.spec := VirtualMachineSpec.mk
    (CompositeResource.capacity (LogicalNode.resources node)) (LogicalNode.runtime node);
  VirtualMachine.leases := ls;
  VirtualMachine.state := VirtualMachineState.Created;
  VirtualMachine.created_at := created;
|}.

Lemma vm_spec_ok s :
  VirtualMachineSpec.validate s = Ok () ↔
  valid_fragment (VirtualMachineSpec.resources s) ∧ valid_runtime (VirtualMachineSpec.runtime s).
Proof.
  unfold VirtualMachineSpec.validate. rewrite result_bind_ok. split.
  - intros ([] & Hf%map_err_ok%fragment_validate_ok & Hr).
    apply result_bind_ok in Hr as ([] & Hr%map_err_ok%runtime_spec_ok & _). done.
  - intros [Hf%fragment_validate_ok Hr%runtime_spec_ok]. exists (). by rewrite Hf, Hr.
Qed.

Lemma vm_spec_no_panic s : VirtualMachineSpec.validate s ≠ Panic.
Proof.
  unfold VirtualMachineSpec.validate. intros Hp. invert_result;
    [by eapply fragment_validate_no_panic|by eapply runtime_spec_no_panic].
Qed.

Lemma from_node_with_leases_cases node ls created n :
  (can_host node created ls ∧
   from_node_with_leases node ls created n = (Ok (hosted node created ls n), S n)) ∨
  (¬ can_host node created ls ∧ ∃ e, from_node_with_leases node ls created n = (Err e, n)).
Proof.
  unfold from_node_with_leases, lift, fail, mbind, op_bind.
  destruct (created =? SystemTime.UNIX_EPOCH)%Z eqn:Ht; bools.
  { right. split; [by intros []|eauto]. }
  destruct (Identity.parse _ _) as [nid|e|] eqn:Hp; [|right|by apply parse_no_panic in Hp].
  2: { split; [|eauto]. intros [_ Hv _ _ _].
       pose proof (proj2 (parse_ok _ Kind.LogicalNode _) (conj eq_refl Hv)). congruence. }
  apply parse_ok in Hp as [-> Hv]. cbn [map_err].
  destruct (ResourceFragment.is_empty _) eqn:He.
  { right. split; [|eauto]. intros [_ _ [_ ?] _ _]. congruence. }
  destruct (VirtualMachineSpec.validate _) as [[]|e|] eqn:Hs; [|right|by apply vm_spec_no_panic in Hs].
  2: { split; [|eauto]. intros [_ _ [Hf _] Hr _].
       pose proof (proj2 (vm_spec_ok (VirtualMachineSpec.new _ _)) (conj Hf Hr)). congruence. }
  apply vm_spec_ok in Hs as [Hf Hr].
  destruct (match_leases _ _ _ _) as [[]|e|] eqn:Hm; [left|right|by apply match_leases_no_panic in Hm].
  - split; [|done]. by split.
  - split; [|eauto]. intros [_ _ _ _ ?]. congruence.
Qed.
End make.

(** ** Running a virtual machine *)

Section run.
Context `{UuidLib}.
Import VirtualMachine.
Implicit Types (vm : VirtualMachine.t) (node : LogicalNode.t).

(** The node is still the one the machine was made from, and can be planned. *)
Definition still_hosts node (k : WorkItem) vm : Prop :=
  Workload.id k ≠ EmptyString ∧ plannable node ∧
  VirtualMachine.node_id vm = Identity.mk (LogicalNode.id node) Kind.LogicalNode ∧
  ResourceFragment.eqb (CompositeResource.capacity (LogicalNode.resources node))
    (VirtualMachineSpec.resources (VirtualMachine.spec vm)) = true ∧
  LogicalNode.runtime node = VirtualMachineSpec.runtime (VirtualMachine.spec vm).

(** The plan of a node that can be planned. *)
Definition plan_of node (k : WorkItem) : ExecutionPlan.t :=
  ExecutionPlan.mk (Workload.id k) (Identity.mk (LogicalNode.id node) Kind.LogicalNode)
    (LogicalNode.runtime node) (unit_of <$> CompositeResource.allocations (LogicalNode.resources node)).

Lemma execution_plan_ok vm node k p :
  execution_plan vm node k = Ok p ↔ still_hosts node k vm ∧ p = plan_of node k.
Proof.
  unfold execution_plan, still_hosts, plan_of. split.
  - intros Hp. apply result_bind_ok in Hp as (i & [-> Hv]%map_err_ok%parse_ok & Hp).
    case_match eqn:Hn; [done|]. case_match eqn:Hc; [done|]. case_match eqn:Hr; [done|]. bools.
    by apply map_err_ok, plan_from_node_ok in Hp as (Hk & Hpl & ->).
  - intros [(Hk & Hpl & Hn & Hc & Hr) ->].
    rewrite (proj2 (parse_ok _ Kind.LogicalNode _) (conj eq_refl (proj1 Hpl))). simpl.
    rewrite bool_decide_true by done. rewrite Hc, bool_decide_true by done. simpl.
    by rewrite map_err_ok, plan_from_node_ok.
Qed.

Lemma execution_plan_no_panic vm node k : execution_plan vm node k ≠ Panic.
Proof.
  unfold execution_plan. intros Hp. invert_result; [by eapply parse_no_panic|].
  do 3 (case_match; [done|]). invert_result. by eapply plan_from_node_no_panic.
Qed.

Definition runnable node k (now : SystemTime) vm : Prop :=
  VirtualMachine.state vm = VirtualMachineState.Running ∧
  Forall (λ l, Lease.active_at l now = true) (VirtualMachine.leases vm) ∧ still_hosts node k vm.

Lemma active_leases_guard ls now :
  existsb (λ l, negb (Lease.active_at l now)) ls = false ↔
  Forall (λ l, Lease.active_at l now = true) ls.
Proof.
  induction ls as [|l ls IH]; simpl; [done|]. by rewrite orb_false_iff, negb_false_iff, Forall_cons, IH.
Qed.

Lemma execute_at_cases {B W} `{ExecutionBackend B W} node k (backend : B) now vm (w : W) :
  (runnable node k now vm ∧
   execute_at node k backend now (vm, w) =
     match backend_execute backend (plan_of node k) k w with
     | (Ok receipt, w') => (Ok receipt, (vm, w'))
     | (Err e, w') =>
       (Err (VirtualMachineError.Execution e), (set_state VirtualMachineState.Failed vm, w'))
     | (Panic, w') => (Panic, (vm, w'))
     end) ∨
  (¬ runnable node k now vm ∧ ∃ e, execute_at node k backend now (vm, w) = (Err e, (vm, w)) ∧
   (VirtualMachine.state vm ≠ VirtualMachineState.Running → e = VirtualMachineError.NotRunning)).
Proof.
  unfold execute_at, runnable. rewrite <- active_leases_guard.
  case_bool_decide as Hs; cbn [negb].
  2: { right. split; [tauto|]. by exists VirtualMachineError.NotRunning. }
  destruct (existsb _ _); [right; split; [naive_solver|by eexists]|].
  destruct (execution_plan vm node k) as [p|e|] eqn:Hp.
  - left. apply execution_plan_ok in Hp as [Hh ->]. by split_and!.
  - right. split; [|by eexists]. intros (_ & _ & Hh).
    pose proof (proj2 (execution_plan_ok vm node k _) (conj Hh eq_refl)). congruence.
  - by apply execution_plan_no_panic in Hp.
Qed.

(** ** The lifecycle as a transition system *)

(** A call on the machine, next to the world its backends act on. *)
Inductive vm_step {W} : VirtualMachine.t * W → VirtualMachine.t * W → Prop :=
| vm_start vm w : vm_step (vm, w) ((start vm).2, w)
| vm_stop vm w : vm_step (vm, w) ((stop vm).2, w)
| vm_fail vm w : vm_step (vm, w) (mark_failed vm, w)
| vm_execute {B} `{ExecutionBackend B W} node k (backend : B) now vm w :
  vm_step (vm, w) (execute_at node k backend now (vm, w)).2.

Definition vm_rank (s : VirtualMachineState.t) : nat :=
  match s with
  | VirtualMachineState.Created => 0
  | VirtualMachineState.Running => 1
  | VirtualMachineState.Stopped => 2
  | VirtualMachineState.Failed => 3
  end.

Lemma start_spec vm :
  start vm = if decide (VirtualMachine.state vm = VirtualMachineState.Created)
             then (Ok (), set_state VirtualMachineState.Running vm)
             else (Err VirtualMachineError.InvalidVirtualMachineIdentity, vm).
Proof. unfold start, gets, fail, modify, mbind, op_bind. case_bool_decide; by case_decide. Qed.

Lemma stop_spec vm :
  stop vm = if decide (VirtualMachine.state vm = VirtualMachineState.Running)
            then (Ok (), set_state VirtualMachineState.Stopped vm)
            else (Err VirtualMachineError.InvalidVirtualMachineIdentity, vm).
Proof. unfold stop, gets, fail, modify, mbind, op_bind. case_bool_decide; by case_decide. Qed.

(** What a step keeps. *)
Definition vm_progress {W} (c c' : VirtualMachine.t * W) : Prop :=
  (∃ s, c'.1 = set_state s c.1) ∧
  vm_rank (VirtualMachine.state c.1) ≤ vm_rank (VirtualMachine.state c'.1) ∧
  (VirtualMachine.state c.1 ≠ VirtualMachineState.Running → c'.2 = c.2).

Lemma set_state_same vm : vm = set_state (VirtualMachine.state vm) vm.
Proof. by destruct vm. Qed.

Lemma vm_step_progress {W} (c c' : VirtualMachine.t * W) : vm_step c c' → vm_progress c c'.
Proof.
  intros [vm w|vm w|vm w|B HB node k backend now vm w]; unfold vm_progress; cbn [fst snd].
  - rewrite start_spec. case_decide as Hs; cbn [snd]; [rewrite Hs|];
      (split; [eauto using set_state_same|split; [simpl; lia|done]]).
  - rewrite stop_spec. case_decide as Hs; cbn [snd]; [rewrite Hs|];
      (split; [eauto using set_state_same|split; [simpl; lia|done]]).
  - split; [by eexists|split; [|done]]. simpl. destruct (VirtualMachine.state vm); simpl; lia.
  - destruct (execute_at_cases node k backend now vm w) as [[(Hs & _) ->]|(_ & e & -> & _)].
    + destruct (backend_execute _ _ _ w) as [[]]; cbn [fst snd]; rewrite ?Hs;
        (split; [eauto using set_state_same|split; [simpl; lia|done]]).
    + split; [eauto using set_state_same|done].
Qed.

Lemma vm_steps_progress {W} (c c' : VirtualMachine.t * W) :
  rtc vm_step c c' →
  (∃ s, c'.1 = set_state s c.1) ∧ vm_rank (VirtualMachine.state c.1) ≤ vm_rank (VirtualMachine.state c'.1) ∧
  (2 ≤ vm_rank (VirtualMachine.state c.1) → c'.2 = c.2).
Proof.
  induction 1 as [c|c c1 c' Hstep _ (IH1 & IH2 & IH3)].
  { split; [eauto using set_state_same|done]. }
  apply vm_step_progress in Hstep as ((s & Hs) & Hr & Hw).
  destruct IH1 as [s' Hs']. split_and!.
  - exists s'. by rewrite Hs', Hs.
  - lia.
  - intros Hge. rewrite IH3 by lia. apply Hw. intros Heq. rewrite Heq in Hge. simpl in Hge. lia.
Qed.
End run.

(** ** Properties *)

(** C17: a leased machine covers its node. It is made exactly from a usable node and as many leases
    as the node has allocations, all of them valid, active, on this node and on an allocation of
    the same capacity, with distinct participants; it then carries a new identity and the leases,
    and their participants are those of the allocations. A refusal draws no UUID. *)
Theorem leased_vm_covers_node `{UuidLib} (node : LogicalNode.t) (ls : list Lease.t) created n :
  let allocations := CompositeResource.allocations (LogicalNode.resources node) in
  let acceptable := ls ≠ [] ∧ created ≠ SystemTime.UNIX_EPOCH ∧ v4_string (LogicalNode.id node) ∧
    valid_requirement (CompositeResource.capacity (LogicalNode.resources node)) ∧
    valid_runtime (LogicalNode.runtime node) ∧ length ls = length allocations ∧
    Forall (lease_fits node created) ls ∧ NoDup ((λ l, lease_participant l) <$> ls) in
  match VirtualMachine.from_leased_node node ls created n with
  | (Ok vm, n') => acceptable ∧ n' = S n ∧ vm = hosted node created ls n ∧
      ((λ l, lease_participant l) <$> ls) ≡ₚ ids_of allocations
  | (Err _, n') => n' = n ∧ ¬ acceptable
  | (Panic, _) => False
  end.
Proof.
  cbv zeta. destruct (decide (ls = [])) as [->|Hne]; [simpl; tauto|].
  assert (VirtualMachine.from_leased_node node ls created n =
    VirtualMachine.from_node_with_leases node ls created n) as -> by (by destruct ls).
  destruct (from_node_with_leases_cases node ls created n) as [[Hc ->]|[Hc [e ->]]].
  - destruct Hc as [Ht Hid Hr Hrt (Hlen & Hf & Hnd)%match_leases_ok]; [|done].
    split; [done|]. split_and!; [done..|]. apply submseteq_length_Permutation.
    + apply NoDup_submseteq; [done|]. intros x (l & -> & Hl)%list_elem_of_fmap.
      rewrite Forall_forall in Hf. destruct (Hf l Hl) as [_ _ _ (a & Ha & _)].
      apply find_allocation_some in Ha as [Ha <-]. by apply list_elem_of_fmap_2.
    + rewrite !length_fmap. lia.
  - split; [done|]. intros (_ & Ht & Hid & Hr & Hrt & Hm). destruct Hc. split; [done..|].
    by apply match_leases_ok.
Qed.

(** C18: a workload reaches the backend exactly when the machine is running, all its leases are
    active, and the node is still the one it was made from and can be planned. The machine then
    stays running on success and becomes failed when the backend fails; otherwise neither the
    machine nor the world changes, and a machine that is not running says so. *)
Theorem vm_execute_spec {B W} `{UuidLib} `{ExecutionBackend B W} (node : LogicalNode.t) (k : WorkItem)
    (backend : B) (now : SystemTime) (vm : VirtualMachine.t) (w : W) :
  let res := VirtualMachine.execute_at node k backend now (vm, w) in
  (runnable node k now vm →
    let '(r, w') := backend_execute backend (plan_of node k) k w in
    res = (r .map_err VirtualMachineError.Execution,
           (if is_err r then VirtualMachine.set_state VirtualMachineState.Failed vm else vm, w'))) ∧
  (¬ runnable node k now vm → ∃ e, res = (Err e, (vm, w)) ∧
    (VirtualMachine.state vm ≠ VirtualMachineState.Running → e = VirtualMachineError.NotRunning)).
Proof.
  cbv zeta. destruct (execute_at_cases node k backend now vm w) as [[Hr ->]|[Hr He]]; [|tauto].
  split; [|done]. intros _. by destruct (backend_execute backend (plan_of node k) k w) as [[]].
Qed.

(** C35: Over any history of calls a machine keeps its identity, node, specification and leases, its
    state only moves forward from created over running to stopped or failed, and once it is stopped
    or failed no call lets a backend act on the world again. *)
Theorem vm_lifecycle_safety `{UuidLib} {W} (vm vm' : VirtualMachine.t) (w w' : W) :
  rtc vm_step (vm, w) (vm', w') →
  (∃ s, vm' = VirtualMachine.set_state s vm) ∧
  vm_rank (VirtualMachine.state vm) ≤ vm_rank (VirtualMachine.state vm') ∧
  (2 ≤ vm_rank (VirtualMachine.state vm) → w' = w).
Proof. apply vm_steps_progress. Qed.

(** ** A concrete machine *)

Definition demo_vm_resources : ResourceFragment.t := fragment f64_one 64 0 0 0 (Some 100%N).
Definition demo_node : LogicalNode.t := {|
  LogicalNode.id := uuid_a;
  LogicalNode.resources := CompositeResource.mk demo_vm_resources
    [Allocation.mk uuid_b demo_vm_resources];
  LogicalNode.runtime := RuntimeSpec.mk "rt" "1";
|}.
Definition demo_lease : Lease.t := {|
  Lease.id := Identity.mk uuid_b Kind.Lease;
  Lease.logical_node_id := Identity.mk uuid_a Kind.LogicalNode;
  Lease.participant_id := Identity.mk uuid_b Kind.Participant;
  Lease.resources := demo_vm_resources;
  Lease.created_at := 1000;
  Lease.expires_at := 1100;
|}.

(** A machine that ran one workload, was stopped, and refuses the next; and one past its lease. *)
Example demo_vm_run :
  match VirtualMachine.from_leased_node demo_node [demo_lease] 1000 0 with
  | (Ok vm, 1) =>
    let running := (VirtualMachine.start vm).2 in
    is_ok (VirtualMachine.execute_at demo_node demo_workload NoopBackend.mk 1050 (running, ())).1 = true ∧
    (VirtualMachine.execute_at demo_node demo_workload NoopBackend.mk 1100 (running, ())).1 =
      Err VirtualMachineError.LeaseExpired ∧
    (VirtualMachine.execute_at demo_node demo_workload NoopBackend.mk 1050
      ((VirtualMachine.stop running).2, ())).1 = Err VirtualMachineError.NotRunning
  | _ => False
  end.
Proof. vm_compute. auto. Qed.

Lemma vm_lifecycle_safety_witness :
  let vm := hosted demo_node 1000 [demo_lease] 0 in
  ∃ s, VirtualMachine.mark_failed (VirtualMachine.start vm).2 = VirtualMachine.set_state s vm.
Proof.
  cbv zeta.
  destruct (vm_lifecycle_safety (hosted demo_node 1000 [demo_lease] 0)
    (VirtualMachine.mark_failed (VirtualMachine.start (hosted demo_node 1000 [demo_lease] 0)).2) () ())
    as [Hs _].
  - eapply rtc_l; [apply vm_start|]. eapply rtc_l; [apply vm_fail|]. apply rtc_refl.
  - exact Hs.
Defined.
