(* ===== verification/pool.v ===== *)
(** * The accept loops of the server ([src/transport.rs])

    [TcpEndpointServer] serves one connection, a fixed number of them, or runs a pool of workers
    behind a bounded queue until it is told to stop. The pool is a transition system: [step] says
    what each event does, and when it can happen. A handler is one event, which never comes where
    the handler does not return; the channel is its queue, and the mutex around its receiver makes
    each [Take] atomic. The receiver is shared by the
    workers and the accept loop, so it outlives every worker and a send never fails. *)
From S2P Require Import prelude bytes time float identity uuid_demo resource node runtime.
From S2P Require Import messages endpoint transport codec codec_laws server execution.
From stdpp Require Import list.

(** A connection as [accept] returns it: the socket and what the peer sends and takes. *)
Module Incoming.
Record t := mk { socket : Accepted.t; stream : Stream.t }.
End Incoming.

Module TcpEndpointServer.
Record t (W : Type) := mk {
  endpoint : ExecutionHandler.t W;
  tls_config : bool;
  authorized_clients : option (gmap string (list (list u8)));
}.
Arguments mk {W}.
Arguments endpoint {W}.
Arguments tls_config {W}.
Arguments authorized_clients {W}.

(** [bind] and [bind_mtls], given whether the listener could be bound and what
    [build_server_tls_config] returned. *)
Definition bind_inner {W} (bound : bool) (endpoint : ExecutionHandler.t W) (tls_config : bool)
    (authorized_clients : option (gmap string (list (list u8)))) : result TransportError.t (t W) :=
  if bound
  then Ok {| endpoint := endpoint; tls_config := tls_config; authorized_clients := authorized_clients |}
  else Err TransportError.NetworkFailure.

Definition bind {W} (bound : bool) (endpoint : ExecutionHandler.t W) : result TransportError.t (t W) :=
  bind_inner bound endpoint false None.

Definition bind_mtls {W} (bound : bool) (config : result TransportError.t ())
    (endpoint : ExecutionHandler.t W) (authorized_clients : list AuthorizedClientCertificate.t)
    : result TransportError.t (t W) :=
  _ ← config;
  allowed ← build_client_allowlist authorized_clients;
  bind_inner bound endpoint true (Some allowed).

Section serve.
Context {W : Type} `{UuidLib} (debug_str : string → string) (self : t W).

(** [handle_connection] on a connection of this server; what it answers stays on its stream. *)
Definition handle (conn : Incoming.t) : op W TransportError.t () := λ w,
  let '(r, (_, w')) := handle_connection debug_str (Incoming.socket conn) (endpoint self)
    (tls_config self) (authorized_clients self) (Incoming.stream conn, w) in (r, w').

(** The handler of the pool, for an endpoint that always returns. *)
Definition pool_handle (conn : Incoming.t) (w : W) : option (result TransportError.t () * W) :=
  Some (handle conn w).

Definition serve_once (accept : option Incoming.t) : op W TransportError.t () :=
  conn ← lift (ok_or accept TransportError.NetworkFailure);
  handle conn.

(** The connections accepted before the first failure, and whether there was one. *)
Fixpoint accept_all (accepts : list (option Incoming.t)) : list Incoming.t * bool :=
  match accepts with
  | [] => ([], false)
  | None :: _ => ([], true)
  | Some conn :: rest => let '(conns, failed) := accept_all rest in (conn :: conns, failed)
  end.

(** [worker.join().map_err(..)??] in order. *)
Fixpoint join_all (outcomes : list (result TransportError.t ())) : result TransportError.t () :=
  match outcomes with
  | [] => Ok ()
  | Panic :: _ => Err TransportError.NetworkFailure
  | Err e :: _ => Err e
  | Ok _ :: rest => join_all rest
  end.

(** The threads of a call that returns early go on by themselves: the world is the one after all
    of them. *)
Definition serve_n `{Schedule} (accepts : list (option Incoming.t)) : op W TransportError.t () := λ w,
  let '(conns, failed) := accept_all accepts in
  let '(outcomes, w') := scope (handle <$> conns) (thread_order (length conns)) w in
  (if failed then Err TransportError.NetworkFailure else join_all outcomes, w').
End serve.
End TcpEndpointServer.

(** ** The pool *)

Module Worker.
Inductive t {Conn : Type} := Idle | Handling (conn : Conn) | Exited | Panicked.
Arguments t : clear implicits.
End Worker.

Module Acceptor.
Inductive t {Conn : Type} :=
| Checking | Accepting | Sending (conn : Conn)
| Joining (accept_result : result TransportError.t ()) | Returned (r : result TransportError.t ()).
Arguments t : clear implicits.
End Acceptor.

Module Event.
Inductive t {Conn : Type} :=
| Shutdown | Check_ | WouldBlock | Accept (conn : Conn) | ListenerFails | Send
| Take (i : nat) | Finish (i : nat) | Exit (i : nat) | Join.
Arguments t : clear implicits.
End Event.

Module Pool.
(** [accepted], [started] and [finished] are history: the connections in the order in which they
    were accepted and taken by a worker, and the handled ones with their outcomes. *)
Record t (Conn : Type) := mk {
  shutdown : bool;
  acceptor : Acceptor.t Conn;
  queue : list Conn;
  workers : list (Worker.t Conn);
  accepted : list Conn;
  started : list Conn;
  finished : list (Conn * result TransportError.t ());
}.
Arguments mk {Conn}.
Arguments shutdown {Conn}.
Arguments acceptor {Conn}.
Arguments queue {Conn}.
Arguments workers {Conn}.
Arguments accepted {Conn}.
Arguments started {Conn}.
Arguments finished {Conn}.

(** [available_parallelism().map(usize::from).unwrap_or(4).clamp(2, 32)] and twice as many, at
    least 16, pending connections. *)
Definition worker_count (available_parallelism : option nat) : nat :=
  Nat.min (Nat.max (default 4 available_parallelism) 2) 32.
Definition queue_capacity (worker_count : nat) : nat := Nat.max (worker_count * 2) 16.

Section pool.
(** The handler of a connection: its outcome and the world it leaves, [None] if it does not return
    in the world it runs in. *)
Context {Conn W : Type} (handle : Conn → W → option (result TransportError.t () * W)).
Context (capacity : nat).
Implicit Types p : t Conn.

Definition start (workers : nat) : t Conn :=
  mk false Acceptor.Checking [] (repeat Worker.Idle workers) [] [] [].

Definition set_acceptor a p : t Conn :=
  mk (shutdown p) a (queue p) (workers p) (accepted p) (started p) (finished p).
Definition set_worker i v p : t Conn :=
  mk (shutdown p) (acceptor p) (queue p) (<[i := v]> (workers p)) (accepted p) (started p) (finished p).

(** A worker that is done, and one that died. *)
Definition is_done (v : Worker.t Conn) : bool :=
  match v with Worker.Exited | Worker.Panicked => true | _ => false end.
Definition is_dead (v : Worker.t Conn) : bool := match v with Worker.Panicked => true | _ => false end.

(** [drop(sender)] has happened. *)
Definition sender_dropped p : bool :=
  match acceptor p with Acceptor.Joining _ | Acceptor.Returned _ => true | _ => false end.

(** What an event does, when it can happen. *)
Definition step (e : Event.t Conn) : t Conn * W → option (t Conn * W) := λ '(p, w),
  match e with
  | Event.Shutdown =>
    Some (mk true (acceptor p) (queue p) (workers p) (accepted p) (started p) (finished p), w)
  | Event.Check_ =>
    match acceptor p with
    | Acceptor.Checking =>
      Some (set_acceptor (if shutdown p then Acceptor.Joining (Ok ()) else Acceptor.Accepting) p, w)
    | _ => None
    end
  | Event.WouldBlock =>
    match acceptor p with
    | Acceptor.Accepting => Some (set_acceptor Acceptor.Checking p, w)
    | _ => None
    end
  | Event.Accept conn =>
    match acceptor p with
    | Acceptor.Accepting =>
      Some (mk (shutdown p) (Acceptor.Sending conn) (queue p) (workers p) (accepted p ++ [conn])
              (started p) (finished p), w)
    | _ => None
    end
  | Event.ListenerFails =>
    match acceptor p with
    | Acceptor.Accepting => Some (set_acceptor (Acceptor.Joining (Err TransportError.NetworkFailure)) p, w)
    | _ => None
    end
  | Event.Send =>
    match acceptor p with
    | Acceptor.Sending conn =>
      if length (queue p) <? capacity
      then Some (mk (shutdown p) Acceptor.Checking (queue p ++ [conn]) (workers p) (accepted p)
                   (started p) (finished p), w)
      else None
    | _ => None
    end
  | Event.Take i =>
    match workers p !! i, queue p with
    | Some Worker.Idle, conn :: rest =>
      Some (mk (shutdown p) (acceptor p) rest (<[i := Worker.Handling conn]> (workers p)) (accepted p)
              (started p ++ [conn]) (finished p), w)
    | _, _ => None
    end
  | Event.Finish i =>
    match workers p !! i with
    | Some (Worker.Handling conn) =>
      '(r, w') ← handle conn w;
      Some (mk (shutdown p) (acceptor p) (queue p)
              (<[i := if is_panic r then Worker.Panicked else Worker.Idle]> (workers p)) (accepted p)
              (started p) (finished p ++ [(conn, r)]), w')
    | _ => None
    end
  | Event.Exit i =>
    match workers p !! i, queue p with
    | Some Worker.Idle, [] =>
      if sender_dropped p then Some (set_worker i Worker.Exited p, w) else None
    | _, _ => None
    end
  | Event.Join =>
    match acceptor p with
    | Acceptor.Joining accept_result =>
      if forallb is_done (workers p)
      then Some (set_acceptor (Acceptor.Returned
             (if existsb is_dead (workers p) then Err TransportError.NetworkFailure else accept_result)) p, w)
      else None
    | _ => None
    end
  end.

Fixpoint run (es : list (Event.t Conn)) (c : t Conn * W) : option (t Conn * W) :=
  match es with
  | [] => Some c
  | e :: es => c' ← step e c; run es c'
  end.
End pool.

(** [serve_until]: [set_nonblocking] both ways around the pool. *)
Definition serve_until (set restored : bool) (run : result TransportError.t ())
    : result TransportError.t () :=
  if set then
    match run with
    | Ok () => if restored then Ok () else Err TransportError.NetworkFailure
    | r => r
    end
  else Err TransportError.NetworkFailure.
End Pool.

(** ** The invariant of the pool *)

Section invariant.
Context {Conn W : Type} (handle : Conn → W → option (result TransportError.t () * W)).
Context (capacity n : nat).
Import Pool.
Abbreviation pool := (Pool.t Conn).
Implicit Types (p : pool) (c : pool * W) (vs : list (Worker.t Conn)).

(** The connection the accept loop holds, and those the workers hold. *)
Definition sending (a : Acceptor.t Conn) : list Conn :=
  match a with Acceptor.Sending conn => [conn] | _ => [] end.
Definition held (v : Worker.t Conn) : list Conn :=
  match v with Worker.Handling conn => [conn] | _ => [] end.
Definition handling vs : list Conn := vs ≫= held.

Record pool_inv p : Prop := {
  pi_order : accepted p = started p ++ queue p ++ sending (acceptor p);
  pi_started : (finished p).*1 ++ handling (workers p) ≡ₚ started p;
  pi_bound : length (queue p) ≤ capacity;
  pi_workers : length (workers p) = n;
  pi_dead : existsb is_dead (workers p) = existsb is_panic (finished p).*2;
  pi_exited : Worker.Exited ∈ workers p → queue p = [] ∧ sender_dropped p = true;
  pi_joining : ∀ r, acceptor p = Acceptor.Joining r →
    (r = Ok () ∧ shutdown p = true) ∨ r = Err TransportError.NetworkFailure;
  pi_returned : ∀ r, acceptor p = Acceptor.Returned r → forallb is_done (workers p) = true ∧
    ((r = Ok () ∧ shutdown p = true ∧ existsb is_dead (workers p) = false) ∨
     r = Err TransportError.NetworkFailure);
}.

Lemma held_split vs i v : vs !! i = Some v → vs = take i vs ++ v :: drop (S i) vs.
Proof. intros Hi. symmetry. by apply take_drop_middle. Qed.

Lemma handling_insert vs i v v' :
  vs !! i = Some v → held v ++ handling (<[i := v']> vs) ≡ₚ held v' ++ handling vs.
Proof.
  intros Hi. rewrite insert_take_drop by (by eapply lookup_lt_Some).
  rewrite (held_split vs i v Hi) at 3. unfold handling. rewrite !bind_app, !bind_cons.
  solve_Permutation.
Qed.

Lemma existsb_insert (f : Worker.t Conn → bool) vs i v v' :
  vs !! i = Some v → f v = false → existsb f (<[i := v']> vs) = existsb f vs || f v'.
Proof.
  intros Hi Hv. rewrite insert_take_drop by (by eapply lookup_lt_Some).
  rewrite (held_split vs i v Hi) at 3. rewrite !existsb_app. simpl. rewrite Hv.
  destruct (existsb f (take i vs)), (f v'), (existsb f (drop (S i) vs)); done.
Qed.

Lemma exited_insert vs i v v' :
  vs !! i = Some v → Worker.Exited ∈ <[i := v']> vs → v' = Worker.Exited ∨ Worker.Exited ∈ vs.
Proof.
  intros Hi (j & Hj)%list_elem_of_lookup. apply list_lookup_insert_Some in Hj as [(<- & -> & _)|[_ Hj]].
  - by left.
  - right. by eapply list_elem_of_lookup_2.
Qed.

Lemma forallb_lookup (f : Worker.t Conn → bool) vs i v :
  forallb f vs = true → vs !! i = Some v → f v = true.
Proof.
  intros Hf Hi. rewrite forallb_forall in Hf. apply Hf, list_elem_of_In. by eapply list_elem_of_lookup_2.
Qed.

Lemma start_inv : pool_inv (start n).
Proof.
  split; simpl; try done.
  - unfold handling. induction n as [|k IH]; [done|]. exact IH.
  - lia.
  - by rewrite repeat_length.
  - induction n as [|k IH]; [done|]. exact IH.
  - intros Hin. apply list_elem_of_In, repeat_spec in Hin. done.
Qed.

Lemma set_acceptor_inv a p :
  sending a = sending (acceptor p) → (sender_dropped p = true → sender_dropped (set_acceptor a p) = true) →
  (∀ r, a = Acceptor.Joining r →
    (r = Ok () ∧ shutdown p = true) ∨ r = Err TransportError.NetworkFailure) →
  (∀ r, a = Acceptor.Returned r → forallb is_done (workers p) = true ∧
    ((r = Ok () ∧ shutdown p = true ∧ existsb is_dead (workers p) = false) ∨
     r = Err TransportError.NetworkFailure)) →
  pool_inv p → pool_inv (set_acceptor a p).
Proof.
  intros Ha Hd Hj Hr [? ? ? ? ? He ? ?]. split; simpl; try done.
  - by rewrite Ha.
  - intros Hex%He. naive_solver.
Qed.

Lemma take_inv p w i c : pool_inv p → step handle capacity (Event.Take i) (p, w) = Some c → pool_inv c.1.
Proof.
  intros [Ho Hs Hb Hw Hd He Hj Hr]. cbn [step].
  destruct (workers p !! i) as [[]|] eqn:Hi; try done. destruct (queue p) as [|conn rest] eqn:Hq; [done|].
  intros [= <-]. split; simpl.
  - rewrite Ho. by rewrite <- app_assoc.
  - pose proof (handling_insert _ _ _ (Worker.Handling conn) Hi) as Hp. simpl in Hp.
    rewrite Hp, <- Hs. rewrite <- (app_assoc _ _ [conn]). by rewrite (Permutation_app_comm _ [conn]).
  - simpl in Hb. lia.
  - by rewrite length_insert.
  - rewrite (existsb_insert _ _ _ _ _ Hi) by done. by rewrite orb_false_r.
  - intros Hex%(exited_insert _ _ _ _ Hi). destruct Hex as [?|Hex]; [done|]. by apply He in Hex as [? _].
  - done.
  - intros r Hret. destruct (Hr r Hret) as [Hdone _].
    by apply (forallb_lookup _ _ _ _ Hdone) in Hi.
Qed.

Lemma finish_inv p w i c : pool_inv p → step handle capacity (Event.Finish i) (p, w) = Some c → pool_inv c.1.
Proof.
  intros [Ho Hs Hb Hw Hd He Hj Hr]. cbn [step].
  destruct (workers p !! i) as [[|conn| |]|] eqn:Hi; try done.
  destruct (handle conn w) as [[r w']|]; [|done]. intros [= <-]. split; simpl; try done.
  - rewrite fmap_app, <- Hs, <- app_assoc. f_equiv.
    pose proof (handling_insert _ _ _ (if is_panic r then Worker.Panicked else Worker.Idle) Hi) as Hp.
    simpl in Hp |- *. rewrite Hp. by destruct r.
  - by rewrite length_insert.
  - rewrite (existsb_insert _ _ _ _ _ Hi) by done. rewrite Hd, fmap_app, existsb_app. simpl.
    by destruct r.
  - intros Hex%(exited_insert _ _ _ _ Hi). destruct Hex as [?|Hex]; [by destruct r|]. by apply He.
  - intros r' Hret. destruct (Hr r' Hret) as [Hdone _]. by apply (forallb_lookup _ _ _ _ Hdone) in Hi.
Qed.

Lemma exit_inv p w i c : pool_inv p → step handle capacity (Event.Exit i) (p, w) = Some c → pool_inv c.1.
Proof.
  intros [Ho Hs Hb Hw Hd He Hj Hr]. cbn [step].
  destruct (workers p !! i) as [[]|] eqn:Hi; try done. destruct (queue p) as [|] eqn:Hq; [|done].
  destruct (sender_dropped p) eqn:Hdrop; [|done]. intros [= <-]. split; simpl; try done.
  - by rewrite Hq.
  - pose proof (handling_insert _ _ _ (Worker.Exited) Hi) as Hp. simpl in Hp. by rewrite Hp.
  - by rewrite Hq.
  - by rewrite length_insert.
  - rewrite (existsb_insert _ _ _ _ _ Hi) by done. by rewrite orb_false_r.
  - intros r Hret. destruct (Hr r Hret) as [Hdone _]. by apply (forallb_lookup _ _ _ _ Hdone) in Hi.
Qed.

Lemma step_inv e p w c : pool_inv p → step handle capacity e (p, w) = Some c → pool_inv c.1.
Proof.
  intros Hinv. destruct e as [| | |conn| | |i|i|i|]; [| | | | | |by apply take_inv|by apply finish_inv
    |by apply exit_inv|]; cbn [step]; pose proof Hinv as [Ho Hs Hb Hw Hd He Hj Hr].
  - intros [= <-]. split; simpl; try done; naive_solver.
  - destruct (acceptor p) eqn:Ha; try done. intros [= <-].
    apply set_acceptor_inv; unfold sender_dropped; rewrite ?Ha; destruct (shutdown p) eqn:Hsd; simpl;
      intros; simplify_eq; auto.
  - destruct (acceptor p) eqn:Ha; try done. intros [= <-].
    apply set_acceptor_inv; unfold sender_dropped; rewrite ?Ha; simpl; intros; simplify_eq; auto.
  - destruct (acceptor p) eqn:Ha; try done. intros [= <-]. split; simpl; try done.
    + rewrite Ho. simpl. by rewrite app_nil_r, <- app_assoc.
    + intros Hex. destruct (He Hex) as [_ Hdrop]. unfold sender_dropped in Hdrop. by rewrite Ha in Hdrop.
  - destruct (acceptor p) eqn:Ha; try done. intros [= <-].
    apply set_acceptor_inv; unfold sender_dropped; rewrite ?Ha; simpl; intros; simplify_eq; auto.
  - destruct (acceptor p) eqn:Ha; try done. destruct (Nat.ltb_spec (length (queue p)) capacity); [|done].
    intros [= <-]. split; simpl; try done.
    + rewrite Ho. simpl. by rewrite app_nil_r.
    + rewrite length_app. simpl. lia.
    + intros Hex. destruct (He Hex) as [_ Hdrop]. unfold sender_dropped in Hdrop. by rewrite Ha in Hdrop.
  - destruct (acceptor p) as [| | |r|] eqn:Ha; try done. destruct (forallb is_done (workers p)) eqn:Hdone; [|done].
    intros [= <-]. apply set_acceptor_inv; try done; rewrite ?Ha; try done.
    intros r' [= <-]. split; [done|]. destruct (existsb is_dead (workers p)); [by right|].
    destruct (Hj r eq_refl) as [[-> ?]|?]; [by left|by right].
Qed.

Lemma run_inv es c c' : pool_inv c.1 → run handle capacity es c = Some c' → pool_inv c'.1.
Proof.
  revert c. induction es as [|e es IH]; intros c Hinv; cbn [run]; [by intros [= <-]|].
  destruct (step handle capacity e c) as [c1|] eqn:Hs; [|done]. cbn [mbind option_bind].
  apply IH. destruct c as [p w]. by apply (step_inv e p w).
Qed.
End invariant.

(** ** After a shutdown *)

Section shutdown.
Context {Conn W : Type} (handle : Conn → W → option (result TransportError.t () * W)).
Context (capacity n : nat).
Import Pool.
Abbreviation pool := (Pool.t Conn).
Implicit Types (p : pool) (c : pool * W) (vs : list (Worker.t Conn)).

(** The events a pool that was told to stop can still go through. *)
Definition accept_work (a : Acceptor.t Conn) : nat :=
  match a with
  | Acceptor.Accepting => 10 | Acceptor.Sending _ => 8 | Acceptor.Checking => 3
  | Acceptor.Joining _ => 2 | Acceptor.Returned _ => 0
  end.
Definition worker_work (v : Worker.t Conn) : nat :=
  match v with Worker.Idle => 1 | Worker.Handling _ => 3 | _ => 0 end.
Definition work p : nat :=
  accept_work (acceptor p) + 3 * length (queue p) + sum_list_with worker_work (workers p).

Lemma work_insert vs i v v' :
  vs !! i = Some v →
  sum_list_with worker_work (<[i := v']> vs) + worker_work v =
    sum_list_with worker_work vs + worker_work v'.
Proof.
  intros Hi. rewrite insert_take_drop by (by eapply lookup_lt_Some).
  rewrite (held_split vs i v Hi) at 3. rewrite !sum_list_with_app. simpl. lia.
Qed.

Lemma step_work e p w c :
  shutdown p = true → e ≠ Event.Shutdown → step handle capacity e (p, w) = Some c →
  shutdown c.1 = true ∧ work c.1 < work p.
Proof.
  intros Hsd He. destruct e as [| | |conn| | |i|i|i|]; cbn [step]; [done|..].
  1-5, 9: rewrite ?Hsd; destruct (acceptor p) eqn:Ha; try done; repeat (case_match; try done);
    intros [= <-]; (split; [done|]); unfold work; simpl; rewrite ?Ha, ?length_app; simpl; lia.
  - destruct (workers p !! i) as [[|conn| |]|] eqn:Hi; try done. destruct (queue p) as [|conn rest] eqn:Hq;
      [done|]. intros [= <-]. split; [done|]. unfold work. simpl. rewrite Hq.
    pose proof (work_insert _ _ _ (Worker.Handling conn) Hi). simpl in *. lia.
  - destruct (workers p !! i) as [[|conn| |]|] eqn:Hi; try done.
    destruct (handle conn w) as [[r w']|]; [|done]. intros [= <-]. split; [done|]. unfold work. simpl.
    pose proof (work_insert _ _ _ (if is_panic r then Worker.Panicked else Worker.Idle) Hi) as Hw.
    destruct r; simpl in *; lia.
  - destruct (workers p !! i) as [[|conn| |]|] eqn:Hi; try done. destruct (queue p) as [|] eqn:Hq; [|done].
    destruct (sender_dropped p); [|done]. intros [= <-]. split; [done|]. unfold work. simpl. rewrite Hq.
    pose proof (work_insert _ _ _ Worker.Exited Hi). simpl in *. lia.
Qed.

Lemma run_work es c c' :
  shutdown c.1 = true → Event.Shutdown ∉ es → run handle capacity es c = Some c' →
  length es + work c'.1 ≤ work c.1.
Proof.
  revert c. induction es as [|e es IH]; intros [p w] Hsd Hn; cbn [run]; [by intros [= <-]|].
  apply not_elem_of_cons in Hn as [He Hn].
  destruct (step handle capacity e (p, w)) as [c1|] eqn:Hs; [|done]. cbn [mbind option_bind].
  intros Hr. apply step_work in Hs as [Hsd1 Hw]; [|done..]. apply IH in Hr; [|done..]. simpl in *. lia.
Qed.

Lemma work_bound p : pool_inv capacity n p → work p ≤ 10 + 3 * capacity + 3 * n.
Proof.
  intros [_ _ Hb Hw _ _ _ _]. unfold work.
  assert (sum_list_with worker_work (workers p) ≤ 3 * length (workers p)).
  { clear. induction (workers p) as [|v vs IH]; simpl; [lia|]. destruct v; simpl; lia. }
  assert (accept_work (acceptor p) ≤ 10) by (destruct (acceptor p); simpl; lia). lia.
Qed.

(** The accept loop waits for room in a full queue that no worker is left to empty. *)
Definition hung p : Prop :=
  (∃ conn, acceptor p = Acceptor.Sending conn) ∧ length (queue p) = capacity ∧
  Forall (λ v, v = Worker.Panicked) (workers p).

(** A worker is in a handler that does not return. *)
Definition handles_forever (w : W) p : Prop :=
  ∃ i conn, workers p !! i = Some (Worker.Handling conn) ∧ handle conn w = None.

Lemma finish_disabled p w i conn :
  workers p !! i = Some (Worker.Handling conn) → step handle capacity (Event.Finish i) (p, w) = None →
  handles_forever w p.
Proof.
  intros Hi. cbn [step]. rewrite Hi. intros Hs. exists i, conn. split; [done|].
  by destruct (handle conn w) as [[]|].
Qed.

Lemma take_enabled p w i :
  workers p !! i = Some Worker.Idle → queue p ≠ [] → step handle capacity (Event.Take i) (p, w) ≠ None.
Proof. intros Hi Hq. cbn [step]. rewrite Hi. by destruct (queue p). Qed.

Lemma handling_or_not vs :
  (∃ i conn, vs !! i = Some (Worker.Handling conn)) ∨ ∀ i conn, vs !! i ≠ Some (Worker.Handling conn).
Proof.
  induction vs as [|v vs [(i & conn & Hi)|IH]]; [by right|left; by exists (S i), conn|].
  destruct v as [|conn| |]; [right|left; by exists 0, conn|right..]; intros [|i] c; done || apply IH.
Qed.

(** A pool that cannot go on has returned, or waits for a handler, or hangs. *)
Lemma pool_progress p w :
  0 < capacity → pool_inv capacity n p →
  (∀ e, e ≠ Event.Shutdown → step handle capacity e (p, w) = None) →
  (∃ r, acceptor p = Acceptor.Returned r) ∨ handles_forever w p ∨ hung p.
Proof.
  intros Hcap Hinv Hstuck.
  assert (∀ i conn, workers p !! i = Some (Worker.Handling conn) → handles_forever w p) as Hfin.
  { intros i conn Hi. eapply finish_disabled; [done|]. by apply Hstuck. }
  assert (handles_forever w p ∨ ∀ i conn, workers p !! i ≠ Some (Worker.Handling conn)) as [|Hnone].
  { destruct (handling_or_not (workers p)) as [(i & conn & Hi)|?]; [left; by eapply Hfin|by right]. }
  { right. by left. }
  pose proof Hinv as [_ _ Hb _ _ He _ _].
  destruct (acceptor p) as [| |conn|r|r] eqn:Ha; [| | | |by eauto].
  - specialize (Hstuck Event.Check_ ltac:(done)). cbn [step] in Hstuck. by rewrite Ha in Hstuck.
  - specialize (Hstuck Event.WouldBlock ltac:(done)). cbn [step] in Hstuck. by rewrite Ha in Hstuck.
  - right. right. pose proof (Hstuck Event.Send ltac:(done)) as Hsend. cbn [step] in Hsend. rewrite Ha in Hsend.
    destruct (Nat.ltb_spec (length (queue p)) capacity); [done|].
    split; [by eexists|]. split; [lia|]. apply Forall_lookup. intros i v Hi. destruct v as [|conn'| |].
    + exfalso. apply (take_enabled p w i Hi); [|by apply Hstuck]. intros Hq. rewrite Hq in *. simpl in *. lia.
    + by destruct (Hnone i conn').
    + apply list_elem_of_lookup_2, He in Hi as [_ Hd]. unfold sender_dropped in Hd. by rewrite Ha in Hd.
    + done.
  - exfalso. destruct (forallb is_done (workers p)) eqn:Hdone.
    { specialize (Hstuck Event.Join ltac:(done)). cbn [step] in Hstuck. by rewrite Ha, Hdone in Hstuck. }
    assert (∃ i v, workers p !! i = Some v ∧ is_done v = false) as (i & v & Hi & Hv).
    { clear -Hdone. induction (workers p) as [|v vs IH]; [done|]. simpl in Hdone.
      destruct (is_done v) eqn:Hv; [|by exists 0, v]. destruct (IH Hdone) as (i & v' & ? & ?).
      by exists (S i), v'. }
    destruct v as [|conn'| |]; try done.
    + destruct (queue p) as [|conn' rest] eqn:Hq.
      * specialize (Hstuck (Event.Exit i) ltac:(done)). cbn [step] in Hstuck. rewrite Hi, Hq in Hstuck.
        unfold sender_dropped in Hstuck. by rewrite Ha in Hstuck.
      * apply (take_enabled p w i Hi); [by rewrite Hq|by apply Hstuck].
    + by destruct (Hnone i conn').
Qed.

(** A pool that hangs does so for good. *)
Lemma hung_step e p w c : hung p → step handle capacity e (p, w) = Some c → hung c.1.
Proof.
  intros Hh Hs. pose proof Hh as ((conn & Ha) & Hq & Hw).
  destruct e as [| | |conn'| | |i|i|i|]; cbn [step] in Hs; rewrite ?Ha in Hs; try done.
  - injection Hs as <-. split; [by eexists|done].
  - destruct (Nat.ltb_spec (length (queue p)) capacity); [lia|done].
  - destruct (workers p !! i) as [v|] eqn:Hi; [|done]. rewrite Forall_lookup in Hw.
    by rewrite (Hw i v Hi) in Hs.
  - destruct (workers p !! i) as [v|] eqn:Hi; [|done]. rewrite Forall_lookup in Hw.
    by rewrite (Hw i v Hi) in Hs.
  - destruct (workers p !! i) as [v|] eqn:Hi; [|done]. rewrite Forall_lookup in Hw.
    by rewrite (Hw i v Hi) in Hs.
Qed.

Lemma hung_run es c c' : hung c.1 → run handle capacity es c = Some c' → hung c'.1.
Proof.
  revert c. induction es as [|e es IH]; intros [p w] Hh; cbn [run]; [by intros [= <-]|].
  destruct (step handle capacity e (p, w)) as [c1|] eqn:Hs; [|done]. cbn [mbind option_bind].
  apply IH. by apply (hung_step e p w).
Qed.
End shutdown.

(** ** Connections that kill workers *)

Section poison.
Context {Conn W : Type} (handle : Conn → W → option (result TransportError.t () * W)).
Context (capacity : nat) (conn : Conn) (Hpanic : ∀ w, ∃ w', handle conn w = Some (Panic, w')).
Import Pool.
Abbreviation pool := (Pool.t Conn).
Implicit Types (p : pool) (c : pool * W).

(** The accept loop is about to look at the flag, which is not set; [m] poisoned connections were
    accepted. *)
Record waiting (m : nat) p : Prop := {
  wt_checking : acceptor p = Acceptor.Checking;
  wt_flag : shutdown p = false;
  wt_accepted : accepted p = replicate m conn;
}.

Lemma run_app es1 es2 c :
  run handle capacity (es1 ++ es2) c = c' ← run handle capacity es1 c; run handle capacity es2 c'.
Proof.
  revert c. induction es1 as [|e es1 IH]; intros c; [done|]. cbn [app run].
  destruct (step handle capacity e c) as [c1|]; [apply IH|done].
Qed.

(** One more connection in the queue. *)
Lemma poison_queue m p w :
  waiting m p → length (queue p) < capacity →
  ∃ es p', run handle capacity es (p, w) = Some (p', w) ∧ waiting (S m) p' ∧
    queue p' = queue p ++ [conn] ∧ workers p' = workers p.
Proof.
  intros [Ha Hs Hacc] Hq. exists [Event.Check_; Event.Accept conn; Event.Send].
  eexists. split.
  - cbn [run step]. rewrite Ha, Hs. cbn -[Nat.ltb]. rewrite (proj2 (Nat.ltb_lt _ _) Hq). done.
  - split; [|done]. split; [done|done|]. cbn. by rewrite Hacc, <- replicate_S_end.
Qed.

(** One worker less. *)
Lemma poison_worker m p w i :
  waiting m p → queue p = [] → 0 < capacity → workers p !! i = Some Worker.Idle →
  ∃ es p' w', run handle capacity es (p, w) = Some (p', w') ∧ waiting (S m) p' ∧ queue p' = [] ∧
    workers p' = <[i := Worker.Panicked]> (workers p).
Proof.
  intros Hw Hq Hcap Hi.
  destruct (poison_queue m p w Hw) as (es & p1 & Hr & [Ha Hs Hacc] & Hq1 & Hw1); [by rewrite Hq|].
  destruct (Hpanic w) as [w' Hh]. exists (es ++ [Event.Take i; Event.Finish i]). do 2 eexists. split.
  - rewrite run_app, Hr. cbn [mbind option_bind run step]. rewrite Hw1, Hi, Hq1, Hq. cbn.
    rewrite list_lookup_insert_eq by (by eapply lookup_lt_Some). rewrite Hh. done.
  - split; [by split|]. split; [done|]. cbn. by rewrite list_insert_insert_eq.
Qed.

Lemma poison_workers n w k :
  0 < capacity → k ≤ n →
  ∃ es p w', run handle capacity es (start n, w) = Some (p, w') ∧ waiting k p ∧ queue p = [] ∧
    workers p = replicate k Worker.Panicked ++ replicate (n - k) Worker.Idle.
Proof.
  intros Hcap. induction k as [|k IH]; intros Hk.
  - exists [], (start n), w. split_and!; try done. cbn. rewrite Nat.sub_0_r.
    clear. induction n as [|n IH]; [done|]. simpl. by f_equal.
  - destruct IH as (es & p & w1 & Hr & Hwt & Hq & Hw); [lia|].
    replace (n - k) with (S (n - S k)) in Hw by lia. cbn [replicate] in Hw.
    destruct (poison_worker k p w1 k Hwt Hq Hcap) as (es' & p' & w' & Hr' & Hwt' & Hq' & Hw').
    { rewrite Hw, lookup_app_r; rewrite length_replicate; [|lia]. by rewrite Nat.sub_diag. }
    exists (es ++ es'), p', w'. split_and!; [|done..|].
    + by rewrite run_app, Hr.
    + rewrite Hw', Hw, insert_app_r_alt; rewrite length_replicate; [|lia].
      by rewrite Nat.sub_diag, replicate_S_end, <- app_assoc.
Qed.

Lemma poison_fill m p w k :
  waiting m p → queue p = [] → k ≤ capacity →
  ∃ es p', run handle capacity es (p, w) = Some (p', w) ∧ waiting (m + k) p' ∧ length (queue p') = k ∧
    workers p' = workers p.
Proof.
  intros Hwt Hq. induction k as [|k IH]; intros Hk.
  - exists [], p. rewrite Nat.add_0_r, Hq. by split_and!.
  - destruct IH as (es & p1 & Hr & Hwt1 & Hq1 & Hw1); [lia|].
    destruct (poison_queue (m + k) p1 w Hwt1) as (es' & p' & Hr' & Hwt' & Hq' & Hw'); [lia|].
    exists (es ++ es'), p'. split_and!.
    + by rewrite run_app, Hr.
    + by rewrite Nat.add_succ_r.
    + rewrite Hq', length_app. simpl. lia.
    + congruence.
Qed.

Lemma poison_hangs n w :
  0 < capacity → ∃ es p w', run handle capacity es (start n, w) = Some (p, w') ∧
    shutdown p = true ∧ accepted p = replicate (S (n + capacity)) conn ∧ hung capacity p.
Proof.
  intros Hcap. destruct (poison_workers n w n Hcap (le_n n)) as (es & p & w1 & Hr & Hwt & Hq & Hw).
  rewrite Nat.sub_diag, app_nil_r in Hw.
  destruct (poison_fill n p w1 capacity Hwt Hq (le_n _)) as (es' & p' & Hr' & [Ha Hs Hacc] & Hq' & Hw').
  exists ((es ++ es') ++ [Event.Check_; Event.Accept conn; Event.Shutdown]). do 2 eexists. split.
  - rewrite !run_app, Hr. cbn [mbind option_bind]. rewrite Hr'. cbn [mbind option_bind run step].
    rewrite Ha, Hs. cbn. done.
  - split; [done|]. split; [cbn; by rewrite Hacc, <- replicate_S_end|].
    split; [by eexists|]. split; [done|]. cbn. rewrite Hw', Hw. by apply Forall_replicate.
Qed.
End poison.

(** ** A fixed number of connections *)

Lemma join_all_ok outcomes :
  TcpEndpointServer.join_all outcomes = Ok () ↔ Forall (λ r, r = Ok ()) outcomes.
Proof.
  induction outcomes as [|[[]|e|] outcomes IH]; cbn [TcpEndpointServer.join_all]; rewrite ?Forall_cons;
    [done|naive_solver..].
Qed.

Lemma accept_all_spec accepts :
  let '(conns, failed) := TcpEndpointServer.accept_all accepts in
  if failed then ∃ rest, accepts = (Some <$> conns) ++ None :: rest else accepts = Some <$> conns.
Proof.
  induction accepts as [|[conn|] accepts IH]; cbn [TcpEndpointServer.accept_all]; [done| |by eexists].
  destruct (TcpEndpointServer.accept_all accepts) as [conns []].
  - destruct IH as [rest ->]. by exists rest.
  - by rewrite IH.
Qed.

(** ** Properties *)

(** The pool keeps account of every connection: those accepted were taken up in the order of
    their acceptance, or wait in the queue in that order, or are being sent to it; each one taken
    up was handled once or is held by a worker; the queue never exceeds its capacity. *)
Theorem pool_accounts_for_connections {Conn W}
    (handle : Conn → W → option (result TransportError.t () * W)) (capacity n : nat) es (w w' : W) p :
  Pool.run handle capacity es (Pool.start n, w) = Some (p, w') →
  Pool.accepted p = Pool.started p ++ Pool.queue p ++ sending (Pool.acceptor p) ∧
  (Pool.finished p).*1 ++ handling (Pool.workers p) ≡ₚ Pool.started p ∧
  length (Pool.queue p) ≤ capacity ∧ length (Pool.workers p) = n.
Proof.
  intros Hr. apply (run_inv handle capacity n) in Hr as [? ? ? ? _ _ _ _]; [done|]. apply start_inv.
Qed.

(** C8: a pool that returns success was told to stop, and every accepted connection was handled
    once, without a panic; when it returns an error, the listener failed or a handler panicked. *)
Theorem pool_drains_connections {Conn W}
    (handle : Conn → W → option (result TransportError.t () * W)) (capacity n : nat) es (w w' : W) p r (set restored : bool) :
  0 < n → Pool.run handle capacity es (Pool.start n, w) = Some (p, w') →
  Pool.acceptor p = Acceptor.Returned r →
  (Pool.serve_until set restored r = Ok () → set = true ∧ restored = true ∧ r = Ok ()) ∧
  (r = Ok () → Pool.shutdown p = true ∧ (Pool.finished p).*1 ≡ₚ Pool.accepted p ∧
    Forall (λ o, o.2 ≠ Panic) (Pool.finished p)) ∧
  (r ≠ Ok () → r = Err TransportError.NetworkFailure).
Proof.
  intros Hn Hr Hret. split; [by destruct set, r as [[]| |], restored|].
  apply (run_inv handle capacity n) in Hr as [Ho Hs Hb Hw Hd He _ Hinv]; [|apply start_inv].
  cbn [fst] in *. destruct (Hinv r Hret) as [Hdone Hcase].
  destruct Hcase as [(-> & Hsd & Hdead)| ->]; [split; [|done]; intros _|by split].
  split; [done|].
  assert (∀ v, v ∈ Pool.workers p → v = Worker.Exited) as Hall.
  { intros v Hin. rewrite forallb_forall in Hdone.
    specialize (Hdone v (proj1 (list_elem_of_In _ _) Hin)). destruct v; try done.
    exfalso. apply not_true_iff_false in Hdead. apply Hdead, existsb_exists. exists Worker.Panicked.
    split; [by apply list_elem_of_In|done]. }
  assert (handling (Pool.workers p) = []) as Hh.
  { clear -Hall. induction (Pool.workers p) as [|v vs IH]; [done|].
    rewrite (Hall v) by (by left). cbn. apply IH. intros v' Hin. apply Hall. by right. }
  assert (Pool.queue p = []) as Hq.
  { destruct (Pool.workers p) as [|v vs] eqn:Hvs; [simpl in Hw; lia|]. apply He.
    rewrite <- (Hall v) by (by left). by left. }
  rewrite Hh, app_nil_r in Hs. rewrite Hret, Hq in Ho. simpl in Ho. rewrite app_nil_r in Ho.
  rewrite Ho. split; [done|]. rewrite Hd in Hdead. apply Forall_forall. intros o Hin Hp.
  apply not_true_iff_false in Hdead. apply Hdead, existsb_exists. exists o.2.
  split; [|by rewrite Hp]. by apply list_elem_of_In, list_elem_of_fmap_2.
Qed.

(** C22: once told to stop, a pool goes through a bounded number of further events, and when it can
    go no further it has returned, unless a worker is in a handler that does not return, or all
    workers died while the accept loop waits for room in a full queue. *)
Theorem pool_shutdown_terminates {Conn W}
    (handle : Conn → W → option (result TransportError.t () * W)) (capacity n : nat) es (w w' : W) p :
  0 < capacity → Pool.run handle capacity es (Pool.start n, w) = Some (p, w') → Pool.shutdown p = true →
  ∀ es' p' w'', Event.Shutdown ∉ es' → Pool.run handle capacity es' (p, w') = Some (p', w'') →
    length es' ≤ 10 + 3 * capacity + 3 * n ∧
    ((∀ e, e ≠ Event.Shutdown → Pool.step handle capacity e (p', w'') = None) →
     (∃ r, Pool.acceptor p' = Acceptor.Returned r) ∨ handles_forever handle w'' p' ∨ hung capacity p').
Proof.
  intros Hcap Hr Hsd es' p' w'' Hn Hr'.
  apply (run_inv handle capacity n) in Hr; [|apply start_inv].
  pose proof (work_bound capacity n p Hr) as Hb.
  pose proof (run_work handle capacity es' (p, w') (p', w'') Hsd Hn Hr') as Hw. simpl in Hw.
  split; [lia|]. apply (pool_progress handle capacity n p' w'' Hcap).
  by apply (run_inv handle capacity n) in Hr'.
Qed.

(** C37: a peer whose connection makes the handler panic can stop a pool for good: one connection
    per worker, as many as the queue holds and one more lead to a state that no event, not even a
    shutdown, leaves, so the server neither serves nor returns. *)
Theorem poisoned_pool_hangs {Conn W}
    (handle : Conn → W → option (result TransportError.t () * W)) (capacity n : nat) (conn : Conn) (w : W) :
  (∀ w, ∃ w', handle conn w = Some (Panic, w')) → 0 < capacity →
  ∃ es p w', Pool.run handle capacity es (Pool.start n, w) = Some (p, w') ∧
    Pool.accepted p = replicate (S (n + capacity)) conn ∧ Pool.shutdown p = true ∧
    ∀ es' c, Pool.run handle capacity es' (p, w') = Some c → hung capacity c.1 ∧
      ¬ ∃ r, Pool.acceptor c.1 = Acceptor.Returned r.
Proof.
  intros Hp Hcap. destruct (poison_hangs handle capacity conn Hp n w Hcap)
    as (es & p & w' & Hr & Hsd & Hacc & Hh).
  exists es, p, w'. split_and!; try done. intros es' c Hc.
  pose proof (hung_run handle capacity es' (p, w') c Hh Hc) as Hh'. split; [done|].
  destruct Hh' as ((conn' & Ha) & _). intros [r Hret]. congruence.
Qed.

(** Serving a fixed number of connections succeeds exactly when all were accepted and every
    handler returned success, in whichever order the threads ran; every connection accepted before
    a failure is handled. *)
Theorem serve_n_spec {W} `{UuidLib} `{CompleteSchedule} debug_str (self : TcpEndpointServer.t W)
    (accepts : list (option Incoming.t)) (w : W) :
  let handle := TcpEndpointServer.handle debug_str self in
  let '(conns, failed) := TcpEndpointServer.accept_all accepts in
  let '(r, w') := TcpEndpointServer.serve_n debug_str self accepts w in
  (if failed then ∃ rest, accepts = (Some <$> conns) ++ None :: rest else accepts = Some <$> conns) ∧
  w' = run_order (handle <$> conns) (thread_order (length conns)) w ∧
  ∃ outcomes, length outcomes = length conns ∧
    (∀ i conn, conns !! i = Some conn → ∃ w1, outcomes !! i = Some (handle conn w1).1) ∧
    (r = Ok () ↔ failed = false ∧ Forall (λ o, o = Ok ()) outcomes).
Proof.
  cbv zeta. unfold TcpEndpointServer.serve_n. pose proof (accept_all_spec accepts) as Ha.
  destruct (TcpEndpointServer.accept_all accepts) as [conns failed].
  pose proof (scope_spec (TcpEndpointServer.handle debug_str self <$> conns) w) as Hs.
  rewrite length_fmap in Hs. destruct (scope _ _ w) as [outcomes w']. destruct Hs as (Hw & Hlen & Ho).
  split; [done|]. split; [done|]. exists outcomes. split; [done|]. split.
  - intros i conn Hi. apply Ho. by rewrite list_lookup_fmap, Hi.
  - destruct failed; [naive_solver|]. rewrite join_all_ok. naive_solver.
Qed.

(** ** A concrete pool *)

Definition demo_server : TcpEndpointServer.t (list string) :=
  TcpEndpointServer.mk demo_handler false None.
Definition demo_handle : Incoming.t → list string → option (result TransportError.t () * list string) :=
  TcpEndpointServer.pool_handle (λ s, s) demo_server.

(** A connection that carries a request, and one whose frame makes the reader panic. *)
Definition good_connection : Incoming.t :=
  Incoming.mk (Accepted.mk true (Ok None)) (demo_stream (frame (enc_request demo_request))).
Definition poisoned_connection : Incoming.t :=
  Incoming.mk (Accepted.mk true (Ok None)) (demo_stream (frame overflow_payload)).

Lemma poisoned_connection_panics w : ∃ w', demo_handle poisoned_connection w = Some (Panic, w').
Proof. eexists. vm_compute. reflexivity. Qed.

(** One connection is served by two workers, and the pool is told to stop. *)
Definition demo_events_served : list (Event.t Incoming.t) :=
  [Event.Check_; Event.WouldBlock; Event.Check_; Event.Accept good_connection; Event.Send; Event.Take 1;
   Event.Check_; Event.Shutdown; Event.WouldBlock; Event.Finish 1; Event.Check_].
Definition demo_events_stopped : list (Event.t Incoming.t) := [Event.Exit 0; Event.Exit 1; Event.Join].

Definition demo_pool (es : list (Event.t Incoming.t)) : Pool.t Incoming.t * list string :=
  default (Pool.start 0, []) (Pool.run demo_handle 16 es (Pool.start 2, [])).

Example demo_pool_serves :
  Pool.acceptor (demo_pool (demo_events_served ++ demo_events_stopped)).1 = Acceptor.Returned (Ok ()) ∧
  (demo_pool (demo_events_served ++ demo_events_stopped)).2 = ["w"].
Proof. vm_compute. by split. Qed.

(** A handler that does not return: the pool is told to stop and waits for its worker. *)
Definition endless_pool : Pool.t nat :=
  default (Pool.start 0) (fst <$> Pool.run (λ _ w, None) 16
    [Event.Check_; Event.Accept 7; Event.Send; Event.Take 0; Event.Shutdown; Event.Check_; Event.Exit 1]
    (Pool.start 2, ())).

Example endless_pool_waits :
  Pool.acceptor endless_pool = Acceptor.Joining (Ok ()) ∧ handles_forever (λ _ (w : ()), None) () endless_pool ∧
  Pool.step (λ _ (w : ()), None) 16 Event.Join (endless_pool, ()) = None.
Proof. split; [reflexivity|]. split; [by exists 0, 7|reflexivity]. Qed.

Lemma pool_accounts_for_connections_witness :
  let p := (demo_pool demo_events_served).1 in
  Pool.accepted p = Pool.started p ++ Pool.queue p ++ sending (Pool.acceptor p) ∧
  length (Pool.queue p) ≤ 16.
Proof.
  cbv zeta. destruct (pool_accounts_for_connections demo_handle 16 2 demo_events_served []
    (demo_pool demo_events_served).2 (demo_pool demo_events_served).1) as (Ho & _ & Hb & _).
  - vm_compute. reflexivity.
  - split; [exact Ho|exact Hb].
Defined.

Lemma pool_drains_connections_witness :
  (Pool.finished (demo_pool (demo_events_served ++ demo_events_stopped)).1).*1 ≡ₚ [good_connection].
Proof.
  destruct (pool_drains_connections demo_handle 16 2 (demo_events_served ++ demo_events_stopped) []
    (demo_pool (demo_events_served ++ demo_events_stopped)).2
    (demo_pool (demo_events_served ++ demo_events_stopped)).1 (Ok ()) true true) as (_ & H & _).
  - lia.
  - vm_compute. reflexivity.
  - vm_compute. reflexivity.
  - exact (proj1 (proj2 (H eq_refl))).
Defined.

Lemma pool_shutdown_terminates_witness :
  length demo_events_stopped ≤ 10 + 3 * 16 + 3 * 2.
Proof.
  refine (proj1 (pool_shutdown_terminates demo_handle 16 2 demo_events_served []
    (demo_pool demo_events_served).2 (demo_pool demo_events_served).1 _ _ _ demo_events_stopped
    (demo_pool (demo_events_served ++ demo_events_stopped)).1
    (demo_pool (demo_events_served ++ demo_events_stopped)).2 _ _)).
  - lia.
  - vm_compute. reflexivity.
  - vm_compute. reflexivity.
  - unfold demo_events_stopped. intros Hin. repeat (apply elem_of_cons in Hin as [?|Hin]; [discriminate|]).
    by apply elem_of_nil in Hin.
  - vm_compute. reflexivity.
Defined.

(** With four workers and room for sixteen connections, twenty-one poisoned ones are enough. *)
Lemma poisoned_pool_hangs_witness :
  let n := Pool.worker_count None in let capacity := Pool.queue_capacity n in
  ∃ es p w', Pool.run demo_handle capacity es (Pool.start n, []) = Some (p, w') ∧
    length (Pool.accepted p) = 21 ∧ Pool.shutdown p = true ∧
    ∀ es' c, Pool.run demo_handle capacity es' (p, w') = Some c →
      ¬ ∃ r, Pool.acceptor c.1 = Acceptor.Returned r.
Proof.
  cbv zeta.
  destruct (poisoned_pool_hangs demo_handle (Pool.queue_capacity (Pool.worker_count None))
    (Pool.worker_count None) poisoned_connection [] poisoned_connection_panics)
    as (es & p & w' & Hr & Hacc & Hsd & Hh); [cbn; lia|].
  exists es, p, w'. split_and!; [exact Hr|by rewrite Hacc, length_replicate|exact Hsd|].
  intros es' c Hc. exact (proj2 (Hh es' c Hc)).
Defined.

Lemma serve_n_spec_witness :
  TcpEndpointServer.serve_n (λ s, s) demo_server [Some good_connection; Some good_connection] [] =
    (Ok (), ["w"; "w"]) ∧
  ∃ outcomes : list (result TransportError.t ()), length outcomes = 2 ∧ Forall (λ o, o = Ok ()) outcomes.
Proof.
  pose proof (serve_n_spec (λ s, s) demo_server [Some good_connection; Some good_connection] []) as H.
  cbn [TcpEndpointServer.accept_all] in H.
  destruct (TcpEndpointServer.serve_n (λ s, s) demo_server _ []) as [r w'] eqn:E.
  vm_compute in E. injection E as <- <-. split; [reflexivity|].
  destruct H as (_ & _ & outcomes & Hlen & _ & Hok). exists outcomes. split; [exact Hlen|].
  exact (proj2 (proj1 Hok eq_refl)).
Defined.
