(* ===== verification/tls.v ===== *)
(** * Mutual TLS ([src/transport.rs])

    Loading certificates and keys, building the configurations of both ends, the server name of a
    locator, the handshake loop, and [TlsTcpTransport]. The rustls crates and the file system are
    the class [Rustls]; a connection that shakes hands is a [Session]. *)
From S2P Require Import prelude bytes net time float identity uuid_demo resource node runtime.
From S2P Require Import messages endpoint transport codec codec_laws server execution pool.

(** What the code calls in [std::fs], [rustls_pemfile] and [rustls]; [None] is an error. A file is
    what is read from it: its certificates, each of which may fail, and its first private key. *)
Class Rustls := {
  File : Type;
  File_open : string → option File;
  pemfile_certs : File → list (option certificate);
  PrivateKeyDer : Type;
  pemfile_private_key : File → option (option PrivateKeyDer);
  RootCertStore : Type;
  RootCertStore_empty : RootCertStore;
  RootCertStore_add : RootCertStore → certificate → option RootCertStore;
  ClientVerifier : Type;
  WebPkiClientVerifier_build : RootCertStore → option ClientVerifier;
  ClientConfig : Type;
  with_client_auth_cert : RootCertStore → list certificate → PrivateKeyDer → option ClientConfig;
  ServerConfig : Type;
  with_single_cert : ClientVerifier → list certificate → PrivateKeyDer → option ServerConfig;
  ServerName : Type;
  ServerName_IpAddress : IpAddr.t → ServerName;
  ServerName_try_from : string → option ServerName;
}.

(** ** The server name of a locator *)

Definition server_name_for_locator `{Rustls} (locator : string) : result TransportError.t ServerName :=
  match parse_socket_addr (as_bytes locator) with
  | Some address => Ok (ServerName_IpAddress (SocketAddr.ip address))
  | None =>
    '(host, port) ← ok_or (rsplit_once ":"%char (as_bytes locator)) TransportError.InvalidLocator;
    if bool_decide (parse_u16 port = None) then Err TransportError.InvalidLocator
    else
      let host := strip_brackets host in
      if bool_decide (host = []) then Err TransportError.InvalidLocator
      else
        match parse_ip_addr host with
        | Some address => Ok (ServerName_IpAddress address)
        | None =>
          ok_or (ServerName_try_from (Stdlib.Strings.String.string_of_list_ascii host)) TransportError.TlsConfigurationFailure
        end
  end.

(** ** Certificates and configurations *)

Abbreviation tls_failure := TransportError.TlsConfigurationFailure (only parsing).

Section config.
Context `{Rustls}.

Definition load_certificates (path : string) : result TransportError.t (list certificate) :=
  file ← ok_or (File_open path) tls_failure;
  certificates ← ok_or (mapM id (pemfile_certs file)) tls_failure;
  match certificates with
  | [] => Err tls_failure
  | _ => Ok certificates
  end.

Definition load_private_key (path : string) : result TransportError.t PrivateKeyDer :=
  file ← ok_or (File_open path) tls_failure;
  key ← ok_or (pemfile_private_key file) tls_failure;
  ok_or key tls_failure.

Fixpoint add_roots (roots : RootCertStore) (certificates : list certificate)
    : result TransportError.t RootCertStore :=
  match certificates with
  | [] => Ok roots
  | certificate :: rest =>
    roots ← ok_or (RootCertStore_add roots certificate) tls_failure;
    add_roots roots rest
  end.

Definition load_root_certificates (path : string) : result TransportError.t RootCertStore :=
  certificates ← load_certificates path;
  add_roots RootCertStore_empty certificates.

Definition build_server_tls_config (server_certificate_chain_pem server_private_key_pem
    trusted_client_ca_pem : string) : result TransportError.t ServerConfig :=
  client_roots ← load_root_certificates trusted_client_ca_pem;
  client_verifier ← ok_or (WebPkiClientVerifier_build client_roots) tls_failure;
  certificates ← load_certificates server_certificate_chain_pem;
  private_key ← load_private_key server_private_key_pem;
  ok_or (with_single_cert client_verifier certificates private_key) tls_failure.
End config.

(** [AuthorizedClientCertificate::from_pem] and [TcpEndpointServer::bind_mtls] on files. *)
Definition client_from_pem `{UuidLib, Rustls} (participant_id : Identity.t) (certificate_pem : string)
    : result TransportError.t AuthorizedClientCertificate.t :=
  AuthorizedClientCertificate.from_pem participant_id (load_certificates certificate_pem).

Definition bind_mtls_files `{Rustls} {W} (bound : bool) (endpoint : ExecutionHandler.t W)
    (server_certificate_chain_pem server_private_key_pem trusted_client_ca_pem : string)
    (authorized_clients : list AuthorizedClientCertificate.t)
    : result TransportError.t (TcpEndpointServer.t W) :=
  TcpEndpointServer.bind_mtls bound
    ((λ _, ()) <$> build_server_tls_config server_certificate_chain_pem server_private_key_pem
                     trusted_client_ca_pem)
    endpoint authorized_clients.

(** ** Handshakes *)

(** [rustls::ClientConnection] and [rustls::ServerConnection] over a socket: [complete_io] does
    input and output on it, and fails when the peer is refused or the socket breaks. rustls documents
    that on a connection that is handshaking it returns only when the handshake is complete. *)
Class Session (S Socket : Type) := {
  is_handshaking : S → bool;
  complete_io : S → Socket → option (S * Socket);
  complete_io_handshake s socket s' socket' :
    is_handshaking s = true → complete_io s socket = Some (s', socket') → is_handshaking s' = false;
}.

Section handshake.
Context {S Socket : Type} `{Session S Socket}.

(** [while connection.is_handshaking() { connection.complete_io(&mut socket)?; }]; [Panic] marks
    the end of the fuel. *)
Fixpoint handshake_loop (fuel : nat) (connection : S) (socket : Socket)
    : result TransportError.t (S * Socket) :=
  if is_handshaking connection then
    match fuel with
    | O => Panic
    | Datatypes.S fuel =>
      '(connection, socket) ← ok_or (complete_io connection socket) TransportError.TlsHandshakeFailure;
      handshake_loop fuel connection socket
    end
  else Ok (connection, socket).

(** One round is enough ([handshake_fuel]). *)
Definition handshake (connection : S) (socket : Socket) : result TransportError.t (S * Socket) :=
  handshake_loop 1 connection socket.
End handshake.

(** What the code calls of the two kinds of connections: on the client's side a socket is a
    [Connection], and [StreamOwned::new] makes one of it that encrypts. *)
Class ClientSessions `{Rustls} (W : Type) := {
  ClientConnection : Type;
  ClientConnection_session :: Session ClientConnection (Connection.t W);
  ClientConnection_new : ClientConfig → ServerName → option ClientConnection;
  StreamOwned_new : ClientConnection → Connection.t W → Connection.t W;
}.

Class ServerSessions `{Rustls} (Socket : Type) := {
  ServerConnection : Type;
  ServerConnection_session :: Session ServerConnection Socket;
  ServerConnection_new : ServerConfig → option ServerConnection;
  peer_certificates : ServerConnection → option (list certificate);
}.

(** The server's side of [handle_connection] up to the certificate of the peer. *)
Definition server_handshake `{ServerSessions Socket} (config : ServerConfig) (socket : Socket)
    : result TransportError.t (option certificate) :=
  connection ← ok_or (ServerConnection_new config) TransportError.TlsConfigurationFailure;
  '(connection, _) ← handshake connection socket;
  Ok (peer_certificates connection ≫= head).

(** A socket that a server with this configuration accepted. *)
Definition accepted_socket `{ServerSessions Socket} (timeouts_set : bool) (config : ServerConfig)
    (socket : Socket) : Accepted.t :=
  Accepted.mk timeouts_set (server_handshake config socket).

(** ** The client *)

Module TlsTcpTransport.
Record t `{Rustls} := mk { config : ClientConfig }.

Definition from_pem_files `{Rustls} (trusted_server_ca_pem client_certificate_chain_pem
    client_private_key_pem : string) : result TransportError.t t :=
  roots ← load_root_certificates trusted_server_ca_pem;
  certificates ← load_certificates client_certificate_chain_pem;
  private_key ← load_private_key client_private_key_pem;
  config ← ok_or (with_client_auth_cert roots certificates private_key)
             TransportError.TlsConfigurationFailure;
  Ok {| config := config |}.

Section transport.
Context {Addr W : Type} `{Network Addr W} `{UuidLib} `{Rustls} `{!ClientSessions W}.

(** Everything before the request is written. *)
Definition connect (self : t) (request : ExecutionRequest.t)
    : result TransportError.t (Connection.t W) :=
  let locator := ExecutionEndpoint.locator (ExecutionRequest.endpoint request) in
  _ ← validate_transport_request request;
  if bool_decide (ExecutionRequest.source_participant_id request = None)
  then Err TransportError.MissingSourceIdentity
  else
    server_name ← server_name_for_locator locator;
    socket ← connect_with_timeout locator;
    _ ← configure_stream socket;
    connection ← ok_or (ClientConnection_new (config self) server_name)
                   TransportError.TlsConfigurationFailure;
    '(connection, socket) ← handshake connection socket;
    Ok (StreamOwned_new connection socket).

#[global] Instance transport : Transport t W := λ self request,
  stream ← lift (connect self request);
  response ← exchange stream request;
  lift (check_response request response).
End transport.
End TlsTcpTransport.

(** ** Lemmas *)

Section config_laws.
Context `{Rustls}.

Lemma mapM_id_some {A} (l : list (option A)) k : mapM id l = Some k ↔ l = Some <$> k.
Proof.
  revert k. induction l as [|[a|] l IH]; intros k; cbn [mapM].
  - split; [by intros [= <-]|]. by destruct k.
  - simpl. destruct (mapM id l) as [m|]; simpl.
    + split; [intros [= <-]; cbn; by rewrite (proj1 (IH m) eq_refl)|].
      destruct k as [|b k]; [done|]. cbn. intros [= -> Hl]. by apply IH in Hl as [= ->].
    + split; [done|]. destruct k as [|b k]; [done|]. cbn. intros [= -> Hl]. by apply IH in Hl.
  - split; [done|]. by destruct k.
Qed.

Lemma load_certificates_ok path l :
  load_certificates path = Ok l ↔
  ∃ file, File_open path = Some file ∧ pemfile_certs file = Some <$> l ∧ l ≠ [].
Proof.
  unfold load_certificates. split.
  - intros Hl. invert_result. rename select (mapM id _ = _) into Hm. apply mapM_id_some in Hm.
    case_match; simplify_eq; by eexists.
  - intros (file & -> & Hm%mapM_id_some & Hne). simpl. rewrite Hm. simpl. by destruct l.
Qed.

Lemma load_private_key_ok path key :
  load_private_key path = Ok key ↔
  ∃ file, File_open path = Some file ∧ pemfile_private_key file = Some (Some key).
Proof.
  unfold load_private_key. split.
  - intros Hl. invert_result. by eexists.
  - by intros (file & -> & Hk); simpl; rewrite Hk.
Qed.

(** ** What the files must hold *)

(** A file of certificates, all readable, at least one; a file with a key; a store that takes all
    the certificates of a file. *)
Definition holds_certificates (path : string) (l : list certificate) : Prop :=
  ∃ file, File_open path = Some file ∧ pemfile_certs file = Some <$> l ∧ l ≠ [].
Definition holds_key (path : string) (key : PrivateKeyDer) : Prop :=
  ∃ file, File_open path = Some file ∧ pemfile_private_key file = Some (Some key).
Inductive holds_roots : RootCertStore → list certificate → RootCertStore → Prop :=
| roots_nil roots : holds_roots roots [] roots
| roots_cons roots roots1 roots2 c l :
  RootCertStore_add roots c = Some roots1 → holds_roots roots1 l roots2 →
  holds_roots roots (c :: l) roots2.
Definition trusts (path : string) (roots : RootCertStore) : Prop :=
  ∃ l, holds_certificates path l ∧ holds_roots RootCertStore_empty l roots.

Lemma add_roots_ok roots l roots' : add_roots roots l = Ok roots' ↔ holds_roots roots l roots'.
Proof.
  split.
  - revert roots. induction l as [|c l IH]; intros roots; cbn [add_roots].
    + intros [= ->]. constructor.
    + intros Ha. invert_result. econstructor; [done|by apply IH].
  - induction 1 as [|roots roots1 roots2 c l Hc _ IH]; [done|]. cbn [add_roots]. by rewrite Hc.
Qed.

Lemma load_root_certificates_ok path roots : load_root_certificates path = Ok roots ↔ trusts path roots.
Proof.
  unfold load_root_certificates, trusts. rewrite result_bind_ok.
  by setoid_rewrite load_certificates_ok; setoid_rewrite add_roots_ok.
Qed.

(** A configuration step fails only as a configuration failure. *)
Definition config_step {A} (r : result TransportError.t A) : Prop :=
  match r with Ok _ => True | Err e => e = tls_failure | Panic => False end.

Lemma config_step_bind {A B} (r : result TransportError.t A) (f : A → result TransportError.t B) :
  config_step r → (∀ a, config_step (f a)) → config_step (r ≫= f).
Proof. destruct r; simpl; auto. Qed.
Lemma config_step_ok_or {A} (o : option A) : config_step (ok_or o tls_failure).
Proof. by destruct o. Qed.
Lemma config_step_success {A} (a : A) : config_step (Ok a).
Proof. done. Qed.
#[local] Hint Resolve config_step_bind config_step_ok_or config_step_success : core.

Lemma load_certificates_step path : config_step (load_certificates path).
Proof. unfold load_certificates. do 2 (apply config_step_bind; [auto|intros ?]). by case_match. Qed.
Lemma load_private_key_step path : config_step (load_private_key path).
Proof. unfold load_private_key. auto. Qed.
Lemma load_root_certificates_step path : config_step (load_root_certificates path).
Proof.
  apply config_step_bind; [apply load_certificates_step|]. intros l.
  generalize RootCertStore_empty. induction l as [|c l IH]; intros roots; cbn [add_roots]; [done|auto].
Qed.
#[local] Hint Resolve load_certificates_step load_private_key_step load_root_certificates_step : core.

Lemma build_server_tls_config_step chain key ca : config_step (build_server_tls_config chain key ca).
Proof. unfold build_server_tls_config. auto 10. Qed.
Lemma from_pem_files_step ca chain key : config_step (TlsTcpTransport.from_pem_files ca chain key).
Proof. unfold TlsTcpTransport.from_pem_files. auto 10. Qed.

Lemma config_step_iff {A} (r : result TransportError.t A) (P : A → Prop) :
  config_step r → (∀ a, r = Ok a ↔ P a) →
  (∃ a, r = Ok a ∧ P a) ∨ (r = Err tls_failure ∧ ¬ ∃ a, P a).
Proof.
  intros Hs Hr. destruct r as [a|e|]; [left|right|done].
  - exists a. split; [done|]. by apply Hr.
  - simpl in Hs. subst. split; [done|]. intros [a Ha]. by apply Hr in Ha.
Qed.
End config_laws.

(** ** Properties *)

(** The host of a locator, between brackets or not. *)
Definition bare_host (host name : list u8) : Prop :=
  host = "["%char :: name ++ ["]"%char] ∨
  (host = name ∧ ∀ inner, host ≠ "["%char :: inner ++ ["]"%char]).

(** The text of an IPv6 address with a scope, in brackets. *)
Definition scoped_host (host : list u8) (ip : list N) : Prop :=
  ∃ text digits scope, host = "["%char :: text ++ "%"%char :: digits ++ ["]"%char] ∧
    parse_ip_addr text = Some (IpAddr.V6 ip) ∧ plain_number U32_MAX digits scope.

Lemma bare_host_strip host name : bare_host host name → strip_brackets host = name.
Proof.
  intros [->|[-> Hn]]; [apply strip_brackets_bracketed|by apply strip_brackets_plain].
Qed.

(** An address that is parsed at once is the one found after splitting, unless it has a scope. *)
Lemma socket_addr_split host port address :
  ":"%char ∉ port → parse_socket_addr (host ++ ":"%char :: port) = Some address →
  plain_number U16_MAX port (SocketAddr.port address) ∧
  ((∃ name, bare_host host name ∧ name ≠ [] ∧ parse_ip_addr name = Some (SocketAddr.ip address)) ∨
   ∃ ip, scoped_host host ip ∧ SocketAddr.ip address = IpAddr.V6 ip).
Proof.
  intros Hport (text & port' & n & Hn & Ha)%parse_socket_addr_spec.
  assert (":"%char ∉ port') as Hport' by (by eapply not_digit, plain_number_digits).
  assert (∀ host', host ++ ":"%char :: port = host' ++ ":"%char :: port' → host = host' ∧ port = port')
    as Hsplit.
  { intros host' Heq. assert (Some (host, port) = Some (host', port')) as [= -> ->]; [|done].
    transitivity (rsplit_once ":"%char (host ++ ":"%char :: port));
      [symmetry; by apply rsplit_once_some|by apply rsplit_once_some]. }
  destruct Ha as [(ip & Heq & Hip & ->)|(ip & scope & s & Heq & Hip & Hs & ->)].
  - apply Hsplit in Heq as [-> ->]. split; [done|]. left. exists text. split_and!; [|by intros ->|done].
    right. split; [done|]. intros inner ->. by vm_compute in Hip.
  - rewrite (app_assoc text scope), app_comm_cons, (cons_middle "]"%char), app_assoc in Heq.
    apply Hsplit in Heq as [-> ->].
    split; [done|]. destruct Hs as [[-> ->]|(digits & -> & Hd)].
    + left. exists text. rewrite app_nil_r. split_and!; [by left|by intros ->|done].
    + right. exists ip. split; [|done]. exists text, digits, s.
      split_and!; [simpl; by rewrite <- app_assoc|done|done].
Qed.

(** C30: the server name of a locator. A locator is split at its last colon and refused when there is
    none, when what follows is no port, or when the host is empty; the host, without brackets, names
    an IP address when it is the text of one and is taken as a DNS name otherwise. The only locators
    for which parsing a whole socket address first makes a difference are bracketed IPv6 addresses
    with a scope, whose scope is dropped. *)
Theorem server_name_spec `{Rustls} (locator : string) :
  (":"%char ∉ as_bytes locator →
     server_name_for_locator locator = Err TransportError.InvalidLocator) ∧
  ∀ host port, as_bytes locator = host ++ ":"%char :: port → ":"%char ∉ port →
    (∀ ip n, scoped_host host ip → plain_number U16_MAX port n →
       server_name_for_locator locator = Ok (ServerName_IpAddress (IpAddr.V6 ip))) ∧
    ((¬ ∃ ip n, scoped_host host ip ∧ plain_number U16_MAX port n) →
     ∀ name, bare_host host name →
       server_name_for_locator locator =
         if decide (parse_u16 port = None ∨ name = []) then Err TransportError.InvalidLocator
         else match parse_ip_addr name with
              | Some address => Ok (ServerName_IpAddress address)
              | None => ok_or (ServerName_try_from (Stdlib.Strings.String.string_of_list_ascii name))
                          TransportError.TlsConfigurationFailure
              end).
Proof.
  unfold server_name_for_locator. split.
  { intros Hn. rewrite (proj2 (rsplit_once_none _ _) Hn).
    destruct (parse_socket_addr _) as [a|] eqn:E; [exfalso|done].
    apply parse_socket_addr_spec in E as (text & port & n & _ & [(ip & E & _)|(ip & sc & s & E & _)]);
      apply Hn; rewrite E; set_solver. }
  intros host port -> Hport. split.
  - intros ip n (text & digits & scope & -> & Hip & Hd) Hn.
    assert (parse_socket_addr (("["%char :: text ++ "%"%char :: digits ++ ["]"%char]) ++ ":"%char :: port)
      = Some (SocketAddr.mk (IpAddr.V6 ip) n scope)) as ->; [|done].
    apply parse_socket_addr_spec. exists text, port, n. split; [done|]. right.
    exists ip, ("%"%char :: digits), scope. split_and!; [|done|right; by exists digits|done].
    cbn [app]. by rewrite <- app_assoc; cbn [app]; rewrite <- app_assoc.
  - intros Hs name Hname. destruct (parse_socket_addr _) as [a|] eqn:E.
    + apply (socket_addr_split _ _ _ Hport) in E as [Hn [(name' & Hb & Hne & Hip)|(ip & Hip & _)]];
        [|by destruct Hs; eauto].
      assert (name' = name) as ->.
      { rewrite <- (bare_host_strip _ _ Hb). by apply bare_host_strip. }
      rewrite decide_False, Hip; [done|]. rewrite (plain_port_u16 _ _ Hn). by intros [|].
    + rewrite (proj2 (rsplit_once_some _ _ host port)) by done. simpl.
      rewrite (bare_host_strip _ _ Hname). case_bool_decide as Hp; [by rewrite decide_True by auto|].
      case_bool_decide as He; [by rewrite decide_True by auto|]. by rewrite decide_False by tauto.
Qed.

(** C32: mutual TLS is configured from files. A server that demands it is made exactly when the
    address is free, the file of the trusted authority and the certificate chain hold readable
    certificates, the key file holds a key, rustls accepts them, and the clients form an allowlist;
    it pins those clients. Anything wrong with the files is a configuration failure, found before
    the clients are looked at. *)
Theorem mtls_configuration_spec `{Rustls} {W} bound (endpoint : ExecutionHandler.t W)
    (chain key ca : string) (clients : list AuthorizedClientCertificate.t) :
  let configured config := ∃ roots verifier certificates private_key,
    trusts ca roots ∧ WebPkiClientVerifier_build roots = Some verifier ∧
    holds_certificates chain certificates ∧ holds_key key private_key ∧
    with_single_cert verifier certificates private_key = Some config in
  ((¬ ∃ config, configured config) ∧
     bind_mtls_files bound endpoint chain key ca clients = Err TransportError.TlsConfigurationFailure) ∨
  ((∃ config, configured config) ∧
     bind_mtls_files bound endpoint chain key ca clients =
       match build_client_allowlist clients with
       | Ok allowed =>
         if bound then Ok (TcpEndpointServer.mk endpoint true (Some allowed))
         else Err TransportError.NetworkFailure
       | Err e => Err e
       | Panic => Panic
       end).
Proof.
  intros configured. unfold bind_mtls_files, TcpEndpointServer.bind_mtls.
  destruct (config_step_iff (build_server_tls_config chain key ca) configured)
    as [(config & -> & Hc)|[-> Hc]]; [apply build_server_tls_config_step| |right|left; done].
  - intros config. unfold build_server_tls_config, configured. rewrite result_bind_ok.
    setoid_rewrite load_root_certificates_ok. split.
    + intros (roots & Hr & Hc). invert_result.
      rename select (load_certificates _ = _) into Hl. rename select (load_private_key _ = _) into Hk.
      apply load_certificates_ok in Hl. apply load_private_key_ok in Hk. eauto 10.
    + intros (roots & verifier & certificates & private_key & Hr & Hv & Hl & Hk & Hc).
      apply load_certificates_ok in Hl. apply load_private_key_ok in Hk.
      exists roots. split; [done|]. by rewrite Hv, Hl, Hk; simpl; rewrite Hc.
  - split; [by exists config|]. simpl. by destruct (build_client_allowlist clients), bound.
Qed.

(** The loop makes at most one round, and more fuel changes nothing. *)
Lemma handshake_eq {S Socket} `{Session S Socket} (s : S) (socket : Socket) :
  handshake s socket =
    if is_handshaking s then ok_or (complete_io s socket) TransportError.TlsHandshakeFailure
    else Ok (s, socket).
Proof.
  unfold handshake. cbn [handshake_loop]. destruct (is_handshaking s) eqn:E; [|done].
  destruct (complete_io s socket) as [[s1 socket1]|] eqn:Hc; [|done]. simpl.
  by rewrite (complete_io_handshake _ _ _ _ E Hc).
Qed.

Lemma handshake_fuel {S Socket} `{Session S Socket} fuel (s : S) (socket : Socket) :
  handshake_loop (Datatypes.S fuel) s socket = handshake s socket.
Proof.
  rewrite handshake_eq. cbn [handshake_loop]. destruct (is_handshaking s) eqn:E; [|done].
  destruct (complete_io s socket) as [[s1 socket1]|] eqn:Hc; [|done]. simpl.
  pose proof (complete_io_handshake _ _ _ _ E Hc) as E1. by destruct fuel; cbn [handshake_loop]; rewrite E1.
Qed.

Lemma handshake_no_panic {S Socket} `{Session S Socket} (s : S) (socket : Socket) :
  handshake s socket ≠ Panic.
Proof. rewrite handshake_eq. destruct (is_handshaking s); [|done]. by destruct (complete_io s socket). Qed.

Lemma server_name_no_panic `{Rustls} locator : server_name_for_locator locator ≠ Panic.
Proof.
  unfold server_name_for_locator. destruct (parse_socket_addr _); [done|].
  destruct (rsplit_once _ _) as [[host port]|]; [|done]. simpl.
  do 2 (case_bool_decide; [done|]). destruct (parse_ip_addr _); [done|]. by destruct (ServerName_try_from _).
Qed.

Section tls_call.
Context {Addr W : Type} `{Network Addr W} `{UuidLib} `{Rustls} `{!ClientSessions W}.
Implicit Types (self : TlsTcpTransport.t) (r : ExecutionRequest.t).

Lemma connect_first_no_panic (addresses : list Addr) : connect_first addresses ≠ Panic.
Proof. induction addresses as [|a l IH]; simpl; [done|]. by destruct (connect_timeout a). Qed.

Lemma connect_with_timeout_no_panic locator : connect_with_timeout locator ≠ Panic.
Proof.
  unfold connect_with_timeout. intros Hc. apply result_bind_panic in Hc as [Hc|(l & _ & Hc)].
  - by apply ok_or_panic in Hc.
  - by apply connect_first_no_panic in Hc.
Qed.

Lemma tls_connect_no_panic self r : TlsTcpTransport.connect self r ≠ Panic.
Proof.
  unfold TlsTcpTransport.connect, configure_stream. intros Hc. invert_result.
  - by eapply validate_transport_request_no_panic.
  - case_bool_decide; [done|]. invert_result.
    + by eapply server_name_no_panic.
    + by eapply connect_with_timeout_no_panic.
    + by case_match.
    + by eapply handshake_no_panic.
    + by case_match.
Qed.

Lemma tls_connect_ok self r stream :
  TlsTcpTransport.connect self r = Ok stream →
  validate_transport_request r = Ok () ∧
  ∃ src, ExecutionRequest.source_participant_id r = Some src ∧ valid_identity Kind.Participant src.
Proof.
  unfold TlsTcpTransport.connect. intros Hc. apply result_bind_ok in Hc as ([] & Hv & Hc).
  split; [done|]. destruct (ExecutionRequest.source_participant_id r) as [src|] eqn:Hs; [|done].
  exists src. split; [done|]. apply validate_transport_request_ok in Hv as (_ & Hv & _). by apply Hv.
Qed.
End tls_call.

(** C16: a call over mutual TLS is an authorized local call. It fails without reaching the peer when
    the request is invalid, names no caller, or no connection can be made to the peer that it
    trusts; on a connection to a server that pins its clients, it has the effect and the answer of
    the handler exactly when the certificate of the caller is pinned to the participant that the
    request names, and is dropped with no effect otherwise. *)
Theorem tls_call_spec {Addr W Socket} `{Network Addr W} `{UuidLib} `{Rustls} `{!ClientSessions W}
    `{!ServerSessions Socket} debug_str (endpoint : ExecutionHandler.t W)
    (clients : list AuthorizedClientCertificate.t) allowed (config : ServerConfig) (socket : Socket)
    (leaf : certificate) (self : TlsTcpTransport.t) (r : ExecutionRequest.t) (w : W) room :
  typed_request r → v4_request r → (blen (enc_request r) ≤ MAX_FRAME_SIZE)%N →
  build_client_allowlist clients = Ok allowed → server_handshake config socket = Ok (Some leaf) →
  match TlsTcpTransport.connect self r with
  | Ok stream =>
    (8 + blen (enc_request r) ≤ Connection.room stream)%N →
    Connection.peer stream =
      serve_peer debug_str endpoint (accepted_socket true config socket) true (Some allowed) room →
    ∃ src, ExecutionRequest.source_participant_id r = Some src ∧ valid_identity Kind.Participant src ∧
    (¬ pinned clients (Identity.id src) leaf →
       dispatch self r w = (Err TransportError.NetworkFailure, w)) ∧
    (pinned clients (Identity.id src) leaf →
       match respond debug_str endpoint r w with
       | (Ok response, w') =>
         typed_response response → (blen (enc_response response) ≤ MAX_FRAME_SIZE)%N →
         (8 + blen (enc_response response) ≤ room)%N →
         dispatch self r w = (check_response r response, w')
       | (_, w') => dispatch self r w = (Err TransportError.NetworkFailure, w')
       end)
  | Err e => dispatch self r w = (Err e, w)
  | Panic => False
  end.
Proof.
  intros Ht Hids Hl Hb Hserver. pose proof (tls_connect_no_panic self r) as Hnp.
  unfold dispatch, TlsTcpTransport.transport, lift, mbind, op_bind.
  destruct (TlsTcpTransport.connect self r) as [stream|e|] eqn:Hc; [|done..].
  intros Hroom Hpeer. apply tls_connect_ok in Hc as (Hv & src & Hsrc & Hid).
  exists src. split; [done|]. split; [done|].
  assert (authorize r (Some (allowed, Some leaf)) = Ok () ↔ pinned clients (Identity.id src) leaf) as Ha.
  { rewrite authorize_ok, <- (allowlist_pinned _ _ _ _ Hb). naive_solver. }
  split; intros Hp.
  - rewrite exchange_fits, Hpeer by done.
    rewrite (serve_peer_request debug_str endpoint _ _ _ (Some (allowed, Some leaf))); try done.
    2: { simpl. by rewrite Hserver. }
    destruct (authorize r _) as [[]|e|]; [by destruct Hp; apply Ha|done..].
  - pose proof (exchange_served debug_str endpoint stream (accepted_socket true config socket) true
      (Some allowed) (Some (allowed, Some leaf)) r w room Ht Hv Hids Hl Hroom eq_refl) as H'.
    cbn [authorization_of Accepted.handshake accepted_socket] in H'. rewrite Hserver in H'.
    specialize (H' eq_refl (proj2 Ha Hp) Hpeer).
    destruct (respond debug_str endpoint r w) as [[response|e|] w']; [|by rewrite H'..].
    intros Htr Hlr Hroom'. by rewrite H'.
Qed.

(** ** A concrete library

    Files by their names, sessions that take two rounds and then show the demo certificate. *)
#[export] Instance demo_rustls : Rustls := {
  File := list certificate * option nat;
  File_open path :=
    if bool_decide (path = "chain") then Some ([demo_certificate], None)
    else if bool_decide (path = "key") then Some ([], Some 7) else None;
  pemfile_certs file := Some <$> file.1;
  PrivateKeyDer := nat;
  pemfile_private_key file := Some file.2;
  RootCertStore := list certificate;
  RootCertStore_empty := [];
  RootCertStore_add roots c := Some (roots ++ [c]);
  ClientVerifier := list certificate;
  WebPkiClientVerifier_build roots := Some roots;
  ClientConfig := list certificate;
  with_client_auth_cert _ certificates _ := Some certificates;
  ServerConfig := list certificate;
  with_single_cert _ certificates _ := Some certificates;
  ServerName := IpAddr.t + string;
  ServerName_IpAddress := inl;
  ServerName_try_from s := Some (inr s);
}.

(** A session is the messages its handshake has left; one call exchanges them all. *)
Lemma demo_complete {Socket} (n : nat) (socket : Socket) n' socket' :
  negb (n =? 0) = true → Some (0, socket) = Some (n', socket') → negb (n' =? 0) = false.
Proof. by intros _ [= <- _]. Qed.

#[export] Instance demo_session {Socket} : Session nat Socket := {
  is_handshaking n := negb (n =? 0);
  complete_io n socket := Some (0, socket);
  complete_io_handshake := demo_complete;
}.

#[export] Instance demo_client_sessions : ClientSessions (list string) := {
  ClientConnection := nat;
  ClientConnection_session := demo_session;
  ClientConnection_new _ _ := Some 2;
  StreamOwned_new _ socket := socket;
}.

#[local] Instance demo_server_sessions : ServerSessions () := {
  ServerConnection := nat;
  ServerConnection_session := demo_session;
  ServerConnection_new _ := Some 2;
  peer_certificates n := if n =? 0 then Some [demo_certificate] else None;
}.

Example demo_names :
  server_name_for_locator "node-1.example:443" = Ok (inr "node-1.example") ∧
  server_name_for_locator "[::1]:443" = Ok (inl (IpAddr.V6 [0; 0; 0; 0; 0; 0; 0; 1]%N)) ∧
  server_name_for_locator "10.0.0.7:+443" = Ok (inl (IpAddr.V4 [10; 0; 0; 7]%N)) ∧
  server_name_for_locator "[]:443" = Err TransportError.InvalidLocator ∧
  server_name_for_locator "host:65536" = Err TransportError.InvalidLocator.
Proof. by vm_compute. Qed.

(** A network on which every locator leads to the demo server, behind mutual TLS. *)
Definition demo_tls_connection : Connection.t (list string) :=
  Connection.mk true 1000
    (serve_peer (λ s, s) demo_handler (accepted_socket true [demo_certificate] ()) true
       (to_option (build_client_allowlist demo_clients)) 1000).
#[local] Instance demo_tls_network : Network () (list string) := {
  to_socket_addrs _ := Some [()];
  connect_timeout _ := Some demo_tls_connection;
}.
Definition demo_tls : TlsTcpTransport.t := TlsTcpTransport.mk demo_rustls [demo_certificate].

Example demo_from_pem_files : TlsTcpTransport.from_pem_files "chain" "chain" "key" = Ok demo_tls ∧
  TlsTcpTransport.from_pem_files "chain" "key" "key" = Err TransportError.TlsConfigurationFailure.
Proof. by vm_compute. Qed.

Lemma tls_call_spec_witness :
  dispatch demo_tls (demo_request_from uuid_b) [] = (Ok (ExecutionResponse.completed "r"), ["w"]).
Proof.
  assert (build_client_allowlist demo_clients = Ok {[uuid_b := [demo_certificate]]}) as Hb
    by (vm_compute; reflexivity).
  assert (TlsTcpTransport.connect demo_tls (demo_request_from uuid_b) = Ok demo_tls_connection) as Hc
    by reflexivity.
  pose proof (tls_call_spec (λ s, s) demo_handler demo_clients {[uuid_b := [demo_certificate]]}
    [demo_certificate] () demo_certificate demo_tls (demo_request_from uuid_b) [] 1000%N) as H.
  rewrite Hc in H.
  destruct H as (src & Hsrc & _ & _ & H).
  - destruct demo_request_typed as [? _ ? ? ? ? ? ? ?]. split; try assumption.
    intros i [= <-]. vm_compute. reflexivity.
  - split; apply validate_is_err; vm_compute; reflexivity.
  - vm_compute. discriminate.
  - exact Hb.
  - reflexivity.
  - vm_compute. discriminate.
  - cbn [Connection.peer demo_tls_connection]. rewrite Hb. reflexivity.
  - injection Hsrc as <-.
    assert (respond (λ s, s) demo_handler (demo_request_from uuid_b) [] =
      (Ok (ExecutionResponse.completed "r"), ["w"])) as Hr by (vm_compute; reflexivity).
    rewrite Hr in H. rewrite H.
    + reflexivity.
    + exists (AuthorizedClientCertificate.mk (Identity.mk uuid_b Kind.Participant) demo_certificate).
      repeat split. left.
    + split; [vm_compute; reflexivity|discriminate].
    + vm_compute. discriminate.
    + vm_compute. discriminate.
Defined.

Lemma server_name_spec_witness :
  server_name_for_locator "[fe80::1%3]:80" = Ok (inl (IpAddr.V6 [65152; 0; 0; 0; 0; 0; 0; 1]%N)).
Proof.
  destruct (server_name_spec "[fe80::1%3]:80") as [_ H].
  destruct (H (as_bytes "[fe80::1%3]") (as_bytes "80")) as [Hs _]; [reflexivity|..].
  - intros Hin. vm_compute in Hin. set_solver.
  - apply (Hs _ 80%N); [|reflexivity].
    exists (as_bytes "fe80::1"), (as_bytes "3"), 3%N. split; [reflexivity|split; reflexivity].
Defined.
