(* ===== verification/distributed.v ===== *)
(** * Running a node on its participants

    A dispatched execution seen from the runtimes: every allocation of the node is a share, the
    participant's runtime runs the workload on it, and the answers decide about the execution. A
    transport is good for that when it carries every request to the runtime of its share
    ([carries]); the in-process transport, TCP and mutual TLS are. *)
From S2P Require Import prelude bytes net time float identity uuid_demo resource node runtime.
From S2P Require Import messages endpoint transport codec codec_laws server execution.
From S2P Require Import virtual_machine pool tls.

(** ** Threads that do the same with different answers *)

Section answers.
Context {X W E A E' A' : Type}.
Context (task : X → op W E A) (task' : X → op W E' A') (answer : X → result E A → result E' A').

(** [task'] does to the world what [task] does, and answers for it. *)
Definition answers_for (x : X) : Prop :=
  ∀ w, task' x w = (answer x (task x w).1, (task x w).2).

Lemma run_threads_answers l order m m' w :
  Forall answers_for l →
  (∀ i x, l !! i = Some x → m' !! i = answer x <$> m !! i) →
  (run_threads (task' <$> l) order m' w).2 = (run_threads (task <$> l) order m w).2 ∧
  ∀ i x, l !! i = Some x →
    (run_threads (task' <$> l) order m' w).1 !! i =
      answer x <$> (run_threads (task <$> l) order m w).1 !! i.
Proof.
  intros Hl. revert m m' w. induction order as [|j order IH]; intros m m' w Hm; [done|].
  cbn [run_threads]. rewrite !list_lookup_fmap. destruct (l !! j) as [y|] eqn:Hj; cbn [fmap option_fmap option_map];
    [|by apply IH].
  rewrite Forall_forall in Hl. rewrite (Hl y) by (by eapply list_elem_of_lookup_2).
  destruct (task y w) as [r w1]. cbn [fst snd]. apply IH. intros i x Hx.
  destruct (decide (i = j)) as [->|Hne].
  - rewrite !lookup_insert_eq. simpl. congruence.
  - rewrite !lookup_insert_ne by done. by apply Hm.
Qed.

Lemma scope_answers `{CompleteSchedule} l w :
  Forall answers_for l →
  scope (task' <$> l) (thread_order (length l)) w =
    (zip_with answer l (scope (task <$> l) (thread_order (length l)) w).1,
     (scope (task <$> l) (thread_order (length l)) w).2) ∧
  length (scope (task <$> l) (thread_order (length l)) w).1 = length l.
Proof.
  intros Hl.
  destruct (run_threads_answers l (thread_order (length l)) ∅ ∅ w Hl) as [Hw Ho]; [done|].
  pose proof (λ i t Hi, run_threads_outcome (task <$> l) (thread_order (length l)) ∅ w i t Hi) as Hr.
  unfold scope. destruct (run_threads (task' <$> l) _ _ _) as [o' w'], (run_threads (task <$> l) _ _ _) as [o w1].
  cbn [fst snd] in *. subst w'. rewrite length_imap, length_fmap. split; [|done]. f_equal.
  apply list_eq. intros i. rewrite lookup_zip_with, !list_lookup_imap, !list_lookup_fmap.
  destruct (l !! i) as [x|] eqn:Hi; cbn; [|done]. f_equal. rewrite (Ho i x Hi).
  destruct (Hr i (task x)) as [[w2 Hs] _]; [by rewrite list_lookup_fmap, Hi|..].
  - rewrite thread_order_perm. apply NoDup_seq.
  - rewrite thread_order_perm. apply elem_of_seq. apply lookup_lt_Some in Hi. lia.
  - by rewrite Hs.
Qed.
End answers.

(** ** Shares *)

Section shares.
Context {W : Type} `{UuidLib}.
Implicit Types (node : LogicalNode.t) (k : WorkItem) (a : Allocation.t).

Abbreviation allocations node := (CompositeResource.allocations (LogicalNode.resources node)).

(** The runtime of a participant on the share of an allocation. *)
Definition run_share node k (runtime : string → Runtime.t W) a : op W RuntimeError.t () :=
  Runtime.run (runtime (Allocation.participant_id a))
    (RuntimeContext.mk (Identity.mk (Allocation.participant_id a) Kind.Participant)
       (Identity.mk (LogicalNode.id node) Kind.LogicalNode) (Allocation.resources a)) k.

(** All shares, in the order of the threads: what the runtimes returned, and the world. *)
Definition run_shares `{Schedule} node k (runtime : string → Runtime.t W) (w : W)
    : list (result RuntimeError.t ()) * W :=
  scope (run_share node k runtime <$> allocations node) (thread_order (length (allocations node))) w.

(** A transport carries a request to [run]: it does what [run] does, tells its success from
    everything else, and does not panic unless [run] does. *)
Record carries {T} `{Transport T W} (transport : T) (request : ExecutionRequest.t)
    (run : op W RuntimeError.t ()) (answer : result RuntimeError.t () →
      result TransportError.t ExecutionResponse.t) : Prop := {
  ca_dispatch : ∀ w, dispatch transport request w = (answer (run w).1, (run w).2);
  ca_ok : answer (Ok ()) = Ok (ExecutionResponse.completed (ExecutionRequest.request_id request));
  ca_failed : ∀ r, r ≠ Ok () → ¬ accepted request (answer r);
  ca_panic : ∀ r, r ≠ Panic → answer r ≠ Panic;
}.

(** The dispatcher has an endpoint for the share, and its transport carries the request there. *)
Definition reaches {T} `{Transport T W} (self : ExecutionDispatcher.t T) node k
    (runtime : string → Runtime.t W) a : Prop :=
  ∃ request answer,
    ExecutionDispatcher.request_for self (plan_of node k) k (unit_of a) = Ok request ∧
    carries (ExecutionDispatcher.transport self) request (run_share node k runtime a) answer.

Lemma carries_accepted {T} `{Transport T W} (transport : T) request run answer r :
  carries transport request run answer → accepted request (answer r) ↔ r = Ok ().
Proof.
  intros [_ Hok Hfail _]. split.
  - intros Ha. destruct (decide (r = Ok ())); [done|]. by apply Hfail in Ha.
  - intros ->. rewrite Hok. eexists. split; [done|]. by split; [|right; right].
Qed.
End shares.

Abbreviation allocations node := (CompositeResource.allocations (LogicalNode.resources node)).

(** ** Executing a node *)

(** A share with the request that carries it and how it is answered. *)
Module Carried.
Record t := mk {
  allocation : Allocation.t;
  request : ExecutionRequest.t;
  answer : result RuntimeError.t () → result TransportError.t ExecutionResponse.t;
}.
End Carried.

Section execute.
Context {T W : Type} `{UuidLib} `{Transport T W} `{CompleteSchedule}.
Implicit Types (self : ExecutionDispatcher.t T) (node : LogicalNode.t) (k : WorkItem).

Definition carried self node k (runtime : string → Runtime.t W) (c : Carried.t) : Prop :=
  ExecutionDispatcher.request_for self (plan_of node k) k (unit_of (Carried.allocation c))
    = Ok (Carried.request c) ∧
  carries (ExecutionDispatcher.transport self) (Carried.request c)
    (run_share node k runtime (Carried.allocation c)) (Carried.answer c).

Lemma reaches_carried self node k runtime al :
  Forall (reaches self node k runtime) al →
  ∃ l, al = Carried.allocation <$> l ∧ Forall (carried self node k runtime) l.
Proof.
  induction 1 as [|a al (request & answer & Hr & Hc) _ (l & -> & Hl)]; [by exists []|].
  exists (Carried.mk a request answer :: l). split; [done|]. constructor; [by split|done].
Qed.

Lemma carried_requests self node k runtime l :
  Forall (carried self node k runtime) l →
  mapM (ExecutionDispatcher.request_for self (plan_of node k) k)
    (unit_of <$> (Carried.allocation <$> l)) = Ok (Carried.request <$> l).
Proof.
  intros Hl. apply mapM_result_ok. rewrite <- list_fmap_compose.
  induction Hl as [|c l [Hr _] _ IH]; [constructor|]. rewrite !fmap_cons. by constructor.
Qed.

Lemma carried_accepted self node k runtime l outcomes :
  Forall (carried self node k runtime) l → length outcomes = length l →
  Forall2 accepted (Carried.request <$> l) (zip_with Carried.answer l outcomes) ↔
  Forall (eq (Ok ())) outcomes.
Proof.
  intros Hl. revert outcomes. induction Hl as [|c l [_ Hc] _ IH]; intros [|r outcomes]; try done.
  intros [= Hlen]. rewrite fmap_cons. cbn [zip_with]. rewrite Forall2_cons, Forall_cons, (IH outcomes Hlen).
  rewrite (carries_accepted _ _ _ _ r Hc). split; intros [? ?]; split; congruence.
Qed.

Lemma carried_panics self node k runtime l outcomes :
  Forall (carried self node k runtime) l → Forall (λ r, r ≠ Panic) outcomes →
  panics (zip_with Carried.answer l outcomes) = 0.
Proof.
  intros Hl Ho. apply panics_none. revert outcomes Ho.
  induction Hl as [|c l [_ Hc] _ IH]; intros [|r outcomes] Ho; try done.
  apply Forall_cons in Ho as [Hr Ho]. cbn [zip_with existsb]. rewrite (IH outcomes Ho).
  pose proof (ca_panic _ _ _ _ Hc r Hr) as Hp. by destruct (Carried.answer c r).
Qed.

Lemma backend_dispatch self p k w :
  (backend_execute self p k w).2 = (ExecutionDispatcher.dispatch self p k w).2 ∧
  (backend_execute self p k w).1 =
    receipt ← (ExecutionDispatcher.dispatch self p k w).1;
    Ok (ExecutionReceipt.mk (DispatchReceipt.workload_id receipt) (DispatchReceipt.node_id receipt)
          (DispatchReceipt.dispatched_units receipt)).
Proof.
  unfold backend_execute, ExecutionDispatcher.backend, mbind, op_bind.
  by destruct (ExecutionDispatcher.dispatch self p k w) as [[]].
Qed.

(** Executing the plan of a node whose allocations are all reached. *)
Lemma execute_shares self node k (runtime : string → Runtime.t W) (w : W) :
  allocations node ≠ [] → Forall (reaches self node k runtime) (allocations node) →
  let '(outcomes, w') := run_shares node k runtime w in
  let res := backend_execute self (plan_of node k) k w in
  res.2 = w' ∧
  (∀ receipt, res.1 = Ok receipt ↔ Forall (eq (Ok ())) outcomes ∧
    receipt = ExecutionReceipt.mk (Workload.id k) (Identity.mk (LogicalNode.id node) Kind.LogicalNode)
                (length (allocations node))) ∧
  (Forall (λ r, r ≠ Panic) outcomes → res.1 ≠ Panic).
Proof.
  intros Hne Hr. apply reaches_carried in Hr as (l & Hal & Hl).
  unfold run_shares. rewrite Hal, length_fmap, <- list_fmap_compose.
  destruct (scope_answers (run_share node k runtime ∘ Carried.allocation)
    (dispatch (ExecutionDispatcher.transport self) ∘ Carried.request) Carried.answer l w) as [Hs Hlen].
  { eapply Forall_impl; [exact Hl|]. intros c [_ Hc] w'. apply (ca_dispatch _ _ _ _ Hc). }
  destruct (scope (run_share _ _ _ ∘ _ <$> l) _ w) as [outcomes w']. cbn [fst snd] in *. cbv zeta.
  destruct (backend_dispatch self (plan_of node k) k w) as [-> ->].
  assert (ExecutionDispatcher.dispatch self (plan_of node k) k w =
    ((responses ← join_threads (zip_with Carried.answer l outcomes);
      dispatched ← ExecutionDispatcher.count_dispatched 0 (Carried.request <$> l) responses;
      Ok (DispatchReceipt.from_responses (Workload.id k) (ExecutionPlan.node_id (plan_of node k))
            dispatched)), w')) as ->.
  { unfold ExecutionDispatcher.dispatch, lift, fail, mbind, op_bind. rewrite bool_decide_true by done.
    cbn [negb ExecutionPlan.units plan_of]. rewrite Hal, (carried_requests _ _ _ _ _ Hl).
    rewrite <- (list_fmap_compose Carried.request (dispatch (ExecutionDispatcher.transport self))).
    rewrite (length_fmap Carried.request).
    destruct (unit_of <$> _) eqn:E; [by apply fmap_nil_inv in E; rewrite <- Hal in E|]. rewrite Hs.
    destruct (join_threads _) as [rs|e|]; cbn; [|done..].
    by destruct (ExecutionDispatcher.count_dispatched 0 _ rs). }
  destruct (join_and_count (Carried.request <$> l) (zip_with Carried.answer l outcomes) (Workload.id k)
    (ExecutionPlan.node_id (plan_of node k))) as [Hok Hpanic].
  { rewrite length_zip_with, length_fmap. lia. }
  cbn [fst snd]. split; [done|]. split.
  - intros receipt. rewrite result_bind_ok. setoid_rewrite Hok.
    setoid_rewrite (carried_accepted _ _ _ _ _ _ Hl Hlen). rewrite length_fmap. naive_solver.
  - intros Hp H'. apply result_bind_panic in H' as [H'|(? & _ & H')]; [|done].
    apply Hpanic in H'. rewrite (carried_panics _ _ _ _ _ _ Hl Hp) in H'. lia.
Qed.
(** C14: a distributed execution is the runs of the shares. When every allocation of the node is
    reached by the dispatcher, executing the plan of the node leaves the world as the runtimes of
    the participants leave it when they run the workload once each on their shares, in the order of
    the threads; it succeeds exactly when all of them do, with as many units as there are
    allocations, and does not panic unless one of them does. *)
Theorem distributed_execution self node k (runtime : string → Runtime.t W) (w : W) :
  allocations node ≠ [] → Forall (reaches self node k runtime) (allocations node) →
  let '(outcomes, w') := run_shares node k runtime w in
  let res := backend_execute self (plan_of node k) k w in
  res.2 = w' ∧
  (∀ receipt, res.1 = Ok receipt ↔ Forall (eq (Ok ())) outcomes ∧
    receipt = ExecutionReceipt.mk (Workload.id k) (Identity.mk (LogicalNode.id node) Kind.LogicalNode)
                (length (allocations node))) ∧
  (Forall (λ r, r ≠ Panic) outcomes → res.1 ≠ Panic).
Proof. apply execute_shares. Qed.
End execute.

(** ** Participants *)

Section participants.
Context {W : Type} `{UuidLib}.
Implicit Types (node : LogicalNode.t) (k : WorkItem) (a : Allocation.t).

(** [h] is the endpoint of the participant [p], over a registry in which [runtime] is what was
    registered for [spec]. *)
Definition serves (spec : RuntimeSpec.t) (runtime : Runtime.t W) (p : string)
    (h : ExecutionHandler.t W) : Prop :=
  ∃ l, h = ParticipantExecutionEndpoint.handler (ParticipantExecutionEndpoint.mk
             (Identity.mk p Kind.Participant) (RegistryRuntimeAdapter.mk (register_all l))) ∧
    first_registered spec l = Some runtime.

(** The request a dispatcher makes for the share [a]. *)
Record share_request node k a (r : ExecutionRequest.t) : Prop := {
  sr_well_formed : well_formed_request r;
  sr_node : ExecutionRequest.node_id r = Identity.mk (LogicalNode.id node) Kind.LogicalNode;
  sr_runtime : ExecutionRequest.runtime r = LogicalNode.runtime node;
  sr_unit : ExecutionRequest.unit r = unit_of a;
  sr_workload : ExecutionRequest.workload r = k;
}.

Lemma request_for_share {T} (self : ExecutionDispatcher.t T) node k a r :
  plannable node → Workload.id k ≠ EmptyString →
  ExecutionDispatcher.request_for self (plan_of node k) k (unit_of a) = Ok r →
  share_request node k a r ∧
  ExecutionRequest.source_participant_id r = ExecutionDispatcher.source_participant_id self.
Proof.
  intros (_ & _ & _ & Hrt) Hk Hr. unfold ExecutionDispatcher.request_for, ExecutionDispatcher.find_endpoint in Hr.
  destruct (list_find _ _) as [[i endpoint]|] eqn:Hf; [|done]. simpl in Hr. simplify_eq.
  apply list_find_Some in Hf as (_ & He & _). split; [|done]. split; [|done..].
  split; simpl; try done. by destruct (Workload.id k).
Qed.

Lemma handle_share spec (runtime : string → Runtime.t W) h node k a r w :
  share_request node k a r → executable a → LogicalNode.runtime node = spec →
  serves spec (runtime (Allocation.participant_id a)) (Allocation.participant_id a) h →
  ExecutionHandler.handle_request h r w =
    (match (run_share node k runtime a w).1 with
     | Ok () => Ok (ExecutionResponse.completed (ExecutionRequest.request_id r))
     | Err e => Err (EndpointError.ExecutionFailed (ExecutionRequest.request_id r)
                       (EndpointExecutionError.Runtime e))
     | Panic => Panic
     end, (run_share node k runtime a w).2).
Proof.
  intros [Hw Hn Hrt Hu Hk] [_ Hq] Hspec (l & -> & Hl).
  pose proof (registry_handle_cases l (Identity.mk (Allocation.participant_id a) Kind.Participant) r w Hw)
    as Hh.
  cbv zeta in Hh. rewrite Hu, Hn, Hk, Hrt, Hspec, Hl in Hh. unfold run_share.
  destruct (Hh eq_refl) as [[Hnq _]|[_ Heq]]; [done|]. cbn [ExecutionHandler.handle_request
    ParticipantExecutionEndpoint.handler]. rewrite Heq. cbn [ExecutionUnit.resources unit_of].
  by destruct (Runtime.run _ _ k w) as [[[]|e|] w'].
Qed.

(** ** In process *)

Definition local_answer (r : ExecutionRequest.t) (outcome : result RuntimeError.t ())
    : result TransportError.t ExecutionResponse.t :=
  match outcome with
  | Ok () => Ok (ExecutionResponse.completed (ExecutionRequest.request_id r))
  | Err _ => Err TransportError.RequestRejected
  | Panic => Panic
  end.

(** The in-process transport carries a request when the endpoint first registered for the
    participant serves its runtime. *)
Lemma endpoint_transport_carries handlers h (runtime : string → Runtime.t W) node k a r :
  share_request node k a r → executable a →
  first_handler (Allocation.participant_id a) handlers = Some h →
  serves (LogicalNode.runtime node) (runtime (Allocation.participant_id a)) (Allocation.participant_id a) h →
  carries (register_handlers handlers) r (run_share node k runtime a) (local_answer r).
Proof.
  intros Hr Ha Hf Hs. split.
  - intros w. unfold dispatch, EndpointTransport.transport, lift, mbind, op_bind, op_map_err.
    rewrite register_handlers_lookup, (proj2 (transport_check_ok r)) by apply Hr.
    rewrite (sr_unit _ _ _ _ Hr). cbn [ExecutionUnit.participant_id unit_of Identity.id].
    rewrite Hf. cbn [ok_or]. rewrite (handle_share _ runtime h node k a) by done.
    by destruct (run_share node k runtime a w) as [[[]|e|] w'].
  - done.
  - intros [[]|e|] Hne (response & Heq & _); [by destruct Hne|done..].
  - by intros [[]|e|] ?.
Qed.

(** An in-process dispatcher reaches the participants with an endpoint and a serving handler. *)
Lemma local_reaches handlers endpoints endpoint h (runtime : string → Runtime.t W) node k a :
  let self := ExecutionDispatcher.new (register_handlers handlers) endpoints in
  plannable node → Workload.id k ≠ EmptyString → a ∈ allocations node →
  ExecutionDispatcher.find_endpoint self (unit_of a) = Some endpoint →
  first_handler (Allocation.participant_id a) handlers = Some h →
  serves (LogicalNode.runtime node) (runtime (Allocation.participant_id a)) (Allocation.participant_id a) h →
  reaches self node k runtime a.
Proof.
  intros self Hp Hk Ha He Hh Hs.
  destruct (ExecutionDispatcher.request_for self (plan_of node k) k (unit_of a)) as [r|e|] eqn:Hr;
    [|by unfold ExecutionDispatcher.request_for in Hr; rewrite He in Hr..].
  exists r, (local_answer r). split; [done|].
  destruct (request_for_share self node k a r Hp Hk Hr) as [Hsr _].
  apply (endpoint_transport_carries _ h); try done.
  destruct Hp as (_ & _ & Hex & _). rewrite Forall_forall in Hex. by apply Hex.
Qed.

(** ** Over a connection *)

(** What the server answers: the runtime's error as a failed response, its panic as a dropped
    connection. *)
Definition remote_answer (debug_str : string → string) (r : ExecutionRequest.t)
    (outcome : result RuntimeError.t ()) : result TransportError.t ExecutionResponse.t :=
  let id := ExecutionRequest.request_id r in
  match outcome with
  | Ok () => Ok (ExecutionResponse.completed id)
  | Err e => Ok (ExecutionResponse.failed id (debug_endpoint_error debug_str
               (EndpointError.ExecutionFailed id (EndpointExecutionError.Runtime e))))
  | Panic => Err TransportError.NetworkFailure
  end.

(** Every answer fits a frame and what the server's side of the connection takes. *)
Definition answers_fit (debug_str : string → string) (r : ExecutionRequest.t) (room : N) : Prop :=
  ∀ outcome response, remote_answer debug_str r outcome = Ok response →
    typed_response response ∧ (blen (enc_response response) ≤ MAX_FRAME_SIZE)%N ∧
    (8 + blen (enc_response response) ≤ room)%N.

Lemma remote_answer_facts debug_str r :
  remote_answer debug_str r (Ok ()) = Ok (ExecutionResponse.completed (ExecutionRequest.request_id r)) ∧
  (∀ outcome, outcome ≠ Ok () → ¬ accepted r (remote_answer debug_str r outcome)) ∧
  (∀ outcome, outcome ≠ Panic → remote_answer debug_str r outcome ≠ Panic) ∧
  ∀ outcome response, remote_answer debug_str r outcome = Ok response →
    check_response r response = Ok response.
Proof.
  split_and!; [done|..].
  - intros [[]|e|] Hne; [done|..]; intros (response & Heq & _ & Hs); simplify_eq/=.
    by destruct Hs as [|[|]].
  - by intros [[]|e|].
  - unfold check_response. intros [[]|e|] response Heq; simplify_eq/=; by rewrite bool_decide_true.
Qed.

(** A request that can be sent to a server behind the connection [stream], which accepts it. *)
Record served (debug_str : string → string) (h : ExecutionHandler.t W) (r : ExecutionRequest.t)
    (stream : Connection.t W) : Prop := {
  sv_typed : typed_request r;
  sv_v4 : v4_request r;
  sv_valid : validate_transport_request r = Ok ();
  sv_size : (blen (enc_request r) ≤ MAX_FRAME_SIZE)%N;
  sv_sent : (8 + blen (enc_request r) ≤ Connection.room stream)%N;
  sv_peer : ∃ socket tls clients authorization room,
    Accepted.timeouts_set socket = true ∧
    authorization_of socket tls clients = Ok authorization ∧ authorize r authorization = Ok () ∧
    Connection.peer stream = serve_peer debug_str h socket tls clients room ∧
    answers_fit debug_str r room;
}.

Lemma exchange_carries debug_str h (runtime : string → Runtime.t W) node k a r stream w :
  share_request node k a r → executable a →
  serves (LogicalNode.runtime node) (runtime (Allocation.participant_id a)) (Allocation.participant_id a) h →
  served debug_str h r stream →
  (exchange stream r ≫= λ response, lift (check_response r response)) w =
    (remote_answer debug_str r (run_share node k runtime a w).1, (run_share node k runtime a w).2).
Proof.
  intros Hr Ha Hs [Ht Hids Hv Hl Hroom (socket & tls & clients & authorization & room & Hset & Hau & Hok &
    Hpeer & Hfit)].
  pose proof (exchange_served debug_str h stream socket tls clients authorization r w room Ht Hv Hids Hl
    Hroom Hset Hau Hok Hpeer) as He.
  destruct (remote_answer_facts debug_str r) as (_ & _ & _ & Hcheck).
  unfold respond in He. rewrite (handle_share _ runtime h node k a) in He by done.
  destruct (run_share node k runtime a w) as [outcome w']. cbn [fst snd] in *.
  unfold mbind, op_bind, lift. destruct outcome as [[]|e|]; cbn in He; [| |by rewrite He].
  - destruct (Hfit (Ok ()) _ eq_refl) as (H1 & H2 & H3). rewrite He by done.
    cbn -[check_response]. by rewrite (Hcheck (Ok ()) _ eq_refl).
  - destruct (Hfit (Err e) _ eq_refl) as (H1 & H2 & H3). rewrite He by done.
    exact (f_equal (λ r, (r, w')) (Hcheck (Err e) _ eq_refl)).
Qed.

(** TCP carries a request to the server its locator leads to. *)
Lemma tcp_carries {Addr} `{Network Addr W} debug_str h (runtime : string → Runtime.t W) node k a r stream :
  share_request node k a r → executable a →
  serves (LogicalNode.runtime node) (runtime (Allocation.participant_id a)) (Allocation.participant_id a) h →
  connect_with_timeout (ExecutionEndpoint.locator (ExecutionRequest.endpoint r)) = Ok stream →
  Connection.timeouts_set stream = true → served debug_str h r stream →
  carries TcpTransport.mk r (run_share node k runtime a) (remote_answer debug_str r).
Proof.
  intros Hr Ha Hs Hc Hset Hsv. destruct (remote_answer_facts debug_str r) as (Hok & Hfail & Hpanic & _).
  split; [|done..]. intros w. rewrite (tcp_dispatch_connected stream) by (try done; apply Hsv).
  by eapply exchange_carries.
Qed.

(** Mutual TLS carries a request to the server that it made a connection to. *)
Lemma tls_carries {Addr} `{Network Addr W} `{Rustls} `{!ClientSessions W} (self : TlsTcpTransport.t)
    debug_str h (runtime : string → Runtime.t W) node k a r stream :
  share_request node k a r → executable a →
  serves (LogicalNode.runtime node) (runtime (Allocation.participant_id a)) (Allocation.participant_id a) h →
  TlsTcpTransport.connect self r = Ok stream → served debug_str h r stream →
  carries self r (run_share node k runtime a) (remote_answer debug_str r).
Proof.
  intros Hr Ha Hs Hc Hsv. destruct (remote_answer_facts debug_str r) as (Hok & Hfail & Hpanic & _).
  split; [|done..]. intros w. unfold dispatch, TlsTcpTransport.transport.
  assert ((lift (TlsTcpTransport.connect self r) ≫= λ stream, exchange stream r ≫= λ response,
    lift (check_response r response)) w = (exchange stream r ≫= λ response, lift (check_response r response)) w)
    as ->.
  { unfold lift at 1. unfold mbind at 1, op_bind at 1. by rewrite Hc. }
  by eapply exchange_carries.
Qed.

(** C33: a participant behind a network is reached like a local one. A dispatcher over TCP, or over
    mutual TLS, reaches the runtime of an allocation when the locator of its endpoint leads to a
    server that accepts the caller and serves that runtime, and request and answers fit; a failed
    run is then a failed response, and a panic there a dropped connection. *)
Theorem network_reaches {Addr} `{Network Addr W} `{Rustls} `{!ClientSessions W} debug_str h
    (runtime : string → Runtime.t W) node k a r stream :
  plannable node → Workload.id k ≠ EmptyString → a ∈ allocations node →
  serves (LogicalNode.runtime node) (runtime (Allocation.participant_id a)) (Allocation.participant_id a) h →
  served debug_str h r stream →
  (∀ self : ExecutionDispatcher.t TcpTransport.t,
     ExecutionDispatcher.request_for self (plan_of node k) k (unit_of a) = Ok r →
     connect_with_timeout (ExecutionEndpoint.locator (ExecutionRequest.endpoint r)) = Ok stream →
     Connection.timeouts_set stream = true → reaches self node k runtime a) ∧
  (∀ self : ExecutionDispatcher.t TlsTcpTransport.t,
     ExecutionDispatcher.request_for self (plan_of node k) k (unit_of a) = Ok r →
     TlsTcpTransport.connect (ExecutionDispatcher.transport self) r = Ok stream →
     reaches self node k runtime a).
Proof.
  intros Hp Hk Ha Hs Hsv. pose proof Hp as (_ & _ & Hex & _). rewrite Forall_forall in Hex.
  split; intros self Hr; destruct (request_for_share self node k a r Hp Hk Hr) as [Hsr _].
  - intros Hc Hset. exists r, (remote_answer debug_str r). split; [done|].
    destruct self as [source [] endpoints]. apply (tcp_carries debug_str h _ _ _ _ _ stream); auto.
  - intros Hc. exists r, (remote_answer debug_str r). split; [done|].
    apply (tls_carries _ debug_str h _ _ _ _ _ stream); auto.
Qed.
End participants.

(** ** A node of two participants *)

(** A runtime that records where it ran. *)
Definition demo_recorder : Runtime.t (list string) :=
  Runtime.mk "rt" (λ context _ w,
    (Ok (), w ++ [Identity.id (RuntimeContext.participant_id context)])).

Definition demo_serving (p : string) : ExecutionHandler.t (list string) :=
  ParticipantExecutionEndpoint.handler (ParticipantExecutionEndpoint.mk (Identity.mk p Kind.Participant)
    (RegistryRuntimeAdapter.mk (register_all [(RuntimeSpec.mk "rt" "1", demo_recorder)]))).

Lemma demo_serves p : serves (RuntimeSpec.mk "rt" "1") demo_recorder p (demo_serving p).
Proof. by eexists. Qed.

Definition demo_handlers : list (ExecutionHandler.t (list string)) :=
  [demo_serving uuid_b; demo_serving uuid_a].
Definition demo_local : ExecutionDispatcher.t (EndpointTransport.t (list string)) :=
  ExecutionDispatcher.new (register_handlers demo_handlers) [
    ExecutionEndpoint.mk (Identity.mk uuid_b Kind.Participant) "b:1";
    ExecutionEndpoint.mk (Identity.mk uuid_a Kind.Participant) "a:1"].

Definition demo_pair : LogicalNode.t := {|
  LogicalNode.id := uuid_a;
  LogicalNode.resources := CompositeResource.mk demo_vm_resources
    [Allocation.mk uuid_a demo_vm_resources; Allocation.mk uuid_b demo_vm_resources];
  LogicalNode.runtime := RuntimeSpec.mk "rt" "1";
|}.

(** Every node over the two participants is reached. *)
Lemma demo_reaches node k :
  plannable node → Workload.id k ≠ EmptyString → LogicalNode.runtime node = RuntimeSpec.mk "rt" "1" →
  Forall (λ a, Allocation.participant_id a = uuid_a ∨ Allocation.participant_id a = uuid_b)
    (allocations node) →
  Forall (reaches demo_local node k (λ _, demo_recorder)) (allocations node).
Proof.
  intros Hp Hk Hrt Hal. apply Forall_forall. intros a Ha. rewrite Forall_forall in Hal.
  destruct (Hal a Ha) as [Heq|Heq]; destruct a as [p q]; cbn in Heq; subst p.
  - apply (local_reaches _ _ (ExecutionEndpoint.mk (Identity.mk uuid_a Kind.Participant) "a:1")
      (demo_serving uuid_a)); try done. rewrite Hrt. apply demo_serves.
  - apply (local_reaches _ _ (ExecutionEndpoint.mk (Identity.mk uuid_b Kind.Participant) "b:1")
      (demo_serving uuid_b)); try done. rewrite Hrt. apply demo_serves.
Qed.

Lemma demo_v4 : v4_string uuid_a ∧ v4_string uuid_b.
Proof.
  split; [apply (validate_is_err (Identity.mk uuid_a Kind.Participant))|
    apply (validate_is_err (Identity.mk uuid_b Kind.Participant))]; by vm_compute.
Qed.

Lemma demo_pair_plannable : plannable demo_pair.
Proof.
  assert (valid_requirement demo_vm_resources) as Hr by by apply requirement_ok.
  destruct demo_v4. split_and!; [done|done|by repeat constructor|by split].
Qed.

Lemma distributed_execution_witness :
  (backend_execute demo_local (plan_of demo_pair demo_workload) demo_workload []).2 = [uuid_a; uuid_b].
Proof.
  pose proof (distributed_execution demo_local demo_pair demo_workload (λ _, demo_recorder) []) as H.
  assert (run_shares demo_pair demo_workload (λ _, demo_recorder) [] =
    ([Ok (); Ok ()], [uuid_a; uuid_b])) as Hr by (vm_compute; reflexivity).
  rewrite Hr in H. refine (proj1 (H _ _)); [discriminate|].
  apply demo_reaches; [|discriminate|reflexivity|].
  - exact demo_pair_plannable.
  - constructor; [by left|]. constructor; [by right|constructor].
Defined.

(** ** The same node over TCP *)

Definition demo_node_connection (p : string) : Connection.t (list string) :=
  Connection.mk true 1000
    (serve_peer (λ s, s) (demo_serving p) (Accepted.mk true (Ok None)) false None 1000).

#[local] Instance demo_node_network : Network string (list string) := {
  to_socket_addrs locator := Some [locator];
  connect_timeout address :=
    Some (demo_node_connection (if bool_decide (address = "a:1") then uuid_a else uuid_b));
}.

Definition demo_remote : ExecutionDispatcher.t TcpTransport.t :=
  ExecutionDispatcher.new TcpTransport.mk (ExecutionDispatcher.endpoints demo_local).

(** Both shares run remotely, and their participants answer. *)
Example demo_remote_run :
  let '(r, w) := backend_execute demo_remote (plan_of demo_pair demo_workload) demo_workload [] in
  is_ok r = true ∧ w = [uuid_a; uuid_b].
Proof. vm_compute. by split. Qed.

(** The request for the share of the first participant. *)
Definition demo_share : Allocation.t := Allocation.mk uuid_a demo_vm_resources.
Definition demo_share_request : ExecutionRequest.t :=
  ExecutionRequest.mk ("w:" +:+ uuid_a) None demo_workload (Identity.mk uuid_a Kind.LogicalNode)
    (RuntimeSpec.mk "rt" "1") (unit_of demo_share)
    (ExecutionEndpoint.mk (Identity.mk uuid_a Kind.Participant) "a:1").

Lemma demo_share_request_typed : typed_request demo_share_request.
Proof.
  split; [by vm_compute|discriminate|by vm_compute..| | |by vm_compute|by vm_compute].
  - split; [by split_and!|]. intros d [= <-]. done.
  - vm_compute. reflexivity.
Qed.

Lemma demo_answers_fit : answers_fit (λ s, s) demo_share_request 1000.
Proof.
  intros [[]|e|] response Hr; [|destruct e|done]; injection Hr as <-;
    (split; [split; [by vm_compute|]|by split; vm_compute]);
    by intros error [= <-]; vm_compute.
Qed.

Lemma demo_served : served (λ s, s) (demo_serving uuid_a) demo_share_request (demo_node_connection uuid_a).
Proof.
  split; [exact demo_share_request_typed|split; apply validate_is_err; by vm_compute|by vm_compute..|].
  exists (Accepted.mk true (Ok None)), false, None, None, 1000%N.
  split_and!; [done..|]. exact demo_answers_fit.
Qed.

Lemma network_reaches_witness : reaches demo_remote demo_pair demo_workload (λ _, demo_recorder) demo_share.
Proof.
  destruct (network_reaches (H0:=demo_node_network) (H1:=demo_rustls) (λ s, s) (demo_serving uuid_a)
    (λ _, demo_recorder) demo_pair demo_workload demo_share demo_share_request (demo_node_connection uuid_a)
    demo_pair_plannable) as [Htcp _].
  - discriminate.
  - left.
  - apply demo_serves.
  - exact demo_served.
  - apply Htcp; reflexivity.
Defined.
