(* ===== verification/control.v ===== *)
(** * The control plane ([src/control.rs])

    The plane ties the registry, discovery and a scheduler together and keeps the leases, the
    virtual machines and their logical nodes, each map behind its own lock. The scheduler is used
    through [SchedulerLaws] only; it may look at the registry and at anything else the plane was
    built with ([environment]). An operation threads the plane, with the number of UUIDs drawn so
    far, and fails with what it changed before the failure. *)
From S2P Require Import prelude bytes time float identity uuid_demo resource capability node.
From S2P Require Import fabric participant registry discovery scheduler lease runtime messages.
From S2P Require Import endpoint transport execution virtual_machine.
From stdpp Require Import list.

Module ControlError.
Inductive t :=
| InvalidTime
| InvalidLeaseDuration
| LeaseNotFound
| VirtualMachineNotFound
| Scheduler (e : SchedulerError.t)
| Node (e : NodeError.t)
| Execution (e : ExecutionError.t)
| VirtualMachine (e : VirtualMachineError.t).
#[global] Instance eq_dec : EqDecision t.
Proof. solve_decision. Defined.
End ControlError.

Module Plane.
Record t (D E : Type) := mk {
  registry : Registry.t;
  discovery : D;
  environment : E;
  leases : gmap string Lease.t;
  virtual_machines : gmap string VirtualMachine.t;
  logical_nodes : gmap string LogicalNode.t;
  draws : nat;
}.
Arguments mk {D E}.
Arguments registry {D E}.
Arguments discovery {D E}.
Arguments environment {D E}.
Arguments leases {D E}.
Arguments virtual_machines {D E}.
Arguments logical_nodes {D E}.
Arguments draws {D E}.

Section ops.
Context {D E : Type} `{Discovery D} `{UuidLib} `{Scheduler (Registry.t * E)}.
Implicit Types self : t D E.

Definition new (registry : Registry.t) (discovery : D) (environment : E) (draws : nat) : t D E := {|
  registry := registry; discovery := discovery; environment := environment;
  leases := ∅; virtual_machines := ∅; logical_nodes := ∅; draws := draws;
|}.

(** Replacing one component. *)
Definition set_registry r self : t D E :=
  mk r (discovery self) (environment self) (leases self) (virtual_machines self)
    (logical_nodes self) (draws self).
Definition set_discovery d self : t D E :=
  mk (registry self) d (environment self) (leases self) (virtual_machines self)
    (logical_nodes self) (draws self).
Definition set_leases (f : gmap string Lease.t → gmap string Lease.t) self : t D E :=
  mk (registry self) (discovery self) (environment self) (f (leases self)) (virtual_machines self)
    (logical_nodes self) (draws self).
Definition set_virtual_machines (f : gmap string VirtualMachine.t → gmap string VirtualMachine.t) self
    : t D E :=
  mk (registry self) (discovery self) (environment self) (leases self) (f (virtual_machines self))
    (logical_nodes self) (draws self).
Definition set_logical_nodes (f : gmap string LogicalNode.t → gmap string LogicalNode.t) self : t D E :=
  mk (registry self) (discovery self) (environment self) (leases self) (virtual_machines self)
    (f (logical_nodes self)) (draws self).
Definition set_draws n self : t D E :=
  mk (registry self) (discovery self) (environment self) (leases self) (virtual_machines self)
    (logical_nodes self) n.

(** Operations on the parts of the plane. *)
Definition on_registry {Err A} (m : op Registry.t Err A) : op (t D E) Err A := λ self,
  let '(r, s) := m (registry self) in (r, set_registry s self).
Definition on_discovery {Err A} (m : op D Err A) : op (t D E) Err A := λ self,
  let '(r, s) := m (discovery self) in (r, set_discovery s self).
Definition drawing {Err A} (m : op nat Err A) : op (t D E) Err A := λ self,
  let '(r, n) := m (draws self) in (r, set_draws n self).

(** ** Participants and discovery *)

Definition register_participant (participant : nat) : op (t D E) RegistryError.t () :=
  on_registry (Registry.register participant).

Definition announce_participant (advertisement : Advertisement.t) (observed_at : SystemTime)
    : op (t D E) DiscoveryError.t () :=
  on_discovery (discovery_upsert advertisement observed_at).

Definition remove_discovered_participant (id : Identity.t) : op (t D E) DiscoveryError.t () :=
  on_discovery (discovery_remove id).

Definition discovered_participants self : list Member.t := discovery_members (discovery self).

Definition discovered_participants_at (now : SystemTime) self
    : result DiscoveryError.t (list Member.t) :=
  members ← discovery_members_at now (discovery self);
  Ok (fst <$> (members : list (Member.t * Freshness.t))).

(** ** Logical nodes *)

Definition create_logical_node (requirement : ResourceFragment.t)
    : op (t D E) SchedulerError.t LogicalNode.t := λ self,
  drawing (plan (registry self, environment self) requirement) self.

Definition create_logical_node_with_runtime (requirement : ResourceFragment.t)
    (runtime : RuntimeSpec.t) : op (t D E) ControlError.t LogicalNode.t :=
  node ← create_logical_node requirement .op_map_err ControlError.Scheduler;
  lift (LogicalNode.with_runtime node runtime .map_err ControlError.Node).

(** [if resources.lifetime.is_none_or(|l| l > duration) { resources.lifetime = Some(duration) }]. *)
Definition clip_lifetime (duration : Duration) (resources : ResourceFragment.t)
    : ResourceFragment.t :=
  if from_option (λ l, duration <? l)%N true (ResourceFragment.lifetime resources)
  then {| ResourceFragment.cpu := ResourceFragment.cpu resources;
          ResourceFragment.memory := ResourceFragment.memory resources;
          ResourceFragment.storage := ResourceFragment.storage resources;
          ResourceFragment.network := ResourceFragment.network resources;
          ResourceFragment.gpu := ResourceFragment.gpu resources;
          ResourceFragment.lifetime := Some duration |}
  else resources.

(** The loop that makes one lease per allocation. *)
Fixpoint make_leases (node_id : Identity.t) (now expires_at : SystemTime) (duration : Duration)
    (leases : list Lease.t) (allocations : list Allocation.t)
    : op nat ControlError.t (list Lease.t) :=
  match allocations with
  | [] => mret leases
  | allocation :: rest =>
    participant_id ← lift (Identity.parse (Allocation.participant_id allocation) Kind.Participant
                             .map_err (λ _, ControlError.Scheduler SchedulerError.InsufficientResources));
    lease_id ← draw Kind.Lease;
    let resources := clip_lifetime duration (Allocation.resources allocation) in
    lease ← lift (Lease.new lease_id node_id participant_id resources now expires_at
                    .map_err (λ _, ControlError.Scheduler SchedulerError.InsufficientResources));
    make_leases node_id now expires_at duration (leases ++ [lease]) rest
  end.

Definition store_leases (ls : list Lease.t) (stored : gmap string Lease.t) : gmap string Lease.t :=
  foldl (λ stored lease, <[Identity.id (Lease.id lease) := lease]> stored) stored ls.

Definition create_leased_logical_node (requirement : ResourceFragment.t) (now : SystemTime)
    (duration : Duration) : op (t D E) ControlError.t (LogicalNode.t * list Lease.t) :=
  if (now =? SystemTime.UNIX_EPOCH)%Z then fail ControlError.InvalidTime
  else if Duration.is_zero duration then fail ControlError.InvalidLeaseDuration
  else
    node ← create_logical_node requirement .op_map_err ControlError.Scheduler;
    node_id ← lift (Identity.parse (LogicalNode.id node) Kind.LogicalNode
                      .map_err (λ _, ControlError.Scheduler SchedulerError.InsufficientResources));
    expires_at ← lift (SystemTime.add now duration);
    leases ← drawing (make_leases node_id now expires_at duration []
                        (CompositeResource.allocations (LogicalNode.resources node)));
    _ ← modify (set_leases (store_leases leases));
    mret (node, leases).

Definition create_leased_logical_node_with_runtime (requirement : ResourceFragment.t)
    (runtime : RuntimeSpec.t) (now : SystemTime) (duration : Duration)
    : op (t D E) ControlError.t (LogicalNode.t * list Lease.t) :=
  '(node, leases) ← create_leased_logical_node requirement now duration;
  node ← lift (LogicalNode.with_runtime node runtime .map_err ControlError.Node);
  mret (node, leases).

(** ** Leases *)

Definition get_lease (id : Identity.t) self : result ControlError.t Lease.t :=
  if bad_identity Kind.Lease id then Err ControlError.LeaseNotFound
  else ok_or (leases self !! Identity.id id) ControlError.LeaseNotFound.

Definition release_lease (id : Identity.t) : op (t D E) ControlError.t Lease.t :=
  if bad_identity Kind.Lease id then fail ControlError.LeaseNotFound
  else
    stored ← gets leases;
    _ ← modify (set_leases (delete (Identity.id id)));
    lift (ok_or (stored !! Identity.id id) ControlError.LeaseNotFound).

Fixpoint release_leases (ls : list Lease.t) : op (t D E) ControlError.t () :=
  match ls with
  | [] => mret ()
  | lease :: rest =>
    _ ← release_lease (Lease.id lease);
    release_leases rest
  end.

Definition remove_leases (ls : list Lease.t) : op (t D E) ControlError.t () :=
  modify (set_leases (λ stored,
    foldl (λ stored lease, delete (Identity.id (Lease.id lease)) stored) stored ls)).

(** ** Virtual machines *)

Definition insert_node (node : LogicalNode.t) : op (t D E) ControlError.t () :=
  modify (set_logical_nodes (insert (LogicalNode.id node) node)).
Definition insert_vm (vm : VirtualMachine.t) : op (t D E) ControlError.t () :=
  modify (set_virtual_machines (insert (Identity.id (VirtualMachine.id vm)) vm)).

Definition create_virtual_machine (node : LogicalNode.t) (created_at : SystemTime)
    : op (t D E) ControlError.t VirtualMachine.t :=
  vm ← drawing (VirtualMachine.from_node node created_at) .op_map_err ControlError.VirtualMachine;
  _ ← insert_node node;
  _ ← insert_vm vm;
  mret vm.

(** The [match] on [VirtualMachine::from_leased_node]. *)
Definition make_leased_vm (node : LogicalNode.t) (leases : list Lease.t) (created_at : SystemTime)
    : op (t D E) ControlError.t (VirtualMachine.t * list Lease.t) := λ self,
  let '(made, self) := drawing (VirtualMachine.from_leased_node node leases created_at) self in
  match made with
  | Ok vm =>
    (_ ← insert_node node;
     _ ← insert_vm vm;
     mret (vm, leases)) self
  | Err error =>
    (_ ← remove_leases leases;
     fail (ControlError.VirtualMachine error)) self
  | Panic => (Panic, self)
  end.

Definition create_leased_virtual_machine (requirement : ResourceFragment.t) (runtime : RuntimeSpec.t)
    (created_at : SystemTime) (duration : Duration)
    : op (t D E) ControlError.t (VirtualMachine.t * list Lease.t) :=
  '(node, leases) ← create_leased_logical_node_with_runtime requirement runtime created_at duration;
  make_leased_vm node leases created_at.

Definition get_virtual_machine (id : Identity.t) self : result ControlError.t VirtualMachine.t :=
  if bad_identity Kind.VirtualMachine id then Err ControlError.VirtualMachineNotFound
  else ok_or (virtual_machines self !! Identity.id id) ControlError.VirtualMachineNotFound.

(** [vms.get_mut(&id.id)] and a call on the machine in place, under the write lock. *)
Definition with_vm (id : Identity.t) (m : op VirtualMachine.t VirtualMachineError.t ())
    : op (t D E) ControlError.t VirtualMachine.t := λ self,
  match virtual_machines self !! Identity.id id with
  | None => (Err ControlError.VirtualMachineNotFound, self)
  | Some vm =>
    let '(r, vm) := m vm in
    ((r .map_err ControlError.VirtualMachine) ≫= (λ _, Ok vm),
     set_virtual_machines (insert (Identity.id id) vm) self)
  end.

Definition start_virtual_machine (id : Identity.t) : op (t D E) ControlError.t VirtualMachine.t :=
  with_vm id VirtualMachine.start.
Definition stop_virtual_machine (id : Identity.t) : op (t D E) ControlError.t VirtualMachine.t :=
  with_vm id VirtualMachine.stop.

Definition destroy_virtual_machine (id : Identity.t) : op (t D E) ControlError.t VirtualMachine.t :=
  vms ← gets virtual_machines;
  _ ← modify (set_virtual_machines (delete (Identity.id id)));
  vm ← lift (ok_or (vms !! Identity.id id) ControlError.VirtualMachineNotFound);
  _ ← match VirtualMachine.leases vm with
      | [] => mret ()
      | leases => release_leases leases
      end;
  _ ← modify (set_logical_nodes (delete (Identity.id (VirtualMachine.node_id vm))));
  mret vm.

(** Reading the machine and its node, each under its own read lock. *)
Definition load_vm (id : Identity.t) self : result ControlError.t VirtualMachine.t :=
  ok_or (virtual_machines self !! Identity.id id) ControlError.VirtualMachineNotFound.
Definition load_node (vm : VirtualMachine.t) self : result ControlError.t LogicalNode.t :=
  ok_or (logical_nodes self !! Identity.id (VirtualMachine.node_id vm))
    ControlError.VirtualMachineNotFound.

(** The machine is executed on a clone outside the locks, and the clone is written back. [now] is
    what the clock reads; a panic of the backend unwinds past the write. *)
Definition execute_virtual_machine {B W} `{ExecutionBackend B W} (now : SystemTime) (id : Identity.t)
    (workload : WorkItem) (backend : B) : op (t D E * W) ControlError.t ExecutionReceipt.t :=
  λ '(self, w),
  match (vm ← load_vm id self; node ← load_node vm self; Ok (vm, node)) with
  | Err e => (Err e, (self, w))
  | Panic => (Panic, (self, w))
  | Ok (vm, node) =>
    let '(r, (vm, w)) := VirtualMachine.execute now node workload backend (vm, w) in
    match r with
    | Panic => (Panic, (self, w))
    | _ => (r .map_err ControlError.VirtualMachine,
            (set_virtual_machines (insert (Identity.id (VirtualMachine.id vm)) vm) self, w))
    end
  end.

(** ** Plans *)

Definition create_execution_plan (node : LogicalNode.t) (workload : WorkItem)
    : result ControlError.t ExecutionPlan.t :=
  ExecutionPlan.from_node node workload .map_err ControlError.Execution.

Definition dispatch_execution_plan {T W} `{Transport T W} `{Schedule} (plan : ExecutionPlan.t)
    (workload : WorkItem) (endpoints : list ExecutionEndpoint.t) (transport : T)
    : op W ControlError.t DispatchReceipt.t :=
  ExecutionDispatcher.dispatch (ExecutionDispatcher.new transport endpoints) plan workload
    .op_map_err ControlError.Execution.

Definition dispatch_execution_plan_as {T W} `{Transport T W} `{Schedule}
    (source_participant_id : Identity.t) (plan : ExecutionPlan.t) (workload : WorkItem)
    (endpoints : list ExecutionEndpoint.t) (transport : T) : op W ControlError.t DispatchReceipt.t :=
  ExecutionDispatcher.dispatch
    (ExecutionDispatcher.with_identity source_participant_id transport endpoints) plan workload
    .op_map_err ControlError.Execution.
End ops.
End Plane.
