(* ===== verification/control_laws.v ===== *)
(** * What the control plane guarantees

    The state invariant of the plane and the behaviour of its operations, for any scheduler that
    keeps [SchedulerLaws] and for UUID draws that do not repeat. *)
From S2P Require Import prelude bytes time float identity uuid_demo resource capability node.
From S2P Require Import fabric participant registry discovery scheduler lease runtime messages.
From S2P Require Import endpoint transport execution virtual_machine control.
From stdpp Require Import list.

(** ** Leases of a node *)

(** The lease made for the draw [i] on the allocation [a]. *)
Definition lease_on `{UuidLib} (nid : Identity.t) (now expires : SystemTime) (duration : Duration)
    (i : nat) (a : Allocation.t) : Lease.t := {|
  Lease.id := Identity.mk (uuid_to_string (new_v4 i)) Kind.Lease;
  Lease.logical_node_id := nid;
  Lease.participant_id := Identity.mk (Allocation.participant_id a) Kind.Participant;
  Lease.resources := Plane.clip_lifetime duration (Allocation.resources a);
  Lease.created_at := now;
  Lease.expires_at := expires;
|}.

Fixpoint leases_on `{UuidLib} nid now expires duration (n : nat) (al : list Allocation.t) : list Lease.t :=
  match al with
  | [] => []
  | a :: al => lease_on nid now expires duration n a :: leases_on nid now expires duration (S n) al
  end.

Section leases.
Context `{UuidLib}.

Lemma length_leases_on nid now expires d n al : length (leases_on nid now expires d n al) = length al.
Proof. revert n. induction al as [|a al IH]; intros n; simpl; [done|]. by rewrite IH. Qed.

Lemma leases_on_elem nid now expires d n al l :
  l ∈ leases_on nid now expires d n al → ∃ i a, n ≤ i < n + length al ∧ a ∈ al ∧
    l = lease_on nid now expires d i a.
Proof.
  revert n. induction al as [|a al IH]; intros n; [set_solver|]. cbn [leases_on length].
  intros [->|Hl]%elem_of_cons; [exists n, a; set_solver by lia|].
  apply IH in Hl as (i & b & Hi & Hb & ->). exists i, b. split; [lia|]. set_solver.
Qed.

Lemma leases_on_participants nid now expires d n al :
  (λ l, lease_participant l) <$> leases_on nid now expires d n al = ids_of al.
Proof.
  revert n. induction al as [|a al IH]; intros n; [done|]. cbn [leases_on]. by rewrite !fmap_cons, IH.
Qed.

(** The loop makes the leases when all of them are valid, and fails at the first that is not. *)
Lemma make_leases_cases nid now expires d ls al n :
  (Forall valid_lease (leases_on nid now expires d n al) ∧
   Plane.make_leases nid now expires d ls al n =
     (Ok (ls ++ leases_on nid now expires d n al), n + length al)) ∨
  (¬ Forall valid_lease (leases_on nid now expires d n al) ∧ ∃ e n', n ≤ n' ∧
   Plane.make_leases nid now expires d ls al n = (Err e, n')).
Proof.
  revert ls n. induction al as [|a al IH]; intros ls n; cbn [leases_on Plane.make_leases].
  { left. rewrite app_nil_r, Nat.add_0_r. by split. }
  rewrite Forall_cons. unfold lift, draw, mbind, op_bind.
  destruct (Identity.parse _ _) as [pid|e|] eqn:Hp; [|right|by apply parse_no_panic in Hp].
  2: { split; [|by eexists _, _]. intros [[_ _ Hv _ _ _ _] _]. cbn in Hv. destruct Hv as [_ Hv].
       pose proof (proj2 (parse_ok _ Kind.Participant _) (conj eq_refl Hv)). simpl in *. congruence. }
  apply parse_ok in Hp as [-> Hv]. cbn [map_err Identity.new].
  destruct (Lease.new _ _ _ _ _ _) as [l|e|] eqn:Hl; [|right|by apply lease_new_no_panic in Hl].
  - apply lease_new_ok in Hl as [-> Hvl]. cbn [map_err].
    destruct (IH (ls ++ [lease_on nid now expires d n a]) (S n)) as [[Hall Heq]|[Hall (e & n' & Hn & Heq)]].
    + left. split; [by split|]. unfold lease_on in Heq at 1. rewrite Heq.
      rewrite <- app_assoc. simpl. f_equal. lia.
    + right. split; [tauto|]. exists e, n'. split; [lia|]. exact Heq.
  - split; [|exists (ControlError.Scheduler SchedulerError.InsufficientResources), (S n); split; [lia|done]].
    intros [Hvl _].
    pose proof (proj2 (lease_new_ok _ _ _ _ _ _ (lease_on nid now expires d n a)) (conj eq_refl Hvl)).
    simpl in *. congruence.
Qed.
End leases.

(** ** Leased logical nodes *)

Abbreviation lease_key l := (Identity.id (Lease.id l)).

(** The leases [create_leased_logical_node] makes for a node planned at [n]. *)
Abbreviation node_leases node now duration expires n :=
  (leases_on (Identity.mk (LogicalNode.id node) Kind.LogicalNode) now expires duration n
     (CompositeResource.allocations (LogicalNode.resources node))).

Definition remove_keys (ls : list Lease.t) (m : gmap string Lease.t) : gmap string Lease.t :=
  foldl (λ stored lease, delete (lease_key lease) stored) m ls.

Lemma remove_keys_lookup ls m k :
  remove_keys ls m !! k = if decide (k ∈ ((λ l, lease_key l) <$> ls)) then None else m !! k.
Proof.
  unfold remove_keys. revert m. induction ls as [|l ls IH]; intros m; [by rewrite decide_False by set_solver|].
  cbn [foldl]. rewrite IH, fmap_cons. destruct (decide (k = lease_key l)) as [->|Hne].
  - rewrite lookup_delete_eq, (decide_True (P:=_ ∈ _ :: _)) by set_solver. by case_decide.
  - rewrite lookup_delete_ne by done. do 2 case_decide; try done; set_solver.
Qed.

Section plane.
Context {D E : Type} `{Discovery D} `{UuidLib} `{Scheduler (Registry.t * E)}.
Context `{!SchedulerLaws (Registry.t * E)}.
Import Plane.
Abbreviation plane := (Plane.t D E).
Implicit Types (self : plane) (q : ResourceFragment.t).

(** Operations that only draw UUIDs. *)
Definition only_draws self self' : Prop :=
  ∃ n, draws self ≤ n ∧ self' = set_draws n self.

Lemma only_draws_refl self : only_draws self self.
Proof. exists (draws self). split; [lia|]. by destruct self. Qed.

(** A request for a leased node that succeeds, in terms of the scheduler's plan. *)
Record leasable q (now : SystemTime) (duration : Duration) self node (n : nat) : Prop := {
  ls_time : now ≠ SystemTime.UNIX_EPOCH;
  ls_duration : duration ≠ 0%N;
  ls_plan : plan (registry self, environment self) q (draws self) = (Ok node, n);
  ls_expires : (now + Z.of_N duration ≤ SystemTime.MAX)%Z;
  ls_leases : Forall valid_lease (node_leases node now duration (now + Z.of_N duration) n);
}.

Lemma planned_node_v4 `{!UuidLaws _} q self node n :
  plan (registry self, environment self) q (draws self) = (Ok node, n) → v4_string (LogicalNode.id node).
Proof. intros Hp. apply plan_node in Hp as [(i & _ & ->) _]. apply v4_string_new. Qed.

Lemma create_leased_node_cases `{!UuidLaws _} q now duration self :
  (∃ node n, leasable q now duration self node n ∧
     let ls := node_leases node now duration (now + Z.of_N duration) n in
     create_leased_logical_node q now duration self =
       (Ok (node, ls), set_leases (store_leases ls) (set_draws (n + length ls) self))) ∨
  (¬ (∃ node n, leasable q now duration self node n) ∧ ∃ r self',
     create_leased_logical_node q now duration self = (r, self') ∧ is_ok r = false ∧
     only_draws self self' ∧
     (r = Panic → (SystemTime.MAX < now + Z.of_N duration)%Z)).
Proof.
  unfold create_leased_logical_node, create_logical_node, drawing, lift, fail, modify, op_map_err,
    mbind, op_bind.
  destruct (now =? SystemTime.UNIX_EPOCH)%Z eqn:Ht; bools.
  { right. split; [by intros (? & ? & [])|]. eexists _, _.
    split; [done|]. split; [done|]. split; [apply only_draws_refl|done]. }
  unfold Duration.is_zero. destruct (duration =? 0)%N eqn:Hd; bools.
  { right. split; [by intros (? & ? & [])|]. eexists _, _.
    split; [done|]. split; [done|]. split; [apply only_draws_refl|done]. }
  pose proof (plan_draws (registry self, environment self) q (draws self)) as Hdraws.
  destruct (plan (registry self, environment self) q (draws self)) as [[node|e|] n] eqn:Hp;
    cbn [map_err snd] in *.
  2: { right. split; [intros (? & ? & []); congruence|]. eexists _, _. split; [done|]. split; [done|].
       split; [by exists n|done]. }
  2: { exfalso. apply (plan_no_panic (registry self, environment self) q (draws self)). by rewrite Hp. }
  apply planned_node_v4 in Hp as Hv.
  rewrite (proj2 (parse_ok _ Kind.LogicalNode _) (conj eq_refl Hv)). cbn [map_err].
  unfold SystemTime.add. destruct (_ <=? SystemTime.MAX)%Z eqn:He; bools.
  2: { right. split; [intros (? & ? & []); lia|]. eexists _, _. split; [done|]. split; [done|].
       split; [by exists n|done]. }
  cbn [draws set_draws].
  destruct (make_leases_cases (Identity.mk (LogicalNode.id node) Kind.LogicalNode) now
    (now + Z.of_N duration) duration [] (CompositeResource.allocations (LogicalNode.resources node)) n)
    as [[Hall ->]|[Hall (e & n' & Hn & ->)]].
  - left. exists node, n. split; [by split|]. cbn. by rewrite length_leases_on.
  - right. split; [intros (node' & n1 & [_ _ Hp' _ Hall']); rewrite Hp in Hp'; by simplify_eq|].
    eexists _, _. split; [done|]. split; [done|]. split; [|done]. exists n'. split; [lia|done].
Qed.

(** ** The stored maps *)

Lemma store_leases_other ls m k :
  k ∉ ((λ l, lease_key l) <$> ls) → store_leases ls m !! k = m !! k.
Proof.
  unfold store_leases. revert m. induction ls as [|l ls IH]; intros m; [done|].
  rewrite fmap_cons, not_elem_of_cons. intros [Hk Hn]. cbn [foldl]. rewrite IH by done.
  by rewrite lookup_insert_ne.
Qed.

Lemma store_leases_new ls m l :
  NoDup ((λ l, lease_key l) <$> ls) → l ∈ ls → store_leases ls m !! lease_key l = Some l.
Proof.
  revert m. induction ls as [|l' ls IH]; intros m; [set_solver|].
  rewrite fmap_cons, NoDup_cons. intros [Hn Hnd] [->|Hl]%elem_of_cons.
  - change (store_leases (l' :: ls) m) with (store_leases ls (<[lease_key l' := l']> m)).
    rewrite store_leases_other by done. apply lookup_insert_eq.
  - by apply (IH (<[lease_key l' := l']> m)).
Qed.

Lemma store_leases_some ls m k l :
  store_leases ls m !! k = Some l → (l ∈ ls ∧ lease_key l = k) ∨ m !! k = Some l.
Proof.
  unfold store_leases. revert m. induction ls as [|l' ls IH]; intros m; [by right|]. cbn [foldl].
  intros [[? ?]|Hm]%IH; [left; set_solver|].
  apply lookup_insert_Some in Hm as [[<- <-]|[_ Hm]]; [left; set_solver|by right].
Qed.

(** Removing what was just stored restores the map, when the keys were free. *)
Lemma remove_store_leases ls m :
  (∀ l, l ∈ ls → m !! lease_key l = None) → remove_keys ls (store_leases ls m) = m.
Proof.
  intros Hf. apply map_eq. intros k. rewrite remove_keys_lookup. case_decide as Hk.
  - apply list_elem_of_fmap in Hk as (l & -> & Hl). symmetry. by apply Hf.
  - by apply store_leases_other.
Qed.

(** Keys that come from draws made so far. *)
Definition drawn (n : nat) (k : string) : Prop := ∃ i, i < n ∧ k = uuid_to_string (new_v4 i).

Lemma drawn_mono n n' k : n ≤ n' → drawn n k → drawn n' k.
Proof. intros Hn (i & ? & ?). exists i. split; [lia|done]. Qed.

Definition leases_ok (n : nat) (m : gmap string Lease.t) : Prop :=
  ∀ k l, m !! k = Some l → lease_key l = k ∧ valid_lease l ∧ drawn n k.
Definition vms_ok (n : nat) (m : gmap string VirtualMachine.t) : Prop :=
  ∀ k vm, m !! k = Some vm →
    VirtualMachine.id vm = Identity.mk k Kind.VirtualMachine ∧ drawn n k ∧
    Identity.kind (VirtualMachine.node_id vm) = Kind.LogicalNode ∧
    Forall valid_lease (VirtualMachine.leases vm).
Definition nodes_ok (m : gmap string LogicalNode.t) : Prop :=
  ∀ k node, m !! k = Some node → LogicalNode.id node = k ∧ v4_string k.

(** The invariant of the plane. *)
Record plane_wf self : Prop := {
  pw_registry : Registry.wf (registry self);
  pw_leases : leases_ok (draws self) (leases self);
  pw_vms : vms_ok (draws self) (virtual_machines self);
  pw_nodes : nodes_ok (logical_nodes self);
}.

Lemma leases_ok_mono n n' m : n ≤ n' → leases_ok n m → leases_ok n' m.
Proof. intros Hn Hm k l Hk. destruct (Hm k l Hk) as (? & ? & ?). eauto using drawn_mono. Qed.

Lemma vms_ok_mono n n' m : n ≤ n' → vms_ok n m → vms_ok n' m.
Proof. intros Hn Hm k vm Hk. destruct (Hm k vm Hk) as (? & ? & ? & ?). eauto using drawn_mono. Qed.

Lemma leases_ok_delete n m k : leases_ok n m → leases_ok n (delete k m).
Proof. intros Hm k' l [_ Hk]%lookup_delete_Some. by apply Hm. Qed.

Lemma vms_ok_delete n m k : vms_ok n m → vms_ok n (delete k m).
Proof. intros Hm k' l [_ Hk]%lookup_delete_Some. by apply Hm. Qed.

Lemma nodes_ok_delete m k : nodes_ok m → nodes_ok (delete k m).
Proof. intros Hm k' l [_ Hk]%lookup_delete_Some. by apply Hm. Qed.

Lemma nodes_ok_insert m node :
  v4_string (LogicalNode.id node) → nodes_ok m → nodes_ok (<[LogicalNode.id node := node]> m).
Proof. intros Hv Hm k node' [[<- <-]|[_ Hk]]%lookup_insert_Some; [done|by apply Hm]. Qed.

Lemma leases_ok_store n n' m nid now expires d al :
  n ≤ n' → leases_ok n m → Forall valid_lease (leases_on nid now expires d n' al) →
  leases_ok (n' + length al) (store_leases (leases_on nid now expires d n' al) m).
Proof.
  intros Hn Hm Hv k l [[Hl Hk]|Hk]%store_leases_some.
  - rewrite Forall_forall in Hv. apply Hv in Hl as Hvl.
    apply leases_on_elem in Hl as (i & a & Hi & _ & ->). split_and!; [done..|].
    exists i. split; [lia|done].
  - apply Hm in Hk as (? & ? & ?). split_and!; [done..|]. eapply drawn_mono; [|done]. lia.
Qed.

Lemma plane_wf_draws self n : draws self ≤ n → plane_wf self → plane_wf (set_draws n self).
Proof. intros Hn [? ? ? ?]. split; simpl; eauto using leases_ok_mono, vms_ok_mono. Qed.

Lemma plane_wf_only_draws self self' : only_draws self self' → plane_wf self → plane_wf self'.
Proof. intros (n & Hn & ->). by apply plane_wf_draws. Qed.

(** ** Fresh identities *)

Section fresh.
Context `{!UuidLaws _} (N : nat) (HN : draws_distinct 0 N).

Lemma drawn_fresh n i : drawn n (uuid_to_string (new_v4 i)) → n ≤ i < N → False.
Proof.
  intros (j & Hj & Heq) Hi. assert (i = j) by (eapply (new_id_inj 0 N); [done|lia|lia|done]). lia.
Qed.

Lemma leases_on_fresh n m nid now expires d n' al l :
  leases_ok n m → n ≤ n' → n' + length al ≤ N → l ∈ leases_on nid now expires d n' al →
  m !! lease_key l = None.
Proof.
  intros Hm Hn Hlen Hl. apply leases_on_elem in Hl as (i & a & Hi & _ & ->). simpl.
  apply eq_None_not_Some. intros [l Hk]. apply Hm in Hk as (_ & _ & Hd).
  eapply drawn_fresh; [exact Hd|lia].
Qed.

Lemma leases_on_NoDup nid now expires d n al :
  n + length al ≤ N → NoDup ((λ l, lease_key l) <$> leases_on nid now expires d n al).
Proof.
  revert n. induction al as [|a al IH]; intros n; [constructor|]. cbn [leases_on length]. intros Hn.
  rewrite fmap_cons. apply NoDup_cons. split; [|apply IH; lia].
  intros (l & Heq & Hl)%list_elem_of_fmap. apply leases_on_elem in Hl as (i & b & Hi & _ & ->).
  simpl in Heq. assert (n = i) by (eapply (new_id_inj 0 N); [done|lia|lia|done]). lia.
Qed.
End fresh.

(** ** Machines on the plane *)

Lemma create_virtual_machine_cases node created self :
  (can_host node created [] ∧
   create_virtual_machine node created self =
     (Ok (hosted node created [] (draws self)),
      set_virtual_machines (insert (uuid_to_string (new_v4 (draws self)))
                              (hosted node created [] (draws self)))
        (set_logical_nodes (insert (LogicalNode.id node) node) (set_draws (S (draws self)) self)))) ∨
  (¬ can_host node created [] ∧ ∃ e, create_virtual_machine node created self = (Err e, self)).
Proof.
  unfold create_virtual_machine, insert_node, insert_vm, drawing, modify, op_map_err, mbind, op_bind,
    VirtualMachine.from_node.
  destruct (from_node_with_leases_cases node [] created (draws self)) as [[Hc ->]|[Hc [e ->]]].
  - by left.
  - right. split; [done|]. eexists. cbn. by destruct self.
Qed.

Lemma make_leased_vm_cases node ls created self :
  (ls ≠ [] ∧ can_host node created ls ∧
   make_leased_vm node ls created self =
     (Ok (hosted node created ls (draws self), ls),
      set_virtual_machines (insert (uuid_to_string (new_v4 (draws self)))
                              (hosted node created ls (draws self)))
        (set_logical_nodes (insert (LogicalNode.id node) node) (set_draws (S (draws self)) self)))) ∨
  ((ls = [] ∨ ¬ can_host node created ls) ∧ ∃ e,
   make_leased_vm node ls created self = (Err e, set_leases (remove_keys ls) self)).
Proof.
  unfold make_leased_vm, insert_node, insert_vm, remove_leases, drawing, modify, fail, mbind, op_bind.
  destruct (decide (ls = [])) as [->|Hne].
  { right. split; [by left|]. eexists. cbn. by destruct self. }
  assert (VirtualMachine.from_leased_node node ls created (draws self) =
    VirtualMachine.from_node_with_leases node ls created (draws self)) as -> by (by destruct ls).
  destruct (from_node_with_leases_cases node ls created (draws self)) as [[Hc ->]|[Hc [e ->]]].
  - by left.
  - right. split; [by right|]. eexists. cbn. by destruct self.
Qed.

(** ** Releasing leases *)

Lemma release_lease_eq id self :
  release_lease id self =
    if bad_identity Kind.Lease id then (Err ControlError.LeaseNotFound, self)
    else match leases self !! Identity.id id with
         | Some l => (Ok l, set_leases (delete (Identity.id id)) self)
         | None => (Err ControlError.LeaseNotFound, self)
         end.
Proof.
  unfold release_lease, gets, modify, lift, fail, mbind, op_bind. case_match; [done|].
  destruct (leases self !! Identity.id id) eqn:Hl; [done|]. simpl.
  destruct self as [r d e l v n k]. unfold set_leases. simpl in *. by rewrite delete_id.
Qed.

(** Leases that can be released. *)
Definition releasable (m : gmap string Lease.t) (ls : list Lease.t) : Prop :=
  Forall (λ l, valid_identity Kind.Lease (Lease.id l) ∧ is_Some (m !! lease_key l)) ls ∧
  NoDup ((λ l, lease_key l) <$> ls).

Lemma releasable_cons m l ls :
  releasable m (l :: ls) →
  valid_identity Kind.Lease (Lease.id l) ∧ is_Some (m !! lease_key l) ∧
  releasable (delete (lease_key l) m) ls.
Proof.
  intros [[[Hv Hl] Hall]%Forall_cons Hnd]. rewrite fmap_cons in Hnd. apply NoDup_cons in Hnd as [Hn Hnd].
  split_and!; [done..|]. split; [|done]. rewrite Forall_forall in *. intros x Hx.
  destruct (Hall x Hx) as [? ?]. split; [done|]. rewrite lookup_delete_ne; [done|].
  intros Heq. apply Hn. rewrite Heq. by apply (list_elem_of_fmap_2 (λ l, lease_key l)).
Qed.

(** Releasing a list whose first leases are stored: they go, then the rest is tried. *)
Lemma release_leases_app l1 l2 self :
  releasable (leases self) l1 →
  release_leases (l1 ++ l2) self = release_leases l2 (set_leases (remove_keys l1) self).
Proof.
  revert self. induction l1 as [|l l1 IH]; intros self Hr; [by destruct self|].
  apply releasable_cons in Hr as (Hv & [l' Hl] & Hr). cbn [app release_leases].
  unfold mbind, op_bind. rewrite release_lease_eq, (proj2 (bad_identity_false _ _) Hv), Hl.
  by rewrite IH.
Qed.

Lemma release_leases_all ls self :
  releasable (leases self) ls →
  release_leases ls self = (Ok (), set_leases (remove_keys ls) self).
Proof. intros Hr. rewrite <- (app_nil_r ls) at 1. by rewrite release_leases_app. Qed.

Lemma release_leases_missing l1 l l2 self :
  releasable (leases self) l1 → leases self !! lease_key l = None →
  release_leases (l1 ++ l :: l2) self =
    (Err ControlError.LeaseNotFound, set_leases (remove_keys l1) self).
Proof.
  intros Hr Hl. rewrite release_leases_app by done. cbn [release_leases].
  unfold mbind, op_bind. rewrite release_lease_eq. destruct (bad_identity _ _); [done|]. simpl.
  rewrite remove_keys_lookup, Hl. by case_decide.
Qed.

(** Releasing a list never touches the other maps, and only deletes leases. *)
Lemma release_leases_deletes ls self :
  ∃ l1, (release_leases ls self).2 = set_leases (remove_keys l1) self ∧
    (release_leases ls self).1 ≠ Panic.
Proof.
  revert self. induction ls as [|l ls IH]; intros self; cbn [release_leases].
  { exists []. by destruct self. }
  unfold mbind, op_bind. rewrite release_lease_eq.
  destruct (bad_identity _ _); [exists []; by destruct self|].
  destruct (leases self !! _); [|exists []; by destruct self].
  destruct (IH (set_leases (delete (lease_key l)) self)) as (l1 & -> & ?). by exists (l :: l1).
Qed.

(** ** Destroying a machine *)

Lemma destroy_cases id self :
  (virtual_machines self !! Identity.id id = None ∧
   destroy_virtual_machine id self = (Err ControlError.VirtualMachineNotFound, self)) ∨
  ∃ vm, virtual_machines self !! Identity.id id = Some vm ∧
    let self1 := set_virtual_machines (delete (Identity.id id)) self in
    destroy_virtual_machine id self =
      match release_leases (VirtualMachine.leases vm) self1 with
      | (Ok (), self2) =>
        (Ok vm, set_logical_nodes (delete (Identity.id (VirtualMachine.node_id vm))) self2)
      | (Err e, self2) => (Err e, self2)
      | (Panic, self2) => (Panic, self2)
      end.
Proof.
  unfold destroy_virtual_machine, gets, modify, lift, mbind, op_bind.
  destruct (virtual_machines self !! Identity.id id) as [vm|] eqn:Hvm; [right|left]; simpl.
  - exists vm. split; [done|]. destruct (VirtualMachine.leases vm); [done|].
    cbn [release_leases].
    by destruct ((release_lease _ ≫= _) _) as [[[]|e|] self2].
  - split; [done|]. destruct self as [r d e l v n k]. unfold set_virtual_machines. simpl in *.
    by rewrite delete_id.
Qed.

(** A machine whose leases are all stored goes with them and with its node. *)
Lemma destroy_releasable id self vm :
  virtual_machines self !! Identity.id id = Some vm →
  releasable (leases self) (VirtualMachine.leases vm) →
  destroy_virtual_machine id self =
    (Ok vm, set_logical_nodes (delete (Identity.id (VirtualMachine.node_id vm)))
              (set_leases (remove_keys (VirtualMachine.leases vm))
                 (set_virtual_machines (delete (Identity.id id)) self))).
Proof.
  intros Hvm Hr. destruct (destroy_cases id self) as [[? _]|(vm' & Hvm' & ->)]; [congruence|].
  rewrite Hvm in Hvm'. injection Hvm' as <-. by rewrite release_leases_all.
Qed.

(** ** Executing a machine *)

Lemma execute_vm_cases {B W} `{ExecutionBackend B W} now id k (backend : B) self (w : W) :
  (∃ vm node, virtual_machines self !! Identity.id id = Some vm ∧
     logical_nodes self !! Identity.id (VirtualMachine.node_id vm) = Some node ∧
     let '(r, (vm', w')) := VirtualMachine.execute_at node k backend now (vm, w) in
     execute_virtual_machine now id k backend (self, w) =
       (r .map_err ControlError.VirtualMachine,
        (if is_panic r then self
         else set_virtual_machines (insert (Identity.id (VirtualMachine.id vm')) vm') self, w'))) ∨
  ((virtual_machines self !! Identity.id id = None ∨
    ∃ vm, virtual_machines self !! Identity.id id = Some vm ∧
      logical_nodes self !! Identity.id (VirtualMachine.node_id vm) = None) ∧
   execute_virtual_machine now id k backend (self, w) =
     (Err ControlError.VirtualMachineNotFound, (self, w))).
Proof.
  unfold execute_virtual_machine, load_vm, load_node, VirtualMachine.execute.
  destruct (virtual_machines self !! Identity.id id) as [vm|] eqn:Hvm; cbn [ok_or mbind result_bind]; [|right; by auto].
  destruct (logical_nodes self !! _) as [node|] eqn:Hn;
    cbn [ok_or mbind result_bind]; [|right; by eauto].
  left. exists vm, node. split_and!; [done..|].
  by destruct (VirtualMachine.execute_at node k backend now (vm, w)) as [[] []].
Qed.

(** ** Every operation keeps the invariant *)

Section preservation.
Context `{!UuidLaws _}.

Lemma drawn_new n : drawn (S n) (uuid_to_string (new_v4 n)).
Proof. exists n. split; [lia|done]. Qed.

(** Adding a machine for the next draw, with its node. *)
Lemma hosted_wf node created ls self :
  can_host node created ls → plane_wf self →
  plane_wf (set_virtual_machines (insert (uuid_to_string (new_v4 (draws self)))
                                    (hosted node created ls (draws self)))
    (set_logical_nodes (insert (LogicalNode.id node) node) (set_draws (S (draws self)) self))).
Proof.
  intros [Ht Hid Hr Hrt Hm] [Hreg Hl Hv Hn]. split; simpl.
  - done.
  - eapply leases_ok_mono; [|done]. lia.
  - intros k vm [[<- <-]|[_ Hk]]%lookup_insert_Some; simpl.
    + split_and!; [done|apply drawn_new|done|].
      destruct (decide (ls = [])) as [->|Hne]; [constructor|].
      apply match_leases_ok in Hm as (_ & Hf & _); [|done].
      eapply Forall_impl; [exact Hf|]. by intros l [].
    + eapply vms_ok_mono; [|done|done]. lia.
  - by apply nodes_ok_insert.
Qed.

Lemma set_leases_wf f self :
  leases_ok (draws self) (f (leases self)) → plane_wf self → plane_wf (set_leases f self).
Proof. by intros Hf [? ? ? ?]. Qed.

Lemma remove_keys_ok n ls m : leases_ok n m → leases_ok n (remove_keys ls m).
Proof. intros Hm k l. rewrite remove_keys_lookup. case_decide; [done|apply Hm]. Qed.

Lemma create_leased_node_wf q now d self :
  plane_wf self → plane_wf (create_leased_logical_node q now d self).2.
Proof.
  intros Hwf. destruct (create_leased_node_cases q now d self)
    as [(node & n & [_ _ Hp _ Hv] & ->)|(_ & r & self' & -> & _ & Ho & _)].
  - pose proof (plan_draws (registry self, environment self) q (draws self)) as Hn.
    rewrite Hp in Hn. simpl in Hn. cbn [snd].
    pose proof (plane_wf_draws self (n + length (node_leases node now d (now + Z.of_N d) n))) as Hd.
    apply set_leases_wf; [|apply Hd; [lia|done]]. simpl. rewrite length_leases_on.
    apply (leases_ok_store (draws self)); [done|apply Hwf|done].
  - by eapply plane_wf_only_draws.
Qed.

Lemma create_leased_node_with_runtime_state q rt now d self :
  (create_leased_logical_node_with_runtime q rt now d self).2 =
    (create_leased_logical_node q now d self).2.
Proof.
  unfold create_leased_logical_node_with_runtime, lift, mbind, op_bind.
  destruct (create_leased_logical_node q now d self) as [[[node ls]|e|] self']; [|done..].
  by destruct (LogicalNode.with_runtime node rt).
Qed.

Lemma make_leased_vm_wf node ls created self :
  plane_wf self → plane_wf (make_leased_vm node ls created self).2.
Proof.
  intros Hwf. destruct (make_leased_vm_cases node ls created self) as [(_ & Hc & ->)|(_ & e & ->)].
  - by apply hosted_wf.
  - apply set_leases_wf; [|done]. apply remove_keys_ok, Hwf.
Qed.

Lemma create_leased_vm_wf q rt now d self :
  plane_wf self → plane_wf (create_leased_virtual_machine q rt now d self).2.
Proof.
  intros Hwf. unfold create_leased_virtual_machine, mbind, op_bind.
  pose proof (create_leased_node_with_runtime_state q rt now d self) as Hs.
  pose proof (create_leased_node_wf q now d self Hwf) as Hwf'. rewrite <- Hs in Hwf'.
  destruct (create_leased_logical_node_with_runtime q rt now d self) as [[[node ls]|e|] self'];
    simpl in *; [by apply make_leased_vm_wf|done..].
Qed.

Lemma create_vm_wf node created self :
  plane_wf self → plane_wf (create_virtual_machine node created self).2.
Proof.
  intros Hwf. destruct (create_virtual_machine_cases node created self) as [[Hc ->]|[_ [e ->]]];
    [by apply hosted_wf|done].
Qed.

Lemma release_lease_wf id self : plane_wf self → plane_wf (release_lease id self).2.
Proof.
  intros Hwf. rewrite release_lease_eq. repeat case_match; try done.
  apply set_leases_wf; [|done]. apply leases_ok_delete, Hwf.
Qed.

Lemma release_leases_wf ls self : plane_wf self → plane_wf (release_leases ls self).2.
Proof.
  intros Hwf. destruct (release_leases_deletes ls self) as (l1 & -> & _).
  apply set_leases_wf; [|done]. apply remove_keys_ok, Hwf.
Qed.

(** Writing back a machine in another state. *)
Lemma set_vm_state_wf id vm s self :
  virtual_machines self !! id = Some vm → plane_wf self →
  plane_wf (set_virtual_machines (insert id (VirtualMachine.set_state s vm)) self).
Proof.
  intros Hvm [Hr Hl Hv Hn]. split; simpl; [done..| |done].
  intros k vm' [[<- <-]|[_ Hk]]%lookup_insert_Some; [|by apply Hv].
  destruct (Hv _ _ Hvm) as (? & ? & ? & ?). by split_and!.
Qed.

Lemma with_vm_wf id m self :
  (∀ vm, ∃ s, (m vm).2 = VirtualMachine.set_state s vm) → plane_wf self →
  plane_wf (with_vm id m self).2.
Proof.
  intros Hm Hwf. unfold with_vm. destruct (virtual_machines self !! _) as [vm|] eqn:Hvm; [|done].
  destruct (Hm vm) as [s Hs]. destruct (m vm) as [r vm']. simpl in *. subst.
  by apply set_vm_state_wf.
Qed.

Lemma start_state vm : ∃ s, (VirtualMachine.start vm).2 = VirtualMachine.set_state s vm.
Proof. rewrite start_spec. case_decide; simpl; eauto using set_state_same. Qed.
Lemma stop_state vm : ∃ s, (VirtualMachine.stop vm).2 = VirtualMachine.set_state s vm.
Proof. rewrite stop_spec. case_decide; simpl; eauto using set_state_same. Qed.

Lemma destroy_wf id self : plane_wf self → plane_wf (destroy_virtual_machine id self).2.
Proof.
  intros Hwf. destruct (destroy_cases id self) as [[_ ->]|(vm & Hvm & ->)]; [done|].
  set (self1 := set_virtual_machines (delete (Identity.id id)) self).
  assert (plane_wf self1) as Hwf1.
  { destruct Hwf as [? ? ? ?]. split; simpl; [done..| |done]. by apply vms_ok_delete. }
  pose proof (release_leases_wf (VirtualMachine.leases vm) self1 Hwf1) as Hwf2.
  destruct (release_leases (VirtualMachine.leases vm) self1) as [[[]|e|] self2]; simpl in *; [|done..].
  destruct Hwf2 as [? ? ? ?]. split; simpl; [done..|]. by apply nodes_ok_delete.
Qed.

Lemma execute_at_state {B W} `{ExecutionBackend B W} node k (backend : B) now vm (w : W) :
  ∃ s, (VirtualMachine.execute_at node k backend now (vm, w)).2.1 = VirtualMachine.set_state s vm.
Proof.
  destruct (execute_at_cases node k backend now vm w) as [[_ ->]|(_ & e & -> & _)].
  - destruct (backend_execute _ _ _ w) as [[]]; simpl; eauto using set_state_same.
  - simpl. eauto using set_state_same.
Qed.

Lemma execute_vm_wf {B W} `{ExecutionBackend B W} now id k (backend : B) self (w : W) :
  plane_wf self → plane_wf (execute_virtual_machine now id k backend (self, w)).2.1.
Proof.
  intros Hwf. destruct (execute_vm_cases now id k backend self w)
    as [(vm & node & Hvm & Hn & Heq)|[_ ->]]; [|done].
  destruct (execute_at_state node k backend now vm w) as [s Hs].
  destruct (VirtualMachine.execute_at node k backend now (vm, w)) as [r [vm' w']]. simpl in Hs.
  subst vm'. rewrite Heq. cbn [fst snd]. destruct (is_panic r); [done|].
  pose proof Hwf as [_ _ Hv _]. destruct (Hv _ _ Hvm) as [Hid _]. simpl. rewrite Hid.
  by apply set_vm_state_wf.
Qed.
End preservation.
End plane.
