(* ===== verification/control_spec.v ===== *)
(** * Properties of the control plane

    The invariant over every history of calls, what creating, executing and destroying leased
    machines does to the plane, and where the plane does not do what it is documented to do. *)
From S2P Require Import prelude bytes time float identity uuid_demo resource capability node.
From S2P Require Import fabric participant registry discovery scheduler lease runtime messages.
From S2P Require Import endpoint transport execution virtual_machine control control_laws.
From stdpp Require Import list.

Section plane.
Context {D E : Type} `{Discovery D} `{UuidLib} `{Scheduler (Registry.t * E)}.
Context `{!SchedulerLaws (Registry.t * E)} `{!UuidLaws _}.
Import Plane.
Abbreviation plane := (Plane.t D E).
Implicit Types (self : plane) (q : ResourceFragment.t).

(** ** Histories *)

(** One call on the plane, or one event of the participants it shares with others. *)
Inductive plane_step self : plane → Prop :=
| step_participants e :
    plane_step self (set_registry (run_registry_event (registry self) e) self)
| step_register arc : plane_step self (register_participant arc self).2
| step_announce a t : plane_step self (announce_participant a t self).2
| step_forget id : plane_step self (remove_discovered_participant id self).2
| step_node q : plane_step self (create_logical_node q self).2
| step_node_runtime q rt : plane_step self (create_logical_node_with_runtime q rt self).2
| step_leased_node q now d : plane_step self (create_leased_logical_node q now d self).2
| step_leased_node_runtime q rt now d :
    plane_step self (create_leased_logical_node_with_runtime q rt now d self).2
| step_vm node created : plane_step self (create_virtual_machine node created self).2
| step_leased_vm q rt now d : plane_step self (create_leased_virtual_machine q rt now d self).2
| step_start id : plane_step self (start_virtual_machine id self).2
| step_stop id : plane_step self (stop_virtual_machine id self).2
| step_destroy id : plane_step self (destroy_virtual_machine id self).2
| step_execute {B W} `{ExecutionBackend B W} now id k (backend : B) (w : W) :
    plane_step self (execute_virtual_machine now id k backend (self, w)).2.1
| step_release id : plane_step self (release_lease id self).2
| step_release_all ls : plane_step self (release_leases ls self).2.

Lemma create_node_draws q self : only_draws self (create_logical_node q self).2.
Proof.
  unfold create_logical_node, drawing.
  pose proof (plan_draws (registry self, environment self) q (draws self)) as Hn.
  destruct (plan _ q (draws self)) as [r n]. by exists n.
Qed.

Lemma create_node_runtime_draws q rt self :
  only_draws self (create_logical_node_with_runtime q rt self).2.
Proof.
  pose proof (create_node_draws q self) as Hd.
  unfold create_logical_node_with_runtime, op_map_err, lift, mbind, op_bind.
  by destruct (create_logical_node q self) as [[node|e|] self'].
Qed.

Lemma set_registry_wf r self : Registry.wf r → plane_wf self → plane_wf (set_registry r self).
Proof. by intros Hr [? ? ? ?]. Qed.

Lemma plane_step_wf self self' : plane_step self self' → plane_wf self → plane_wf self'.
Proof.
  intros Hs Hwf. pose proof Hwf as [Hreg _ _ _]. destruct Hs.
  - apply set_registry_wf; [|done]. by apply run_registry_event_wf.
  - unfold register_participant, on_registry. pose proof (registry_register_wf arc _ Hreg) as Hr.
    destruct (Registry.register arc (registry self)) as [r s]. by apply set_registry_wf.
  - unfold announce_participant, on_discovery. destruct (discovery_upsert _ _ _) as [r s].
    by destruct Hwf.
  - unfold remove_discovered_participant, on_discovery. destruct (discovery_remove _ _) as [r s].
    by destruct Hwf.
  - eapply plane_wf_only_draws; [apply create_node_draws|done].
  - eapply plane_wf_only_draws; [apply create_node_runtime_draws|done].
  - by apply create_leased_node_wf.
  - rewrite create_leased_node_with_runtime_state. by apply create_leased_node_wf.
  - by apply create_vm_wf.
  - by apply create_leased_vm_wf.
  - apply with_vm_wf; [apply start_state|done].
  - apply with_vm_wf; [apply stop_state|done].
  - by apply destroy_wf.
  - by apply execute_vm_wf.
  - by apply release_lease_wf.
  - by apply release_leases_wf.
Qed.

Lemma plane_steps_wf self self' : rtc plane_step self self' → plane_wf self → plane_wf self'.
Proof. induction 1 as [|s1 s2 s3 Hs _ IH]; [done|]. intros Hwf. by eapply IH, plane_step_wf. Qed.

Lemma new_wf r d e n : Registry.wf r → plane_wf (Plane.new (D:=D) (E:=E) r d e n).
Proof. intros Hr. split; [done|..]; intros k x Hk; cbn in Hk; by apply lookup_empty_Some in Hk. Qed.

(** ** Creating and destroying leased machines *)

(** A leased node as [create_leased_logical_node] made and stored it. *)
Record leased q now d self node (ls : list Lease.t) self' : Prop := {
  le_plan : ∃ n, leasable q now d self node n ∧
    ls = node_leases node now d (now + Z.of_N d)%Z n ∧ draws self ≤ n ∧
    self' = set_leases (store_leases ls) (set_draws (n + length ls) self);
}.

Lemma create_leased_node_ok q now d self node ls self' :
  create_leased_logical_node q now d self = (Ok (node, ls), self') → leased q now d self node ls self'.
Proof.
  intros Hc. destruct (create_leased_node_cases q now d self)
    as [(node' & n & Hl & Heq)|(_ & r & self1 & Heq & Hr & _)]; rewrite Heq in Hc; [|by simplify_eq].
  injection Hc as <- <- <-. split. exists n. split_and!; try done.
  destruct Hl as [_ _ Hp _ _]. pose proof (plan_draws (registry self, environment self) q (draws self)) as Hd.
  by rewrite Hp in Hd.
Qed.

(** How [create_leased_virtual_machine] ends, step by step. *)
Lemma create_leased_vm_cases q rt now d self :
  (∃ node ls self1 e, create_leased_logical_node q now d self = (Ok (node, ls), self1) ∧
     LogicalNode.with_runtime node rt = Err e ∧
     create_leased_virtual_machine q rt now d self = (Err (ControlError.Node e), self1)) ∨
  (∃ node node' ls self1, create_leased_logical_node q now d self = (Ok (node, ls), self1) ∧
     valid_runtime rt ∧ node' = LogicalNode.set_runtime rt node ∧
     create_leased_virtual_machine q rt now d self = make_leased_vm node' ls now self1) ∨
  (∃ r self1, create_leased_virtual_machine q rt now d self = (r, self1) ∧ is_ok r = false ∧
     only_draws self self1 ∧ (r = Panic → (SystemTime.MAX < now + Z.of_N d)%Z)).
Proof.
  unfold create_leased_virtual_machine, create_leased_logical_node_with_runtime, lift, mbind, op_bind.
  destruct (create_leased_node_cases q now d self)
    as [(node & n & _ & ->)|(_ & r & self1 & -> & Hr & Ho & Hp)].
  - rewrite with_runtime_spec. destruct (RuntimeSpec.validate rt) as [[]|e|] eqn:Hrt.
    + right. left. do 4 eexists. split; [done|]. split; [by apply runtime_spec_ok|]. by split.
    + left. do 4 eexists. split; [done|]. split; [by rewrite with_runtime_spec, Hrt|done].
    + by apply runtime_spec_no_panic in Hrt.
  - right. right. destruct r as [|e|]; [done|by exists (Err e), self1|].
    exists Panic, self1. split_and!; try done. intros _. by apply Hp.
Qed.

Lemma leased_store_fresh q now d self node ls self' N :
  plane_wf self → draws_distinct 0 N → draws self' ≤ N → leased q now d self node ls self' →
  (∀ l, l ∈ ls → leases self !! lease_key l = None) ∧ NoDup ((λ l, lease_key l) <$> ls) ∧
  remove_keys ls (leases self') = leases self.
Proof.
  intros Hwf HN Hle [(n & [_ _ _ _ Hv] & -> & Hn & ->)]. simpl in Hle. rewrite length_leases_on in Hle.
  assert (∀ l, l ∈ node_leases node now d (now + Z.of_N d)%Z n → leases self !! lease_key l = None) as Hf.
  { intros l Hl. eapply (leases_on_fresh N HN (draws self)); [apply Hwf|exact Hn| |exact Hl]. done. }
  split_and!; [done|by eapply (leases_on_NoDup N)|]. by apply remove_store_leases.
Qed.

(** A list with a lease that is not stored is never released to the end. *)
Lemma release_leases_err l ls self :
  l ∈ ls → leases self !! lease_key l = None →
  ∃ l1, l1 ⊆ ls ∧ release_leases ls self =
    (Err ControlError.LeaseNotFound, set_leases (remove_keys l1) self).
Proof.
  revert self. induction ls as [|l' ls IH]; intros self Hin Hl; [set_solver|].
  cbn [release_leases]. unfold mbind, op_bind. rewrite release_lease_eq.
  destruct (bad_identity _ _); [exists []; split; [set_solver|by destruct self]|].
  destruct (leases self !! lease_key l') eqn:Hl'; [|exists []; split; [set_solver|by destruct self]].
  apply elem_of_cons in Hin as [->|Hin]; [congruence|].
  destruct (IH (set_leases (delete (lease_key l')) self) Hin) as (l1 & Hsub & ->).
  - simpl. apply lookup_delete_None. by right.
  - exists (l' :: l1). split; [set_solver|done].
Qed.

(** What the caller of a leased node knows of its leases. *)
Lemma leased_leases q now d self node ls self' l :
  leased q now d self node ls self' → l ∈ ls →
  valid_lease l ∧ Lease.active_at l now = true ∧ Lease.expires_at l = (now + Z.of_N d)%Z ∧
  Identity.kind (Lease.id l) = Kind.Lease.
Proof.
  intros [(n & [_ Hd _ _ Hv] & -> & _ & _)] Hl. rewrite Forall_forall in Hv. apply Hv in Hl as Hvl.
  apply leases_on_elem in Hl as (i & a & _ & _ & ->). split_and!; try done.
  apply active_at_spec. simpl. lia.
Qed.

Lemma with_runtime_err node rt e :
  LogicalNode.with_runtime node rt = Err e → ¬ valid_runtime rt.
Proof.
  rewrite with_runtime_spec, <- runtime_spec_ok. intros Hw Hv. by rewrite Hv in Hw.
Qed.

(** A failure after the leases were stored takes them back. *)
Lemma make_leased_vm_undone q now d self node ls self1 :
  plane_wf self → leased q now d self node ls self1 →
  draws_distinct 0 (draws self1) →
  leases (set_leases (remove_keys ls) self1) = leases self ∧
  virtual_machines (set_leases (remove_keys ls) self1) = virtual_machines self ∧
  logical_nodes (set_leases (remove_keys ls) self1) = logical_nodes self.
Proof.
  intros Hwf Hl HN. destruct (leased_store_fresh _ _ _ _ _ _ _ _ Hwf HN (le_n _) Hl) as (_ & _ & Hr).
  destruct Hl as [(n & _ & _ & _ & ->)]. by split_and!.
Qed.

(** What a created leased machine leaves: itself, its leases and its node. *)
Lemma created_leased_vm q rt now d self self' vm ls :
  plane_wf self → draws_distinct 0 (draws self') →
  create_leased_virtual_machine q rt now d self = (Ok (vm, ls), self') →
  VirtualMachine.leases vm = ls ∧ Forall (λ l, valid_identity Kind.Lease (Lease.id l)) ls ∧
  releasable (leases self') ls ∧ remove_keys ls (leases self') = leases self ∧
  registry self' = registry self ∧
  virtual_machines self' !! Identity.id (VirtualMachine.id vm) = Some vm ∧
  delete (Identity.id (VirtualMachine.id vm)) (virtual_machines self') = virtual_machines self ∧
  delete (Identity.id (VirtualMachine.node_id vm)) (logical_nodes self') =
    delete (Identity.id (VirtualMachine.node_id vm)) (logical_nodes self).
Proof.
  intros Hwf HN Hcreate. destruct (create_leased_vm_cases q rt now d self)
    as [(node & ls' & self1 & e & _ & _ & Heq)
       |[(node & node' & ls' & self1 & Hc & Hrt & -> & Heq)
        |(r & self1 & Heq & Hr & _)]]; rewrite Heq in Hcreate; [done| |by destruct r; simplify_eq].
  apply create_leased_node_ok in Hc as Hl.
  destruct (make_leased_vm_cases (LogicalNode.set_runtime rt node) ls' now self1)
    as [(Hne & _ & Hm)|(_ & e & Hm)]; rewrite Hm in Hcreate; [|done]. simplify_eq.
  cbn [draws set_virtual_machines set_logical_nodes set_draws] in HN.
  destruct (leased_store_fresh _ _ _ _ _ _ _ (S (draws self1)) Hwf HN (Nat.le_succ_diag_r _) Hl)
    as (Hfresh & Hnd & Hrem).
  pose proof (λ l, leased_leases _ _ _ _ _ _ _ l Hl) as Hls.
  assert (Forall (λ l, valid_identity Kind.Lease (Lease.id l)) ls) as Hid.
  { apply Forall_forall. intros l Hin. by destruct (Hls l Hin) as ([? _ _ _ _ _ _] & _). }
  assert (virtual_machines self !! uuid_to_string (new_v4 (draws self1)) = None) as Hvm.
  { destruct Hl as [(n & _ & _ & Hn & ->)]. apply eq_None_not_Some. intros [vm Hvm]. apply (pw_vms _ Hwf) in Hvm as (_ & Hd & _).
    eapply drawn_fresh; [exact HN|exact Hd|]. simpl. lia. }
  destruct Hl as [(n & _ & _ & Hn & ->)]. split_and!; simpl in *; try done.
  - split; [|done]. apply Forall_forall. intros l Hin. rewrite Forall_forall in Hid.
    split; [by apply Hid|]. exists l. by apply store_leases_new.
  - apply lookup_insert_eq.
  - by rewrite delete_insert_id.
  - by rewrite delete_insert_eq.
Qed.
End plane.

(** ** Properties *)

Section properties.
Context {D E : Type} `{Discovery D} `{UuidLib} `{Scheduler (Registry.t * E)}.
Context `{!SchedulerLaws (Registry.t * E)} `{!UuidLaws _}.
Import Plane.
Abbreviation plane := (Plane.t D E).
Implicit Types (self : plane) (q : ResourceFragment.t).

(** C7: over every history of calls, failed ones included, and of events of the shared
    participants, a plane keeps its invariant: leases, machines and nodes are stored under their
    own identifiers, leases are valid, machines carry drawn identities and valid leases. *)
Theorem plane_invariant (r : Registry.t) (d : D) (e : E) (n : nat) self :
  Registry.wf r → rtc plane_step (Plane.new r d e n) self → plane_wf self.
Proof. intros Hr Hs. eapply plane_steps_wf; [done|by apply new_wf]. Qed.

(** C1: creating a leased machine is atomic. On success exactly the new machine, its node and one
    fresh, valid lease per allocation are stored, the leases cover the allocations, are active, and
    expire after the given duration; on any failure the three maps are what they were, provided
    the runtime was valid. *)
Theorem leased_vm_creation_atomic q rt now d self :
  plane_wf self → draws_distinct 0 (draws (create_leased_virtual_machine q rt now d self).2) →
  match create_leased_virtual_machine q rt now d self with
  | (Ok (vm, ls), self') =>
    ∃ node, CompositeResource.satisfies (LogicalNode.resources node) q = true ∧
      VirtualMachine.leases vm = ls ∧ VirtualMachine.state vm = VirtualMachineState.Created ∧
      VirtualMachine.node_id vm = Identity.mk (LogicalNode.id node) Kind.LogicalNode ∧
      virtual_machines self !! Identity.id (VirtualMachine.id vm) = None ∧
      virtual_machines self' = <[Identity.id (VirtualMachine.id vm) := vm]> (virtual_machines self) ∧
      logical_nodes self' = <[LogicalNode.id node := node]> (logical_nodes self) ∧
      ((λ l, lease_participant l) <$> ls) =
        ids_of (CompositeResource.allocations (LogicalNode.resources node)) ∧
      (∀ l, l ∈ ls → valid_lease l ∧ Lease.active_at l now = true ∧
        Lease.expires_at l = (now + Z.of_N d)%Z ∧
        leases self !! lease_key l = None ∧ leases self' !! lease_key l = Some l) ∧
      (∀ k, k ∉ ((λ l, lease_key l) <$> ls) → leases self' !! k = leases self !! k)
  | (_, self') => valid_runtime rt →
      leases self' = leases self ∧ virtual_machines self' = virtual_machines self ∧
      logical_nodes self' = logical_nodes self
  end.
Proof.
  intros Hwf. destruct (create_leased_vm_cases q rt now d self)
    as [(node & ls & self1 & e & _ & He & ->)
       |[(node & node' & ls & self1 & Hc & Hrt & -> & ->)
        |(r & self1 & -> & Hr & (n & _ & ->) & _)]].
  - intros _ Hrt. by apply with_runtime_err in He.
  - apply create_leased_node_ok in Hc as Hl.
    destruct (make_leased_vm_cases (LogicalNode.set_runtime rt node) ls now self1)
      as [(_ & _ & ->)|(_ & e & ->)]; cbn [snd draws set_virtual_machines set_logical_nodes set_draws].
    + intros HN. destruct (leased_store_fresh _ _ _ _ _ _ _ (S (draws self1)) Hwf HN
          (Nat.le_succ_diag_r _) Hl)
        as (Hfresh & Hnd & _).
      pose proof (λ l, leased_leases _ _ _ _ _ _ _ l Hl) as Hls.
      destruct Hl as [(n & [_ _ Hp _ _] & Heq & Hn & ->)].
      exists (LogicalNode.set_runtime rt node). split_and!; try done; simpl.
      * apply plan_node in Hp as (_ & _ & Hs). exact Hs.
      * apply eq_None_not_Some. intros [vm Hvm]. apply (pw_vms _ Hwf) in Hvm as (_ & Hd & _).
        eapply drawn_fresh; [exact HN|exact Hd|]. simpl. lia.
      * rewrite Heq. apply leases_on_participants.
      * intros l Hin. destruct (Hls l Hin) as (? & ? & ? & _). split_and!; try done; [by apply Hfresh|].
        by apply store_leases_new.
      * intros k Hk. by apply store_leases_other.
    + intros HN _. by eapply make_leased_vm_undone.
  - intros _. by destruct r.
Qed.

(** C11: destroying a leased machine undoes its creation. Right after the creation it leaves every
    lease and machine as it was before, and the nodes without the machine's. Later, whatever
    happened in between, it returns the machine exactly when all leases of the machine are still
    stored, and then it removes the machine, its leases and its node and nothing else; otherwise it
    reports a missing lease, with the machine gone and the nodes as they were. *)
Theorem destroy_undoes_creation q rt now d self self' vm ls :
  plane_wf self → draws_distinct 0 (draws self') →
  create_leased_virtual_machine q rt now d self = (Ok (vm, ls), self') →
  (∃ self'', destroy_virtual_machine (VirtualMachine.id vm) self' = (Ok vm, self'') ∧
    leases self'' = leases self ∧ virtual_machines self'' = virtual_machines self ∧
    logical_nodes self'' =
      delete (Identity.id (VirtualMachine.node_id vm)) (logical_nodes self) ∧
    registry self'' = registry self ∧ draws self'' = draws self') ∧
  (∀ self1 vm1, virtual_machines self1 !! Identity.id (VirtualMachine.id vm) = Some vm1 →
    VirtualMachine.leases vm1 = ls →
    let '(r, self2) := destroy_virtual_machine (VirtualMachine.id vm) self1 in
    virtual_machines self2 = delete (Identity.id (VirtualMachine.id vm)) (virtual_machines self1) ∧
    registry self2 = registry self1 ∧ draws self2 = draws self1 ∧
    (∀ k, k ∉ ((λ l, lease_key l) <$> ls) → leases self2 !! k = leases self1 !! k) ∧
    ((r = Ok vm1 ∧ (∀ l, l ∈ ls → is_Some (leases self1 !! lease_key l) ∧ leases self2 !! lease_key l = None) ∧
      logical_nodes self2 = delete (Identity.id (VirtualMachine.node_id vm1)) (logical_nodes self1)) ∨
     (r = Err ControlError.LeaseNotFound ∧ (∃ l, l ∈ ls ∧ leases self1 !! lease_key l = None) ∧
      logical_nodes self2 = logical_nodes self1))).
Proof.
  intros Hwf HN Hcreate.
  destruct (created_leased_vm _ _ _ _ _ _ _ _ Hwf HN Hcreate)
    as (Hls & Hid & Hrel & Hrem & Hreg & Hvm & Hvms & Hnodes). split.
  - eexists. split; [apply destroy_releasable; [exact Hvm|by rewrite Hls]|]. rewrite Hls. simpl.
    by split_and!.
  - intros self1 vm1 Hvm1 Hls1.
    destruct (decide (Forall (λ l, is_Some (leases self1 !! lease_key l)) ls)) as [Hall|Hmiss].
    + rewrite (destroy_releasable _ _ vm1 Hvm1).
      2: { rewrite Hls1. split; [|by destruct Hrel]. apply Forall_and. by split. }
      rewrite Hls1. simpl. split_and!; [done..| |left; split_and!; [done| |done]].
      * intros k Hk. by rewrite remove_keys_lookup, decide_False.
      * intros l Hl. rewrite Forall_forall in Hall. split; [by apply Hall|].
        rewrite remove_keys_lookup, decide_True; [done|]. by apply (list_elem_of_fmap_2 (λ l, lease_key l)).
    + apply not_Forall_Exists, Exists_exists in Hmiss as (l & Hl & Hn%eq_None_not_Some); [|apply _].
      destruct (destroy_cases (VirtualMachine.id vm) self1) as [[? _]|(vm2 & Hvm2 & ->)]; [congruence|].
      rewrite Hvm1 in Hvm2. injection Hvm2 as <-. rewrite Hls1.
      destruct (release_leases_err l ls (set_virtual_machines
        (delete (Identity.id (VirtualMachine.id vm))) self1) Hl Hn) as (l1 & Hsub & ->).
      simpl. split_and!; [done..| |right; split_and!; [done|by exists l|done]].
      intros k Hk. rewrite remove_keys_lookup, decide_False; [done|]. set_solver.
Qed.

(** A stored lease can be released once: the release returns it, after which it is neither
    found nor released again, and no other lease, machine or node changes; a refused release
    changes nothing. *)
Theorem lease_released_once (id : Identity.t) self :
  plane_wf self →
  match release_lease id self with
  | (Ok l, self') =>
    get_lease id self = Ok l ∧ valid_lease l ∧ Lease.id l = id ∧
    get_lease id self' = Err ControlError.LeaseNotFound ∧
    release_lease id self' = (Err ControlError.LeaseNotFound, self') ∧
    (∀ k, k ≠ Identity.id id → leases self' !! k = leases self !! k) ∧
    virtual_machines self' = virtual_machines self ∧ logical_nodes self' = logical_nodes self
  | (Err e, self') =>
    e = ControlError.LeaseNotFound ∧ self' = self ∧ get_lease id self = Err ControlError.LeaseNotFound
  | (Panic, _) => False
  end.
Proof.
  intros Hwf. unfold get_lease. rewrite !release_lease_eq.
  destruct (bad_identity Kind.Lease id) eqn:Hid; [done|].
  destruct (leases self !! Identity.id id) as [l|] eqn:Hl; [|done].
  apply (pw_leases _ Hwf) in Hl as (Hk & Hv & _). rewrite release_lease_eq, Hid. simpl.
  rewrite lookup_delete_eq. apply bad_identity_false in Hid as [Hkind _].
  pose proof (vl_id _ Hv) as [Hkind' _]. split_and!; try done.
  - destruct (Lease.id l), id. simpl in *. congruence.
  - intros k Hne. by rewrite lookup_delete_ne.
Qed.

(** C4: executing a stored machine. A backend acts on the world only through a stored machine that
    is running, with active leases, on its stored node; the call then changes at most the state of
    that machine, to failed when the backend failed, and no lease, node or other machine. *)
Theorem plane_execute_spec {B W} `{ExecutionBackend B W} now id k (backend : B) self (w : W) :
  plane_wf self →
  let '(r, (self', w')) := execute_virtual_machine now id k backend (self, w) in
  (w' = w ∨ ∃ vm node, virtual_machines self !! Identity.id id = Some vm ∧
    logical_nodes self !! Identity.id (VirtualMachine.node_id vm) = Some node ∧
    runnable node k now vm ∧ w' = (backend_execute backend (plan_of node k) k w).2) ∧
  leases self' = leases self ∧ logical_nodes self' = logical_nodes self ∧
  (∀ k', k' ≠ Identity.id id → virtual_machines self' !! k' = virtual_machines self !! k') ∧
  (∀ vm, virtual_machines self !! Identity.id id = Some vm →
    virtual_machines self' !! Identity.id id = Some vm ∨
    (virtual_machines self' !! Identity.id id =
       Some (VirtualMachine.set_state VirtualMachineState.Failed vm) ∧
     ∃ e, r = Err (ControlError.VirtualMachine (VirtualMachineError.Execution e)))).
Proof.
  intros Hwf. destruct (execute_vm_cases now id k backend self w)
    as [(vm & node & Hvm & Hn & Heq)|[Hnone ->]]; [|by split_and!; auto].
  destruct (pw_vms _ Hwf _ _ Hvm) as [Hid _].
  destruct (execute_at_cases node k backend now vm w) as [[Hr He]|(_ & e & He & _)]; rewrite He in Heq.
  - destruct (backend_execute backend (plan_of node k) k w) as [[receipt|e|] w'] eqn:Hb;
      rewrite Heq; simpl; rewrite ?Hid; simpl; (split; [right; exists vm, node; by rewrite Hb|]);
      split_and!; try done; intros; rewrite ?lookup_insert_ne, ?lookup_insert_eq by done; simplify_eq;
      eauto.
  - rewrite Heq. simpl. rewrite Hid. simpl. split_and!; try done; [by left|..];
      intros; rewrite ?lookup_insert_ne, ?lookup_insert_eq by done; simplify_eq; eauto.
Qed.

(** C38: a leased machine with a malformed runtime is refused only after its leases were stored:
    the error leaves them behind, with no machine to release them and no identifiers returned. *)
Theorem malformed_runtime_leaks_leases q rt now d self node ls self1 :
  plane_wf self → draws_distinct 0 (draws self1) → ¬ valid_runtime rt →
  create_leased_logical_node q now d self = (Ok (node, ls), self1) →
  (∃ e, create_leased_virtual_machine q rt now d self = (Err (ControlError.Node e), self1)) ∧
  ls ≠ [] ∧ Forall (λ l, leases self !! lease_key l = None ∧ get_lease (Lease.id l) self1 = Ok l) ls ∧
  virtual_machines self1 = virtual_machines self.
Proof.
  intros Hwf HN Hrt Hc. apply create_leased_node_ok in Hc as Hl. split.
  { unfold create_leased_virtual_machine, create_leased_logical_node_with_runtime, lift, mbind, op_bind.
    rewrite Hc, with_runtime_spec. destruct (RuntimeSpec.validate rt) as [[]|e|] eqn:Hv.
    - by apply runtime_spec_ok in Hv.
    - by eexists.
    - by apply runtime_spec_no_panic in Hv. }
  destruct (leased_store_fresh _ _ _ _ _ _ _ _ Hwf HN (le_n _) Hl) as (Hf & Hnd & _).
  pose proof (λ l, leased_leases _ _ _ _ _ _ _ l Hl) as Hls.
  destruct Hl as [(n & [_ _ Hp _ _] & Hleq & _ & ->)]. split_and!; [|apply Forall_forall|done].
  - apply plan_node in Hp as (_ & Hv & _). rewrite Hleq. intros Hnil%(f_equal length).
    rewrite length_leases_on in Hnil. unfold CompositeResource.validate in Hv.
    by destruct (CompositeResource.allocations _).
  - intros l Hin. split; [by apply Hf|]. unfold get_lease.
    destruct (Hls l Hin) as (Hv & _). apply vl_id, bad_identity_false in Hv. rewrite Hv. simpl.
    by rewrite store_leases_new.
Qed.

(** A machine one of whose leases was released before cannot be destroyed cleanly: the call
    reports that a lease was not found, but the machine is gone, so it cannot be destroyed again,
    and its node stays stored. *)
Theorem destroy_after_release id self vm l :
  virtual_machines self !! Identity.id id = Some vm → l ∈ VirtualMachine.leases vm →
  leases self !! lease_key l = None →
  let '(r, self') := destroy_virtual_machine id self in
  r = Err ControlError.LeaseNotFound ∧
  virtual_machines self' = delete (Identity.id id) (virtual_machines self) ∧
  logical_nodes self' = logical_nodes self ∧
  destroy_virtual_machine id self' = (Err ControlError.VirtualMachineNotFound, self').
Proof.
  intros Hvm Hl Hnone. destruct (destroy_cases id self) as [[? _]|(vm' & Hvm' & ->)]; [congruence|].
  simplify_eq.
  destruct (release_leases_err l (VirtualMachine.leases vm)
    (set_virtual_machines (delete (Identity.id id)) self) Hl Hnone) as (l1 & _ & ->).
  split_and!; [done..|].
  match goal with |- destroy_virtual_machine _ ?s = _ =>
    destruct (destroy_cases id s) as [[_ ->]|(vm' & Hv & _)]; [done|] end.
  simpl in Hv. by rewrite lookup_delete_eq in Hv.
Qed.

(** Destroying one of two machines on a node takes the node from the other: it is still
    stored, with its leases, but can no longer be executed. *)
Theorem destroy_strands_sibling {B W} `{ExecutionBackend B W} now k (backend : B) (w : W)
    id id' self self' vm vm' :
  virtual_machines self !! Identity.id id = Some vm →
  virtual_machines self !! Identity.id id' = Some vm' →
  Identity.id id ≠ Identity.id id' →
  VirtualMachine.node_id vm = VirtualMachine.node_id vm' →
  destroy_virtual_machine id self = (Ok vm, self') →
  virtual_machines self' !! Identity.id id' = Some vm' ∧
  execute_virtual_machine now id' k backend (self', w) =
    (Err ControlError.VirtualMachineNotFound, (self', w)).
Proof.
  intros Hvm Hvm' Hne Hn Hd. destruct (destroy_cases id self) as [[? _]|(v & Hv & Heq)]; [congruence|].
  rewrite Heq in Hd. simplify_eq.
  destruct (release_leases_deletes (VirtualMachine.leases vm)
    (set_virtual_machines (delete (Identity.id id)) self)) as (l1 & Hs & _).
  destruct (release_leases _ _) as [[[]|e|] self2]; simplify_eq.
  cbn [snd] in Hs. subst self2. split; [cbn; by rewrite lookup_delete_ne|].
  match goal with |- execute_virtual_machine _ _ _ _ (?s, _) = _ =>
    destruct (execute_vm_cases now id' k backend s w) as [(v & node & Hv' & Hnode & _)|[_ ->]]; [|done] end.
  simpl in Hv', Hnode. rewrite lookup_delete_ne in Hv' by done. simplify_eq.
  by rewrite Hn, lookup_delete_eq in Hnode.
Qed.
End properties.
