(* ===== verification/control_types.v ===== *)
(** * Widths on the control plane

    Rust's types bound every quantity: 64 bits for memory, storage and bandwidth, 32 for GPU units,
    and the representable durations and times. The model computes on [N] and [Z]; here the calls on
    the plane are shown to keep everything that it stores within those bounds, so that no operation
    of the model leaves the values that the code can hold. *)
From S2P Require Import prelude bytes time float identity uuid_demo resource capability node.
From S2P Require Import fabric participant registry discovery scheduler lease runtime messages.
From S2P Require Import endpoint transport execution virtual_machine control control_laws.
From S2P Require Import control_spec.

Definition typed_composite (c : CompositeResource.t) : Prop :=
  ResourceFragment.wf (CompositeResource.capacity c) ∧
  Forall (λ a, ResourceFragment.wf (Allocation.resources a)) (CompositeResource.allocations c).
Definition typed_lease (l : Lease.t) : Prop :=
  ResourceFragment.wf (Lease.resources l) ∧ (Lease.expires_at l ≤ SystemTime.MAX)%Z.
Definition typed_vm (vm : VirtualMachine.t) : Prop :=
  ResourceFragment.wf (VirtualMachineSpec.resources (VirtualMachine.spec vm)) ∧
  Forall typed_lease (VirtualMachine.leases vm).
Abbreviation typed_node node := (typed_composite (LogicalNode.resources node)).

(** A scheduler that plans within the widths of the requirement. *)
Class TypedScheduler `{UuidLib} (W : Type) `{Scheduler W} : Prop :=
  plan_typed : ∀ w q n node n', ResourceFragment.wf q → plan w q n = (Ok node, n') → typed_node node.

(** ** The aggregating scheduler *)

Lemma fields_wf (r : ResourceFragment.t) :
  (∀ fld max, (fld, max) ∈ integer_fields → (fld r ≤ max)%N) →
  (∀ d, ResourceFragment.lifetime r = Some d → Duration.wf d) → ResourceFragment.wf r.
Proof.
  intros Hf Hd. split; [|done].
  split_and!; eapply Hf; unfold integer_fields; rewrite !elem_of_cons; eauto.
Qed.

Lemma share_typed a q s :
  ResourceFragment.wf q → AggregatingScheduler.allocation_share a q = Some s → ResourceFragment.wf s.
Proof.
  intros Hq Hs. apply fields_wf.
  - intros fld max Hfld. rewrite (field_share fld max Hfld _ _ _ Hs).
    pose proof (field_wf fld max Hfld q Hq). lia.
  - intros d Hd. apply Hq. unfold AggregatingScheduler.allocation_share in Hs.
    repeat case_match; try done. by simplify_eq.
Qed.

Lemma remaining_typed q t :
  ResourceFragment.wf q → ResourceFragment.wf (AggregatingScheduler.remaining q t).
Proof.
  intros Hq. apply fields_wf.
  - intros fld max Hfld. rewrite (field_remaining fld max Hfld).
    pose proof (field_wf fld max Hfld q Hq). lia.
  - apply Hq.
Qed.

Lemma allocate_typed q total allocations offers :
  ResourceFragment.wf q → Forall (λ a, ResourceFragment.wf (Allocation.resources a)) allocations →
  Forall (λ a, ResourceFragment.wf (Allocation.resources a))
    (AggregatingScheduler.allocate q total allocations offers).2.
Proof.
  intros Hq. revert total allocations. induction offers as [|o offers IH]; intros total al Hal; [done|].
  cbn [AggregatingScheduler.allocate].
  destruct (AggregatingScheduler.allocation_share _ _) as [share|] eqn:Hs; [|by apply IH].
  apply share_typed in Hs; [|by apply remaining_typed].
  case_match; [|apply IH]; (apply Forall_app; split; [done|by apply Forall_singleton]).
Qed.

Lemma default_typed : ResourceFragment.wf ResourceFragment.default.
Proof. split; [by split_and!|done]. Qed.

#[export] Instance aggregating_typed `{UuidLib} `{Fabric F} : TypedScheduler F.
Proof.
  intros f q n node n' Hq Hp.
  destruct (plan_cases f q n) as [(_ & E)|[(_ & _ & E)|[(_ & _ & _ & E)|(_ & _ & _ & Hc & E)]]];
    rewrite E in Hp; simplify_eq.
  pose proof (allocate_typed q ResourceFragment.default []
    (sort_on ResourceOffer.participant_id (offers f)) Hq ltac:(constructor)) as Hal.
  split; simpl; [|done]. apply compose_ok in Hc as (_ & _ & _ & [= ->]).
  apply sum_from_wf; [apply default_typed|]. by apply Forall_fmap.
Qed.

(** ** The plane *)

Section plane.
Context {D E : Type} `{Discovery D} `{UuidLib} `{Scheduler (Registry.t * E)}.
Context `{!SchedulerLaws (Registry.t * E)} `{!UuidLaws _} `{!TypedScheduler (Registry.t * E)}.
Import Plane.
Abbreviation plane := (Plane.t D E).
Implicit Types (self : plane) (q : ResourceFragment.t).

(** Everything the plane stores is within its widths. *)
Record typed_plane self : Prop := {
  tp_leases : ∀ k l, leases self !! k = Some l → typed_lease l;
  tp_vms : ∀ k vm, virtual_machines self !! k = Some vm → typed_vm vm;
  tp_nodes : ∀ k node, logical_nodes self !! k = Some node → typed_node node;
}.

(** The calls of [plane_step], with the arguments that the code's types allow. *)
Inductive typed_step self : plane → Prop :=
| typed_participants e :
    typed_step self (set_registry (run_registry_event (registry self) e) self)
| typed_register arc : typed_step self (register_participant arc self).2
| typed_announce a t : typed_step self (announce_participant a t self).2
| typed_forget id : typed_step self (remove_discovered_participant id self).2
| typed_create_node q : typed_step self (create_logical_node q self).2
| typed_create_node_runtime q rt : typed_step self (create_logical_node_with_runtime q rt self).2
| typed_leased_node q now d : ResourceFragment.wf q → Duration.wf d →
    typed_step self (create_leased_logical_node q now d self).2
| typed_leased_node_runtime q rt now d : ResourceFragment.wf q → Duration.wf d →
    typed_step self (create_leased_logical_node_with_runtime q rt now d self).2
| typed_create_vm node created : typed_node node →
    typed_step self (create_virtual_machine node created self).2
| typed_leased_vm q rt now d : ResourceFragment.wf q → Duration.wf d →
    typed_step self (create_leased_virtual_machine q rt now d self).2
| typed_start id : typed_step self (start_virtual_machine id self).2
| typed_stop id : typed_step self (stop_virtual_machine id self).2
| typed_destroy id : typed_step self (destroy_virtual_machine id self).2
| typed_execute {B W} `{ExecutionBackend B W} now id k (backend : B) (w : W) :
    typed_step self (execute_virtual_machine now id k backend (self, w)).2.1
| typed_release id : typed_step self (release_lease id self).2
| typed_release_all ls : typed_step self (release_leases ls self).2.

Lemma typed_same self self' :
  leases self' = leases self → virtual_machines self' = virtual_machines self →
  logical_nodes self' = logical_nodes self → typed_plane self → typed_plane self'.
Proof. intros Hl Hv Hn [? ? ?]. split; rewrite ?Hl, ?Hv, ?Hn; done. Qed.

Lemma typed_only_draws self self' : only_draws self self' → typed_plane self → typed_plane self'.
Proof. intros (n & _ & ->). by apply typed_same. Qed.

Lemma typed_set_leases f self :
  (∀ k l, f (leases self) !! k = Some l → typed_lease l) → typed_plane self →
  typed_plane (set_leases f self).
Proof. intros Hf [? ? ?]. by split. Qed.

Lemma typed_remove_keys ls self : typed_plane self → typed_plane (set_leases (remove_keys ls) self).
Proof.
  intros Hs. apply typed_set_leases; [|done]. intros k l. rewrite remove_keys_lookup.
  case_decide; [done|apply Hs].
Qed.

Lemma typed_set_vm k vm self :
  typed_vm vm → typed_plane self → typed_plane (set_virtual_machines (insert k vm) self).
Proof.
  intros Hvm [? Hv ?]. split; simpl; try done. intros k' vm' [[_ <-]|[_ Hk]]%lookup_insert_Some; [done|].
  by eapply Hv.
Qed.

Lemma typed_set_state s vm : typed_vm (VirtualMachine.set_state s vm) ↔ typed_vm vm.
Proof. done. Qed.

Lemma clip_typed d r :
  Duration.wf d → ResourceFragment.wf r → ResourceFragment.wf (clip_lifetime d r).
Proof.
  intros Hd [Hf Hl]. unfold clip_lifetime. case_match; [|done]. split; [done|]. by intros d' [= <-].
Qed.

(** Leases on typed allocations. *)
Lemma leases_on_typed nid now d n al :
  Duration.wf d → (now + Z.of_N d ≤ SystemTime.MAX)%Z →
  Forall (λ a, ResourceFragment.wf (Allocation.resources a)) al →
  Forall typed_lease (leases_on nid now (now + Z.of_N d) d n al).
Proof.
  intros Hd He. rewrite !Forall_forall. intros Hal l (i & a & _ & Ha & ->)%leases_on_elem.
  split; [by apply clip_typed, Hal|done].
Qed.

(** A leased node that was made, with its leases, and the plane after it. *)
Lemma leased_typed q now d self node ls self' :
  ResourceFragment.wf q → Duration.wf d → typed_plane self → leased q now d self node ls self' →
  typed_node node ∧ Forall typed_lease ls ∧ typed_plane self'.
Proof.
  intros Hq Hd Hs [(n & [_ _ Hp He _] & -> & _ & ->)].
  apply plan_typed in Hp as Hn; [|done].
  assert (Forall typed_lease (node_leases node now d (now + Z.of_N d)%Z n)) as Hls
    by (apply leases_on_typed; [done|done|apply Hn]).
  split_and!; [done|done|]. apply typed_set_leases; [|by apply (typed_same self)].
  intros k l [[Hl _]|Hl]%store_leases_some; [|by eapply tp_leases].
  rewrite Forall_forall in Hls. by apply Hls.
Qed.

Lemma create_leased_node_typed q now d self :
  ResourceFragment.wf q → Duration.wf d → typed_plane self →
  typed_plane (create_leased_logical_node q now d self).2.
Proof.
  intros Hq Hd Hs. destruct (create_leased_logical_node q now d self) as [[[node ls]|e|] self'] eqn:Hc.
  - by apply create_leased_node_ok, leased_typed in Hc as (_ & _ & ?).
  - destruct (create_leased_node_cases q now d self) as [(? & ? & _ & Heq)|(_ & r & ? & Heq & _ & Ho & _)];
      rewrite Heq in Hc; simplify_eq; by eapply typed_only_draws.
  - destruct (create_leased_node_cases q now d self) as [(? & ? & _ & Heq)|(_ & r & ? & Heq & _ & Ho & _)];
      rewrite Heq in Hc; simplify_eq; by eapply typed_only_draws.
Qed.

Lemma hosted_typed node created ls self n :
  typed_node node → Forall typed_lease ls → typed_plane self →
  typed_plane (set_virtual_machines (insert (uuid_to_string (new_v4 (draws self)))
                                      (hosted node created ls (draws self)))
    (set_logical_nodes (insert (LogicalNode.id node) node) (set_draws n self))).
Proof.
  intros Hn Hls [Hl Hv Hnodes]. apply typed_set_vm; [by destruct Hn|]. split; simpl; [done..|].
  intros k node' [[_ <-]|[_ Hk]]%lookup_insert_Some; [done|by eapply Hnodes].
Qed.

Lemma create_leased_vm_typed q rt now d self :
  ResourceFragment.wf q → Duration.wf d → typed_plane self →
  typed_plane (create_leased_virtual_machine q rt now d self).2.
Proof.
  intros Hq Hd Hs. destruct (create_leased_vm_cases q rt now d self)
    as [(node & ls & self1 & e & Hc & _ & ->)|[(node & node' & ls & self1 & Hc & _ & -> & ->)
       |(r & self1 & -> & _ & Ho & _)]].
  - by apply create_leased_node_ok, leased_typed in Hc as (_ & _ & ?).
  - apply create_leased_node_ok, leased_typed in Hc as (Hn & Hls & Hs1); [|done..].
    destruct (make_leased_vm_cases (LogicalNode.set_runtime rt node) ls now self1)
      as [(_ & _ & ->)|(_ & e & ->)]; [by apply hosted_typed|by apply typed_remove_keys].
  - by eapply typed_only_draws.
Qed.

Lemma with_vm_typed id m self :
  (∀ vm, ∃ s, (m vm).2 = VirtualMachine.set_state s vm) → typed_plane self →
  typed_plane (with_vm id m self).2.
Proof.
  intros Hm Hs. unfold with_vm. destruct (virtual_machines self !! _) as [vm|] eqn:Hvm; [|done].
  destruct (Hm vm) as [s Heq]. destruct (m vm) as [r vm']. simpl in *. subst.
  apply typed_set_vm; [|done]. exact (tp_vms _ Hs _ _ Hvm).
Qed.

Lemma release_lease_typed id self : typed_plane self → typed_plane (release_lease id self).2.
Proof.
  intros Hs. rewrite release_lease_eq. repeat case_match; try done.
  apply typed_set_leases; [|done]. intros k l' [_ Hk]%lookup_delete_Some. by eapply (tp_leases _ Hs).
Qed.

Lemma release_leases_typed ls self : typed_plane self → typed_plane (release_leases ls self).2.
Proof.
  intros Hs. destruct (release_leases_deletes ls self) as (l1 & -> & _). by apply typed_remove_keys.
Qed.

Lemma destroy_typed id self : typed_plane self → typed_plane (destroy_virtual_machine id self).2.
Proof.
  intros Hs. destruct (destroy_cases id self) as [[_ ->]|(vm & Hvm & ->)]; [done|].
  set (self1 := set_virtual_machines (delete (Identity.id id)) self).
  assert (typed_plane self1) as Hs1.
  { destruct Hs as [? Hv ?]. split; simpl; try done. intros k v [_ Hk]%lookup_delete_Some. by eapply Hv. }
  pose proof (release_leases_typed (VirtualMachine.leases vm) self1 Hs1) as Hs2.
  destruct (release_leases (VirtualMachine.leases vm) self1) as [[[]|e|] self2]; simpl in *; [|done..].
  destruct Hs2 as [? ? Hn]. split; simpl; try done. intros k v [_ Hk]%lookup_delete_Some. by eapply Hn.
Qed.

Lemma execute_vm_typed {B W} `{ExecutionBackend B W} now id k (backend : B) self (w : W) :
  typed_plane self → typed_plane (execute_virtual_machine now id k backend (self, w)).2.1.
Proof.
  intros Hs. destruct (execute_vm_cases now id k backend self w)
    as [(vm & node & Hvm & Hn & Heq)|[_ ->]]; [|done].
  destruct (execute_at_state node k backend now vm w) as [s Hst].
  destruct (VirtualMachine.execute_at node k backend now (vm, w)) as [r [vm' w']]. simpl in Hst.
  subst vm'. rewrite Heq. cbn [fst snd]. destruct (is_panic r); [done|].
  apply typed_set_vm; [|done]. exact (tp_vms _ Hs _ _ Hvm).
Qed.

Lemma typed_step_preserves self self' : typed_step self self' → typed_plane self → typed_plane self'.
Proof.
  intros Hstep Hs. destruct Hstep.
  - by apply (typed_same self).
  - unfold register_participant, on_registry. destruct (Registry.register _ _). by apply (typed_same self).
  - unfold announce_participant, on_discovery. destruct (discovery_upsert _ _ _). by apply (typed_same self).
  - unfold remove_discovered_participant, on_discovery. destruct (discovery_remove _ _).
    by apply (typed_same self).
  - eapply typed_only_draws; [apply create_node_draws|done].
  - eapply typed_only_draws; [apply create_node_runtime_draws|done].
  - by apply create_leased_node_typed.
  - rewrite create_leased_node_with_runtime_state. by apply create_leased_node_typed.
  - destruct (create_virtual_machine_cases node created self) as [[Hc ->]|[_ [e ->]]]; [|done].
    by apply hosted_typed.
  - by apply create_leased_vm_typed.
  - apply with_vm_typed; [apply start_state|done].
  - apply with_vm_typed; [apply stop_state|done].
  - by apply destroy_typed.
  - by apply execute_vm_typed.
  - by apply release_lease_typed.
  - by apply release_leases_typed.
Qed.

(** C20: over every history of calls with arguments of the code's types, everything a plane stores
    keeps to its widths: the quantities of leases, machines and nodes fit 64 and 32 bits, their
    lifetimes are durations, and leases expire at representable times. *)
Theorem plane_typed (r : Registry.t) (d : D) (e : E) (n : nat) self :
  rtc typed_step (Plane.new r d e n) self → typed_plane self.
Proof.
  assert (typed_plane (Plane.new r d e n)) as Hnew
    by (split; intros k x Hk; cbn in Hk; by apply lookup_empty_Some in Hk).
  intros Hs. induction Hs as [|s1 s2 s3 Hs _ IH]; [done|]. by eapply IH, typed_step_preserves.
Qed.
End plane.
