(* ===== verification/control_steps.v ===== *)
(** * Concurrent calls on the control plane ([src/control.rs])

    The plane is shared between threads and each of its maps has its own lock, so a call that takes
    several locks in turn can be interrupted between them. Here such a call is a [thread] that
    advances one critical section at a time; what a thread does between two sections touches only
    its own locals, the counter of draws, and (in [Ready]) the world of the backend. A thread run
    without interruption does what the call of [Plane] does; interleaved threads keep the
    invariant of the plane; and the write at the end of an execution overwrites other calls.

    The scheduler's look at the registry and the storing of new leases are one section: the keys
    of the leases are fresh, so no other thread can name them in between. *)
From S2P Require Import prelude bytes time float identity uuid_demo resource capability node.
From S2P Require Import fabric participant registry discovery scheduler lease runtime messages.
From S2P Require Import endpoint transport execution virtual_machine control control_laws.
From S2P Require Import control_spec.
From stdpp Require Import list.

(** Calls that take more than one lock. *)
Module Call.
Inductive t :=
| Execute (id : Identity.t) (workload : WorkItem)
| Destroy (id : Identity.t)
| Create (node : LogicalNode.t) (created_at : SystemTime)
| CreateLeased (requirement : ResourceFragment.t) (runtime : RuntimeSpec.t)
    (created_at : SystemTime) (duration : Duration).
End Call.

(** What a call returns. *)
Module Value.
Inductive t :=
| Receipt (receipt : ExecutionReceipt.t)
| Machine (vm : VirtualMachine.t)
| LeasedMachine (vm : VirtualMachine.t) (leases : list Lease.t).
End Value.

(** Where a thread is: the locals it holds before its next critical section. *)
Module Thread.
Inductive t :=
| Called (call : Call.t)
| Loaded (workload : WorkItem) (vm : VirtualMachine.t)
| Ready (workload : WorkItem) (vm : VirtualMachine.t) (node : LogicalNode.t)
| Ran (r : result VirtualMachineError.t ExecutionReceipt.t) (vm : VirtualMachine.t)
| Releasing (vm : VirtualMachine.t) (leases : list Lease.t)
| LeasesStored (node : LogicalNode.t) (leases : list Lease.t) (created_at : SystemTime)
| NodeStored (vm : VirtualMachine.t) (value : Value.t)
| Finished (r : result ControlError.t Value.t).

Abbreviation thread := t.

Definition returning {A} (f : A → Value.t) (r : result ControlError.t A) : t :=
  Finished (r ≫= λ x, Ok (f x)).

Section steps.
Context {D E B W : Type} `{Discovery D} `{UuidLib} `{Scheduler (Registry.t * E)} `{ExecutionBackend B W}.
Context (backend : B).
Import Plane.
Implicit Types self : Plane.t D E.

(** An operation that ends a section: go on with its result, or return its error. *)
Definition continue {S A} (m : op S ControlError.t A) (k : A → thread) (s : S) : thread * S :=
  match m s with
  | (Ok x, s') => (k x, s')
  | (Err e, s') => (Finished (Err e), s')
  | (Panic, s') => (Finished Panic, s')
  end.

(** The removal at the start of [destroy_virtual_machine]. *)
Definition take_vm (id : Identity.t) : op (Plane.t D E) ControlError.t VirtualMachine.t :=
  vms ← gets virtual_machines;
  _ ← modify (set_virtual_machines (delete (Identity.id id)));
  lift (ok_or (vms !! Identity.id id) ControlError.VirtualMachineNotFound).

(** The start of [create_virtual_machine], up to the lock of the machines. *)
Definition store_node (node : LogicalNode.t) (created_at : SystemTime)
    : op (Plane.t D E) ControlError.t VirtualMachine.t :=
  vm ← drawing (VirtualMachine.from_node node created_at) .op_map_err ControlError.VirtualMachine;
  _ ← insert_node node;
  mret vm.

(** The next critical section of a thread; [now] is what the clock reads. *)
Definition advance (now : SystemTime) (th : thread) : Plane.t D E * W → thread * (Plane.t D E * W) :=
  λ '(self, w),
  let on_plane (p : thread * Plane.t D E) := (p.1, (p.2, w)) in
  match th with
  | Called (Call.Execute id workload) =>
    on_plane (continue (lift (load_vm id self)) (Loaded workload) self)
  | Loaded workload vm =>
    on_plane (continue (lift (load_node vm self)) (Ready workload vm) self)
  | Ready workload vm node =>
    let '(r, (vm, w)) := VirtualMachine.execute now node workload backend (vm, w) in
    (match r with Panic => Finished Panic | _ => Ran r vm end, (self, w))
  | Ran r vm =>
    (returning Value.Receipt (r .map_err ControlError.VirtualMachine),
     (set_virtual_machines (insert (Identity.id (VirtualMachine.id vm)) vm) self, w))
  | Called (Call.Destroy id) =>
    on_plane (continue (take_vm id) (λ vm, Releasing vm (VirtualMachine.leases vm)) self)
  | Releasing vm (lease :: leases) =>
    on_plane (continue (release_lease (Lease.id lease)) (λ _, Releasing vm leases) self)
  | Releasing vm [] =>
    (Finished (Ok (Value.Machine vm)),
     (set_logical_nodes (delete (Identity.id (VirtualMachine.node_id vm))) self, w))
  | Called (Call.Create node created_at) =>
    on_plane (continue (store_node node created_at)
      (λ vm, NodeStored vm (Value.Machine vm)) self)
  | Called (Call.CreateLeased requirement runtime created_at duration) =>
    on_plane (continue
      (create_leased_logical_node_with_runtime requirement runtime created_at duration)
      (λ p : LogicalNode.t * list Lease.t, LeasesStored p.1 p.2 created_at) self)
  | LeasesStored node leases created_at =>
    let '(made, self) := drawing (VirtualMachine.from_leased_node node leases created_at) self in
    match made with
    | Ok vm => (NodeStored vm (Value.LeasedMachine vm leases), ((insert_node node self).2, w))
    | Err error =>
      (Finished (Err (ControlError.VirtualMachine error)), ((remove_leases leases self).2, w))
    | Panic => (Finished Panic, (self, w))
    end
  | NodeStored vm value =>
    (Finished (Ok value), ((insert_vm vm self).2, w))
  | Finished r => (th, (self, w))
  end.

(** A thread alone, for [n] sections. *)
Fixpoint alone (now : SystemTime) (n : nat) (th : thread) (s : Plane.t D E * W)
    : thread * (Plane.t D E * W) :=
  match n with
  | O => (th, s)
  | S n => let '(th, s) := advance now th s in alone now n th s
  end.

(** The call as [Plane] has it. *)
Definition whole (now : SystemTime) (call : Call.t) (s : Plane.t D E * W)
    : thread * (Plane.t D E * W) :=
  let '(self, w) := s in
  match call with
  | Call.Execute id workload =>
    let '(r, s) := execute_virtual_machine now id workload backend (self, w) in
    (returning Value.Receipt r, s)
  | Call.Destroy id =>
    let '(r, self) := destroy_virtual_machine id self in (returning Value.Machine r, (self, w))
  | Call.Create node created_at =>
    let '(r, self) := create_virtual_machine node created_at self in
    (returning Value.Machine r, (self, w))
  | Call.CreateLeased requirement runtime created_at duration =>
    let '(r, self) := create_leased_virtual_machine requirement runtime created_at duration self in
    (returning (λ p : VirtualMachine.t * list Lease.t, Value.LeasedMachine p.1 p.2) r, (self, w))
  end.
End steps.
End Thread.

(** ** A thread alone *)

Section alone.
Context {D E B W : Type} `{Discovery D} `{UuidLib} `{Scheduler (Registry.t * E)} `{ExecutionBackend B W}.
Context (backend : B) (now : SystemTime).
Import Plane Thread.
Abbreviation plane := (Plane.t D E).
Implicit Types (self : plane) (s : plane * W).

Lemma alone_finished n r s : alone backend now n (Finished r) s = (Finished r, s).
Proof. induction n as [|n IH]; [done|]. by destruct s. Qed.

(** A thread that is [n] sections away from its end. *)
Definition ends_in (n : nat) th s (result : thread * (plane * W)) : Prop :=
  ∀ m, n ≤ m → alone backend now m th s = result.

Lemma ends_now r s : ends_in 0 (Finished r) s (Finished r, s).
Proof. intros m _. apply alone_finished. Qed.

Lemma ends_next n th s th' s' result :
  advance backend now th s = (th', s') → ends_in n th' s' result → ends_in (S n) th s result.
Proof. intros Ha He [|m] Hm; [lia|]. cbn [alone]. rewrite Ha. apply He. lia. Qed.

Lemma releasing_ends vm ls self w :
  ends_in (S (length ls)) (Releasing vm ls) (self, w)
    (match release_leases ls self with
     | (Ok (), self') =>
       (Finished (Ok (Value.Machine vm)),
        (set_logical_nodes (delete (Identity.id (VirtualMachine.node_id vm))) self', w))
     | (Err e, self') => (Finished (Err e), (self', w))
     | (Panic, self') => (Finished Panic, (self', w))
     end).
Proof.
  revert self. induction ls as [|l ls IH]; intros self.
  { eapply ends_next; [done|]. apply ends_now. }
  cbn [length release_leases]. unfold mbind, op_bind.
  destruct (release_lease (Lease.id l) self) as [r self'] eqn:Hr.
  eapply ends_next; [cbn; unfold continue; rewrite Hr; reflexivity|].
  destruct r as [l'|e|]; [apply IH|..]; intros m _; apply alone_finished.
Qed.

Lemma destroy_ends id self w :
  ∃ n, ends_in n (Called (Call.Destroy id)) (self, w) (whole backend now (Call.Destroy id) (self, w)).
Proof.
  assert (take_vm id self = (ok_or (virtual_machines self !! Identity.id id)
    ControlError.VirtualMachineNotFound, set_virtual_machines (delete (Identity.id id)) self)) as Ht
    by done.
  cbn [whole]. destruct (destroy_cases id self) as [[Hn ->]|(vm & Hvm & Heq)].
  - exists 1. eapply ends_next; [|apply ends_now]. cbn. unfold continue. rewrite Ht, Hn. cbn.
    destruct self as [r d e l v n k]. unfold set_virtual_machines. cbn in *. by rewrite delete_id.
  - exists (S (S (length (VirtualMachine.leases vm)))).
    eapply ends_next; [cbn; unfold continue; rewrite Ht, Hvm; reflexivity|]. cbn in Heq. rewrite Heq.
    pose proof (releasing_ends vm (VirtualMachine.leases vm)
      (set_virtual_machines (delete (Identity.id id)) self) w) as He.
    by destruct (release_leases _ _) as [[[]|e|] self2].
Qed.

Lemma execute_ends id k self w :
  ends_in 4 (Called (Call.Execute id k)) (self, w) (whole backend now (Call.Execute id k) (self, w)).
Proof.
  cbn [whole]. unfold execute_virtual_machine.
  assert (∀ r s n, ends_in n (Finished r) s (Finished r, s)) as Hend
    by (intros; intros ? _; apply alone_finished).
  destruct (load_vm id self) as [vm|e|] eqn:Hv;
    [|eapply ends_next; [cbn; unfold continue, lift; rewrite Hv; reflexivity|apply Hend]..].
  eapply ends_next; [cbn; unfold continue, lift; rewrite Hv; reflexivity|]. cbn [mbind result_bind].
  destruct (load_node vm self) as [node|e|] eqn:Hn;
    [|eapply ends_next; [cbn; unfold continue, lift; rewrite Hn; reflexivity|apply Hend]..].
  eapply ends_next; [cbn; unfold continue, lift; rewrite Hn; reflexivity|]. cbn [mbind result_bind].
  destruct (VirtualMachine.execute now node k backend (vm, w)) as [r [vm' w']] eqn:He.
  eapply ends_next; [cbn [advance fst snd]; rewrite He; reflexivity|].
  destruct r as [x|e|]; [| |apply Hend]; (eapply ends_next; [reflexivity|apply ends_now]).
Qed.

Lemma create_ends node created self w :
  ∃ n, ends_in n (Called (Call.Create node created)) (self, w)
    (whole backend now (Call.Create node created) (self, w)).
Proof.
  exists 2. cbn [whole]. unfold create_virtual_machine, op_map_err, drawing, mbind, op_bind.
  assert (∀ r s n, ends_in n (Finished r) s (Finished r, s)) as Hend
    by (intros; intros ? _; apply alone_finished).
  destruct (VirtualMachine.from_node node created (draws self)) as [[vm|e|] n'] eqn:Hf;
    (eapply ends_next; [cbn; unfold continue, store_node, op_map_err, drawing, mbind, op_bind;
      rewrite Hf; reflexivity|]); [|apply Hend..].
  eapply ends_next; [reflexivity|apply ends_now].
Qed.

Lemma create_leased_ends q rt created d self w :
  ∃ n, ends_in n (Called (Call.CreateLeased q rt created d)) (self, w)
    (whole backend now (Call.CreateLeased q rt created d) (self, w)).
Proof.
  exists 3. cbn [whole]. unfold create_leased_virtual_machine, mbind, op_bind.
  assert (∀ r s n, ends_in n (Finished r) s (Finished r, s)) as Hend
    by (intros; intros ? _; apply alone_finished).
  destruct (create_leased_logical_node_with_runtime q rt created d self) as [[[node ls]|e|] self1] eqn:Hc;
    (eapply ends_next; [cbn; unfold continue; rewrite Hc; reflexivity|]); [|apply Hend..].
  unfold make_leased_vm. cbn [fst snd].
  destruct (drawing (VirtualMachine.from_leased_node node ls created) self1) as [[vm|e|] self2] eqn:Hm;
    (eapply ends_next; [cbn; rewrite Hm; reflexivity|]); [|apply Hend..].
  eapply ends_next; [reflexivity|apply ends_now].
Qed.
End alone.

(** ** Threads next to each other *)

(** A machine a plane may store after [n] draws. *)
Definition machine_ok `{UuidLib} (n : nat) (vm : VirtualMachine.t) : Prop :=
  vms_ok n {[ Identity.id (VirtualMachine.id vm) := vm ]}.

Definition value_ok `{UuidLib} (n : nat) (v : Value.t) : Prop :=
  match v with
  | Value.Receipt _ => True
  | Value.Machine vm => machine_ok n vm
  | Value.LeasedMachine vm ls => machine_ok n vm ∧ VirtualMachine.leases vm = ls ∧ ls ≠ []
  end.

(** What the locals of a thread satisfy. *)
Definition thread_ok `{UuidLib} (n : nat) (th : Thread.t) : Prop :=
  match th with
  | Thread.Called _ | Thread.LeasesStored _ _ _ => True
  | Thread.Loaded _ vm | Thread.Ready _ vm _ | Thread.Ran _ vm | Thread.Releasing vm _ => machine_ok n vm
  | Thread.NodeStored vm v => machine_ok n vm ∧ value_ok n v
  | Thread.Finished (Ok v) => value_ok n v
  | Thread.Finished _ => True
  end.

Section system.
Context {D E B W : Type} `{Discovery D} `{UuidLib} `{Scheduler (Registry.t * E)} `{ExecutionBackend B W}.
Context `{!SchedulerLaws (Registry.t * E)} `{!UuidLaws _}.
Context (backend : B).
Import Plane Thread.
Abbreviation plane := (Plane.t D E).
Implicit Types self : plane.

(** A call begins, a thread goes through its next section, or another call, which may act on the
    world, is made as a whole. *)
Inductive system_step : list thread * (plane * W) → list thread * (plane * W) → Prop :=
| sys_call ths s c : system_step (ths, s) (ths ++ [Called c], s)
| sys_advance ths s i th now :
    ths !! i = Some th →
    system_step (ths, s) (<[i := (advance backend now th s).1]> ths, (advance backend now th s).2)
| sys_other ths self w self' w' :
    plane_step self self' → system_step (ths, (self, w)) (ths, (self', w')).

(** ** What every section keeps *)

Lemma machine_ok_intro n k vm m : vms_ok n m → m !! k = Some vm → machine_ok n vm.
Proof.
  intros Hm Hk k' vm' Hk'. apply lookup_singleton_Some in Hk' as [<- <-].
  destruct (Hm _ _ Hk) as (Hid & ? & ? & ?). rewrite Hid. by split_and!.
Qed.

Lemma machine_ok_mono n n' vm : n ≤ n' → machine_ok n vm → machine_ok n' vm.
Proof. intros Hn. by apply vms_ok_mono. Qed.

Lemma machine_ok_state n s vm : machine_ok n vm → machine_ok n (VirtualMachine.set_state s vm).
Proof.
  intros Hm k' vm' Hk'. apply lookup_singleton_Some in Hk' as [<- <-].
  exact (Hm _ _ (lookup_singleton_eq _ _)).
Qed.

Lemma value_ok_mono n n' v : n ≤ n' → value_ok n v → value_ok n' v.
Proof. intros Hn. destruct v; simpl; [done|..]; intuition eauto using machine_ok_mono. Qed.

Lemma thread_ok_mono n n' th : n ≤ n' → thread_ok n th → thread_ok n' th.
Proof.
  intros Hn. destruct th as [| | | | | | |[]]; simpl; intuition eauto using machine_ok_mono, value_ok_mono.
Qed.

Lemma insert_machine_wf vm self :
  machine_ok (draws self) vm → plane_wf self →
  plane_wf (set_virtual_machines (insert (Identity.id (VirtualMachine.id vm)) vm) self).
Proof.
  intros Hm [Hr Hl Hv Hn]. split; simpl; [done..| |done].
  intros k vm' [[<- <-]|[_ Hk]]%lookup_insert_Some; [|by apply Hv]. apply Hm, lookup_singleton_eq.
Qed.

(** Storing the node of a machine that was just made. *)
Lemma store_hosted_wf node created ls self :
  can_host node created ls → plane_wf self →
  let self' := set_logical_nodes (insert (LogicalNode.id node) node) (set_draws (S (draws self)) self) in
  plane_wf self' ∧ machine_ok (draws self') (hosted node created ls (draws self)).
Proof.
  intros Hc Hwf. pose proof (hosted_wf node created ls self Hc Hwf) as [_ _ Hv Hn]. cbn in Hv, Hn |- *.
  split.
  - destruct Hwf as [Hr Hl Hvm _]. split; cbn; [done|..|done].
    + eapply leases_ok_mono; [|exact Hl]. lia.
    + eapply vms_ok_mono; [|exact Hvm]. lia.
  - eapply machine_ok_intro; [exact Hv|]. apply lookup_insert_eq.
Qed.

(** What a section that starts in a good state leaves. *)
Definition keeps (n : nat) (out : thread * (plane * W)) : Prop :=
  plane_wf out.2.1 ∧ n ≤ draws out.2.1 ∧ thread_ok (draws out.2.1) out.1.

Lemma execute_section now k vm node self (w : W) :
  plane_wf self → machine_ok (draws self) vm →
  keeps (draws self) (advance backend now (Ready k vm node) (self, w)).
Proof.
  intros Hwf Hm. cbn [advance]. unfold VirtualMachine.execute.
  destruct (execute_at_state node k backend now vm w) as [s Hs].
  destruct (VirtualMachine.execute_at node k backend now (vm, w)) as [r [vm' w']]. cbn in Hs. subst vm'.
  split_and!; [done|done|]. destruct r; [by apply machine_ok_state..|done].
Qed.

Lemma create_section now node created self (w : W) :
  plane_wf self → keeps (draws self) (advance backend now (Called (Call.Create node created)) (self, w)).
Proof.
  intros Hwf. unfold keeps. cbn [advance]. unfold continue, store_node, op_map_err, drawing, mbind,
    op_bind, VirtualMachine.from_node.
  destruct (from_node_with_leases_cases node [] created (draws self)) as [[Hc ->]|[_ [e ->]]].
  - destruct (store_hosted_wf node created [] self Hc Hwf) as [? ?]. cbn in *. split_and!; try done. lia.
  - cbn. split_and!; try done. by apply plane_wf_draws.
Qed.

Lemma from_leased_cases node ls created self :
  (ls ≠ [] ∧ can_host node created ls ∧
   drawing (VirtualMachine.from_leased_node node ls created) self =
     (Ok (hosted node created ls (draws self)), set_draws (S (draws self)) self)) ∨
  (∃ e, drawing (VirtualMachine.from_leased_node node ls created) self = (Err e, self)).
Proof.
  unfold drawing. destruct ls as [|l ls].
  { right. eexists. cbn. by destruct self. }
  destruct (from_node_with_leases_cases node (l :: ls) created (draws self)) as [[Hc Hf]|[_ [e Hf]]];
    cbn [VirtualMachine.from_leased_node]; rewrite Hf; [by left|right]. exists e. by destruct self.
Qed.

Lemma leased_section now node ls created self (w : W) :
  plane_wf self → keeps (draws self) (advance backend now (LeasesStored node ls created) (self, w)).
Proof.
  intros Hwf. unfold keeps. cbn [advance].
  destruct (from_leased_cases node ls created self) as [(Hne & Hc & ->)|[e ->]].
  - destruct (store_hosted_wf node created ls self Hc Hwf) as [? ?]. cbn in *. split_and!; try done. lia.
  - cbn. split_and!; try done. apply set_leases_wf; [|done]. apply remove_keys_ok, Hwf.
Qed.

Lemma create_leased_node_mono q now d self :
  draws self ≤ draws (create_leased_logical_node q now d self).2.
Proof.
  destruct (create_leased_node_cases q now d self)
    as [(node & n & [_ _ Hp _ _] & ->)|(_ & r & self' & -> & _ & (n & Hn & ->) & _)]; [|done].
  pose proof (plan_draws (registry self, environment self) q (draws self)) as Hn.
  rewrite Hp in Hn. cbn in *. lia.
Qed.

Lemma release_leases_mono ls self : draws (release_leases ls self).2 = draws self.
Proof. by destruct (release_leases_deletes ls self) as (l1 & -> & _). Qed.

(** Draws are never taken back. *)
Lemma plane_step_mono self self' : plane_step self self' → draws self ≤ draws self'.
Proof.
  destruct 1.
  - done.
  - unfold register_participant, on_registry. by destruct (Registry.register _ _).
  - unfold announce_participant, on_discovery. by destruct (discovery_upsert _ _ _).
  - unfold remove_discovered_participant, on_discovery. by destruct (discovery_remove _ _).
  - by destruct (create_node_draws q self) as (n & ? & ->).
  - by destruct (create_node_runtime_draws q rt self) as (n & ? & ->).
  - apply create_leased_node_mono.
  - rewrite create_leased_node_with_runtime_state. apply create_leased_node_mono.
  - destruct (create_virtual_machine_cases node created self) as [[_ ->]|[_ [e ->]]]; cbn; lia.
  - unfold create_leased_virtual_machine, mbind, op_bind.
    pose proof (create_leased_node_mono q now d self) as Hm.
    rewrite <- (create_leased_node_with_runtime_state q rt) in Hm.
    destruct (create_leased_logical_node_with_runtime q rt now d self) as [[[node ls]|e|] self1]; [|done..].
    destruct (make_leased_vm_cases node ls now self1) as [(_ & _ & ->)|(_ & e & ->)]; cbn in *; lia.
  - unfold start_virtual_machine, with_vm. destruct (virtual_machines self !! _) as [vm|]; [|done].
    by destruct (VirtualMachine.start vm).
  - unfold stop_virtual_machine, with_vm. destruct (virtual_machines self !! _) as [vm|]; [|done].
    by destruct (VirtualMachine.stop vm).
  - destruct (destroy_cases id self) as [[_ ->]|(vm & _ & ->)]; [done|].
    pose proof (release_leases_mono (VirtualMachine.leases vm)
      (set_virtual_machines (delete (Identity.id id)) self)) as Hm.
    destruct (release_leases _ _) as [[[]|e|] self2]; cbn in *; lia.
  - destruct (execute_vm_cases now id k backend0 self w) as [(vm & node & _ & _ & Heq)|[_ ->]]; [|done].
    destruct (VirtualMachine.execute_at node k backend0 now (vm, w)) as [r [vm' w']]. rewrite Heq.
    cbn. by destruct (is_panic r).
  - rewrite release_lease_eq. destruct (bad_identity _ _); [done|].
    by destruct (leases self !! _).
  - by rewrite release_leases_mono.
Qed.

Lemma advance_keeps now th self (w : W) :
  plane_wf self → thread_ok (draws self) th → keeps (draws self) (advance backend now th (self, w)).
Proof.
  intros Hwf Hth. destruct th as [[id k|id|node created|q rt created d]|k vm|k vm node|r vm|vm ls|node ls created
    |vm v|r].
  - unfold keeps. cbn [advance]. unfold continue, lift, load_vm.
    destruct (virtual_machines self !! Identity.id id) as [vm|] eqn:Hvm; [|by split_and!].
    split_and!; [done..|]. cbn. eapply machine_ok_intro; [apply (pw_vms _ Hwf)|exact Hvm].
  - unfold keeps. cbn [advance]. unfold continue, take_vm, gets, modify, lift, mbind, op_bind.
    destruct (virtual_machines self !! Identity.id id) as [vm|] eqn:Hvm; cbn;
      (split_and!; [|done|]); try done.
    + destruct Hwf as [? ? ? ?]. split; cbn; [done..| |done]. by apply vms_ok_delete.
    + eapply machine_ok_intro; [apply (pw_vms _ Hwf)|exact Hvm].
    + destruct Hwf as [? ? ? ?]. split; cbn; [done..| |done]. by apply vms_ok_delete.
  - by apply create_section.
  - unfold keeps. cbn [advance]. unfold continue.
    pose proof (create_leased_node_mono q created d self) as Hm.
    pose proof (create_leased_node_wf q created d self Hwf) as Hwf'.
    rewrite <- (create_leased_node_with_runtime_state q rt) in Hm, Hwf'.
    by destruct (create_leased_logical_node_with_runtime q rt created d self) as [[[node ls]|e|] self1].
  - unfold keeps. cbn [advance]. unfold continue, lift, load_node.
    by destruct (logical_nodes self !! _).
  - by apply execute_section.
  - split_and!; [by apply insert_machine_wf|done|]. cbn. by destruct r.
  - destruct ls as [|l ls].
    + split_and!; [|done|done]. destruct Hwf as [? ? ? ?]. split; cbn; [done..|]. by apply nodes_ok_delete.
    + pose proof (release_lease_wf (Lease.id l) self Hwf) as Hwf'.
      unfold keeps. cbn [advance]. unfold continue. rewrite release_lease_eq in Hwf' |- *.
      destruct (bad_identity _ _); [by split_and!|]. by destruct (leases self !! _).
  - by apply leased_section.
  - destruct Hth as [Hm Hv]. split_and!; [by apply insert_machine_wf|done|done].
  - by split_and!.
Qed.

Definition system_ok (c : list thread * (plane * W)) : Prop :=
  plane_wf c.2.1 ∧ Forall (thread_ok (draws c.2.1)) c.1.

Lemma system_step_ok c c' : system_step c c' → system_ok c → system_ok c'.
Proof.
  intros Hs [Hwf Hths]. destruct Hs as [ths s call|ths [self w] i th now Hi|ths self w self' w' Hstep];
    cbn [fst snd] in *.
  - split; [done|]. apply Forall_app. split; [done|]. by constructor.
  - rewrite Forall_lookup in Hths. pose proof (Hths _ _ Hi) as Hth.
    destruct (advance_keeps now th self w Hwf Hth) as (Hwf' & Hm & Hth'). split; [done|].
    apply Forall_lookup. intros j th' [(-> & <- & _)|[_ Hj]]%list_lookup_insert_Some; [done|].
    eapply thread_ok_mono; [exact Hm|]. by eapply Hths.
  - split; [by eapply plane_step_wf|]. eapply Forall_impl; [exact Hths|]. intros th.
    apply thread_ok_mono. by apply plane_step_mono.
Qed.

Lemma system_steps_ok c c' : rtc system_step c c' → system_ok c → system_ok c'.
Proof. induction 1 as [|c1 c2 c3 Hs _ IH]; [done|]. intros Hok. by eapply IH, system_step_ok. Qed.
End system.

(** A release that succeeds removes every lease of its list. *)
Lemma release_leases_ok {D E} `{UuidLib} ls (self self' : Plane.t D E) :
  Plane.release_leases ls self = (Ok (), self') → self' = Plane.set_leases (remove_keys ls) self.
Proof.
  revert self. induction ls as [|l ls IH]; intros self; cbn [Plane.release_leases].
  { intros [= <-]. by destruct self. }
  unfold mbind, op_bind. rewrite release_lease_eq. destruct (bad_identity _ _); [done|].
  destruct (Plane.leases self !! lease_key l); [|done]. by intros ->%IH.
Qed.

(** A machine that runs, after three sections of its execution. *)
Lemma executed_alone {D E B W} `{UuidLib} `{Scheduler (Registry.t * E)} `{ExecutionBackend B W}
    (backend : B) now id k (self : Plane.t D E) (w w' : W) vm node receipt :
  Plane.virtual_machines self !! Identity.id id = Some vm →
  Plane.logical_nodes self !! Identity.id (VirtualMachine.node_id vm) = Some node →
  runnable node k now vm → backend_execute backend (plan_of node k) k w = (Ok receipt, w') →
  Thread.alone backend now 3 (Thread.Called (Call.Execute id k)) (self, w) =
    (Thread.Ran (Ok receipt) vm, (self, w')).
Proof.
  intros Hvm Hn Hrun Hb.
  destruct (execute_at_cases node k backend now vm w) as [[_ Heq]|[? _]]; [|done].
  cbn [Thread.alone Thread.advance]. unfold Thread.continue, lift, Plane.load_vm, Plane.load_node.
  rewrite Hvm. cbn [ok_or fst snd]. rewrite Hn. cbn [ok_or fst snd]. unfold VirtualMachine.execute.
  cbn [Thread.advance]. unfold VirtualMachine.execute. by rewrite Heq, Hb.
Qed.

(** ** Properties *)

Section properties.
Context {D E B W : Type} `{Discovery D} `{UuidLib} `{Scheduler (Registry.t * E)} `{ExecutionBackend B W}.
Import Plane Thread.
Abbreviation plane := (Plane.t D E).
Implicit Types self : plane.

(** C19: the sections refine the calls: a thread that is not interrupted finishes after finitely
    many sections, with the result, the plane and the world that the whole call gives. *)
Theorem sections_refine_calls (backend : B) now (call : Call.t) self (w : W) :
  ∃ n, ∀ m, n ≤ m →
    alone backend now m (Called call) (self, w) = whole backend now call (self, w) ∧
    ∃ r, (whole backend now call (self, w)).1 = Finished r.
Proof.
  assert (∃ n, ends_in backend now n (Called call) (self, w) (whole backend now call (self, w)))
    as [n Hn].
  { destruct call as [id k|id|node created|q rt created d].
    - exists 4. apply execute_ends.
    - apply destroy_ends.
    - apply create_ends.
    - apply create_leased_ends. }
  exists n. intros m Hm. split; [by apply Hn|]. destruct call; cbn [whole];
    match goal with |- context [let '(r, _) := ?c in _] => destruct c as [r s] end; by eexists.
Qed.

(** C9: threads that call the plane concurrently, interrupted between any two critical sections,
    and any other calls and participant events between them, keep the plane's invariant; what a
    thread holds or has returned is a machine with a drawn identity and valid leases. *)
Theorem concurrent_plane_invariant `{!SchedulerLaws (Registry.t * E)} `{!UuidLaws _} (backend : B)
    (r : Registry.t) (d : D) (e : E) (n : nat) (w w' : W) ths self :
  Registry.wf r →
  rtc (system_step backend) ([], (Plane.new r d e n, w)) (ths, (self, w')) →
  plane_wf self ∧ Forall (thread_ok (draws self)) ths.
Proof.
  intros Hr Hs. apply (system_steps_ok backend _ _ Hs). split; [by apply new_wf|constructor].
Qed.

(** C36: an execution writes its copy of the machine back whatever happened in between: it undoes a
    stop that was acknowledged, and it brings a machine back that was destroyed, running, with its
    leases and its node gone. *)
Theorem execution_overwrites_calls `{!UuidLaws _} (backend : B) now now' id k self (w w' : W) vm node receipt :
  plane_wf self → virtual_machines self !! Identity.id id = Some vm →
  logical_nodes self !! Identity.id (VirtualMachine.node_id vm) = Some node →
  runnable node k now vm → backend_execute backend (plan_of node k) k w = (Ok receipt, w') →
  let '(th, s) := alone backend now 3 (Called (Call.Execute id k)) (self, w) in
  s = (self, w') ∧
  (let '(r, stopped) := stop_virtual_machine id self in
   let '(th', (self', _)) := advance backend now' th (stopped, w') in
   r = Ok (VirtualMachine.set_state VirtualMachineState.Stopped vm) ∧
   th' = Finished (Ok (Value.Receipt receipt)) ∧
   virtual_machines self' !! Identity.id id = Some vm ∧
   VirtualMachine.state vm = VirtualMachineState.Running) ∧
  (let '(r, destroyed) := destroy_virtual_machine id self in
   let '(th', (self', _)) := advance backend now' th (destroyed, w') in
   th' = Finished (Ok (Value.Receipt receipt)) ∧
   virtual_machines destroyed !! Identity.id id = None ∧
   virtual_machines self' !! Identity.id id = Some vm ∧
   (r = Ok vm → logical_nodes self' !! Identity.id (VirtualMachine.node_id vm) = None ∧
    ∀ l, l ∈ VirtualMachine.leases vm → leases self' !! lease_key l = None)).
Proof.
  intros Hwf Hvm Hn Hrun Hb. rewrite (executed_alone _ _ _ _ _ _ _ _ _ _ Hvm Hn Hrun Hb).
  destruct (pw_vms _ Hwf _ _ Hvm) as [Hid _]. cbn [advance]. rewrite Hid. cbn [Identity.id].
  split; [done|]. split.
  - unfold stop_virtual_machine, with_vm. rewrite Hvm, stop_spec, decide_True by apply Hrun.
    split_and!; try done; [|apply Hrun]. cbn. apply lookup_insert_eq.
  - destruct (destroy_cases id self) as [[? _]|(vm' & Hvm' & ->)]; [congruence|]. simplify_eq.
    destruct (release_leases_deletes (VirtualMachine.leases vm)
      (set_virtual_machines (delete (Identity.id id)) self)) as (l1 & Hs & Hp).
    cbv zeta. destruct (release_leases (VirtualMachine.leases vm)
      (set_virtual_machines (delete (Identity.id id)) self)) as [[[]|e|] self2] eqn:Hok;
      cbn [fst snd] in Hs, Hp; [|subst self2|done].
    + apply release_leases_ok in Hok as ->. cbn. rewrite lookup_delete_eq, lookup_insert_eq.
      split_and!; try done. intros _. split; [apply lookup_delete_eq|]. intros l Hl.
      rewrite remove_keys_lookup, decide_True; [done|]. by apply (list_elem_of_fmap_2 (λ l, lease_key l)).
    + cbn. by rewrite lookup_delete_eq, lookup_insert_eq.
Qed.
End properties.
