(* ===== verification/control_demo.v ===== *)
(** * A concrete control plane

    The demonstration registry behind an aggregating scheduler, a machine created, executed and
    destroyed on it, and the instances of the properties of the control plane at these inputs. *)
From S2P Require Import prelude bytes time float identity uuid_demo resource capability node.
From S2P Require Import fabric participant registry discovery scheduler lease runtime messages.
From S2P Require Import endpoint transport execution virtual_machine control control_laws.
From S2P Require Import control_spec control_types control_steps.
From stdpp Require Import list.

#[global] Instance plane_fabric : Fabric (Registry.t * ()) := λ p, offers p.1.

Abbreviation demo_plane_t := (Plane.t MemoryRegistry.t ()).

Definition demo_plane : demo_plane_t :=
  Plane.new demo_registry (MemoryRegistry.mk ∅ demo_policy) tt 0.

Lemma demo_plane_wf : plane_wf demo_plane.
Proof. apply new_wf, run_registry_wf, registry_new_wf. Qed.

(** The first twenty draws of the demonstration UUIDs do not repeat. *)
Definition demo_draws : list string := (λ i, uuid_to_string (new_v4 i)) <$> seq 0 20.

Lemma demo_draws_distinct : draws_distinct 0 20.
Proof.
  assert (NoDup demo_draws) as Hnd by (apply (bool_decide_unpack _); vm_compute; exact I).
  intros i j Hi Hj Heq. eapply (NoDup_lookup _ i j (uuid_to_string (new_v4 i)) Hnd).
  - unfold demo_draws. rewrite list_lookup_fmap, lookup_seq_lt by lia. done.
  - unfold demo_draws. rewrite list_lookup_fmap, lookup_seq_lt by lia. cbn [fmap option_fmap option_map].
    by rewrite Heq.
Qed.

Lemma demo_draws_upto n : n ≤ 20 → draws_distinct 0 n.
Proof. intros Hn i j Hi Hj. apply demo_draws_distinct; lia. Qed.

(** More memory than one of the two participants has. *)
Definition demo_runtime : RuntimeSpec.t := RuntimeSpec.mk "rt" "1".
Definition created : result ControlError.t (VirtualMachine.t * list Lease.t) * demo_plane_t :=
  Plane.create_leased_virtual_machine demo_large demo_runtime 1000 600 demo_plane.
Definition created_plane : demo_plane_t := created.2.

Example demo_created :
  match created with
  | (Ok (vm, [l1; l2]), self) =>
    VirtualMachine.id vm = Identity.mk (uuid_to_string (new_v4 3)) Kind.VirtualMachine ∧
    Identity.id (Lease.participant_id l1) = uuid_a ∧
    Identity.id (Lease.participant_id l2) = uuid_b ∧
    Lease.expires_at l1 = 1600%Z ∧ Plane.draws self = 4
  | _ => False
  end.
Proof. vm_compute. by split_and!. Qed.

(** The parts of the result of the creation. *)
Definition created_vm : VirtualMachine.t :=
  match created.1 with Ok (vm, _) => vm | _ => hosted demo_node 1000 [] 0 end.
Definition created_leases : list Lease.t :=
  match created.1 with Ok (_, ls) => ls | _ => [] end.

Lemma created_eq : created = (Ok (created_vm, created_leases), created_plane).
Proof.
  assert (is_ok created.1 = true) as H by (vm_compute; reflexivity).
  unfold created_vm, created_leases, created_plane. by destruct created as [[[]| |] ?].
Qed.

Lemma created_draws : draws_distinct 0 (Plane.draws created_plane).
Proof. apply demo_draws_upto, leb_complete. vm_compute. reflexivity. Qed.

Lemma created_wf : plane_wf created_plane.
Proof. apply create_leased_vm_wf, demo_plane_wf. Qed.

(** ** Instances of the properties *)

Lemma plane_invariant_witness :
  let self := (Plane.release_lease (Identity.mk uuid_b Kind.Lease) created_plane).2 in plane_wf self.
Proof.
  cbv zeta. apply (plane_invariant demo_registry (MemoryRegistry.mk ∅ demo_policy) tt 0).
  - apply run_registry_wf, registry_new_wf.
  - eapply rtc_l; [apply (step_leased_vm _ demo_large demo_runtime 1000 600)|].
    eapply rtc_l; [apply (step_release _ (Identity.mk uuid_b Kind.Lease))|]. apply rtc_refl.
Defined.

Lemma demo_large_typed : ResourceFragment.wf demo_large.
Proof. by apply wf_bound_dec. Qed.

#[local] Instance demo_typed_scheduler : TypedScheduler (Registry.t * ()).
Proof. apply aggregating_typed. Defined.

Lemma plane_typed_witness : typed_plane created_plane.
Proof.
  apply (plane_typed demo_registry (MemoryRegistry.mk ∅ demo_policy) tt 0).
  eapply rtc_l; [apply (typed_leased_vm _ demo_large demo_runtime 1000 600)|].
  - exact demo_large_typed.
  - discriminate.
  - apply rtc_refl.
Defined.

Lemma leased_vm_creation_atomic_witness :
  Forall (λ l, valid_lease l ∧ Lease.active_at l 1000 = true) created_leases.
Proof.
  pose proof (leased_vm_creation_atomic demo_large demo_runtime 1000 600 demo_plane demo_plane_wf
    created_draws) as H.
  fold created in H. rewrite created_eq in H.
  destruct H as (node & _ & _ & _ & _ & _ & _ & _ & _ & Hls & _).
  apply Forall_forall. intros l Hl. destruct (Hls l Hl) as (Hv & Ha & _). split; [exact Hv|exact Ha].
Defined.

(** A lease of the created machine. *)
Definition created_lease : Identity.t := Identity.mk (uuid_to_string (new_v4 1)) Kind.Lease.

(** The created machine after one of its leases was released. *)
Definition released_plane : demo_plane_t := (Plane.release_lease created_lease created_plane).2.

Lemma destroy_undoes_creation_witness :
  (∃ self'', Plane.destroy_virtual_machine (VirtualMachine.id created_vm) created_plane =
    (Ok created_vm, self'') ∧ Plane.leases self'' = Plane.leases demo_plane) ∧
  (Plane.destroy_virtual_machine (VirtualMachine.id created_vm) released_plane).1 =
    Err ControlError.LeaseNotFound.
Proof.
  destruct (destroy_undoes_creation demo_large demo_runtime 1000 600 demo_plane created_plane
    created_vm created_leases demo_plane_wf created_draws created_eq)
    as ((self'' & Heq & Hl & _) & Hlater).
  split; [exists self''; split; [exact Heq|exact Hl]|].
  pose proof (Hlater released_plane created_vm ltac:(vm_compute; reflexivity)
    ltac:(vm_compute; reflexivity)) as H.
  destruct (Plane.destroy_virtual_machine (VirtualMachine.id created_vm) released_plane) as [r self2].
  destruct H as (_ & _ & _ & _ & [(_ & Hall & _)|(Hr & _)]); [|exact Hr]. exfalso.
  destruct (Hall (hd demo_lease created_leases)) as [[l Hs] _]; [vm_compute; left|].
  vm_compute in Hs. discriminate Hs.
Defined.

Lemma created_lease_released : is_ok (Plane.release_lease created_lease created_plane).1 = true.
Proof. vm_compute. reflexivity. Qed.

Lemma lease_released_once_witness :
  let '(r, self') := Plane.release_lease created_lease created_plane in
  is_ok r = true ∧ Plane.get_lease created_lease self' = Err ControlError.LeaseNotFound.
Proof.
  pose proof (lease_released_once created_lease created_plane created_wf) as H.
  pose proof created_lease_released as Hok.
  destruct (Plane.release_lease created_lease created_plane) as [[l|e|] self']; [|discriminate Hok..].
  split; [reflexivity|]. apply H.
Defined.

(** The created machine, started. *)
Definition created_id : Identity.t := Identity.mk (uuid_to_string (new_v4 3)) Kind.VirtualMachine.
Definition started_plane : demo_plane_t := (Plane.start_virtual_machine created_id created_plane).2.

Lemma started_wf : plane_wf started_plane.
Proof. apply with_vm_wf; [apply start_state|apply created_wf]. Qed.

Example demo_execute :
  is_ok (Plane.execute_virtual_machine 1100 created_id demo_workload NoopBackend.mk (started_plane, ())).1
    = true ∧
  (Plane.execute_virtual_machine 1600 created_id demo_workload NoopBackend.mk (started_plane, ())).1
    = Err (ControlError.VirtualMachine VirtualMachineError.LeaseExpired).
Proof. by vm_compute. Qed.

Lemma plane_execute_spec_witness :
  Plane.leases (Plane.execute_virtual_machine 1100 created_id demo_workload NoopBackend.mk
    (started_plane, ())).2.1 = Plane.leases started_plane.
Proof.
  pose proof (plane_execute_spec 1100 created_id demo_workload NoopBackend.mk started_plane ()
    started_wf) as H.
  destruct (Plane.execute_virtual_machine 1100 created_id demo_workload NoopBackend.mk (started_plane, ()))
    as [r [self' w']]. exact (proj1 (proj2 H)).
Defined.

Definition malformed_runtime : RuntimeSpec.t := RuntimeSpec.mk "" "1".

Definition leased_node : result ControlError.t (LogicalNode.t * list Lease.t) * demo_plane_t :=
  Plane.create_leased_logical_node demo_large 1000 600 demo_plane.

Lemma leased_node_ok : is_ok leased_node.1 = true ∧ Plane.draws leased_node.2 ≤ 20.
Proof. split; [vm_compute; reflexivity|]. apply leb_complete. vm_compute. reflexivity. Qed.

Lemma malformed_runtime_leaks_leases_witness :
  match leased_node with
  | (Ok (_, ls), self1) => ls ≠ [] ∧ Forall (λ l, Plane.get_lease (Lease.id l) self1 = Ok l) ls
  | _ => False
  end.
Proof.
  pose proof leased_node_ok as [Hok Hd].
  destruct leased_node as [[[node ls]|e|] self1] eqn:E; [|discriminate Hok..].
  destruct (malformed_runtime_leaks_leases demo_large malformed_runtime 1000 600 demo_plane node ls self1)
    as (_ & Hne & Hall & _).
  - exact demo_plane_wf.
  - by apply demo_draws_upto.
  - intros Hv. apply runtime_spec_ok in Hv. discriminate Hv.
  - exact E.
  - split; [exact Hne|]. eapply Forall_impl; [exact Hall|]. intros l [_ Hl]. exact Hl.
Defined.

Lemma destroy_after_release_witness :
  (Plane.destroy_virtual_machine created_id released_plane).1 = Err ControlError.LeaseNotFound.
Proof.
  pose proof (destroy_after_release created_id released_plane created_vm (hd demo_lease created_leases)) as H.
  destruct (Plane.destroy_virtual_machine created_id released_plane) as [r self'].
  apply H; vm_compute; [reflexivity|left|reflexivity].
Defined.

(** Two machines on one node. *)
Definition two_machines : demo_plane_t :=
  (Plane.create_virtual_machine demo_node 1000
    (Plane.create_virtual_machine demo_node 1000 demo_plane).2).2.
Definition machine_id (n : nat) : Identity.t :=
  Identity.mk (uuid_to_string (new_v4 n)) Kind.VirtualMachine.

Lemma destroy_strands_sibling_witness :
  let self' := (Plane.destroy_virtual_machine (machine_id 0) two_machines).2 in
  (Plane.execute_virtual_machine 1000 (machine_id 1) demo_workload NoopBackend.mk (self', ())).1 =
    Err ControlError.VirtualMachineNotFound.
Proof.
  cbv zeta.
  destruct (destroy_strands_sibling 1000 demo_workload NoopBackend.mk () (machine_id 0) (machine_id 1)
    two_machines (Plane.destroy_virtual_machine (machine_id 0) two_machines).2
    (hosted demo_node 1000 [] 0) (hosted demo_node 1000 [] 1)) as [_ ->].
  - vm_compute. reflexivity.
  - vm_compute. reflexivity.
  - vm_compute. discriminate.
  - reflexivity.
  - vm_compute. reflexivity.
  - reflexivity.
Defined.

(** ** Lifetimes *)

(** A participant that is there for 100 nanoseconds. *)
Definition brief_resources : ResourceFragment.t := fragment f64_one 4096 0 0 0 (Some 100%N).
Definition brief_registry : Registry.t :=
  foldl run_registry_event Registry.new [
    registry.Join (Identity.mk uuid_a Kind.Participant) demo_capability brief_resources 7;
    Register 0; Activate 0 8].
Definition brief_plane : demo_plane_t :=
  Plane.new brief_registry (MemoryRegistry.mk ∅ demo_policy) tt 0.

(** An unbounded requirement gets a lease of any duration on it. *)
Example lease_outlives_offer :
  offers brief_registry = [ResourceOffer.mk uuid_a brief_resources] ∧
  match (Plane.create_leased_logical_node (fragment f64_zero 1 0 0 0 None) 1000 1000000 brief_plane).1 with
  | Ok (node, [l]) =>
    ResourceFragment.lifetime (CompositeResource.capacity (LogicalNode.resources node)) = None ∧
    Identity.id (Lease.participant_id l) = uuid_a ∧ Lease.remaining_at l 1000 = 1000000%N
  | _ => False
  end.
Proof. vm_compute. by split_and!. Qed.

(** ** Concurrent calls *)

Lemma sections_refine_calls_witness :
  ∃ m, Thread.alone NoopBackend.mk 1100 m (Thread.Called (Call.Destroy created_id)) (created_plane, ()) =
    Thread.whole NoopBackend.mk 1100 (Call.Destroy created_id) (created_plane, ()).
Proof.
  destruct (sections_refine_calls NoopBackend.mk 1100 (Call.Destroy created_id) created_plane ())
    as [n Hn].
  exists n. exact (proj1 (Hn n (le_n n))).
Defined.

(** Two sections of a creation, with a removal of a participant between them. *)
Lemma concurrent_plane_invariant_witness :
  let c := Call.CreateLeased demo_large demo_runtime 1000 600 in
  let first := Thread.advance NoopBackend.mk 1000 (Thread.Called c) (demo_plane, ()) in
  let second := Thread.advance NoopBackend.mk 1000 first.1
    (Plane.set_registry (run_registry_event (Plane.registry first.2.1)
      (Unregister (Identity.mk uuid_a Kind.Participant))) first.2.1, ()) in
  plane_wf second.2.1.
Proof.
  cbv zeta.
  set (c := Call.CreateLeased demo_large demo_runtime 1000 600).
  set (first := Thread.advance NoopBackend.mk 1000 (Thread.Called c) (demo_plane, ())).
  set (between := Plane.set_registry _ _).
  set (second := Thread.advance NoopBackend.mk 1000 first.1 (between, ())).
  refine (proj1 (concurrent_plane_invariant NoopBackend.mk demo_registry
    (MemoryRegistry.mk ∅ demo_policy) tt 0 () second.2.2 [second.1] second.2.1 _ _)).
  - apply run_registry_wf, registry_new_wf.
  - eapply rtc_l; [apply (sys_call _ [] (demo_plane, ()) c)|].
    eapply rtc_l; [apply (sys_advance _ _ (demo_plane, ()) 0 (Thread.Called c) 1000); reflexivity|].
    fold first. rewrite (surjective_pairing first.2).
    eapply rtc_l; [apply (sys_other _ _ _ _ between ()); apply step_participants|].
    eapply rtc_l; [apply (sys_advance _ _ (between, ()) 0 first.1 1000); reflexivity|].
    fold second. rewrite (surjective_pairing second.2). apply rtc_refl.
Defined.

Definition started_vm : VirtualMachine.t :=
  VirtualMachine.set_state VirtualMachineState.Running created_vm.
Definition created_node : LogicalNode.t :=
  default demo_node (Plane.logical_nodes started_plane !! Identity.id (VirtualMachine.node_id started_vm)).

Lemma demo_runnable : runnable created_node demo_workload 1100 started_vm.
Proof.
  destruct (execute_at_cases created_node demo_workload NoopBackend.mk 1100 started_vm ())
    as [[Hr _]|[_ (e & He & _)]]; [exact Hr|].
  assert (is_ok (VirtualMachine.execute_at created_node demo_workload NoopBackend.mk 1100
    (started_vm, ())).1 = true) as Hok by (vm_compute; reflexivity).
  rewrite He in Hok. discriminate.
Qed.

Lemma execution_overwrites_calls_witness :
  let '(th, s) := Thread.alone NoopBackend.mk 1100 3 (Thread.Called (Call.Execute created_id demo_workload))
    (started_plane, ()) in
  let stopped := (Plane.stop_virtual_machine created_id started_plane).2 in
  Plane.virtual_machines (Thread.advance NoopBackend.mk 1200 th (stopped, ())).2.1 !!
    Identity.id created_id = Some started_vm.
Proof.
  pose proof (execution_overwrites_calls NoopBackend.mk 1100 1200 created_id demo_workload started_plane
    () () started_vm created_node (ExecutionReceipt.mk "w"
      (Identity.mk (LogicalNode.id created_node) Kind.LogicalNode) 2) started_wf) as H.
  destruct (Thread.alone _ _ _ _ _) as [th s]. destruct H as (_ & H & _).
  - vm_compute. reflexivity.
  - vm_compute. reflexivity.
  - exact demo_runnable.
  - vm_compute. reflexivity.
  - cbv zeta. destruct (Plane.stop_virtual_machine created_id started_plane) as [r stopped].
    cbn [snd]. destruct (Thread.advance NoopBackend.mk 1200 th (stopped, ())) as [th' [self' w']].
    exact (proj1 (proj2 (proj2 H))).
Defined.
