(* ===== verification/display.v ===== *)
(** * Error texts ([impl Display] of every error of [src/])

    Every error enum derives [Debug] and writes itself with [write!(f, "{self:?}")], so its
    [Display] is the name of the variant, with the inner error in parentheses where it has one.
    [Debug] is that text, a [fmt] per enum; the texts of the errors that a server sends to its
    callers are those of [server.v]. *)
From S2P Require Import prelude bytes time float identity uuid_demo resource capability node.
From S2P Require Import fabric participant registry discovery scheduler lease runtime messages.
From S2P Require Import endpoint transport codec codec_laws server execution virtual_machine control.
From stdpp Require Import finite list.

(** [{:?}] of a type, which is also its [{}] where the type implements [Display] by it. *)
Class Debug (A : Type) := fmt : A → string.

Definition identity_error_fmt (self : IdentityError.t) : string :=
  match self with
  | IdentityError.Empty => "Empty"
  | IdentityError.InvalidUuid => "InvalidUuid"
  | IdentityError.NonCanonical => "NonCanonical"
  | IdentityError.WrongVersion => "WrongVersion"
  end.

Definition resource_error_fmt (self : ResourceError.t) : string :=
  match self with
  | ResourceError.InvalidCpu => "InvalidCpu"
  | ResourceError.EmptyRequirement => "EmptyRequirement"
  | ResourceError.EmptyComposite => "EmptyComposite"
  | ResourceError.InvalidAllocation => "InvalidAllocation"
  | ResourceError.DuplicateParticipant => "DuplicateParticipant"
  | ResourceError.CapacityMismatch => "CapacityMismatch"
  end.

Definition capability_error_fmt (self : CapabilityError.t) : string :=
  match self with
  | CapabilityError.InvalidCpu => "InvalidCpu"
  | CapabilityError.InvalidAvailability => "InvalidAvailability"
  | CapabilityError.Empty => "Empty"
  | CapabilityError.ZeroLifetime => "ZeroLifetime"
  end.

Definition participant_error_fmt (self : ParticipantError.t) : string :=
  match self with
  | ParticipantError.Invalid => "Invalid"
  | ParticipantError.InvalidTransition => "InvalidTransition"
  | ParticipantError.NotActive => "NotActive"
  end.

Definition node_error_fmt (self : NodeError.t) : string :=
  match self with
  | NodeError.EmptyRuntimeName => "EmptyRuntimeName"
  | NodeError.EmptyRuntimeVersion => "EmptyRuntimeVersion"
  end.

Definition fabric_error_fmt (self : FabricError.t) : string :=
  match self with
  | FabricError.EmptyParticipant => "EmptyParticipant"
  | FabricError.InvalidResource => "InvalidResource"
  end.

Definition registry_error_fmt (self : RegistryError.t) : string :=
  match self with
  | RegistryError.Exists => "Exists"
  | RegistryError.NotFound => "NotFound"
  | RegistryError.Invalid => "Invalid"
  end.

Definition discovery_error_fmt (self : DiscoveryError.t) : string :=
  match self with
  | DiscoveryError.InvalidAdvertisement => "InvalidAdvertisement"
  | DiscoveryError.InvalidTimestamp => "InvalidTimestamp"
  | DiscoveryError.InvalidPolicy => "InvalidPolicy"
  | DiscoveryError.StaleSequence => "StaleSequence"
  | DiscoveryError.NotFound => "NotFound"
  end.

Definition scheduler_error_fmt (self : SchedulerError.t) : string :=
  match self with
  | SchedulerError.InvalidRequirement => "InvalidRequirement"
  | SchedulerError.InsufficientResources => "InsufficientResources"
  | SchedulerError.InvalidOffer => "InvalidOffer"
  end.

Definition lease_error_fmt (self : LeaseError.t) : string :=
  match self with
  | LeaseError.InvalidLease => "InvalidLease"
  | LeaseError.InvalidExpiry => "InvalidExpiry"
  | LeaseError.InvalidLifetime => "InvalidLifetime"
  | LeaseError.InvalidParticipant => "InvalidParticipant"
  | LeaseError.InvalidNode => "InvalidNode"
  end.

Definition execution_error_fmt (self : ExecutionError.t) : string :=
  match self with
  | ExecutionError.EmptyWorkloadId => "EmptyWorkloadId"
  | ExecutionError.InvalidNodeIdentity => "InvalidNodeIdentity"
  | ExecutionError.InvalidParticipantIdentity => "InvalidParticipantIdentity"
  | ExecutionError.EmptyPlan => "EmptyPlan"
  | ExecutionError.InvalidResources => "InvalidResources"
  | ExecutionError.InvalidRuntimeSpec => "InvalidRuntimeSpec"
  | ExecutionError.WorkloadMismatch => "WorkloadMismatch"
  | ExecutionError.BackendRejected => "BackendRejected"
  end.

Definition transport_error_fmt (self : TransportError.t) : string :=
  match self with
  | TransportError.EmptyRequestId => "EmptyRequestId"
  | TransportError.EmptyWorkloadId => "EmptyWorkloadId"
  | TransportError.InvalidEndpointIdentity => "InvalidEndpointIdentity"
  | TransportError.EmptyLocator => "EmptyLocator"
  | TransportError.InvalidLocator => "InvalidLocator"
  | TransportError.InvalidSourceIdentity => "InvalidSourceIdentity"
  | TransportError.MissingSourceIdentity => "MissingSourceIdentity"
  | TransportError.UnauthorizedClient => "UnauthorizedClient"
  | TransportError.EmptyClientAllowlist => "EmptyClientAllowlist"
  | TransportError.DuplicateAuthorizedClientCertificate => "DuplicateAuthorizedClientCertificate"
  | TransportError.CertificateAssignedToMultipleIdentities => "CertificateAssignedToMultipleIdentities"
  | TransportError.InvalidNodeIdentity => "InvalidNodeIdentity"
  | TransportError.InvalidParticipantIdentity => "InvalidParticipantIdentity"
  | TransportError.InvalidRuntimeSpec => "InvalidRuntimeSpec"
  | TransportError.InvalidResources => "InvalidResources"
  | TransportError.EndpointUnavailable => "EndpointUnavailable"
  | TransportError.EndpointAlreadyRegistered => "EndpointAlreadyRegistered"
  | TransportError.RequestRejected => "RequestRejected"
  | TransportError.NetworkFailure => "NetworkFailure"
  | TransportError.UnsupportedProtocolVersion => "UnsupportedProtocolVersion"
  | TransportError.TlsConfigurationFailure => "TlsConfigurationFailure"
  | TransportError.TlsHandshakeFailure => "TlsHandshakeFailure"
  | TransportError.ResponseIdMismatch => "ResponseIdMismatch"
  | TransportError.FrameTooLarge => "FrameTooLarge"
  | TransportError.MalformedFrame => "MalformedFrame"
  end.

(** A variant with an inner error, as the derived [Debug] of a tuple variant writes it. *)
Definition tuple_fmt (variant inner : string) : string := variant +:+ "(" +:+ inner +:+ ")".

Definition virtual_machine_error_fmt (self : VirtualMachineError.t) : string :=
  match self with
  | VirtualMachineError.InvalidVirtualMachineIdentity => "InvalidVirtualMachineIdentity"
  | VirtualMachineError.InvalidLogicalNodeIdentity => "InvalidLogicalNodeIdentity"
  | VirtualMachineError.InvalidResources => "InvalidResources"
  | VirtualMachineError.InvalidRuntime e => tuple_fmt "InvalidRuntime" (node_error_fmt e)
  | VirtualMachineError.EmptyResources => "EmptyResources"
  | VirtualMachineError.NodeMismatch => "NodeMismatch"
  | VirtualMachineError.ResourceMismatch => "ResourceMismatch"
  | VirtualMachineError.RuntimeMismatch => "RuntimeMismatch"
  | VirtualMachineError.InvalidLease => "InvalidLease"
  | VirtualMachineError.LeaseNodeMismatch => "LeaseNodeMismatch"
  | VirtualMachineError.LeaseParticipantMismatch => "LeaseParticipantMismatch"
  | VirtualMachineError.LeaseResourceMismatch => "LeaseResourceMismatch"
  | VirtualMachineError.LeaseExpired => "LeaseExpired"
  | VirtualMachineError.Execution e => tuple_fmt "Execution" (execution_error_fmt e)
  | VirtualMachineError.NotRunning => "NotRunning"
  end.

Definition control_error_fmt (self : ControlError.t) : string :=
  match self with
  | ControlError.InvalidTime => "InvalidTime"
  | ControlError.InvalidLeaseDuration => "InvalidLeaseDuration"
  | ControlError.LeaseNotFound => "LeaseNotFound"
  | ControlError.VirtualMachineNotFound => "VirtualMachineNotFound"
  | ControlError.Scheduler e => tuple_fmt "Scheduler" (scheduler_error_fmt e)
  | ControlError.Node e => tuple_fmt "Node" (node_error_fmt e)
  | ControlError.Execution e => tuple_fmt "Execution" (execution_error_fmt e)
  | ControlError.VirtualMachine e => tuple_fmt "VirtualMachine" (virtual_machine_error_fmt e)
  end.

#[export] Instance identity_error_debug : Debug IdentityError.t := identity_error_fmt.
#[export] Instance resource_error_debug : Debug ResourceError.t := resource_error_fmt.
#[export] Instance capability_error_debug : Debug CapabilityError.t := capability_error_fmt.
#[export] Instance participant_error_debug : Debug ParticipantError.t := participant_error_fmt.
#[export] Instance node_error_debug : Debug NodeError.t := node_error_fmt.
#[export] Instance fabric_error_debug : Debug FabricError.t := fabric_error_fmt.
#[export] Instance registry_error_debug : Debug RegistryError.t := registry_error_fmt.
#[export] Instance discovery_error_debug : Debug DiscoveryError.t := discovery_error_fmt.
#[export] Instance scheduler_error_debug : Debug SchedulerError.t := scheduler_error_fmt.
#[export] Instance lease_error_debug : Debug LeaseError.t := lease_error_fmt.
#[export] Instance execution_error_debug : Debug ExecutionError.t := execution_error_fmt.
#[export] Instance transport_error_debug : Debug TransportError.t := transport_error_fmt.
#[export] Instance virtual_machine_error_debug : Debug VirtualMachineError.t := virtual_machine_error_fmt.
#[export] Instance control_error_debug : Debug ControlError.t := control_error_fmt.
#[export] Instance runtime_error_debug : Debug RuntimeError.t := debug_runtime_error.
#[export] Instance runtime_registry_error_debug : Debug RuntimeRegistryError.t :=
  debug_registry_error.
#[export] Instance endpoint_execution_error_debug : Debug EndpointExecutionError.t :=
  debug_execution_error.

(** ** The variants of every error *)

Ltac split_variants :=
  repeat match goal with |- context [?e] => is_var e; destruct e end.
Ltac finite_variants l :=
  refine {| enum := l |};
    [ by apply (bool_decide_unpack _); vm_compute
    | intros e; split_variants; by apply (bool_decide_unpack _); vm_compute ].

#[export] Instance identity_error_finite : Finite IdentityError.t.
Proof.
    finite_variants [IdentityError.Empty; IdentityError.InvalidUuid; IdentityError.NonCanonical;
    IdentityError.WrongVersion].
Defined.
#[export] Instance resource_error_finite : Finite ResourceError.t.
Proof.
    finite_variants [ResourceError.InvalidCpu; ResourceError.EmptyRequirement;
    ResourceError.EmptyComposite; ResourceError.InvalidAllocation;
    ResourceError.DuplicateParticipant; ResourceError.CapacityMismatch].
Defined.
#[export] Instance capability_error_finite : Finite CapabilityError.t.
Proof.
    finite_variants [CapabilityError.InvalidCpu; CapabilityError.InvalidAvailability;
    CapabilityError.Empty; CapabilityError.ZeroLifetime].
Defined.
#[export] Instance participant_error_finite : Finite ParticipantError.t.
Proof.
    finite_variants [ParticipantError.Invalid; ParticipantError.InvalidTransition;
    ParticipantError.NotActive].
Defined.
#[export] Instance node_error_finite : Finite NodeError.t.
Proof.
    finite_variants [NodeError.EmptyRuntimeName; NodeError.EmptyRuntimeVersion].
Defined.
#[export] Instance fabric_error_finite : Finite FabricError.t.
Proof.
    finite_variants [FabricError.EmptyParticipant; FabricError.InvalidResource].
Defined.
#[export] Instance registry_error_finite : Finite RegistryError.t.
Proof.
    finite_variants [RegistryError.Exists; RegistryError.NotFound; RegistryError.Invalid].
Defined.
#[export] Instance discovery_error_finite : Finite DiscoveryError.t.
Proof.
    finite_variants [DiscoveryError.InvalidAdvertisement; DiscoveryError.InvalidTimestamp;
    DiscoveryError.InvalidPolicy; DiscoveryError.StaleSequence; DiscoveryError.NotFound].
Defined.
#[export] Instance scheduler_error_finite : Finite SchedulerError.t.
Proof.
    finite_variants [SchedulerError.InvalidRequirement; SchedulerError.InsufficientResources;
    SchedulerError.InvalidOffer].
Defined.
#[export] Instance lease_error_finite : Finite LeaseError.t.
Proof.
    finite_variants [LeaseError.InvalidLease; LeaseError.InvalidExpiry;
    LeaseError.InvalidLifetime; LeaseError.InvalidParticipant; LeaseError.InvalidNode].
Defined.
#[export] Instance execution_error_finite : Finite ExecutionError.t.
Proof.
    finite_variants [ExecutionError.EmptyWorkloadId; ExecutionError.InvalidNodeIdentity;
    ExecutionError.InvalidParticipantIdentity; ExecutionError.EmptyPlan;
    ExecutionError.InvalidResources; ExecutionError.InvalidRuntimeSpec;
    ExecutionError.WorkloadMismatch; ExecutionError.BackendRejected].
Defined.
#[export] Instance transport_error_finite : Finite TransportError.t.
Proof.
    finite_variants [TransportError.EmptyRequestId; TransportError.EmptyWorkloadId;
    TransportError.InvalidEndpointIdentity; TransportError.EmptyLocator;
    TransportError.InvalidLocator; TransportError.InvalidSourceIdentity;
    TransportError.MissingSourceIdentity; TransportError.UnauthorizedClient;
    TransportError.EmptyClientAllowlist; TransportError.DuplicateAuthorizedClientCertificate;
    TransportError.CertificateAssignedToMultipleIdentities; TransportError.InvalidNodeIdentity;
    TransportError.InvalidParticipantIdentity; TransportError.InvalidRuntimeSpec;
    TransportError.InvalidResources; TransportError.EndpointUnavailable;
    TransportError.EndpointAlreadyRegistered; TransportError.RequestRejected;
    TransportError.NetworkFailure; TransportError.UnsupportedProtocolVersion;
    TransportError.TlsConfigurationFailure; TransportError.TlsHandshakeFailure;
    TransportError.ResponseIdMismatch; TransportError.FrameTooLarge;
    TransportError.MalformedFrame].
Defined.
#[export] Instance runtime_error_finite : Finite RuntimeError.t.
Proof.
    finite_variants [RuntimeError.EmptyWorkloadId; RuntimeError.InvalidParticipantIdentity;
    RuntimeError.InvalidNodeIdentity; RuntimeError.InvalidResources; RuntimeError.Unsupported;
    RuntimeError.ExecutionFailed].
Defined.
#[export] Instance runtime_registry_error_finite : Finite RuntimeRegistryError.t.
Proof.
    finite_variants [RuntimeRegistryError.EmptyName; RuntimeRegistryError.EmptyVersion;
    RuntimeRegistryError.DuplicateRuntime; RuntimeRegistryError.RuntimeNotFound].
Defined.
#[export] Instance virtual_machine_error_finite : Finite VirtualMachineError.t.
Proof.
  finite_variants ([VirtualMachineError.InvalidVirtualMachineIdentity;
    VirtualMachineError.InvalidLogicalNodeIdentity; VirtualMachineError.InvalidResources;
    VirtualMachineError.EmptyResources; VirtualMachineError.NodeMismatch;
    VirtualMachineError.ResourceMismatch; VirtualMachineError.RuntimeMismatch;
    VirtualMachineError.InvalidLease; VirtualMachineError.LeaseNodeMismatch;
    VirtualMachineError.LeaseParticipantMismatch; VirtualMachineError.LeaseResourceMismatch;
    VirtualMachineError.LeaseExpired; VirtualMachineError.NotRunning] ++
    (VirtualMachineError.InvalidRuntime <$> enum NodeError.t) ++ (VirtualMachineError.Execution
    <$> enum ExecutionError.t)).
Defined.
#[export] Instance control_error_finite : Finite ControlError.t.
Proof.
  finite_variants ([ControlError.InvalidTime; ControlError.InvalidLeaseDuration;
    ControlError.LeaseNotFound; ControlError.VirtualMachineNotFound] ++ (ControlError.Scheduler
    <$> enum SchedulerError.t) ++ (ControlError.Node <$> enum NodeError.t) ++
    (ControlError.Execution <$> enum ExecutionError.t) ++ (ControlError.VirtualMachine <$> enum
    VirtualMachineError.t)).
Defined.
#[export] Instance endpoint_execution_error_finite : Finite EndpointExecutionError.t.
Proof.
  finite_variants ([EndpointExecutionError.Rejected; EndpointExecutionError.ExecutionFailed] ++
    (EndpointExecutionError.Runtime <$> enum RuntimeError.t) ++
    (EndpointExecutionError.RuntimeRegistry <$> enum RuntimeRegistryError.t)).
Defined.

(** ** The text of an error names the error *)

Lemma fmt_inj `{EqDecision A, !Finite A, Debug A} :
  bool_decide (NoDup (fmt <$> enum A)) = true → Inj (=) (=) (fmt : A → string).
Proof.
  intros Hn%bool_decide_eq_true x y Hxy.
  destruct (list_elem_of_lookup_1 (enum A) x (elem_of_enum x)) as [i Hi].
  destruct (list_elem_of_lookup_1 (enum A) y (elem_of_enum y)) as [j Hj].
  assert (i = j) as ->; [|congruence].
  eapply (NoDup_lookup _ i j (fmt x)); [exact Hn|..]; rewrite list_lookup_fmap.
  - by rewrite Hi.
  - rewrite Hj. simpl. by rewrite Hxy.
Qed.

Ltac distinct_texts := apply fmt_inj; vm_compute; reflexivity.

(** What [Debug] of a [str] promises: it is quoted and escaped, so it ends where it says. *)
Class QuotedStr (debug_str : string → string) : Prop :=
  quoted_ends : ∀ s s' x x', debug_str s +:+ x = debug_str s' +:+ x' → s = s' ∧ x = x'.

Lemma string_app_inj_l (p x y : string) : p +:+ x = p +:+ y → x = y.
Proof. induction p as [|c p IH]; [done|]. intros [= H]. by apply IH. Qed.

Lemma string_length_app (x y : string) :
  String.length (x +:+ y) = String.length x + String.length y.
Proof. induction x as [|c x IH]; [done|]. exact (f_equal S IH). Qed.

Lemma string_app_inj_r (p x y : string) : x +:+ p = y +:+ p → x = y.
Proof.
  intros H. assert (String.length x = String.length y) as Hl.
  { apply (f_equal String.length) in H. rewrite !string_length_app in H. lia. }
  revert y H Hl. induction x as [|c x IH]; intros [|d y] H Hl; try done.
  cbn in H, Hl. injection H as -> H. f_equal. apply IH; [exact H|lia].
Qed.

#[export] Instance endpoint_execution_error_inj : Inj (=) (=) debug_execution_error.
Proof. change (Inj (=) (=) (fmt : EndpointExecutionError.t → string)). distinct_texts. Qed.

Lemma endpoint_error_inj debug_str `{!QuotedStr debug_str} : Inj (=) (=) (debug_endpoint_error debug_str).
Proof.
  intros e e' H. destruct e as [| | | | | |id err], e' as [| | | | | |id' err']; try done.
  cbn [debug_endpoint_error] in H. apply string_app_inj_l in H.
  apply quoted_ends in H as [-> H]. apply string_app_inj_l, string_app_inj_r in H.
  by apply (inj debug_execution_error) in H as ->.
Qed.

(** The text of an error names the error. [Display] of each error of the crate distinguishes
    all its values, inner errors included; and when the [Debug] of a string says where it ends, so
    does the text of an endpoint's error that a server sends: two requests with the same failed
    response failed in the endpoint for the same reason. *)
Theorem error_texts_faithful `{UuidLib} {W} debug_str `{!QuotedStr debug_str} :
  (Inj (=) (=) (fmt : IdentityError.t → string) ∧ Inj (=) (=) (fmt : ResourceError.t → string) ∧
   Inj (=) (=) (fmt : CapabilityError.t → string) ∧ Inj (=) (=) (fmt : NodeError.t → string) ∧
   Inj (=) (=) (fmt : ParticipantError.t → string) ∧ Inj (=) (=) (fmt : FabricError.t → string) ∧
   Inj (=) (=) (fmt : RegistryError.t → string) ∧ Inj (=) (=) (fmt : DiscoveryError.t → string) ∧
   Inj (=) (=) (fmt : SchedulerError.t → string) ∧ Inj (=) (=) (fmt : LeaseError.t → string) ∧
   Inj (=) (=) (fmt : ExecutionError.t → string) ∧ Inj (=) (=) (fmt : TransportError.t → string) ∧
   Inj (=) (=) (fmt : RuntimeError.t → string) ∧
   Inj (=) (=) (fmt : RuntimeRegistryError.t → string) ∧
   Inj (=) (=) (fmt : VirtualMachineError.t → string) ∧
   Inj (=) (=) (fmt : ControlError.t → string)) ∧
  ∀ (h h' : ExecutionHandler.t W) r w w' e e' response,
    (ExecutionHandler.handle_request h r w).1 = Err e →
    (ExecutionHandler.handle_request h' r w').1 = Err e' →
    (respond debug_str h r w).1 = Ok response → (respond debug_str h' r w').1 = Ok response →
    e = e'.
Proof.
  split; [split_and!; distinct_texts|]. intros h h' r w w' e e' response He He' Hr Hr'.
  unfold respond in Hr, Hr'.
  destruct (ExecutionHandler.handle_request h r w) as [? ?], (ExecutionHandler.handle_request h' r w')
    as [? ?]. cbn in He, He'. subst. cbn in Hr, Hr'. rewrite <- Hr' in Hr.
  injection Hr as Hr. by apply (endpoint_error_inj debug_str).
Qed.

(** *** A quoting that says where it ends *)

Definition quote_char : ascii := ascii_of_nat 34.
Definition backslash : ascii := "\"%char.
Fixpoint escape (s : string) : string :=
  match s with
  | EmptyString => String quote_char EmptyString
  | String c s =>
    if bool_decide (c = quote_char ∨ c = backslash) then String backslash (String c (escape s))
    else String c (escape s)
  end.
Definition quoted (s : string) : string := String quote_char (escape s).

#[local] Instance quoted_str : QuotedStr quoted.
Proof.
  assert (∀ s s' x x', escape s +:+ x = escape s' +:+ x' → s = s' ∧ x = x') as Hesc.
  { induction s as [|c s IH]; intros [|c' s'] x x' H; cbn [escape] in H;
      repeat case_bool_decide; cbn in H; simplify_eq; try done; try naive_solver.
    all: destruct (IH s' x x'); naive_solver. }
  intros s s' x x' [= H]. by apply Hesc.
Qed.

(** A participant that answers every request with the same error. *)
Definition rejecting (e : EndpointExecutionError.t) : ExecutionHandler.t () := {|
  ExecutionHandler.participant_id := Identity.mk uuid_a Kind.Participant;
  ExecutionHandler.handle_request request w :=
    (Err (EndpointError.ExecutionFailed (ExecutionRequest.request_id request) e), w);
|}.

Lemma error_texts_faithful_witness :
  let h := rejecting (EndpointExecutionError.Runtime RuntimeError.Unsupported) in
  QuotedStr quoted ∧
  (∃ response, (respond quoted h demo_request ()).1 = Ok response) ∧
  ∀ h' e', (ExecutionHandler.handle_request h' demo_request ()).1 = Err e' →
    (respond quoted h' demo_request ()).1 = (respond quoted h demo_request ()).1 →
    e' = EndpointError.ExecutionFailed "r"
           (EndpointExecutionError.Runtime RuntimeError.Unsupported).
Proof.
  intros h. split; [apply _|]. split; [eexists; reflexivity|]. intros h' e' He' Hr.
  destruct (error_texts_faithful (W := ()) quoted) as [_ Hf].
  eapply (Hf h' h demo_request () () e' _ _ He' eq_refl); [|reflexivity]. rewrite Hr. reflexivity.
Defined.
