(* ===== verification/tests_data.v ===== *)
(** * The unit tests of the data, the scheduler and the endpoints

    The tests of [identity.rs], [resource.rs], [node.rs], [lease.rs], [runtime.rs], [scheduler.rs]
    and [endpoint.rs] as programs over the model, a definition per test under the name it has
    there. They are run at the end of the file. *)
From S2P Require Import prelude bytes time float identity uuid_demo resource node fabric scheduler.
From S2P Require Import lease runtime messages endpoint testing.
From stdpp Require Import list.

Module IdentityTests.
Section tests.
Context `{UuidLib}.

Definition creates_v4_identity : test :=
  identity ← draw Kind.Participant;
  _ ← assert_eq (String.length (Identity.id identity)) 36;
  unwrap (Identity.validate identity).

Definition rejects_non_canonical_uuid : test :=
  let upper := "550E8400-E29B-41D4-A716-446655440000"%string in
  error ← unwrap_err (Identity.parse upper Kind.Participant);
  assert_eq error IdentityError.NonCanonical.

Definition preserves_kind : test :=
  let id := "550e8400-e29b-41d4-a716-446655440000"%string in
  identity ← unwrap (Identity.parse id Kind.LogicalNode);
  assert_eq (Identity.kind identity) Kind.LogicalNode.

Definition all : list test := [creates_v4_identity; rejects_non_canonical_uuid; preserves_kind].
End tests.
End IdentityTests.

Module ResourceTests.
Open Scope string_scope.

Definition bounded_composition_uses_shortest_lifetime : test :=
  let a := cpu_for f64_one (Some (Duration.from_secs 30)) in
  let b := cpu_for f64_two (Some (Duration.from_secs 10)) in
  let total := ResourceFragment.add a b in
  _ ← assert (f64_eqb (ResourceFragment.cores total) f64_three);
  assert_eq (ResourceFragment.lifetime total) (Some (Duration.from_secs 10)).

Definition fn_unbounded_plus_bounded_is_bounded : test :=
  let a := cpu_for f64_one None in
  let b := cpu_for f64_two (Some (Duration.from_secs 10)) in
  assert_eq (ResourceFragment.lifetime (ResourceFragment.add a b)) (Some (Duration.from_secs 10)).

Definition composition_is_canonical : test :=
  composite ← unwrap (CompositeResource.compose
    [Allocation.mk "a" (cpu f64_three_quarters); Allocation.mk "b" (cpu f64_one_and_a_quarter)]);
  _ ← assert (f64_eqb (ResourceFragment.cores (CompositeResource.capacity composite)) f64_two);
  unwrap (CompositeResource.validate composite).

Definition duplicate_participants_are_rejected : test :=
  let result := CompositeResource.compose
    [Allocation.mk "a" (cpu f64_one); Allocation.mk "a" (cpu f64_one)] in
  error ← unwrap_err result;
  assert_eq error ResourceError.DuplicateParticipant.

Definition tampered_capacity_is_rejected : test :=
  composite ← unwrap (CompositeResource.compose [Allocation.mk "a" (cpu f64_one)]);
  let capacity := CompositeResource.capacity composite in
  let composite := {|
    CompositeResource.capacity := {|
      ResourceFragment.cpu := Cpu.mk f64_two;
      ResourceFragment.memory := ResourceFragment.memory capacity;
      ResourceFragment.storage := ResourceFragment.storage capacity;
      ResourceFragment.network := ResourceFragment.network capacity;
      ResourceFragment.gpu := ResourceFragment.gpu capacity;
      ResourceFragment.lifetime := ResourceFragment.lifetime capacity |};
    CompositeResource.allocations := CompositeResource.allocations composite |} in
  error ← unwrap_err (CompositeResource.validate composite);
  assert_eq error ResourceError.CapacityMismatch.

Definition all : list test := [
  bounded_composition_uses_shortest_lifetime; fn_unbounded_plus_bounded_is_bounded;
  composition_is_canonical; duplicate_participants_are_rejected; tampered_capacity_is_rejected].
End ResourceTests.

Module NodeTests.
Section tests.
Context `{UuidLib}.
Open Scope string_scope.

(** [fn node()]. *)
Definition node : prog nat LogicalNode.t :=
  participant ← draw Kind.Participant;
  resources ← unwrap (CompositeResource.compose
    [Allocation.mk (Identity.id participant) (cpu f64_one)]);
  id ← draw Kind.LogicalNode;
  mret (LogicalNode.mk (Identity.id id) resources RuntimeSpec.default).

Definition runtime_spec_requires_name_and_version : test :=
  error ← unwrap_err (RuntimeSpec.validate RuntimeSpec.default);
  _ ← assert_eq error NodeError.EmptyRuntimeName;
  error ← unwrap_err (RuntimeSpec.validate (RuntimeSpec.new "recording" ""));
  assert_eq error NodeError.EmptyRuntimeVersion.

Definition logical_node_can_assign_runtime : test :=
  node ← node;
  let runtime := RuntimeSpec.new "recording" "1" in
  '(_, node) ← local node (expect (LogicalNode.assign_runtime runtime));
  assert_eq (LogicalNode.runtime node) runtime.

Definition logical_node_rejects_invalid_runtime_assignment : test :=
  node ← node;
  '(error, node) ← local node (expect_err (LogicalNode.assign_runtime RuntimeSpec.default));
  _ ← assert_eq error NodeError.EmptyRuntimeName;
  assert (is_empty_str (RuntimeSpec.name (LogicalNode.runtime node))).

Definition with_runtime_returns_bound_node : test :=
  node ← node;
  node ← unwrap (LogicalNode.with_runtime node (RuntimeSpec.new "recording" "1"));
  assert_eq (LogicalNode.runtime node) (RuntimeSpec.new "recording" "1").

Definition all : list test := [
  runtime_spec_requires_name_and_version; logical_node_can_assign_runtime;
  logical_node_rejects_invalid_runtime_assignment; with_runtime_returns_bound_node].
End tests.
End NodeTests.

Module LeaseTests.
Section tests.
Context `{UuidLib}.

Definition ids : prog nat (Identity.t * Identity.t * Identity.t) :=
  lease ← draw Kind.Lease;
  node ← draw Kind.LogicalNode;
  participant ← draw Kind.Participant;
  mret (lease, node, participant).

Definition creates_valid_lease : test :=
  '(lease, node, participant) ← ids;
  created ← after SystemTime.UNIX_EPOCH 100;
  expires ← after created 3600;
  got ← unwrap (Lease.new lease node participant (cpu f64_two) created expires);
  unwrap (Lease.validate got).

Definition enforces_lifetime : test :=
  '(lease, node, participant) ← ids;
  created ← after SystemTime.UNIX_EPOCH 100;
  expires ← after created 3600;
  err ← unwrap_err (Lease.new lease node participant
    (cpu_for f64_one (Some (Duration.from_secs 1800))) created expires);
  assert_eq err LeaseError.InvalidLifetime.

Definition all : list test := [creates_valid_lease; enforces_lifetime].
End tests.
End LeaseTests.

Module RuntimeTests.
Section tests.
Context `{UuidLib}.
Open Scope string_scope.

(** [RecordingRuntime], which changes nothing. *)
Definition recording_runtime : Runtime.t () :=
  {| Runtime.name := "recording"; Runtime.run _ _ := mret () |}.

Definition spec (name version : string) : RuntimeSpec.t := RuntimeSpec.mk name version.

Definition context_rejects_invalid_participant : test :=
  participant ← draw Kind.LogicalNode;
  node ← draw Kind.LogicalNode;
  error ← unwrap_err (RuntimeContext.new participant node ResourceFragment.default);
  assert_eq error RuntimeError.InvalidParticipantIdentity.

Definition context_rejects_invalid_node : test :=
  participant ← draw Kind.Participant;
  node ← draw Kind.Participant;
  error ← unwrap_err (RuntimeContext.new participant node (cpu f64_one));
  assert_eq error RuntimeError.InvalidNodeIdentity.

Definition workload_requires_identity : test :=
  let workload := Workload.mk "" [] in
  error ← unwrap_err (Workload.validate workload);
  assert_eq error RuntimeError.EmptyWorkloadId.

Definition runtime_accepts_valid_context : test :=
  participant ← draw Kind.Participant;
  node ← draw Kind.LogicalNode;
  context ← unwrap (RuntimeContext.new participant node (cpu f64_one));
  let workload := Workload.mk "work-1" (vec [1; 2; 3]%N) in
  _ ← assert_eq (Runtime.name recording_runtime) "recording";
  '(_, _) ← local () (expect (Runtime.run recording_runtime context workload));
  mret ().

Definition registry_resolves_runtime_by_spec : test :=
  '(_, registry) ← local RuntimeRegistry.new
    (expect (RuntimeRegistry.register (spec "recording" "1") recording_runtime));
  resolved ← unwrap (RuntimeRegistry.resolve (spec "recording" "1") registry);
  _ ← assert_eq (Runtime.name resolved) "recording";
  assert_eq (RuntimeRegistry.len registry) 1.

Definition registry_rejects_duplicate_runtime : test :=
  '(_, registry) ← local RuntimeRegistry.new
    (expect (RuntimeRegistry.register (spec "recording" "1") recording_runtime));
  '(error, _) ← local registry
    (expect_err (RuntimeRegistry.register (spec "recording" "1") recording_runtime));
  assert_eq error RuntimeRegistryError.DuplicateRuntime.

Definition registry_rejects_unknown_runtime : test :=
  let registry : RuntimeRegistry.t () := RuntimeRegistry.new in
  error ← unwrap_err (RuntimeRegistry.resolve (spec "missing" "1") registry);
  assert_eq error RuntimeRegistryError.RuntimeNotFound.

Definition registry_rejects_invalid_spec : test :=
  '(error, _) ← local RuntimeRegistry.new
    (expect_err (RuntimeRegistry.register (spec "" "1") recording_runtime));
  assert_eq error RuntimeRegistryError.EmptyName.

Definition all : list test := [
  context_rejects_invalid_participant; context_rejects_invalid_node; workload_requires_identity;
  runtime_accepts_valid_context; registry_resolves_runtime_by_spec;
  registry_rejects_duplicate_runtime; registry_rejects_unknown_runtime;
  registry_rejects_invalid_spec].
End tests.
End RuntimeTests.

Module SchedulerTests.
Section tests.
Context `{UuidLib}.
Open Scope string_scope.

(** [StaticFabric]. *)
Record StaticFabric := static { static_offers : list ResourceOffer.t }.
#[local] Instance static_fabric : Fabric StaticFabric := static_offers.

Definition offer (participant_id : string) (cores : f64) : ResourceOffer.t :=
  ResourceOffer.mk participant_id (cpu cores).

Definition rejects_duplicate_participant_offers_instead_of_double_counting_resources : test :=
  let fabric := static [offer "participant-a" f64_one; offer "participant-a" f64_one] in
  let requirement := cpu f64_two in
  error ← expect_err (plan fabric requirement);
  assert_eq error SchedulerError.InvalidOffer.

Definition rejects_duplicate_offers_even_when_first_offer_satisfies_requirement : test :=
  let fabric := static [offer "participant-a" f64_one; offer "participant-a" f64_one] in
  let requirement := cpu f64_one in
  error ← expect_err (plan fabric requirement);
  assert_eq error SchedulerError.InvalidOffer.

Definition aggregates_distinct_participants_to_satisfy_requirement : test :=
  let fabric := static [offer "participant-a" f64_one; offer "participant-b" f64_one] in
  let requirement := cpu f64_two in
  node ← expect (plan fabric requirement);
  assert_eq (length (CompositeResource.allocations (LogicalNode.resources node))) 2.

Definition all : list test := [
  rejects_duplicate_participant_offers_instead_of_double_counting_resources;
  rejects_duplicate_offers_even_when_first_offer_satisfies_requirement;
  aggregates_distinct_participants_to_satisfy_requirement].
End tests.
End SchedulerTests.

Module EndpointTests.
Section tests.
Context `{UuidLib}.
Open Scope string_scope.

(** [FailingExecutor]. *)
Inductive FailingExecutor := failing_executor.
#[local] Instance failing : ParticipantExecutor FailingExecutor () :=
  λ _ _ _ _ _ _, fail EndpointExecutionError.Rejected.

Definition runtime_spec : RuntimeSpec.t := RuntimeSpec.mk "recording" "1".

Definition request (participant_id : Identity.t) : prog nat ExecutionRequest.t :=
  node_id ← draw Kind.LogicalNode;
  endpoint ← unwrap (ExecutionEndpoint.new participant_id "loopback://participant-1");
  mret {|
    ExecutionRequest.request_id := "request-1";
    ExecutionRequest.source_participant_id := None;
    ExecutionRequest.workload := Workload.mk "work-1" (vec [1; 2; 3]%N);
    ExecutionRequest.node_id := node_id;
    ExecutionRequest.runtime := runtime_spec;
    ExecutionRequest.unit := ExecutionUnit.mk participant_id (cpu f64_one);
    ExecutionRequest.endpoint := endpoint;
  |}.

Abbreviation handle endpoint request := (ParticipantExecutionEndpoint.handle (W := ()) endpoint request).

Definition endpoint_rejects_non_participant_identity : test :=
  id ← draw Kind.LogicalNode;
  error ← unwrap_err (ParticipantExecutionEndpoint.new id NoopParticipantExecutor.mk);
  assert_eq error EndpointError.InvalidParticipantIdentity.

Definition endpoint_completes_valid_request : test :=
  participant_id ← draw Kind.Participant;
  endpoint ← unwrap (ParticipantExecutionEndpoint.new participant_id NoopParticipantExecutor.mk);
  request ← request participant_id;
  '(response, _) ← local () (expect (handle endpoint request));
  _ ← assert_eq (ExecutionResponse.request_id response) "request-1";
  _ ← assert_eq (ExecutionResponse.status response) ExecutionStatus.Completed;
  assert_eq (ExecutionResponse.error response) None.

Definition endpoint_rejects_participant_mismatch : test :=
  participant_id ← draw Kind.Participant;
  other ← draw Kind.Participant;
  endpoint ← unwrap (ParticipantExecutionEndpoint.new participant_id NoopParticipantExecutor.mk);
  request ← request other;
  '(error, _) ← local () (expect_err (handle endpoint request));
  assert_eq error EndpointError.ParticipantMismatch.

Definition endpoint_reports_executor_failure : test :=
  participant_id ← draw Kind.Participant;
  endpoint ← unwrap (ParticipantExecutionEndpoint.new participant_id failing_executor);
  request ← request participant_id;
  '(error, _) ← local () (expect_err (handle endpoint request));
  assert_eq error (EndpointError.ExecutionFailed "request-1" EndpointExecutionError.Rejected).

Definition registry_adapter_resolves_runtime_from_request : test :=
  '(_, registry) ← local RuntimeRegistry.new
    (expect (RuntimeRegistry.register runtime_spec RuntimeTests.recording_runtime));
  id ← draw Kind.Participant;
  endpoint ← unwrap (ParticipantExecutionEndpoint.new id (RegistryRuntimeAdapter.mk registry));
  let participant_id := ParticipantExecutionEndpoint.participant_id endpoint in
  request ← request participant_id;
  '(response, _) ← local () (expect (handle endpoint request));
  assert_eq (ExecutionResponse.status response) ExecutionStatus.Completed.

Definition registry_adapter_reports_missing_runtime : test :=
  id ← draw Kind.Participant;
  endpoint ← unwrap (ParticipantExecutionEndpoint.new id
    (RegistryRuntimeAdapter.mk (W := ()) RuntimeRegistry.new));
  let participant_id := ParticipantExecutionEndpoint.participant_id endpoint in
  request ← request participant_id;
  '(error, _) ← local () (expect_err (handle endpoint request));
  assert_eq error (EndpointError.ExecutionFailed "request-1"
    (EndpointExecutionError.RuntimeRegistry RuntimeRegistryError.RuntimeNotFound)).

Definition all : list test := [
  endpoint_rejects_non_participant_identity; endpoint_completes_valid_request;
  endpoint_rejects_participant_mismatch; endpoint_reports_executor_failure;
  registry_adapter_resolves_runtime_from_request; registry_adapter_reports_missing_runtime].
End tests.
End EndpointTests.

(** All of them. *)
Definition data_tests `{UuidLib} : list test :=
  IdentityTests.all ++ ResourceTests.all ++ NodeTests.all ++ LeaseTests.all ++ RuntimeTests.all ++
  SchedulerTests.all ++ EndpointTests.all.

Example data_tests_pass : Forall (λ t : test, passes t = true) data_tests.
Proof. repeat constructor. Qed.
