(* ===== verification/tests_machine.v ===== *)
(** * The unit tests of executions and virtual machines

    The tests of [execution.rs] and [virtual_machine.rs] as programs over the model. [now] is what
    [SystemTime::now] returns in a test. The threads of a dispatch run in order, each in one step,
    but for the test whose transport waits at a barrier for the other threads, which runs the
    scope of [scoped.v] along given events. *)
From S2P Require Import prelude bytes time float identity uuid_demo resource node fabric scheduler.
From S2P Require Import lease runtime messages endpoint transport execution scoped virtual_machine.
From S2P Require Import testing tests_data.
From stdpp Require Import list.

(** [LogicalNode { id: Identity::new(Kind::LogicalNode).id, resources, runtime }] over the
    allocations of given cores. *)
Definition node_of `{UuidLib} (allocations : list (string * f64)) (runtime : RuntimeSpec.t)
    : prog nat LogicalNode.t :=
  resources ← unwrap (CompositeResource.compose
    ((λ '(participant_id, cores), Allocation.mk participant_id (cpu cores)) <$> allocations));
  id ← draw Kind.LogicalNode;
  mret (LogicalNode.mk (Identity.id id) resources runtime).

Module ExecutionTests.
Section tests.
Context `{UuidLib}.
Open Scope string_scope.

Definition node : prog nat LogicalNode.t :=
  a ← draw Kind.Participant;
  b ← draw Kind.Participant;
  node_of [(Identity.id a, f64_one); (Identity.id b, f64_two)] (RuntimeSpec.mk "recording" "1").

Definition plan_preserves_distribution : test :=
  let workload := Workload.mk "work-1" (vec [1; 2; 3]%N) in
  node ← node;
  plan ← unwrap (ExecutionPlan.from_node node workload);
  _ ← assert_eq (ExecutionPlan.workload_id plan) "work-1";
  _ ← assert_eq (ExecutionPlan.runtime plan) (RuntimeSpec.mk "recording" "1");
  _ ← assert_eq (length (ExecutionPlan.units plan)) 2;
  assert (f64_eqb (ResourceFragment.cores (ExecutionPlan.total_resources plan)) f64_three).

Definition empty_runtime_spec_is_rejected : test :=
  node ← node;
  let node := LogicalNode.set_runtime RuntimeSpec.default node in
  let workload := Workload.mk "work-1" [] in
  error ← unwrap_err (ExecutionPlan.from_node node workload);
  assert_eq error ExecutionError.InvalidRuntimeSpec.

Definition empty_workload_id_is_rejected : test :=
  let workload := Workload.mk "" [] in
  node ← node;
  error ← unwrap_err (ExecutionPlan.from_node node workload);
  assert_eq error ExecutionError.EmptyWorkloadId.

Definition invalid_participant_identity_is_rejected : test :=
  node ← node_of [("not-a-uuid", f64_one)] RuntimeSpec.default;
  let workload := Workload.mk "work-1" [] in
  error ← unwrap_err (ExecutionPlan.from_node node workload);
  assert_eq error ExecutionError.InvalidParticipantIdentity.

Definition backend_receives_plan_without_changing_distribution : test :=
  let workload := Workload.mk "work-1" (vec [1; 2; 3]%N) in
  node ← node;
  plan ← unwrap (ExecutionPlan.from_node node workload);
  '(receipt, _) ← local () (expect (plan_execute plan NoopBackend.mk workload));
  _ ← assert_eq (ExecutionReceipt.workload_id receipt) "work-1";
  _ ← assert_eq (ExecutionReceipt.node_id receipt) (ExecutionPlan.node_id plan);
  assert_eq (ExecutionReceipt.dispatched_units receipt) 2.

(** The transports of the tests. *)
Inductive StatusTransport := status_transport (status : ExecutionStatus.t).
#[local] Instance status_dispatch : Transport StatusTransport () :=
  λ '(status_transport status) request,
  mret {| ExecutionResponse.request_id := ExecutionRequest.request_id request;
          ExecutionResponse.status := status;
          ExecutionResponse.error := None |}.

Inductive IdentityCheckingTransport := identity_checking (caller : Identity.t).
#[local] Instance identity_checking_dispatch : Transport IdentityCheckingTransport () :=
  λ '(identity_checking caller) request,
  if bool_decide (ExecutionRequest.source_participant_id request = Some caller)
  then mret (ExecutionResponse.completed (ExecutionRequest.request_id request))
  else λ w, (Panic, w).

Inductive MismatchedResponseTransport := mismatched_response.
#[local] Instance mismatched_dispatch : Transport MismatchedResponseTransport () := λ _ request,
  mret {| ExecutionResponse.request_id :=
            Workload.id (ExecutionRequest.workload request) +:+ ":unexpected";
          ExecutionResponse.status := ExecutionStatus.Completed;
          ExecutionResponse.error := None |}.

Definition dispatcher_with_status (node : LogicalNode.t) (status : ExecutionStatus.t)
    : prog nat (ExecutionDispatcher.t StatusTransport) :=
  endpoints ← map_all (λ allocation,
    participant_id ← unwrap (Identity.parse (Allocation.participant_id allocation) Kind.Participant);
    unwrap (ExecutionEndpoint.new participant_id "loopback://participant"))
    (CompositeResource.allocations (LogicalNode.resources node));
  mret (ExecutionDispatcher.new (status_transport status) endpoints).

Definition dispatcher_propagates_source_participant_identity : test :=
  let workload := Workload.mk "identity-propagation" [] in
  plan_node ← node;
  plan ← unwrap (ExecutionPlan.from_node plan_node workload);
  endpoints ← map_all (λ unit, unwrap (ExecutionEndpoint.new (ExecutionUnit.participant_id unit)
    "loopback://participant")) (ExecutionPlan.units plan);
  caller ← draw Kind.Participant;
  let dispatcher :=
    ExecutionDispatcher.with_identity caller (identity_checking caller) endpoints in
  '(receipt, _) ← local () (expect (ExecutionDispatcher.dispatch dispatcher plan workload));
  assert_eq (DispatchReceipt.dispatched_units receipt) (length (ExecutionPlan.units plan)).

Definition dispatcher_accepts_non_terminal_execution_statuses : test :=
  let workload := Workload.mk "work-1" [] in
  plan_node ← node;
  plan ← unwrap (ExecutionPlan.from_node plan_node workload);
  for_each [ExecutionStatus.Dispatched; ExecutionStatus.Running; ExecutionStatus.Completed]
    (λ status,
      dispatcher ← dispatcher_with_status plan_node status;
      '(receipt, _) ← local () (expect (ExecutionDispatcher.dispatch dispatcher plan workload));
      assert_eq (DispatchReceipt.dispatched_units receipt) 2).

Definition dispatcher_rejects_non_success_execution_statuses : test :=
  let workload := Workload.mk "work-1" [] in
  plan_node ← node;
  plan ← unwrap (ExecutionPlan.from_node plan_node workload);
  for_each [ExecutionStatus.Pending; ExecutionStatus.Failed; ExecutionStatus.Cancelled]
    (λ status,
      dispatcher ← dispatcher_with_status plan_node status;
      '(error, _) ← local () (expect_err (ExecutionDispatcher.dispatch dispatcher plan workload));
      assert_eq error ExecutionError.BackendRejected).

Definition dispatcher_rejects_response_id_mismatch : test :=
  let workload := Workload.mk "work-1" [] in
  plan_node ← node;
  plan ← unwrap (ExecutionPlan.from_node plan_node workload);
  dispatcher ← dispatcher_with_status plan_node ExecutionStatus.Completed;
  let dispatcher :=
    ExecutionDispatcher.new mismatched_response (ExecutionDispatcher.endpoints dispatcher) in
  '(error, _) ← local () (expect_err (ExecutionDispatcher.dispatch dispatcher plan workload));
  assert_eq error ExecutionError.BackendRejected.

(** [BlockingTransport]: the threads of the dispatch, which meet at a barrier for [n]. *)
Definition blocking_thread (n : nat) (request : ExecutionRequest.t)
    : waiter (result TransportError.t ExecutionResponse.t) :=
  meeting n (Ok (ExecutionResponse.completed (ExecutionRequest.request_id request))).

(** Both threads arrive before either leaves; [es] is the order of the events. *)
Definition dispatcher_dispatches_units_concurrently (es : list Scope.event) : test :=
  let workload := Workload.mk "work-concurrent" [] in
  plan_node ← node;
  plan ← unwrap (ExecutionPlan.from_node plan_node workload);
  dispatcher ← dispatcher_with_status plan_node ExecutionStatus.Completed;
  result ← unwrap (ok_or
    (dispatch_run dispatcher (blocking_thread (length (ExecutionPlan.units plan))) es plan workload
       0) ());
  receipt ← unwrap result.1;
  assert_eq (DispatchReceipt.dispatched_units receipt) 2.

Definition spawn_first : list Scope.event :=
  [Scope.Main; Scope.Main; Scope.Main; Scope.Run 0; Scope.Run 1; Scope.Run 0; Scope.Main;
   Scope.Run 1; Scope.Main; Scope.Main].

Definition backend_rejects_mismatched_workload : test :=
  let workload := Workload.mk "work-1" [] in
  let other := Workload.mk "work-2" [] in
  node ← node;
  plan ← unwrap (ExecutionPlan.from_node node workload);
  '(error, _) ← local () (expect_err (plan_execute plan NoopBackend.mk other));
  assert_eq error ExecutionError.WorkloadMismatch.

Definition all : list test := [
  plan_preserves_distribution; empty_runtime_spec_is_rejected; empty_workload_id_is_rejected;
  invalid_participant_identity_is_rejected; backend_receives_plan_without_changing_distribution;
  dispatcher_propagates_source_participant_identity;
  dispatcher_accepts_non_terminal_execution_statuses;
  dispatcher_dispatches_units_concurrently demo_events;
  dispatcher_dispatches_units_concurrently spawn_first;
  dispatcher_rejects_non_success_execution_statuses; dispatcher_rejects_response_id_mismatch;
  backend_rejects_mismatched_workload].
End tests.
End ExecutionTests.

Module VirtualMachineTests.
Section tests.
Context `{UuidLib} (now : SystemTime).
Open Scope string_scope.

Definition node : prog nat LogicalNode.t :=
  participant ← draw Kind.Participant;
  node_of [(Identity.id participant, f64_two)] (RuntimeSpec.new "wasm" "1").

(** The participant of the first allocation, and a lease on it for a minute. *)
Definition first_participant (node : LogicalNode.t) : prog nat Identity.t :=
  allocation ← index (CompositeResource.allocations (LogicalNode.resources node)) 0;
  unwrap (Identity.parse (Allocation.participant_id allocation) Kind.Participant).
Definition lease_on_first (node : LogicalNode.t) (lease_id node_id participant_id : Identity.t)
    (created_at : SystemTime) : prog nat Lease.t :=
  allocation ← index (CompositeResource.allocations (LogicalNode.resources node)) 0;
  expires_at ← after created_at 60;
  unwrap (Lease.new lease_id node_id participant_id (Allocation.resources allocation) created_at
    expires_at).

(** [from_node(..).unwrap()] and [start().unwrap()] on it. *)
Definition started_vm (node : LogicalNode.t) : prog nat VirtualMachine.t :=
  vm ← expect (VirtualMachine.from_node node now);
  '(_, vm) ← local vm (expect VirtualMachine.start);
  mret vm.

Definition vm_binds_to_matching_leases : test :=
  node ← node;
  created_at ← after SystemTime.UNIX_EPOCH 100;
  participant_id ← first_participant node;
  node_id ← unwrap (Identity.parse (LogicalNode.id node) Kind.LogicalNode);
  lease_id ← draw Kind.Lease;
  lease ← lease_on_first node lease_id node_id participant_id created_at;
  vm ← expect (VirtualMachine.from_leased_node node [lease] created_at);
  _ ← assert_eq (length (VirtualMachine.leases vm)) 1;
  assert_eq (VirtualMachine.state vm) VirtualMachineState.Created.

Definition vm_rejects_lease_for_different_node : test :=
  node ← node;
  created_at ← after SystemTime.UNIX_EPOCH 100;
  lease_id ← draw Kind.Lease;
  node_id ← draw Kind.LogicalNode;
  participant_id ← first_participant node;
  lease ← lease_on_first node lease_id node_id participant_id created_at;
  error ← expect_err (VirtualMachine.from_leased_node node [lease] created_at);
  assert_eq error VirtualMachineError.LeaseNodeMismatch.

Definition vm_rejects_expired_lease_at_execution_time : test :=
  node ← node;
  created_at ← after SystemTime.UNIX_EPOCH 100;
  participant_id ← first_participant node;
  node_id ← unwrap (Identity.parse (LogicalNode.id node) Kind.LogicalNode);
  lease_id ← draw Kind.Lease;
  lease ← lease_on_first node lease_id node_id participant_id created_at;
  vm ← expect (VirtualMachine.from_leased_node node [lease] created_at);
  '(_, vm) ← local vm (expect VirtualMachine.start);
  let workload := Workload.mk "work-lease-expired" [] in
  expired ← after created_at 60;
  '(error, (vm, _)) ← local (vm, ())
    (expect_err (VirtualMachine.execute_at node workload NoopBackend.mk expired));
  _ ← assert_eq error VirtualMachineError.LeaseExpired;
  assert_eq (VirtualMachine.state vm) VirtualMachineState.Running.

Definition vm_maps_logical_node_resources_and_runtime : test :=
  let created_at := now in
  node ← node;
  vm ← expect (VirtualMachine.from_node node created_at);
  _ ← assert_eq (Identity.kind (VirtualMachine.node_id vm)) Kind.LogicalNode;
  _ ← assert (f64_eqb (ResourceFragment.cores
                (VirtualMachineSpec.resources (VirtualMachine.spec vm))) f64_two);
  _ ← assert_eq (VirtualMachineSpec.runtime (VirtualMachine.spec vm)) (RuntimeSpec.new "wasm" "1");
  _ ← assert_eq (VirtualMachine.state vm) VirtualMachineState.Created;
  assert_eq (VirtualMachine.created_at vm) created_at.

Definition vm_has_distinct_identity_from_logical_node : test :=
  node ← node;
  vm ← expect (VirtualMachine.from_node node now);
  _ ← assert (bool_decide (Identity.id (VirtualMachine.id vm) ≠ LogicalNode.id node));
  assert_eq (Identity.kind (VirtualMachine.id vm)) Kind.VirtualMachine.

Definition vm_rejects_invalid_runtime : test :=
  node ← node;
  let node := LogicalNode.set_runtime RuntimeSpec.default node in
  error ← expect_err (VirtualMachine.from_node node now);
  assert_eq error (VirtualMachineError.InvalidRuntime NodeError.EmptyRuntimeName).

Definition running_vm_executes_workload_through_existing_backend : test :=
  node ← node;
  vm ← started_vm node;
  let workload := Workload.mk "work-1" (vec [1; 2; 3]%N) in
  '(receipt, (vm, _)) ← local (vm, ())
    (expect (VirtualMachine.execute now node workload NoopBackend.mk));
  _ ← assert_eq (ExecutionReceipt.workload_id receipt) (Workload.id workload);
  _ ← assert_eq (ExecutionReceipt.node_id receipt) (VirtualMachine.node_id vm);
  _ ← assert_eq (ExecutionReceipt.dispatched_units receipt) 1;
  assert_eq (VirtualMachine.state vm) VirtualMachineState.Running.

(** A runtime named ["wasm"], a registry with it, and an endpoint over that registry. *)
Definition wasm {W} (run : op W RuntimeError.t ()) : Runtime.t W :=
  {| Runtime.name := "wasm"; Runtime.run _ _ := run |}.
Definition registry_with {W} (runtime : Runtime.t W) : prog nat (RuntimeRegistry.t W) :=
  '(_, registry) ← local RuntimeRegistry.new
    (expect (RuntimeRegistry.register (RuntimeSpec.new "wasm" "1") runtime));
  mret registry.
Definition endpoint_over {W} (registry : RuntimeRegistry.t W) (participant_id : Identity.t)
    : prog nat (ExecutionHandler.t W) :=
  endpoint ← unwrap (ParticipantExecutionEndpoint.new participant_id
    (RegistryRuntimeAdapter.mk registry));
  mret (ParticipantExecutionEndpoint.handler endpoint).
Definition register_all {W} (endpoints : list (ExecutionHandler.t W))
    : prog nat (EndpointTransport.t W) :=
  '(_, transport) ← local EndpointTransport.new
    (for_each endpoints (λ endpoint, expect (EndpointTransport.register endpoint)));
  mret transport.

Definition running_vm_dispatches_through_endpoint_transport_and_runtime_registry : test :=
  node ← node;
  participant_id ← first_participant node;
  registry ← registry_with (W := ()) (wasm (mret ()));
  endpoint ← endpoint_over registry participant_id;
  transport ← register_all [endpoint];
  locator ← unwrap (ExecutionEndpoint.new participant_id "loopback://participant-1");
  let dispatcher := ExecutionDispatcher.new transport [locator] in
  let workload := Workload.mk "work-1" (vec [1; 2; 3]%N) in
  vm ← started_vm node;
  '(receipt, (vm, _)) ← local (vm, ())
    (expect (VirtualMachine.execute now node workload dispatcher));
  _ ← assert_eq (ExecutionReceipt.workload_id receipt) (Workload.id workload);
  _ ← assert_eq (ExecutionReceipt.dispatched_units receipt) 1;
  assert_eq (VirtualMachine.state vm) VirtualMachineState.Running.

(** Two participants with endpoints over the same registry, and a node over both. *)
Definition two_participants {W} (runtime : Runtime.t W) (cores_a cores_b : f64)
    : prog nat (LogicalNode.t * ExecutionDispatcher.t (EndpointTransport.t W)) :=
  participant_a ← draw Kind.Participant;
  participant_b ← draw Kind.Participant;
  node ← node_of [(Identity.id participant_a, cores_a); (Identity.id participant_b, cores_b)]
    (RuntimeSpec.new "wasm" "1");
  registry ← registry_with runtime;
  endpoint_a ← endpoint_over registry participant_a;
  endpoint_b ← endpoint_over registry participant_b;
  transport ← register_all [endpoint_a; endpoint_b];
  locator_a ← unwrap (ExecutionEndpoint.new participant_a "loopback://participant-a");
  locator_b ← unwrap (ExecutionEndpoint.new participant_b "loopback://participant-b");
  mret (node, ExecutionDispatcher.new transport [locator_a; locator_b]).

(** [CountingRuntime], with its counter as the world. *)
Definition counting_runtime : Runtime.t nat := wasm (modify S).

Definition running_vm_dispatches_to_all_participants : test :=
  '(node, dispatcher) ← two_participants counting_runtime f64_one f64_two;
  let workload := Workload.mk "work-distributed" (vec [1; 2; 3]%N) in
  vm ← started_vm node;
  '(receipt, (vm, calls)) ← local (vm, 0)
    (expect (VirtualMachine.execute now node workload dispatcher));
  _ ← assert_eq (ExecutionReceipt.dispatched_units receipt) 2;
  _ ← assert_eq calls 2;
  assert_eq (VirtualMachine.state vm) VirtualMachineState.Running.

Definition failing_runtime : Runtime.t () := wasm (fail RuntimeError.ExecutionFailed).

Definition vm_fails_when_one_participant_execution_fails : test :=
  '(node, dispatcher) ← two_participants failing_runtime f64_one f64_one;
  let workload := Workload.mk "work-failing" (vec [1; 2; 3]%N) in
  vm ← started_vm node;
  '(error, (vm, _)) ← local (vm, ())
    (expect_err (VirtualMachine.execute now node workload dispatcher));
  _ ← assert_eq error (VirtualMachineError.Execution ExecutionError.BackendRejected);
  assert_eq (VirtualMachine.state vm) VirtualMachineState.Failed.

Definition created_vm_cannot_execute : test :=
  node ← node;
  vm ← expect (VirtualMachine.from_node node now);
  let workload := Workload.mk "work-1" [] in
  '(error, _) ← local (vm, ())
    (expect_err (VirtualMachine.execute now node workload NoopBackend.mk));
  assert_eq error VirtualMachineError.NotRunning.

Definition vm_lifecycle_is_explicit : test :=
  node ← node;
  vm ← expect (VirtualMachine.from_node node now);
  '(_, vm) ← local vm (expect VirtualMachine.start);
  _ ← assert_eq (VirtualMachine.state vm) VirtualMachineState.Running;
  '(_, vm) ← local vm (expect VirtualMachine.stop);
  _ ← assert_eq (VirtualMachine.state vm) VirtualMachineState.Stopped;
  assert (is_err (VirtualMachine.start vm).1).

Definition vm_rejects_empty_resources : test :=
  node ← node;
  let resources := LogicalNode.resources node in
  let node := {|
    LogicalNode.id := LogicalNode.id node;
    LogicalNode.resources := {|
      CompositeResource.capacity := ResourceFragment.default;
      CompositeResource.allocations := CompositeResource.allocations resources |};
    LogicalNode.runtime := LogicalNode.runtime node |} in
  error ← expect_err (VirtualMachine.from_node node now);
  assert_eq error VirtualMachineError.EmptyResources.

Definition all : list test := [
  vm_binds_to_matching_leases; vm_rejects_lease_for_different_node;
  vm_rejects_expired_lease_at_execution_time; vm_maps_logical_node_resources_and_runtime;
  vm_has_distinct_identity_from_logical_node; vm_rejects_invalid_runtime;
  running_vm_executes_workload_through_existing_backend;
  running_vm_dispatches_through_endpoint_transport_and_runtime_registry;
  running_vm_dispatches_to_all_participants; vm_fails_when_one_participant_execution_fails;
  created_vm_cannot_execute; vm_lifecycle_is_explicit; vm_rejects_empty_resources].
End tests.
End VirtualMachineTests.

(** All of them. *)
Definition machine_tests `{UuidLib} (now : SystemTime) : list test :=
  ExecutionTests.all ++ VirtualMachineTests.all now.

(** They pass whenever they run: only the times after the epoch are compared. *)
Lemma machine_tests_pass (nanos : positive) :
  Forall (λ t : test, passes t = true) (machine_tests (Z.pos nanos)).
Proof.
  repeat constructor. vm_compute. match goal with |- context [?same nanos nanos] =>
    destruct (same nanos nanos) as [|Hne]; [reflexivity|by destruct Hne]
  end.
Qed.
