(* ===== verification/tests_control.v ===== *)
(** * The unit tests of the control plane

    The tests of [control.rs] as programs on a plane over an aggregating scheduler. [created_at]
    and [now] are what the clock returns when the machine is made and when it runs. Where the code
    spawns threads around a backend that blocks, the execution is advanced section by section and
    the lookup happens at the points at which the other thread can run. *)
From S2P Require Import prelude bytes time float identity uuid_demo resource capability node fabric.
From S2P Require Import participant registry discovery scheduler lease runtime messages endpoint.
From S2P Require Import transport execution virtual_machine control control_laws control_spec.
From S2P Require Import control_types control_steps control_demo testing.
From stdpp Require Import list.

Module ControlTests.
Section tests.
Context `{UuidLib} (created_at now : SystemTime).
Open Scope string_scope.

Abbreviation plane_t := (Plane.t MemoryRegistry.t ()).
Abbreviation on_plane A := (prog plane_t A).

(** [plane()]. *)
Definition plane : prog nat plane_t :=
  discovery ← unwrap (MemoryRegistry.new
    (FreshnessPolicy.mk (Duration.from_secs 60) (Duration.from_secs 120)));
  draws ← gets (λ n, n);
  mret (Plane.new Registry.new discovery () draws).

(** A test that begins with [let plane = plane();]. *)
Definition with_plane (body : on_plane ()) : test :=
  plane ← plane;
  '(_, _) ← local plane body;
  mret ().

Definition two_cores : Capability.t := {|
  Capability.compute := ComputeCapability.mk f64_two 0;
  Capability.memory := MemoryCapability.mk 0;
  Capability.storage := StorageCapability.mk 0;
  Capability.network := NetworkCapability.mk 0;
  Capability.reliability := Reliability.mk f64_one;
  Capability.latency := Latency.mk 1000000;
  Capability.lifetime := Lifetime.mk None;
  Capability.security := Security.mk true;
|}.

(** [active_participant()]: the [Arc] it returns. *)
Definition active_participant : on_plane nat :=
  id ← Plane.drawing (draw Kind.Participant);
  joined ← after SystemTime.UNIX_EPOCH 1;
  participant ← unwrap (Participant.new id two_cores (cpu f64_two) joined);
  arc ← Plane.on_registry (Registry.share participant);
  activated ← after SystemTime.UNIX_EPOCH 2;
  _ ← expect (Plane.on_registry (Registry.call arc (Participant.activate activated)));
  mret arc.

(** [plane.register_participant(active_participant()).unwrap()] and the creation of a machine with
    one core for a minute. *)
Definition registered : on_plane () :=
  participant ← active_participant;
  expect (Plane.register_participant participant).
Definition leased_vm (created_at : SystemTime) : on_plane (VirtualMachine.t * list Lease.t) :=
  expect (Plane.create_leased_virtual_machine (cpu f64_one) (RuntimeSpec.new "wasm" "1") created_at
    (Duration.from_secs 60)).

(** [plane.get_lease(..)] and [plane.get_virtual_machine(..)] as programs. *)
Definition lookup {A} (f : plane_t → A) : on_plane A := gets f.

Definition assert_state (id : Identity.t) (state : VirtualMachineState.t) : on_plane () :=
  found ← lookup (Plane.get_virtual_machine id);
  vm ← unwrap found;
  assert_eq (VirtualMachine.state vm) state.

(** [plane.execute_virtual_machine(&vm.id, &workload, &backend)]. *)
Definition execute {B W} `{ExecutionBackend B W} (w : W) (id : Identity.t) (workload : WorkItem)
    (backend : B) : op plane_t ControlError.t ExecutionReceipt.t := λ self,
  let '(r, (self, _)) := Plane.execute_virtual_machine now id workload backend (self, w) in (r, self).

Definition control_plane_creates_vm_from_owned_leases : test := with_plane (
  _ ← registered;
  '(vm, leases) ← leased_vm created_at;
  _ ← assert_eq (VirtualMachine.leases vm) leases;
  _ ← assert_eq (Identity.kind (VirtualMachine.node_id vm)) Kind.LogicalNode;
  for_each leases (λ lease,
    found ← lookup (Plane.get_lease (Lease.id lease));
    got ← unwrap found;
    assert_eq got lease)).

Definition control_plane_owns_virtual_machine_lifecycle : test := with_plane (
  _ ← registered;
  '(vm, leases) ← leased_vm created_at;
  let id := VirtualMachine.id vm in
  found ← lookup (Plane.get_virtual_machine id);
  got ← unwrap found;
  _ ← assert_eq got vm;
  started ← expect (Plane.start_virtual_machine id);
  _ ← assert_eq (VirtualMachine.state started) VirtualMachineState.Running;
  _ ← assert_state id VirtualMachineState.Running;
  stopped ← expect (Plane.stop_virtual_machine id);
  _ ← assert_eq (VirtualMachine.state stopped) VirtualMachineState.Stopped;
  destroyed ← expect (Plane.destroy_virtual_machine id);
  _ ← assert_eq (VirtualMachine.id destroyed) id;
  found ← lookup (Plane.get_virtual_machine id);
  error ← unwrap_err found;
  _ ← assert_eq error ControlError.VirtualMachineNotFound;
  for_each leases (λ lease,
    found ← lookup (Plane.get_lease (Lease.id lease));
    error ← unwrap_err found;
    assert_eq error ControlError.LeaseNotFound)).

(** What the tests of an execution check of its receipt. *)
Definition assert_receipt (receipt : ExecutionReceipt.t) (workload : WorkItem)
    (vm : VirtualMachine.t) : on_plane () :=
  _ ← assert_eq (ExecutionReceipt.workload_id receipt) (Workload.id workload);
  _ ← assert_eq (ExecutionReceipt.node_id receipt) (VirtualMachine.node_id vm);
  _ ← assert_eq (ExecutionReceipt.dispatched_units receipt) 1;
  assert_state (VirtualMachine.id vm) VirtualMachineState.Running.

Definition control_plane_executes_workload_through_owned_vm : test := with_plane (
  _ ← registered;
  '(vm, _) ← leased_vm created_at;
  _ ← expect (Plane.start_virtual_machine (VirtualMachine.id vm));
  let workload := Workload.mk "control-plane-workload" (vec [1; 2; 3]%N) in
  receipt ← expect (execute () (VirtualMachine.id vm) workload NoopBackend.mk);
  assert_receipt receipt workload vm).

(** [BlockingBackend]: its world is the counter of the UUIDs it draws. *)
Inductive BlockingBackend := blocking_backend.
#[local] Instance blocking : ExecutionBackend BlockingBackend nat := λ _ _ workload,
  node_id ← draw Kind.LogicalNode;
  mret {| ExecutionReceipt.workload_id := Workload.id workload;
          ExecutionReceipt.node_id := node_id;
          ExecutionReceipt.dispatched_units := 1 |}.

(** An execution in a thread of its own, for [n] of its sections. The third one is the run of the
    backend, which takes no lock: a backend that has been called and is blocked has not ended it, so
    what other threads then find is the plane after the second. *)
Definition advance (n : nat) (th : Thread.t) : on_plane Thread.t := λ self,
  let '(th, (self, _)) := Thread.alone blocking_backend now n th (self, 0) in (Ok th, self).
Definition joined (th : Thread.t) : on_plane ExecutionReceipt.t :=
  match th with
  | Thread.Finished (Ok (Value.Receipt receipt)) => mret receipt
  | _ => panic
  end.

(** What the lookup thread finds. *)
Definition assert_visible (vm : VirtualMachine.t) : on_plane () :=
  found ← lookup (Plane.get_virtual_machine (VirtualMachine.id vm));
  visible_vm ← unwrap found;
  _ ← assert_eq (VirtualMachine.id visible_vm) (VirtualMachine.id vm);
  assert_eq (VirtualMachine.state visible_vm) VirtualMachineState.Running.

Definition control_plane_lookup_does_not_wait_for_execution : test := with_plane (
  _ ← registered;
  '(vm, _) ← leased_vm created_at;
  _ ← expect (Plane.start_virtual_machine (VirtualMachine.id vm));
  let workload := Workload.mk "lookup-during-execution" [] in
  th ← advance 2 (Thread.Called (Call.Execute (VirtualMachine.id vm) workload));
  _ ← assert_visible vm;
  th ← advance 2 th;
  receipt ← joined th;
  mret ()).

(** The lookup thread runs after [n] further sections of the execution. *)
Definition control_plane_vm_remains_visible_during_execution (n : nat) : test := with_plane (
  _ ← registered;
  '(vm, _) ← leased_vm created_at;
  _ ← expect (Plane.start_virtual_machine (VirtualMachine.id vm));
  let workload := Workload.mk "concurrent-workload" [] in
  th ← advance 2 (Thread.Called (Call.Execute (VirtualMachine.id vm) workload));
  th ← advance n th;
  _ ← assert_visible vm;
  th ← advance (2 - n) th;
  receipt ← joined th;
  assert_eq (ExecutionReceipt.workload_id receipt) "concurrent-workload").

Definition control_plane_vm_survives_fabric_resource_change : test := with_plane (
  participant ← active_participant;
  snapshot ← expect (Plane.on_registry
    (Registry.call (E := RegistryError.t) participant (gets Participant.snapshot)));
  let participant_id := Participant.id snapshot in
  _ ← expect (Plane.register_participant participant);
  '(vm, leases) ← leased_vm created_at;
  _ ← expect (Plane.start_virtual_machine (VirtualMachine.id vm));
  _ ← expect (Plane.on_registry (Registry.remove participant_id));
  let workload := Workload.mk "fabric-changed-workload" (vec [7; 8; 9]%N) in
  receipt ← expect (execute () (VirtualMachine.id vm) workload NoopBackend.mk);
  _ ← assert_receipt receipt workload vm;
  first ← index leases 0;
  found ← lookup (Plane.get_lease (Lease.id first));
  lease ← unwrap found;
  assert_eq lease first).

Definition control_plane_execution_rejects_stopped_vm : test := with_plane (
  _ ← registered;
  created_at ← after SystemTime.UNIX_EPOCH 100;
  '(vm, _) ← leased_vm created_at;
  let workload := Workload.mk "stopped-workload" [] in
  error ← expect_err (execute () (VirtualMachine.id vm) workload NoopBackend.mk);
  assert_eq error (ControlError.VirtualMachine VirtualMachineError.NotRunning)).

Inductive FailingBackend := failing_backend.
#[local] Instance failing : ExecutionBackend FailingBackend () :=
  λ _ _ _, fail ExecutionError.BackendRejected.

Definition control_plane_execution_marks_vm_failed_on_backend_error : test := with_plane (
  _ ← registered;
  '(vm, _) ← leased_vm created_at;
  _ ← expect (Plane.start_virtual_machine (VirtualMachine.id vm));
  let workload := Workload.mk "failed-workload" [] in
  error ← expect_err (execute () (VirtualMachine.id vm) workload failing_backend);
  _ ← assert_eq error
    (ControlError.VirtualMachine (VirtualMachineError.Execution ExecutionError.BackendRejected));
  assert_state (VirtualMachine.id vm) VirtualMachineState.Failed).

Definition control_plane_releases_leases : test := with_plane (
  _ ← registered;
  created_at ← after SystemTime.UNIX_EPOCH 100;
  '(_, leases) ← leased_vm created_at;
  _ ← expect (Plane.release_leases leases);
  for_each leases (λ lease,
    found ← lookup (Plane.get_lease (Lease.id lease));
    error ← unwrap_err found;
    assert_eq error ControlError.LeaseNotFound)).

Definition all : list test := [
  control_plane_creates_vm_from_owned_leases; control_plane_owns_virtual_machine_lifecycle;
  control_plane_executes_workload_through_owned_vm;
  control_plane_lookup_does_not_wait_for_execution] ++
  (control_plane_vm_remains_visible_during_execution <$> seq 0 3) ++ [
  control_plane_vm_survives_fabric_resource_change; control_plane_execution_rejects_stopped_vm;
  control_plane_execution_marks_vm_failed_on_backend_error; control_plane_releases_leases].
End tests.
End ControlTests.

(** The times of the tests that lease a machine, and a second later. *)
Definition test_time : SystemTime := 1700000000000000000.
Definition test_later : SystemTime := 1700000001000000000.

Example control_tests_pass :
  Forall (λ t : test, passes t = true) (ControlTests.all test_time test_later).
Proof. repeat constructor. Qed.
