(* ===== verification/tests_transport.v ===== *)
(** * The unit tests of the transports

    The tests of [transport.rs] as programs. The network of a test is the list of its servers by
    their addresses; its world is the list of what the servers returned, in the order in which they
    were called. The tests over TLS, which generate certificates with rcgen and let rustls judge
    them, have no counterpart. *)
From S2P Require Import prelude bytes time float identity uuid_demo resource node fabric scheduler.
From S2P Require Import lease runtime messages endpoint transport codec codec_laws server.
From S2P Require Import execution virtual_machine pool testing tests_data tests_machine.
From stdpp Require Import list.

Abbreviation unit_id r := (ExecutionUnit.participant_id (ExecutionRequest.unit r)).
Abbreviation locator r := (ExecutionEndpoint.locator (ExecutionRequest.endpoint r)).

Module TransportTests.
Section tests.
Context `{UuidLib}.
Open Scope string_scope.

Definition request : prog nat ExecutionRequest.t :=
  participant_id ← draw Kind.Participant;
  node_id ← draw Kind.LogicalNode;
  endpoint ← unwrap (ExecutionEndpoint.new participant_id "loopback://participant-1");
  mret {|
    ExecutionRequest.request_id := "request-1";
    ExecutionRequest.source_participant_id := None;
    ExecutionRequest.workload := Workload.mk "work-1" (vec [1; 2; 3]%N);
    ExecutionRequest.node_id := node_id;
    ExecutionRequest.runtime := RuntimeSpec.mk "recording" "1";
    ExecutionRequest.unit := ExecutionUnit.mk participant_id (cpu f64_one);
    ExecutionRequest.endpoint := endpoint;
  |}.

(** [request] with some of its fields replaced. *)
Definition with_unit_and_endpoint (unit_id : Identity.t) (endpoint : ExecutionEndpoint.t)
    (r : ExecutionRequest.t) : ExecutionRequest.t := {|
  ExecutionRequest.request_id := ExecutionRequest.request_id r;
  ExecutionRequest.source_participant_id := ExecutionRequest.source_participant_id r;
  ExecutionRequest.workload := ExecutionRequest.workload r;
  ExecutionRequest.node_id := ExecutionRequest.node_id r;
  ExecutionRequest.runtime := ExecutionRequest.runtime r;
  ExecutionRequest.unit :=
    ExecutionUnit.mk unit_id (ExecutionUnit.resources (ExecutionRequest.unit r));
  ExecutionRequest.endpoint := endpoint;
|}.
Definition with_id_and_runtime (request_id : string) (runtime : RuntimeSpec.t)
    (r : ExecutionRequest.t) : ExecutionRequest.t := {|
  ExecutionRequest.request_id := request_id;
  ExecutionRequest.source_participant_id := ExecutionRequest.source_participant_id r;
  ExecutionRequest.workload := ExecutionRequest.workload r;
  ExecutionRequest.node_id := ExecutionRequest.node_id r;
  ExecutionRequest.runtime := runtime;
  ExecutionRequest.unit := ExecutionRequest.unit r;
  ExecutionRequest.endpoint := ExecutionRequest.endpoint r;
|}.

(** ** In one process *)

Definition endpoint_rejects_non_participant_identity : test :=
  id ← draw Kind.LogicalNode;
  error ← unwrap_err (ExecutionEndpoint.new id "loopback://node");
  assert_eq error TransportError.InvalidEndpointIdentity.

Abbreviation loopback r := (dispatch (W := ()) LoopbackTransport.mk r).

Definition loopback_dispatch_preserves_request_identity : test :=
  request ← request;
  '(response, _) ← local () (expect (loopback request));
  _ ← assert_eq (ExecutionResponse.request_id response) (ExecutionRequest.request_id request);
  _ ← assert_eq (ExecutionResponse.status response) ExecutionStatus.Dispatched;
  assert_eq (ExecutionResponse.error response) None.

Definition loopback_rejects_endpoint_participant_mismatch : test :=
  request ← request;
  other ← draw Kind.Participant;
  let request := with_unit_and_endpoint (unit_id request)
    (ExecutionEndpoint.mk other (locator request)) request in
  '(error, _) ← local () (expect_err (loopback request));
  assert_eq error TransportError.InvalidParticipantIdentity.

Definition loopback_rejects_invalid_runtime_spec : test :=
  request ← request;
  let runtime := RuntimeSpec.mk (RuntimeSpec.name (ExecutionRequest.runtime request)) "" in
  let request := with_id_and_runtime (ExecutionRequest.request_id request) runtime request in
  '(error, _) ← local () (expect_err (loopback request));
  assert_eq error TransportError.InvalidRuntimeSpec.

(** An endpoint whose executor does nothing. *)
Definition noop_endpoint {W} (participant_id : Identity.t) : prog nat (ExecutionHandler.t W) :=
  endpoint ← unwrap (ParticipantExecutionEndpoint.new participant_id NoopParticipantExecutor.mk);
  mret (ParticipantExecutionEndpoint.handler endpoint).

Abbreviation endpoints := (EndpointTransport.t ()).

Definition endpoint_transport_dispatches_to_registered_endpoint : test :=
  participant_id ← draw Kind.Participant;
  endpoint ← noop_endpoint participant_id;
  '(_, transport) ← local (EndpointTransport.new : endpoints)
    (expect (EndpointTransport.register endpoint));
  request ← request;
  let request := with_unit_and_endpoint participant_id
    (ExecutionEndpoint.mk participant_id (locator request)) request in
  '(response, _) ← local () (expect (dispatch (transport : endpoints) request));
  _ ← assert_eq (ExecutionResponse.status response) ExecutionStatus.Completed;
  assert_eq (EndpointTransport.len transport) 1.

Definition endpoint_transport_rejects_missing_endpoint : test :=
  request ← request;
  '(error, _) ← local ()
    (expect_err (dispatch (EndpointTransport.new : endpoints) request));
  assert_eq error TransportError.EndpointUnavailable.

Definition endpoint_transport_rejects_duplicate_registration : test :=
  participant_id ← draw Kind.Participant;
  first ← noop_endpoint participant_id;
  second ← noop_endpoint participant_id;
  '(_, transport) ← local (EndpointTransport.new : endpoints)
    (expect (EndpointTransport.register first));
  '(error, _) ← local transport (expect_err (EndpointTransport.register second));
  assert_eq error TransportError.EndpointAlreadyRegistered.

Definition endpoint_transport_unregisters_endpoint : test :=
  participant_id ← draw Kind.Participant;
  endpoint ← noop_endpoint participant_id;
  '(_, transport) ← local (EndpointTransport.new : endpoints)
    (_ ← expect (EndpointTransport.register endpoint);
     expect (EndpointTransport.unregister participant_id));
  assert (EndpointTransport.is_empty transport).

Definition response_helpers_encode_terminal_states : test :=
  let completed := ExecutionResponse.completed "request-1" in
  _ ← assert_eq (ExecutionResponse.status completed) ExecutionStatus.Completed;
  _ ← assert_eq (ExecutionResponse.error completed) None;
  let failed := ExecutionResponse.failed "request-2" "execution failed" in
  _ ← assert_eq (ExecutionResponse.status failed) ExecutionStatus.Failed;
  assert_eq (ExecutionResponse.error failed) (Some "execution failed").

Definition in_process : list test := [
  endpoint_rejects_non_participant_identity; loopback_dispatch_preserves_request_identity;
  loopback_rejects_endpoint_participant_mismatch; loopback_rejects_invalid_runtime_spec;
  endpoint_transport_dispatches_to_registered_endpoint;
  endpoint_transport_rejects_missing_endpoint; endpoint_transport_rejects_duplicate_registration;
  endpoint_transport_unregisters_endpoint; response_helpers_encode_terminal_states].
End tests.
End TransportTests.

(** ** Over TCP *)

Module TcpTests.
Import TransportTests.
Section tests.
Context `{UuidLib} (debug_str : string → string).
Open Scope string_scope.

(** What the servers returned. *)
Abbreviation log := (list (result TransportError.t ())).

(** [serve_once] on a connection over which the client sends [input] once it is accepted: what the
    server sends back, and its outcome. *)
Definition serve_once (server : TcpEndpointServer.t log) (input : list u8) : log → list u8 * log :=
  λ w,
  let '(r, (s, w)) := handle_connection debug_str (Accepted.mk true (Ok None))
    (TcpEndpointServer.endpoint server) (TcpEndpointServer.tls_config server)
    (TcpEndpointServer.authorized_clients server) (Stream.mk input [] MAX_FRAME_SIZE, w) in
  (Stream.output s, (w ++ [r])%list).

(** The servers that listen, by their addresses; nothing listens anywhere else. *)
Abbreviation servers := (list (string * TcpEndpointServer.t log)).
Definition network (listening : servers) : Network string log := {|
  to_socket_addrs locator := Some [locator];
  connect_timeout address :=
    '(_, (_, server)) ← list_find (λ p, p.1 = address) listening;
    Some {| Connection.timeouts_set := true; Connection.room := MAX_FRAME_SIZE;
            Connection.peer := serve_once server |};
|}.

(** [TcpTransport::new().dispatch(request)] on that network. *)
Definition over (listening : servers) : Transport TcpTransport.t log :=
  let _ := network listening in TcpTransport.transport.
Definition tcp_dispatch (listening : servers) (request : ExecutionRequest.t)
    : op log TransportError.t ExecutionResponse.t := over listening TcpTransport.mk request.

(** [TcpEndpointServer::bind("127.0.0.1:0", endpoint).unwrap()]. *)
Definition bind (endpoint : ExecutionHandler.t log) : prog nat (TcpEndpointServer.t log) :=
  unwrap (TcpEndpointServer.bind true endpoint).
Definition noop_server (participant_id : Identity.t) : prog nat (TcpEndpointServer.t log) :=
  endpoint ← noop_endpoint participant_id;
  bind endpoint.

(** [request()] for a participant at an address. *)
Definition request_to (participant_id : Identity.t) (address : string)
    : prog nat ExecutionRequest.t :=
  request ← request;
  endpoint ← unwrap (ExecutionEndpoint.new participant_id address);
  mret (with_unit_and_endpoint participant_id endpoint request).

(** The address that [local_addr] returns. *)
Definition address : string := "127.0.0.1:40001".

Definition tcp_transport_executes_through_real_socket : test :=
  participant_id ← draw Kind.Participant;
  server ← noop_server participant_id;
  request ← request_to participant_id address;
  '(response, joined) ← local [] (expect (tcp_dispatch [(address, server)] request));
  _ ← assert_eq (ExecutionResponse.status response) ExecutionStatus.Completed;
  _ ← assert_eq (ExecutionResponse.error response) None;
  assert_eq joined [Ok ()].

(** The pool that runs in the server thread: it finds no connection [polls] times, and is then told
    to stop. *)
Definition shutdown_events (workers polls : nat) : list (Event.t Incoming.t) :=
  (concat (repeat [Event.Check_; Event.WouldBlock] polls) ++ [Event.Shutdown; Event.Check_] ++
   (Event.Exit <$> seq 0 workers) ++ [Event.Join])%list.
Definition serve_until (server : TcpEndpointServer.t log) (parallelism : option nat) (polls : nat)
    : prog nat () :=
  let workers := Pool.worker_count parallelism in
  '(pool, _) ← unwrap (ok_or (Pool.run (TcpEndpointServer.pool_handle debug_str server)
      (Pool.queue_capacity workers) (shutdown_events workers polls) (Pool.start workers, [])) ());
  match Pool.acceptor pool with
  | Acceptor.Returned r => unwrap (Pool.serve_until true true r)
  | _ => panic
  end.

Definition tcp_server_shuts_down_cleanly_and_restores_listener_mode (parallelism : option nat)
    (polls : nat) : test :=
  participant_id ← draw Kind.Participant;
  server ← noop_server participant_id;
  _ ← serve_until server parallelism polls;
  request ← request_to participant_id address;
  '(response, joined) ← local [] (expect (tcp_dispatch [(address, server)] request));
  _ ← assert_eq (ExecutionResponse.status response) ExecutionStatus.Completed;
  assert_eq joined [Ok ()].

(** [serve_n(2)] and the two client threads, in either order. *)
Definition tcp_server_handles_concurrent_connections (first_is_first : bool) : test :=
  participant_id ← draw Kind.Participant;
  server ← noop_server participant_id;
  request ← request_to participant_id address;
  let runtime := ExecutionRequest.runtime request in
  let first := with_id_and_runtime "concurrent-1" runtime request in
  let second := with_id_and_runtime "concurrent-2" runtime first in
  let send r := expect (tcp_dispatch [(address, server)] r) in
  '((first_response, second_response), joined) ← local []
    (if first_is_first
     then a ← send first; b ← send second; mret (a, b)
     else b ← send second; a ← send first; mret (a, b));
  _ ← unwrap (TcpEndpointServer.join_all joined);
  _ ← assert_eq (length joined) 2;
  _ ← assert_eq (ExecutionResponse.request_id first_response) "concurrent-1";
  _ ← assert_eq (ExecutionResponse.request_id second_response) "concurrent-2";
  _ ← assert_eq (ExecutionResponse.status first_response) ExecutionStatus.Completed;
  assert_eq (ExecutionResponse.status second_response) ExecutionStatus.Completed.

(** [MismatchedHandler]. *)
Definition mismatched_handler (participant_id : Identity.t) : ExecutionHandler.t log := {|
  ExecutionHandler.participant_id := participant_id;
  ExecutionHandler.handle_request request :=
    mret (ExecutionResponse.completed (ExecutionRequest.request_id request +:+ "-wrong"));
|}.

Definition tcp_transport_rejects_response_id_mismatch : test :=
  participant_id ← draw Kind.Participant;
  server ← bind (mismatched_handler participant_id);
  request ← request_to participant_id address;
  '(error, joined) ← local [] (expect_err (tcp_dispatch [(address, server)] request));
  _ ← assert_eq error TransportError.ResponseIdMismatch;
  assert_eq joined [Ok ()].

(** [PROTOCOL_VERSION + 1], and a peer that sends one frame. *)
Definition next_version : u8 := Ascii.ascii_of_N (Ascii.N_of_ascii PROTOCOL_VERSION + 1).
Definition frame_of (payload : list u8) : prog nat (list u8) :=
  '(_, stream) ← local (Stream.mk [] [] MAX_FRAME_SIZE) (expect (write_frame payload));
  mret (Stream.output stream).
Definition read_response_error (sent : list u8) : prog nat TransportError.t :=
  '(error, _) ← local (Stream.mk sent [] MAX_FRAME_SIZE) (expect_err read_response);
  mret error.

Definition tcp_server_rejects_unsupported_request_protocol_version : test :=
  participant_id ← draw Kind.Participant;
  server ← noop_server participant_id;
  sent ← frame_of [next_version];
  let '(_, joined) := serve_once server sent [] in
  assert_eq joined [Err TransportError.UnsupportedProtocolVersion].

Definition tcp_transport_rejects_unsupported_response_protocol_version : test :=
  sent ← frame_of [next_version];
  error ← read_response_error sent;
  assert_eq error TransportError.UnsupportedProtocolVersion.

Definition tcp_transport_rejects_invalid_response_error_flag : test :=
  '(_, payload) ← local [] (expect (
    _ ← push PROTOCOL_VERSION;
    _ ← write_string "request-1";
    _ ← push (status_to_u8 ExecutionStatus.Completed);
    push (Ascii.ascii_of_N 2)));
  sent ← frame_of payload;
  error ← read_response_error sent;
  assert_eq error TransportError.MalformedFrame.

Definition tcp_dispatcher_executes_plan_across_multiple_remote_endpoints : test :=
  participant_a ← draw Kind.Participant;
  participant_b ← draw Kind.Participant;
  server_a ← noop_server participant_a;
  server_b ← noop_server participant_b;
  let address_a := "127.0.0.1:40001" in
  let address_b := "127.0.0.1:40002" in
  node ← node_of [(Identity.id participant_a, f64_one); (Identity.id participant_b, f64_one)]
    (RuntimeSpec.new "recording" "1");
  let workload := Workload.mk "tcp-multi-participant" (vec [9; 8; 7]%N) in
  plan ← unwrap (ExecutionPlan.from_node node workload);
  endpoint_a ← unwrap (ExecutionEndpoint.new participant_a address_a);
  endpoint_b ← unwrap (ExecutionEndpoint.new participant_b address_b);
  let dispatcher := ExecutionDispatcher.new TcpTransport.mk [endpoint_a; endpoint_b] in
  let transport := over [(address_a, server_a); (address_b, server_b)] in
  '(receipt, joined) ← local [] (expect (ExecutionDispatcher.dispatch dispatcher plan workload));
  _ ← assert_eq (DispatchReceipt.workload_id receipt) (Workload.id workload);
  _ ← assert_eq (Identity.id (DispatchReceipt.node_id receipt)) (LogicalNode.id node);
  _ ← assert_eq (DispatchReceipt.dispatched_units receipt) 2;
  assert_eq joined [Ok (); Ok ()].

Definition tcp_transport_rejects_unreachable_endpoint : test :=
  request ← request;
  let request := with_unit_and_endpoint (unit_id request)
    (ExecutionEndpoint.mk (ExecutionEndpoint.participant_id (ExecutionRequest.endpoint request))
      "127.0.0.1:1") request in
  '(error, _) ← local [] (expect_err (tcp_dispatch [] request));
  assert_eq error TransportError.NetworkFailure.

Definition all : list test := [
  tcp_transport_executes_through_real_socket;
  tcp_server_shuts_down_cleanly_and_restores_listener_mode None 6;
  tcp_server_handles_concurrent_connections true; tcp_server_handles_concurrent_connections false;
  tcp_transport_rejects_response_id_mismatch;
  tcp_server_rejects_unsupported_request_protocol_version;
  tcp_transport_rejects_unsupported_response_protocol_version;
  tcp_transport_rejects_invalid_response_error_flag;
  tcp_dispatcher_executes_plan_across_multiple_remote_endpoints;
  tcp_transport_rejects_unreachable_endpoint].
End tests.
End TcpTests.

Example transport_tests_pass (debug_str : string → string) :
  Forall (λ t : test, passes t = true) (TransportTests.in_process ++ TcpTests.all debug_str).
Proof. repeat constructor. Qed.
