(* ===== verification/system.v ===== *)
(** * The system, end to end

    A leased machine from its creation on the control plane to the runtimes of its participants:
    what [control.v], [virtual_machine.v], [execution.v] and [distributed.v] show of their parts,
    put together, for any scheduler that keeps its laws and any transport that reaches the
    participants. *)
From S2P Require Import prelude bytes net time float identity uuid_demo resource capability node.
From S2P Require Import fabric participant registry discovery scheduler lease runtime messages.
From S2P Require Import endpoint transport codec codec_laws server execution virtual_machine pool tls.
From S2P Require Import distributed control control_laws control_spec control_steps control_demo.

(** ** A created machine can run *)

Lemma clip_requirement d r : valid_requirement (Plane.clip_lifetime d r) ↔ valid_requirement r.
Proof. unfold Plane.clip_lifetime. by case_match. Qed.

Lemma lease_on_allocation `{UuidLib} nid now expires d n al a :
  a ∈ al → ∃ i, lease_on nid now expires d i a ∈ leases_on nid now expires d n al.
Proof.
  revert n. induction al as [|b al IH]; intros n; [set_solver|]. cbn [leases_on].
  intros [->|Ha]%elem_of_cons; [exists n; by left|].
  destruct (IH (S n) Ha) as [i Hi]. exists i. by right.
Qed.

(** Allocations on which valid leases were made can become units. *)
Lemma leased_executable `{UuidLib} nid now expires d n al :
  Forall valid_lease (leases_on nid now expires d n al) → Forall executable al.
Proof.
  rewrite !Forall_forall. intros Hl a Ha.
  destruct (lease_on_allocation nid now expires d n al a Ha) as [i Hi].
  destruct (Hl _ Hi) as [_ _ [_ Hv] Hr _ _ _]. split; [exact Hv|].
  by apply (clip_requirement d).
Qed.

Section system.
Context {D E : Type} `{Discovery D} `{UuidLib} `{Scheduler (Registry.t * E)}.
Context `{!SchedulerLaws (Registry.t * E)} `{!UuidLaws _}.
Import Plane.
Abbreviation plane := (Plane.t D E).
Implicit Types (self : plane) (q : ResourceFragment.t).

(** A machine the plane just created, and the node it keeps for it. *)
Record created_machine q rt now d self (vm : VirtualMachine.t) ls node self1 : Prop := {
  cm_vm : ∃ n, vm = hosted node now ls n;
  cm_stored : virtual_machines self1 !! Identity.id (VirtualMachine.id vm) = Some vm;
  cm_node : logical_nodes self1 !! LogicalNode.id node = Some node;
  cm_satisfies : CompositeResource.satisfies (LogicalNode.resources node) q = true;
  cm_runtime : LogicalNode.runtime node = rt;
  cm_plannable : plannable node;
  cm_valid : valid_requirement (CompositeResource.capacity (LogicalNode.resources node));
  cm_length : length ls = length (allocations node);
  cm_leases : ls ≠ [] ∧ Forall (λ l, Lease.created_at l = now ∧ Lease.expires_at l = (now + Z.of_N d)%Z) ls;
}.

Lemma create_leased_vm_machine q rt now d self vm ls self1 :
  create_leased_virtual_machine q rt now d self = (Ok (vm, ls), self1) →
  ∃ node, created_machine q rt now d self vm ls node self1.
Proof.
  intros Hc. destruct (create_leased_vm_cases q rt now d self)
    as [(? & ? & ? & ? & _ & _ & Heq)|[(node & node' & ls' & s1 & Hn & Hrt & -> & Heq)
       |(r & ? & Heq & Hr & _)]]; rewrite Heq in Hc; [done| |by simplify_eq].
  destruct (make_leased_vm_cases (LogicalNode.set_runtime rt node) ls' now s1)
    as [(Hne & Hhost & Hm)|(_ & e & Hm)]; rewrite Hm in Hc; [|done]. simplify_eq.
  apply create_leased_node_ok in Hn as [(n & [_ _ Hp _ Hv] & Hls & _ & ->)].
  apply plan_node in Hp as (_ & _ & Hs). destruct Hhost as [_ Hid Hcap _ _].
  exists (LogicalNode.set_runtime rt node).
  assert (length ls = length (allocations node)) as Hlen by (by rewrite Hls, length_leases_on).
  split; simpl; try done.
  - by eexists.
  - apply lookup_insert_eq.
  - apply lookup_insert_eq.
  - split_and!; [done| |by eapply leased_executable|done]. intros Hnil. simpl in Hnil, Hlen.
    rewrite Hnil in Hlen. by destruct ls.
  - split; [done|]. rewrite Hls. apply Forall_forall. intros l (i & a & _ & _ & ->)%leases_on_elem. done.
Qed.

(** The started machine can execute as long as its leases are active. *)
Lemma started_runnable q rt now d self vm ls node self1 k t :
  created_machine q rt now d self vm ls node self1 → Workload.id k ≠ EmptyString →
  (now ≤ t < now + Z.of_N d)%Z →
  runnable node k t (VirtualMachine.set_state VirtualMachineState.Running vm).
Proof.
  intros [[n ->] _ _ _ _ Hp [[Hf _] _] _ [_ Hls]] Hk Ht. split_and!; [done|..]; simpl.
  - eapply Forall_impl; [exact Hls|]. intros l [Hc He]. apply active_at_spec. lia.
  - split_and!; try done. apply fragment_eqb_refl. by destruct (ResourceFragment.cores _).
Qed.

Lemma expired_not_runnable q rt now d self vm ls node self1 k t :
  created_machine q rt now d self vm ls node self1 → (t < now ∨ now + Z.of_N d ≤ t)%Z →
  ¬ runnable node k t (VirtualMachine.set_state VirtualMachineState.Running vm).
Proof.
  intros [[n ->] _ _ _ _ _ _ _ [Hne Hls]] Ht (_ & Ha & _). simpl in Ha.
  destruct ls as [|l ls]; [done|]. apply Forall_cons in Ha as [Ha%active_at_spec _].
  apply Forall_cons in Hls as [[Hc He] _]. lia.
Qed.

Lemma start_nodes id self : logical_nodes (start_virtual_machine id self).2 = logical_nodes self.
Proof.
  unfold start_virtual_machine, with_vm. destruct (_ !! _) as [vm|]; [|done].
  by destruct (VirtualMachine.start vm).
Qed.

(** Executing a machine that is stored with its node. *)
Lemma execute_stored {B W} `{ExecutionBackend B W} t id k (backend : B) self vm node (w : W) :
  virtual_machines self !! Identity.id id = Some vm →
  logical_nodes self !! Identity.id (VirtualMachine.node_id vm) = Some node →
  execute_virtual_machine t id k backend (self, w) =
    let '(r, (vm', w')) := VirtualMachine.execute_at node k backend t (vm, w) in
    (r .map_err ControlError.VirtualMachine,
     (if is_panic r then self
      else set_virtual_machines (insert (Identity.id (VirtualMachine.id vm')) vm') self, w')).
Proof.
  intros Hv Hn. destruct (execute_vm_cases t id k backend self w) as [(vm1 & node1 & Hv1 & Hn1 & Heq)|
    [[Hv1|(vm1 & Hv1 & Hn1)] _]]; rewrite Hv in Hv1; [|done|]; injection Hv1 as <-;
    rewrite Hn in Hn1; [|done]. injection Hn1 as <-.
  by destruct (VirtualMachine.execute_at _ _ _ _ _) as [r [vm' w']].
Qed.

(** Starting a created machine. *)
Lemma start_created q rt now d self vm ls node self1 :
  created_machine q rt now d self vm ls node self1 →
  let running := VirtualMachine.set_state VirtualMachineState.Running vm in
  start_virtual_machine (VirtualMachine.id vm) self1 =
    (Ok running, set_virtual_machines (insert (Identity.id (VirtualMachine.id vm)) running) self1).
Proof.
  intros [[n ->] Hs _ _ _ _ _ _ _]. cbv zeta. unfold start_virtual_machine, with_vm. rewrite Hs.
  rewrite start_spec. by rewrite decide_True.
Qed.

(** C2: a leased machine runs on its participants. Once created, it can be started, and the plane
    keeps a node for it that satisfies the requirement. As long as its leases are active and the
    transport reaches the runtimes of its allocations, executing it runs the workload on every
    share, once, in the order of the threads, and succeeds exactly when all runtimes do, with one
    unit per lease; the machine then goes on running, and is failed when a runtime reported an
    error. Before and after its leases nothing runs. *)
Theorem leased_machine_runs_shares {T W} `{Transport T W} `{CompleteSchedule} q rt now d self vm ls
    self1 (dispatcher : ExecutionDispatcher.t T) k (runtime : string → Runtime.t W) (w : W) :
  create_leased_virtual_machine q rt now d self = (Ok (vm, ls), self1) → Workload.id k ≠ EmptyString →
  let id := VirtualMachine.id vm in
  let running := VirtualMachine.set_state VirtualMachineState.Running vm in
  ∃ node self2, start_virtual_machine id self1 = (Ok running, self2) ∧
    VirtualMachine.node_id vm = Identity.mk (LogicalNode.id node) Kind.LogicalNode ∧
    logical_nodes self2 !! LogicalNode.id node = Some node ∧ plannable node ∧
    LogicalNode.runtime node = rt ∧ CompositeResource.satisfies (LogicalNode.resources node) q = true ∧
    (∀ t, (t < now ∨ now + Z.of_N d ≤ t)%Z →
       (execute_virtual_machine t id k dispatcher (self2, w)).2.2 = w ∧
       is_err (execute_virtual_machine t id k dispatcher (self2, w)).1 = true) ∧
    (∀ t, (now ≤ t < now + Z.of_N d)%Z → Forall (reaches dispatcher node k runtime) (allocations node) →
       let '(outcomes, w') := run_shares node k runtime w in
       let '(r, (self3, w3)) := execute_virtual_machine t id k dispatcher (self2, w) in
       w3 = w' ∧
       (∀ receipt, r = Ok receipt ↔ Forall (eq (Ok ())) outcomes ∧
          receipt = ExecutionReceipt.mk (Workload.id k) (VirtualMachine.node_id vm) (length ls)) ∧
       virtual_machines self3 !! Identity.id id =
         Some (if is_err r then VirtualMachine.set_state VirtualMachineState.Failed vm else running) ∧
       (Forall (λ r, r ≠ Panic) outcomes → r ≠ Panic)).
Proof.
  intros Hc Hk id running. destruct (create_leased_vm_machine _ _ _ _ _ _ _ _ Hc) as [node Hm].
  exists node. eexists. split; [by eapply start_created|]. set (self2 := set_virtual_machines _ _).
  pose proof Hm as [[n Hvm] _ Hn Hs Hrt Hpl _ Hlen _].
  split; [by rewrite Hvm|]. do 4 (split; [done|]).
  assert (virtual_machines self2 !! Identity.id id = Some running) as Hstored by apply lookup_insert_eq.
  assert (logical_nodes self2 !! Identity.id (VirtualMachine.node_id running) = Some node) as Hnode
    by (unfold running; rewrite Hvm; exact Hn).
  pose proof (λ t, execute_stored t id k dispatcher self2 running node w Hstored Hnode) as Hexec.
  split.
  - intros t Ht. rewrite Hexec. destruct (execute_at_cases node k dispatcher t running w)
      as [[Hr _]|(_ & e & -> & _)]; [|done].
    by eapply expired_not_runnable in Hr.
  - intros t Ht Hreach. pose proof (started_runnable _ _ _ _ _ _ _ _ _ k t Hm Hk Ht) as Hrun.
    rewrite Hexec. destruct (execute_at_cases node k dispatcher t running w) as [[_ ->]|[Hr _]]; [|done].
    assert (allocations node ≠ []) as Hne by (destruct Hm as [_ _ _ _ _ (_ & Hne & _) _ _ _]; done).
    pose proof (execute_shares dispatcher node k runtime w Hne Hreach) as Hx.
    destruct (run_shares node k runtime w) as [outcomes w']. cbv zeta in Hx.
    assert (VirtualMachine.node_id vm = Identity.mk (LogicalNode.id node) Kind.LogicalNode) as Hid
      by by rewrite Hvm.
    rewrite Hid, Hlen.
    destruct (backend_execute dispatcher (plan_of node k) k w) as [[receipt|e|] w1]; cbn [fst snd] in Hx;
      destruct Hx as (-> & Hok & Hp); (split; [done|]); cbn [map_err is_err is_panic].
    + split; [|split; [|done]]; [intros receipt'; split|].
      * intros [= <-]. by apply Hok.
      * intros Hr. apply (proj2 (Hok receipt')) in Hr. by injection Hr as ->.
      * simpl. apply lookup_insert_eq.
    + split; [|split; [|done]]; [intros receipt'; split; [done|]|].
      * intros Hr. by apply Hok in Hr.
      * simpl. apply lookup_insert_eq.
    + split; [|split; [|by intros Hf%Hp]]; [intros receipt'; split; [done|]|].
      * intros Hr. by apply Hok in Hr.
      * done.
Qed.
End system.

(** ** The demonstration machine *)

Lemma created_node :
  match Plane.logical_nodes created_plane !! Identity.id (VirtualMachine.node_id created_vm) with
  | Some node => ids_of (allocations node) = [uuid_a; uuid_b]
  | None => False
  end.
Proof. vm_compute. reflexivity. Qed.

Lemma leased_machine_runs_shares_witness :
  let '(r, (_, w)) := Plane.execute_virtual_machine 1100 (VirtualMachine.id created_vm) demo_workload
    demo_local ((Plane.start_virtual_machine (VirtualMachine.id created_vm) created_plane).2, []) in
  is_ok r = true ∧ w = [uuid_a; uuid_b].
Proof.
  destruct (leased_machine_runs_shares demo_large demo_runtime 1000 600 demo_plane created_vm
    created_leases created_plane demo_local demo_workload (λ _, demo_recorder) [] created_eq)
    as (node & self2 & Hstart & Hid & Hn & Hp & Hrt & _ & _ & Hrun); [discriminate|].
  assert (Plane.logical_nodes created_plane !! Identity.id (VirtualMachine.node_id created_vm) = Some node)
    as Hnode.
  { rewrite Hid. cbn [Identity.id]. rewrite <- Hn.
    rewrite <- (start_nodes (VirtualMachine.id created_vm) created_plane), Hstart. reflexivity. }
  pose proof created_node as Hal. rewrite Hnode in Hal.
  rewrite Hstart. cbn [snd].
  assert (Forall (reaches demo_local node demo_workload (λ _, demo_recorder)) (allocations node)) as Hr.
  { apply demo_reaches; [exact Hp|discriminate|exact Hrt|].
    apply Forall_forall. intros a Ha. apply (list_elem_of_fmap_2 Allocation.participant_id) in Ha.
    rewrite Hal in Ha. clear -Ha. set_solver. }
  specialize (Hrun 1100%Z ltac:(clear; lia) Hr).
  assert (run_shares node demo_workload (λ _, demo_recorder) [] = ([Ok (); Ok ()], [uuid_a; uuid_b])) as Hs.
  { destruct node as [i [c [|[p1 q1] [|[p2 q2] [|]]]] rt]; try discriminate Hal.
    injection Hal as -> ->. reflexivity. }
  rewrite Hs in Hrun. destruct (Plane.execute_virtual_machine _ _ _ _ _) as [r [self3 w3]].
  destruct Hrun as (-> & Hok & _). split; [|reflexivity].
  assert (Forall (eq (Ok ())) [Ok (); (Ok () : result RuntimeError.t ())]) as Hall by (repeat constructor).
  rewrite (proj2 (Hok _) (conj Hall eq_refl)). reflexivity.
Defined.
